(* ===== verification/_CoqProject ===== *)
-Q . S2P
Prelude.v
Rounding.v
GoStrings.v
Strconv.v
Models.v
GoTime.v
JsonString.v
Json.v
JsonTheorems.v
FloatText.v
Codec.v
OrderBook.v
BookSpec.v
Refinement.v
BookTheorems.v
Checker.v
Botfleet.v
Generator.v
Stats.v
StatsTheorems.v
Scenarios.v
Validator.v
Gate.v
Contest.v
ContestTheorems.v
Postgres.v
PostgresTheorems.v
Queue.v
Redpanda.v
Submission.v
SubmissionTheorems.v
Disk.v
DiskTheorems.v
Telemetry.v
Consumer.v
ConsumerTheorems.v
Timescale.v
World.v
Logic.v
Executor.v
ExecutorTheorems.v
Scoring.v
Preflight.v
Worker.v
WorkerTheorems.v
ChainTheorems.v
Bytes.v
WebSocket.v
WebSocketTheorems.v
Orchestrator.v
OrchestratorTheorems.v
Leaderboard.v
LeaderboardTheorems.v
Bus.v
Wire.v
Pipeline.v
Api.v
ApiTheorems.v
Metrics.v
Server.v
ServerTheorems.v
Sandbox.v
SandboxTheorems.v
Config.v
Commands.v
Boot.v
