(* ===== verification/Prelude.v ===== *)
(** * NexusBench: a verification development

    NexusBench benchmarks trading engines. A contestant uploads an engine; the
    platform runs it in a sandbox, checks on fixed scenarios that it is a
    correct order book, floods it with orders from a fleet of bots, compares its
    fills with those of a golden order book, and ranks the teams of a contest by
    a weighted score over three volatility profiles. This library models the Go
    code of [src/internal], and what the commands of [src/cmd] add to it, that decide
    these things and proves what makes them correct.

    ** The program and its model

    An upload is checked and stored by the submission service, which queues the
    first job. A worker takes the job, guards against running it twice, and
    calls the executor: deploy a container, wait until it is healthy, run the
    pre-flight gate, run the fleet, score the results, emit telemetry, store the
    results, and queue the next profile or write the final score. The metrics
    consumer turns telemetry into latency windows. The contest service decides
    when uploads are accepted and freezes the leaderboard, which the API computes
    from the stored submissions and streams to its clients over a bus. Workers
    report to the orchestrator's registry, and the server closes contests by the
    clock. Processes meet in JSON: on the jobs and telemetry topics, in metadata
    files, in heartbeats, in the event stream.

    - [Prelude]: results of fallible code, [int64] and [uint64] arithmetic,
      binary64 floats (the executable [SpecFloat]), sorting by a [less]
      function, ranging over maps; hints and tactics.
    - [Rounding]: the error bound of one operation on floats, and the ranks of
      percentiles it leaves exact.
    - [GoStrings], [Strconv], [GoTime], [FloatText]: packages [strings], [strconv] and
      [time] as far as they are used; floats and times have a text that reads back.
    - [JsonString], [Json], [JsonTheorems], [Codec]: package [encoding/json], from UTF-8
      and escapes over printing and parsing, which are inverse and end, to Go values:
      a [codec] with its laws [CodecLaws] for each type, structs as rows of tags.
    - [Models] ([models/models.go]): the shared data.
    - [OrderBook] ([correctness/orderbook.go]): the golden book. Entries are in
      a heap and shared by pointer between the sides and the index, as in the
      code. [BookSpec] is the abstract book: price-time priority over immutable
      orders. [Refinement] is the simulation between the two, [BookTheorems] what
      follows: the fills of the specification and no others, an uncrossed book,
      bounds, conservation, cancels.
    - [Checker] ([correctness/checker.go]): scoring of fills, its counts, its
      independence of order, and what it makes of a perfect engine.
    - [Botfleet] ([botfleet/order.go], [generator.go], [bot.go], [fleet.go]) and
      [Generator]: orders over an abstract random source; bounds, no panic,
      unique ids.
    - [Stats], [StatsTheorems] ([botfleet/stats.go]): nearest ranks and the
      busiest window, total, independent of arrival order.
    - [Scenarios], [Validator], [Gate] ([validator/*.go]): the fixed scenarios,
      their execution against any engine and any schedule of the concurrent
      burst; the gate is exact, passes the golden book and fails closed.
    - [Contest], [ContestTheorems] ([contest/defaults.go], [store.go],
      [service.go]): the service is written against the classes
      [ContestStoreOps] and [ContestStoreLaws], of which the in-memory store is
      one instance; lifecycle, closing, ranking, merging of profiles.
    - [Postgres], [PostgresTheorems] ([contest/postgres.go]): the other instance,
      SQL statements as functions on tables over a database that may fail any of
      them; a contest that was created is read back as it was.
    - [Config] ([config/config.go]): the configuration from the environment, with
      [time.ParseDuration]; a configuration written there is read back, and each
      variable that is unset leaves the default of its own field.
    - [Queue], [Redpanda] ([queue/*.go]): jobs; the channel queue under any
      interleaving; the Redpanda queue from topic creation to closing, and which
      records of the jobs topic a worker is given, loses and gets again.
    - [Submission], [SubmissionTheorems] ([submission/*.go]): uploads with all
      their failures; one submission under way per team, for uploads that come one
      after the other, and the race of two that do not; atomic metadata, with what
      JSON makes of texts that are not UTF-8 ([stored]). [Disk],
      [DiskTheorems]: the tree of directories, which implements the store's map
      whatever fails, and uploads that a crash leaves whole or invisible.
    - [Telemetry] ([telemetry/*.go]) and [Consumer], [ConsumerTheorems]
      ([consumer/*.go]): events, batches and topics; windows, their statistics,
      and which latencies a stored window has: all of its bucket, none twice, when
      events come in order, and those of the first stretch when they do not.
      [Timescale] is the database around the table: its migration is all or nothing.
    - [World]: store, queue, sandbox and the rest of the outside as a state monad
      with a trace of actions; [Env] decides every answer and every failure, as a
      function of the number of actions before it. [Logic]: judgements on traces
      and on effects, with rules for each operation in the hint database [world].
    - [Executor], [ExecutorTheorems], [Scoring], [Preflight]
      ([worker/executor.go]): the run of one job. Containers are always stopped,
      no benchmark without the gate, waiting ends, telemetry is complete, what a
      score means, and what the gate of production does to WebSocket engines.
    - [Worker], [WorkerTheorems], [ChainTheorems] ([worker/worker.go],
      [heartbeat.go]): [processJob] over any executor that keeps
      [ExecutorContract], which the sandbox executor does; commits come last, after
      writes that may have failed,
      what a job leaves behind, and the chain of profiles up to the final score.
    - [Bytes], [WebSocket], [WebSocketTheorems] ([botfleet/websocket.go]): SHA-1,
      base64 and big-endian numbers of the standard library; the handshake, frames
      and control frames over a connection of bytes. Every frame that RFC 6455 lets a
      server send is read, and exactly which others are; writing and reading are
      inverse, reading ends, and what a late reply and an oversized length do to a
      bot.
    - [Orchestrator], [OrchestratorTheorems] ([orchestrator/*.go]): the registry of
      workers refines a record of their last contacts, whatever was asked before,
      silent workers stay listed as dead, and a worker's heartbeat (of [Worker])
      brings it back into any registry.
    - [Leaderboard], [LeaderboardTheorems] ([api/router.go]): the best submission of
      each team, in order.
    - [Bus] ([api/bus.go]): fan-out over channels of four under any interleaving.
    - [Wire]: the tags of every struct that crosses a process boundary or the disk.
      [Pipeline]: components joined by their JSON: the telemetry of a run up to the
      table of windows, jobs over the topic, heartbeats with their URLs, the disk
      store, and the event stream as a client reads it.
    - [Api], [ApiTheorems] ([api/router.go]): routes, handlers, the admin guard, the
      rate limiter, the event stream; they compose the submission and contest
      services, the leaderboard and the bus.
    - [Metrics] ([metrics/metrics.go]): collectors, their series and labels.
    - [Server], [ServerTheorems] ([cmd/server/main.go]): the ticks of the auto-close
      loop, the leaderboard watcher and the queue gauge.
    - [Sandbox], [SandboxTheorems] ([sandbox/docker.go]): the port pool, deployment
      and stop as traces of Docker calls.
    - [Commands] ([cmd/worker/main.go], [cmd/consumer/main.go]): the options of the
      executor and what the worker process makes of them, with the contests it
      never sees; the status its heartbeat reads; the consumer's configuration.
    - [Boot] ([cmd/*/main.go]): the six programs from start to exit code, with what is
      deferred and what a signal stops.

    ** How the code is read

    A Go function that returns an error returns a [result] or an [option]; a
    panic is [None], [Panics] or an error of its own. Structs are records,
    string types stay strings, [time.Time] and [time.Duration] are nanoseconds.
    Machine integers are [Z] with the wrap-around written out where arithmetic
    can reach it. Functions of the operating system, the network, Docker, the
    broker, the database and the clock are arguments, so that theorems hold for
    every behaviour of theirs, or for those that a named hypothesis describes.
    Goroutines are interleavings: of queue operations, of the concurrent burst,
    of the bots' results, of the two halves of an activation. The checks of an upload
    and what follows them, and the two operations of the rate limiter, are steps of
    their own; the theorems on uploads and on the limiter are about requests one after
    the other, with a lemma for the race of two. Log output is left
    out. The slices [ID\[:8\]] and [containerID\[:12\]] are read on ids of at least
    that length, as UUIDs and Docker ids are. Products and sums of floats are
    rounded one by one, as on amd64. The store holds what is read back from the
    metadata, where JSON has replaced what is not UTF-8.

    ** Fuel

    [matchLoop] gets one iteration per resting entry and one more, [advanceLeft]
    one per index between its ends, both proved to be enough; [waitHealthy] gets
    an argument, and [waitHealthy_terminates] gives the number that is enough for
    a timeout and a poll interval (61 for the defaults); [drain] takes the number
    of jobs, and [profile_chain] shows that three are enough; [readFrames] gets one
    frame for each byte that has arrived, and [ws_data_frames] shows that it never
    runs out; [allocateFrom] gets the ports of the range; the JSON parser gets twice the
    length of its input and two, which [json_parser_terminates] shows to be enough.

    ** What is not modelled, and what is next

    Not modelled: broker and client libraries beyond their results, connecting to the
    database and the broker, the parsers of URLs and HTTP, the exposition of metrics,
    log lines, the branches for components that the wiring always supplies (a nil
    registry, bus or contest service of the background loops), the front end. Of JSON:
    the limit of ten thousand levels, and nil slices, which are written [null] where the
    model writes an empty array, and which both decode alike. Next: the server's loops
    composed with the worker's over one store. *)

From Stdlib Require Export ZArith Lia SpecFloat.
From stdpp Require Export base tactics numbers list sorting strings gmap fin_maps pretty.

#[export] Set Default Goal Selector "!".

(** The lemmas that close the side conditions the components share. *)
Create HintDb nexus.

Declare Scope nexus_scope.
Delimit Scope nexus_scope with nexus.
Open Scope Z_scope.
Open Scope nexus_scope.

(** ** Errors *)

(** A Go function returning [(T, error)]: either a value or an error. *)
Inductive result (E A : Type) : Type :=
| Ok (a : A)
| Err (e : E).
Arguments Ok {E A} a.
Arguments Err {E A} e.

#[export] Instance result_eq_dec {E A} `{EqDecision E, EqDecision A} : EqDecision (result E A).
Proof. solve_decision. Defined.

Definition result_bind {E A B} (r : result E A) (k : A → result E B) : result E B :=
  match r with Ok a => k a | Err e => Err e end.

Notation "'let!' x ':=' r 'in' k" := (result_bind r (λ x, k))
  (at level 10, x name, r at level 100, k at level 200) : nexus_scope.

Definition is_ok {E A} (r : result E A) : bool :=
  match r with Ok _ => true | Err _ => false end.

(** ** Machine integers *)

(** Go's [int64] (and [int] on the 64-bit platforms the project targets):
    two's-complement wrap-around. *)
Definition int64_min : Z := - 2 ^ 63.
Definition int64_max : Z := 2 ^ 63 - 1.
Definition is_int64 (z : Z) : Prop := int64_min ≤ z ≤ int64_max.
Definition i64 (z : Z) : Z := (z + 2 ^ 63) mod 2 ^ 64 - 2 ^ 63.

(** Go's [uint64]. *)
Definition is_uint64 (z : Z) : Prop := 0 ≤ z < 2 ^ 64.
Definition u64 (z : Z) : Z := z mod 2 ^ 64.

Lemma i64_id z : is_int64 z → i64 z = z.
Proof.
  unfold is_int64, int64_min, int64_max, i64. intros H.
  rewrite Z.mod_small; lia.
Qed.

Lemma i64_range z : is_int64 (i64 z).
Proof.
  unfold is_int64, int64_min, int64_max, i64.
  pose proof (Z.mod_pos_bound (z + 2 ^ 63) (2 ^ 64)). lia.
Qed.

Lemma u64_id z : is_uint64 z → u64 z = z.
Proof. unfold is_uint64, u64. intros H. by rewrite Z.mod_small. Qed.

(** Side conditions on machine integers. *)
Ltac solve_int64 := unfold is_int64, int64_min, int64_max in *; first [lia | nia].

#[export] Instance is_int64_dec z : Decision (is_int64 z).
Proof. unfold is_int64. apply _. Defined.

(** ** [float64]

    IEEE-754 binary64, computed by the Standard Library's executable
    specification [SpecFloat]: no axiom is involved. *)
Definition float64 : Type := spec_float.

#[export] Instance float64_eq_dec : EqDecision float64.
Proof. intros x y. unfold Decision, float64 in *. repeat decide equality. Defined.

Module F64.
Definition prec : Z := 53.
Definition emax : Z := 1024.
Definition zero : float64 := S754_zero false.
Definition add : float64 → float64 → float64 := SFadd prec emax.
Definition sub : float64 → float64 → float64 := SFsub prec emax.
Definition mul : float64 → float64 → float64 := SFmul prec emax.
Definition div : float64 → float64 → float64 := SFdiv prec emax.
Definition eqb : float64 → float64 → bool := SFeqb.
Definition ltb : float64 → float64 → bool := SFltb.
Definition leb : float64 → float64 → bool := SFleb.
Definition gtb (x y : float64) : bool := ltb y x.
Definition geb (x y : float64) : bool := leb y x.

(** The conversion [float64(n)] of an integer. *)
Definition of_Z (n : Z) : float64 := binary_normalize prec emax n 0 false.

(** The literal [p/q] for [p] and [q] exactly representable: the correctly
    rounded quotient is the double nearest to the decimal literal. *)
Definition lit (p q : Z) : float64 := div (of_Z p) (of_Z q).

Definition one : float64 := of_Z 1.

(** [int(math.Ceil(x))] of a finite [x] (0 for the non-finite ones, where Go
    leaves the conversion implementation-defined). *)
Definition ceil_Z (x : float64) : Z :=
  match x with
  | S754_finite s m e =>
      let v := if s then Z.neg m else Z.pos m in
      if 0 <=? e then v * 2 ^ e else - ((- v) / 2 ^ (- e))
  | _ => 0
  end.
End F64.

(** Exchanging the arguments of a comparison flips its outcome; in particular
    [gtb] is asymmetric and irreflexive, NaN included. *)
Lemma SFcompare_sym x y :
  SFcompare y x = CompOpp <$> SFcompare x y.
Proof.
  destruct x as [sx|sx| |sx mx ex], y as [sy|sy| |sy my ey];
    try (by repeat match goal with b : bool |- _ => destruct b end).
  unfold SFcompare.
  rewrite (Z.compare_antisym ex ey).
  change (PosDef.Pos.compare_cont Eq my mx) with (my ?= mx)%positive.
  change (PosDef.Pos.compare_cont Eq mx my) with (mx ?= my)%positive.
  rewrite (Pos.compare_antisym mx my).
  destruct sx, sy, (ex ?= ey)%Z; simpl; by rewrite ?CompOpp_involutive.
Qed.

Lemma F64_gtb_asym x y : F64.gtb x y = true → F64.gtb y x = false.
Proof.
  unfold F64.gtb, F64.ltb, SFltb. rewrite (SFcompare_sym y x).
  destruct (SFcompare y x) as [[]|]; done.
Qed.

Lemma F64_gtb_irrefl x : F64.gtb x x = false.
Proof. destruct (F64.gtb x x) eqn:E; [|done]. by rewrite (F64_gtb_asym x x) in E. Qed.

(** The order of the floats that are not NaN, as the lexicographic order of
    triples of integers. *)
Definition F64_key (x : float64) : Z * Z * Z :=
  match x with
  | S754_zero _ => (0, 0, 0)
  | S754_infinity s => (if s then -2 else 2, 0, 0)
  | S754_nan => (0, 0, 0)
  | S754_finite s m e => if s then (-1, - e, Z.neg m) else (1, e, Z.pos m)
  end.

Definition key_lt (a b : Z * Z * Z) : Prop :=
  let '(a1, a2, a3) := a in let '(b1, b2, b3) := b in
  a1 < b1 ∨ a1 = b1 ∧ (a2 < b2 ∨ a2 = b2 ∧ a3 < b3).

Lemma F64_ltb_key x y :
  x ≠ S754_nan → y ≠ S754_nan → F64.ltb x y = true ↔ key_lt (F64_key x) (F64_key y).
Proof.
  intros Hx Hy. unfold F64.ltb, SFltb, key_lt, F64_key.
  destruct x as [[]|[]| |[] mx ex], y as [[]|[]| |[] my ey]; try done; simpl;
    try (split; intros; (done || lia));
    change (PosDef.Pos.compare_cont Eq mx my) with (mx ?= my)%positive;
    destruct (Z.compare_spec ex ey); try (split; intros; (done || lia));
    destruct (Pos.compare_spec mx my); simpl; split; intros; done || lia.
Qed.

(** ** Sorting

    [sort.SliceStable] and [sort.Slice] take a [less] function that must be a
    strict weak ordering. The stable sort has one possible result and is a
    function; [sort.Slice] leaves the order of equivalent elements open, so the
    code that calls it is modelled over any implementation of [SortSlice]. *)
Class StrictWeakOrder {A} (less : A → A → bool) : Prop := {
  less_asym x y : less x y = true → less y x = false;
  less_neg_trans x y z : less y x = false → less z y = false → less z x = false
}.

(** The same, for the elements of [l] only: a slice of floats is ordered by [>]
    as long as it holds no NaN. *)
Record swo_on {A} (less : A → A → bool) (l : list A) : Prop := {
  on_asym x y : x ∈ l → y ∈ l → less x y = true → less y x = false;
  on_neg_trans x y z : x ∈ l → y ∈ l → z ∈ l →
    less y x = false → less z y = false → less z x = false
}.

Lemma swo_on_all {A} (less : A → A → bool) `{!StrictWeakOrder less} l : swo_on less l.
Proof. split; intros *; [intros _ _; apply less_asym|intros _ _ _; apply less_neg_trans]. Qed.

Lemma swo_on_sub {A} (less : A → A → bool) l l' : (∀ x, x ∈ l' → x ∈ l) → swo_on less l → swo_on less l'.
Proof. intros Hsub [H1 H2]. split; eauto. Qed.

Section slice_stable.
Context {A : Type} (less : A → A → bool).

(** [x] stands before the elements of [l] in the input: it moves past those
    that are strictly smaller only. *)
Fixpoint insert_stable (x : A) (l : list A) : list A :=
  match l with
  | [] => [x]
  | y :: l' => if less y x then y :: insert_stable x l' else x :: l
  end.

Definition SliceStable (l : list A) : list A := foldr insert_stable [] l.

(** The order of a sorted slice: no element is smaller than one before it. *)
Definition sorted_by : list A → Prop := StronglySorted (λ x y, less y x = false).

Lemma insert_stable_perm x l : insert_stable x l ≡ₚ x :: l.
Proof.
  induction l as [|y l IH]; simpl; [done|].
  destruct (less y x); [|done]. rewrite IH. constructor.
Qed.

Lemma SliceStable_perm l : SliceStable l ≡ₚ l.
Proof.
  induction l as [|x l IH]; simpl; [done|]. by rewrite insert_stable_perm, IH.
Qed.

Lemma SliceStable_elem l x : x ∈ SliceStable l ↔ x ∈ l.
Proof. by rewrite SliceStable_perm. Qed.

Lemma SliceStable_length l : length (SliceStable l) = length l.
Proof. by rewrite SliceStable_perm. Qed.

Lemma insert_stable_sorted_on x l :
  swo_on less (x :: l) → sorted_by l → sorted_by (insert_stable x l).
Proof.
  unfold sorted_by. intros Hon Hl. revert Hon.
  induction Hl as [|y l Hs IH Hall]; intros Hon; simpl; [repeat constructor|].
  assert (Hx : x ∈ x :: y :: l) by (by left). assert (Hy : y ∈ x :: y :: l) by (right; by left).
  destruct (less y x) eqn:Hyx.
  - constructor.
    + apply IH. eapply swo_on_sub; [|exact Hon]. intros z [->|Hz]%elem_of_cons; [by left|].
      right. by right.
    + rewrite insert_stable_perm. constructor; [|done]. by apply (on_asym _ _ Hon).
  - constructor; [by constructor|]. constructor; [done|]. rewrite Forall_forall in *.
    intros z Hz. apply (on_neg_trans _ _ Hon x y z); auto. right. by right.
Qed.

Lemma SliceStable_sorted_on l : swo_on less l → sorted_by (SliceStable l).
Proof.
  induction l as [|x l IH]; intros Hon; simpl; [constructor|]. apply insert_stable_sorted_on.
  - eapply swo_on_sub; [|exact Hon]. intros y [->|Hy]%elem_of_cons; [by left|].
    right. by rewrite SliceStable_perm in Hy.
  - apply IH. eapply swo_on_sub; [|exact Hon]. intros y Hy. by right.
Qed.

Lemma SliceStable_sorted `{!StrictWeakOrder less} l : sorted_by (SliceStable l).
Proof. apply SliceStable_sorted_on, swo_on_all, _. Qed.

Lemma SliceStable_id l : sorted_by l → SliceStable l = l.
Proof.
  induction 1 as [|x l Hs IH Hall]; simpl; [done|]. rewrite IH.
  destruct Hall as [|y l Hy]; simpl; [done|]. by rewrite Hy.
Qed.
End slice_stable.

Lemma insert_stable_map {A B} (f : A → B) (lessA : A → A → bool) (lessB : B → B → bool) x l :
  (∀ a a', lessA a a' = lessB (f a) (f a')) →
  map f (insert_stable lessA x l) = insert_stable lessB (f x) (map f l).
Proof.
  intros Hl. induction l as [|y l IH]; simpl; [done|]. rewrite (Hl y x).
  destruct (lessB (f y) (f x)); simpl; [by rewrite IH|done].
Qed.

Lemma SliceStable_map {A B} (f : A → B) (lessA : A → A → bool) (lessB : B → B → bool) l :
  (∀ a a', lessA a a' = lessB (f a) (f a')) →
  map f (SliceStable lessA l) = SliceStable lessB (map f l).
Proof.
  intros Hl. induction l as [|x l IH]; simpl; [done|].
  by rewrite (insert_stable_map f lessA lessB), IH.
Qed.

Lemma F64_gtb_swo_on {A} (f : A → float64) l :
  Forall (λ x, f x ≠ S754_nan) l → swo_on (λ x y, F64.gtb (f x) (f y)) l.
Proof.
  rewrite Forall_forall. intros Hl. split.
  - intros x y _ _. apply F64_gtb_asym.
  - intros x y z Hx Hy Hz. unfold F64.gtb. rewrite <- !not_true_iff_false.
    rewrite !F64_ltb_key by auto. unfold key_lt.
    destruct (F64_key (f x)) as [[??]?], (F64_key (f y)) as [[??]?], (F64_key (f z)) as [[??]?]. lia.
Qed.

(** What the documentation of [sort.Slice] promises. *)
Class SortSlice : Type := {
  sort_slice {A} : (A → A → bool) → list A → list A;
  sort_slice_perm {A} (less : A → A → bool) l : sort_slice less l ≡ₚ l;
  sort_slice_sorted_on {A} (less : A → A → bool) l :
    swo_on less l → sorted_by less (sort_slice less l)
}.

#[export] Instance SortSlice_stable : SortSlice := {
  sort_slice := @SliceStable;
  sort_slice_perm := @SliceStable_perm;
  sort_slice_sorted_on := @SliceStable_sorted_on
}.

Lemma sort_slice_sorted `{!SortSlice} {A} (less : A → A → bool) l :
  StrictWeakOrder less → sorted_by less (sort_slice less l).
Proof. intros. by apply sort_slice_sorted_on, swo_on_all. Qed.

(** The order of integers, for slices of [int64]. *)
#[export] Instance Zltb_swo : StrictWeakOrder Z.ltb.
Proof. split; intros *; rewrite ?Z.ltb_lt, ?Z.ltb_ge; lia. Qed.

Lemma StronglySorted_impl {A} (R R' : relation A) l :
  (∀ x y, R x y → R' x y) → StronglySorted R l → StronglySorted R' l.
Proof.
  intros HR. induction 1 as [|x l Hs IH Hall]; constructor; [done|].
  eapply Forall_impl; [done|]. auto.
Qed.

Lemma sorted_by_Zltb l : sorted_by Z.ltb l ↔ StronglySorted Z.le l.
Proof.
  unfold sorted_by. split; apply StronglySorted_impl; intros *; by rewrite Z.ltb_ge.
Qed.

(** Sorting integers has one result only. *)
Lemma sort_slice_Z_unique `{SortSlice} l l' :
  StronglySorted Z.le l' → l' ≡ₚ l → sort_slice Z.ltb l = l'.
Proof.
  intros Hs Hp. eapply (StronglySorted_unique Z.le); [|done|].
  - apply sorted_by_Zltb. by apply sort_slice_sorted, _.
  - by rewrite sort_slice_perm.
Qed.

(** ** Ranging over a map

    [for k, v := range m] visits the entries in an unspecified order. *)
Class MapRange : Type := {
  map_range {A} : gmap string A → list (string * A);
  map_range_perm {A} (m : gmap string A) : map_range m ≡ₚ map_to_list m
}.

#[export] Instance MapRange_to_list : MapRange := {
  map_range A m := map_to_list m;
  map_range_perm A m := Permutation_refl _
}.

Lemma elem_of_map_range `{!MapRange} {A} (m : gmap string A) k v :
  (k, v) ∈ map_range m ↔ m !! k = Some v.
Proof. by rewrite map_range_perm, elem_of_map_to_list. Qed.

#[export] Hint Resolve i64_range F64_gtb_irrefl sort_slice_perm sort_slice_sorted map_range_perm
  SliceStable_perm SliceStable_sorted : nexus.

(** ** Strings *)
Lemma string_app_assoc (s t u : string) : (s +:+ t) +:+ u = s +:+ (t +:+ u).
Proof. induction s as [|c s IH]; simpl; [done|]. exact (f_equal (String c) IH). Qed.

(** ** Lists *)
(** [H : x ∈ [a; b; c]]: one case for each element, and the empty rest. *)
Ltac cases_in H := repeat (apply elem_of_cons in H as [->|H]).

(** In a sorted list an earlier element is related to a later one. *)
Lemma sorted_lookup_lt {A} (R : A → A → Prop) l i j x y :
  StronglySorted R l → l !! i = Some x → l !! j = Some y → (i < j)%nat → R x y.
Proof.
  intros Hs. revert i j. induction Hs as [|z l Hs IH Hall]; intros [|i] [|j] Hi Hj Hij;
    simpl in *; try done; try lia.
  - injection Hi as <-. rewrite Forall_forall in Hall. apply Hall. by eapply list_elem_of_lookup_2.
  - eapply IH; [done|done|lia].
Qed.

(** Filters that agree on the elements of a list. *)
Lemma filter_ext_in {A} (P Q : A → Prop) `{!∀ x, Decision (P x), !∀ x, Decision (Q x)} (l : list A) :
  (∀ x, x ∈ l → P x ↔ Q x) → filter P l = filter Q l.
Proof.
  induction l as [|x l IH]; intros HPQ; [done|].
  rewrite !filter_cons, IH by set_solver.
  specialize (HPQ x ltac:(set_solver)). repeat case_decide; tauto.
Qed.

(** In a list whose images are distinct, the image determines the element. *)
Lemma NoDup_image_inj {A B} (f : A → B) (l : list A) x y :
  NoDup (f <$> l) → x ∈ l → y ∈ l → f x = f y → x = y.
Proof.
  intros Hnd Hx Hy He. apply list_elem_of_lookup in Hx as [i Hi], Hy as [j Hj].
  assert (i = j) as ->; [|congruence].
  eapply (NoDup_lookup _ i j (f x) Hnd); rewrite list_lookup_fmap; [by rewrite Hi|].
  rewrite Hj. simpl. by rewrite He.
Qed.
