(* ===== verification/Rounding.v ===== *)
(** * Rounding: what the nearest double is

    [SpecFloat] computes products by shifting the exact product and rounding to nearest,
    ties to even. Here is the bound that follows, in integers, and what it gives for the
    ranks of percentiles. *)

From S2P Require Import Prelude.

(** ** Digits and shifts *)
Lemma digits2_log2 p : Zdigits2 (Z.pos p) = Z.log2 (Z.pos p) + 1.
Proof.
  induction p as [p IH|p IH|]; [..|done].
  - change (Zdigits2 (Z.pos p~1)) with (Z.pos (Pos.succ (digits2_pos p))).
    rewrite Pos2Z.inj_succ. change (Z.pos (digits2_pos p)) with (Zdigits2 (Z.pos p)). rewrite IH.
    rewrite (Pos2Z.inj_xI p), Z.log2_succ_double by done. lia.
  - change (Zdigits2 (Z.pos p~0)) with (Z.pos (Pos.succ (digits2_pos p))).
    rewrite Pos2Z.inj_succ. change (Z.pos (digits2_pos p)) with (Zdigits2 (Z.pos p)). rewrite IH.
    rewrite (Pos2Z.inj_xO p), Z.log2_double by done. lia.
Qed.

Lemma digits2_bounds m d : 0 < m → 0 < d → 2 ^ (d - 1) ≤ m < 2 ^ d → Zdigits2 m = d.
Proof.
  intros Hm Hd Hb. destruct m as [|p|p]; [lia| |lia]. rewrite digits2_log2.
  rewrite (Z.log2_unique (Z.pos p) (d - 1)); [lia|lia|]. by replace (Z.succ (d - 1)) with d by lia.
Qed.

Lemma iter_pos_nat {A} (f : A → A) p x : SpecFloat.iter_pos f p x = Nat.iter (Pos.to_nat p) f x.
Proof.
  revert x. induction p as [p IH|p IH|]; intros x; cbn [SpecFloat.iter_pos]; [..|done]; rewrite !IH.
  - rewrite Pos2Nat.inj_xI. replace (S (2 * Pos.to_nat p))%nat with (Pos.to_nat p + (Pos.to_nat p + 1))%nat by lia.
    by rewrite !Nat.iter_add.
  - rewrite Pos2Nat.inj_xO. replace (2 * Pos.to_nat p)%nat with (Pos.to_nat p + Pos.to_nat p)%nat by lia.
    by rewrite Nat.iter_add.
Qed.

(** What is left of [m] after [S k] single shifts: the quotient, the last bit lost, and
    whether any before it was set. *)
Definition shifted (m : Z) (k : nat) : shr_record :=
  Build_shr_record (m / 2 ^ (Z.of_nat k + 1)) (Z.odd (m / 2 ^ Z.of_nat k)) (negb (m mod 2 ^ Z.of_nat k =? 0)).

Lemma shr_1_spec m r s : 0 ≤ m → shr_1 (Build_shr_record m r s) = Build_shr_record (m / 2) (Z.odd m) (r || s).
Proof.
  intros Hm. rewrite <- Z.div2_div. by destruct m as [|[p|p|]|p].
Qed.

Lemma shifts_spec m k : 0 ≤ m → Nat.iter (S k) shr_1 (Build_shr_record m false false) = shifted m k.
Proof.
  intros Hm. induction k as [|k IH].
  - change (Nat.iter 1 shr_1 (Build_shr_record m false false)) with (shr_1 (Build_shr_record m false false)).
    rewrite shr_1_spec by done. unfold shifted. simpl. by rewrite Z.div_1_r, Z.mod_1_r.
  - change (Nat.iter (S (S k)) shr_1 (Build_shr_record m false false))
      with (shr_1 (Nat.iter (S k) shr_1 (Build_shr_record m false false))). rewrite IH. unfold shifted.
    rewrite shr_1_spec by (apply Z.div_pos; [done|apply Z.pow_pos_nonneg; lia]).
    replace (Z.of_nat (S k)) with (Z.of_nat k + 1) by lia. f_equal.
    + rewrite Z.div_div by (try apply Z.pow_pos_nonneg; lia). rewrite (Z.pow_add_r 2 (Z.of_nat k + 1) 1) by lia. done.
    + rewrite Z.pow_add_r by lia. change (2 ^ 1) with 2. pose proof (Z.pow_pos_nonneg 2 (Z.of_nat k) ltac:(lia) ltac:(lia)).
      rewrite Z.rem_mul_r by lia. rewrite Zmod_odd.
      pose proof (Z.mod_pos_bound m (2 ^ Z.of_nat k) ltac:(lia)).
      destruct (Z.odd _), (Z.eqb_spec (m mod 2 ^ Z.of_nat k) 0) as [He|He]; cbn [orb negb]; symmetry;
        rewrite ?negb_true_iff, ?negb_false_iff, ?Z.eqb_neq, ?Z.eqb_eq; lia.
Qed.

(** Rounding the rest of [s] shifts is off by at most half of the last place. *)
Lemma nearest_spec m k :
  0 ≤ m → let s := Z.of_nat k + 1 in
  let N := round_nearest_even (shr_m (shifted m k)) (loc_of_shr_record (shifted m k)) in
  2 * Z.abs (N * 2 ^ s - m) ≤ 2 ^ s ∧ (N = m / 2 ^ s ∨ N = m / 2 ^ s + 1).
Proof.
  intros Hm s. unfold shifted. fold s. cbn [shr_m].
  pose proof (Z.pow_pos_nonneg 2 (Z.of_nat k) ltac:(lia) ltac:(lia)) as Hp.
  assert (2 ^ s = 2 * 2 ^ Z.of_nat k) as Hs by (unfold s; rewrite Z.pow_add_r by lia; lia).
  pose proof (Z.div_mod m (2 ^ s) ltac:(lia)) as Hdm. pose proof (Z.mod_pos_bound m (2 ^ s) ltac:(lia)) as Hb.
  assert (m mod 2 ^ s = m mod 2 ^ Z.of_nat k + 2 ^ Z.of_nat k * (if Z.odd (m / 2 ^ Z.of_nat k) then 1 else 0)) as Hr.
  { rewrite Hs, Z.mul_comm, Z.rem_mul_r, Zmod_odd by lia. done. }
  pose proof (Z.mod_pos_bound m (2 ^ Z.of_nat k) Hp) as Hb'.
  destruct (Z.odd (m / 2 ^ Z.of_nat k)), (Z.eqb_spec (m mod 2 ^ Z.of_nat k) 0); cbn [negb loc_of_shr_record round_nearest_even].
  - destruct (Z.even _); split; auto; nia.
  - split; auto; nia.
  - split; auto; nia.
  - split; auto; nia.
Qed.

(** ** The nearest double of an exact product *)
Lemma fexp_normal e : emin 53 1024 ≤ e → fexp 53 1024 (53 + e) = e.
Proof. unfold fexp. lia. Qed.

Lemma shr_fexp_none m e :
  2 ^ 52 ≤ m < 2 ^ 53 → emin 53 1024 ≤ e → shr_fexp 53 1024 m e loc_Exact = (Build_shr_record m false false, e).
Proof.
  intros Hm He. unfold shr_fexp. rewrite (digits2_bounds m 53), fexp_normal by lia. by rewrite Z.sub_diag.
Qed.

Lemma shr_fexp_some m e k :
  2 ^ (53 + Z.of_nat k) ≤ m < 2 ^ (54 + Z.of_nat k) → emin 53 1024 ≤ e →
  shr_fexp 53 1024 m e loc_Exact = (shifted m k, e + (Z.of_nat k + 1)).
Proof.
  intros Hm He. pose proof (Z.pow_pos_nonneg 2 (53 + Z.of_nat k) ltac:(lia) ltac:(lia)).
  unfold shr_fexp. rewrite (digits2_bounds m (54 + Z.of_nat k));
    [|lia|lia|by replace (54 + Z.of_nat k - 1) with (53 + Z.of_nat k) by lia].
  replace (54 + Z.of_nat k + e) with (53 + (e + (Z.of_nat k + 1))) by lia. rewrite fexp_normal by lia.
  replace (e + (Z.of_nat k + 1) - e) with (Z.of_nat k + 1) by lia. unfold shr.
  destruct (Z.of_nat k + 1) as [|p|p] eqn:Hp; [lia| |lia]. rewrite iter_pos_nat.
  replace (Pos.to_nat p) with (S k) by lia. cbn [shr_record_of_loc]. by rewrite shifts_spec by lia.
Qed.

(** The double nearest to [m * 2 ^ e], for [m] of more than 53 digits. *)
Lemma round_spec m e k :
  2 ^ (53 + Z.of_nat k) ≤ m < 2 ^ (54 + Z.of_nat k) → emin 53 1024 ≤ e → e + Z.of_nat k + 2 ≤ 971 →
  let s := Z.of_nat k + 1 in
  ∃ N t, binary_round_aux 53 1024 false m e loc_Exact = S754_finite false N (e + t) ∧ (t = s ∨ t = s + 1) ∧
    2 * Z.abs (Z.pos N * 2 ^ t - m) ≤ 2 ^ s.
Proof.
  intros Hm He Hmax s. assert (0 ≤ m) as Hm0 by (pose proof (Z.pow_nonneg 2 (53 + Z.of_nat k)); lia).
  pose proof (nearest_spec m k Hm0) as [Hn Hq]. fold s in Hn, Hq. cbv zeta in *.
  unfold binary_round_aux. rewrite (shr_fexp_some m e k) by done. fold s. cbn [fst snd].
  set (N := round_nearest_even _ _) in *. clearbody N.
  assert (2 ^ 52 ≤ m / 2 ^ s < 2 ^ 53) as Hb.
  { split; [apply Z.div_le_lower_bound|apply Z.div_lt_upper_bound];
      (apply Z.pow_pos_nonneg; lia) || (rewrite <- Z.pow_add_r by lia).
    - replace (s + 52) with (53 + Z.of_nat k) by lia. lia.
    - replace (s + 53) with (54 + Z.of_nat k) by lia. lia. }
  destruct (decide (N = 2 ^ 53)) as [HN|HN].
  - rewrite (shr_fexp_some N (e + s) 0) by (rewrite ?HN; simpl; lia). cbn [shifted shr_m].
    rewrite HN. change (2 ^ 53 / 2 ^ (Z.of_nat 0 + 1)) with 4503599627370496. cbn iota.
    rewrite (proj2 (Z.leb_le _ _)) by lia. exists 4503599627370496%positive, (s + 1). split_and!.
    + f_equal; lia.
    + by right.
    + rewrite HN in Hn. replace (Z.pos 4503599627370496 * 2 ^ (s + 1)) with (2 ^ 53 * 2 ^ s); [done|].
      rewrite Z.pow_add_r by lia. lia.
  - rewrite (shr_fexp_none N (e + s)) by lia. cbn [shr_m]. destruct N as [|N'|N'] eqn:HN'; [lia| |lia].
    rewrite (proj2 (Z.leb_le _ _)) by lia. exists N', s. split_and!; [done|by left|done].
Qed.

(** An integer below [2 ^ 53] is a double: its digits, shifted to the top. *)
Lemma Pos_iter_xO p d : Z.pos (Pos.iter xO p d) = Z.pos p * 2 ^ Z.pos d.
Proof.
  rewrite <- Z.shiftl_mul_pow2 by lia. unfold Z.shiftl. by rewrite <- (Pos.iter_swap_gen _ _ Z.pos xO (Z.mul 2)).
Qed.

Lemma of_Z_spec n d :
  0 < d ≤ 53 → 2 ^ (d - 1) ≤ n < 2 ^ d →
  ∃ M, F64.of_Z n = S754_finite false M (d - 53) ∧ Z.pos M = n * 2 ^ (53 - d).
Proof.
  intros Hd Hn. pose proof (Z.pow_pos_nonneg 2 (d - 1) ltac:(lia) ltac:(lia)).
  destruct n as [|p|p]; [lia| |lia].
  pose proof (digits2_bounds (Z.pos p) d ltac:(lia) ltac:(lia) Hn) as Hdig. simpl in Hdig.
  unfold F64.of_Z, binary_normalize, binary_round, F64.prec, F64.emax. rewrite Hdig, Z.add_0_r.
  replace (fexp 53 1024 d) with (d - 53) by (unfold fexp, emin; lia).
  assert (∃ M, shl_align p 0 (d - 53) = (M, d - 53) ∧ Z.pos M = Z.pos p * 2 ^ (53 - d)) as (M & -> & HM).
  { unfold shl_align. rewrite Z.sub_0_r. destruct (d - 53) as [|q|q] eqn:Hq; [|lia|].
    - exists p. split; [done|]. replace (53 - d) with 0 by lia. lia.
    - eexists. split; [done|]. rewrite Pos_iter_xO. by replace (53 - d) with (Z.pos q) by lia. }
  exists M. split; [|done]. assert (2 ^ 52 ≤ Z.pos M < 2 ^ 53) as Hb.
  { rewrite HM. pose proof (Z.pow_pos_nonneg 2 (53 - d) ltac:(lia) ltac:(lia)).
    assert (2 ^ 52 = 2 ^ (d - 1) * 2 ^ (53 - d)) as -> by (rewrite <- Z.pow_add_r by lia; f_equal; lia).
    assert (2 ^ 53 = 2 ^ d * 2 ^ (53 - d)) as -> by (rewrite <- Z.pow_add_r by lia; f_equal; lia). nia. }
  unfold binary_round_aux. rewrite shr_fexp_none by (unfold emin; lia). cbn [shr_m loc_of_shr_record round_nearest_even].
  rewrite shr_fexp_none by (unfold emin; lia). cbn [shr_m]. by rewrite (proj2 (Z.leb_le _ _)) by lia.
Qed.

(** ** Ranks of percentiles *)
(** The integer at or above a double below [2 ^ 52]. *)
Lemma ceil_Z_spec N E k :
  0 < E → (k - 1) * 2 ^ E < Z.pos N ≤ k * 2 ^ E → F64.ceil_Z (S754_finite false N (- E)) = k.
Proof.
  intros HE HN. unfold F64.ceil_Z. destruct (Z.leb_spec 0 (- E)); [lia|]. rewrite Z.opp_involutive.
  pose proof (Z.pow_pos_nonneg 2 E ltac:(lia) ltac:(lia)).
  assert (- Z.pos N / 2 ^ E = - k) as Hq by (symmetry; apply (Z.div_unique _ _ _ (k * 2 ^ E - Z.pos N)); lia).
  cbv iota. rewrite Hq. lia.
Qed.

(** For the percentages in use, the rank computed in doubles is the exact one. *)
Lemma rank_exact pct n :
  pct ∈ [50; 90; 99] → 1 ≤ n < 2 ^ 40 →
  F64.ceil_Z (F64.mul (F64.lit pct 100) (F64.of_Z n)) = (pct * n + 99) / 100.
Proof.
  intros Hp Hn. assert (∃ p, F64.lit pct 100 = S754_finite false p (-53) ∧ 2 ^ 52 ≤ Z.pos p < 2 ^ 53 ∧
    pct * 2 ^ 53 - 8 ≤ 100 * Z.pos p ≤ pct * 2 ^ 53 + 20) as (p & -> & Hpb & Hpe).
  { rewrite !elem_of_cons, elem_of_nil in Hp. destruct Hp as [->|[->|[->|[]]]]; eexists;
      (split; [vm_compute; reflexivity|]); lia. }
  set (d := Z.log2 n + 1). assert (2 ^ (d - 1) ≤ n < 2 ^ d) as Hd.
  { unfold d. rewrite Z.add_simpl_r. apply Z.log2_spec. lia. }
  assert (1 ≤ d ≤ 40) as Hd40.
  { unfold d. pose proof (Z.log2_nonneg n). assert (Z.log2 n < 40); [|lia]. apply Z.log2_lt_pow2; lia. }
  destruct (of_Z_spec n d ltac:(lia) Hd) as (M & -> & HM). set (D := 2 ^ (53 - d)) in *.
  assert (2 ^ 13 ≤ D) as HD by (apply Z.pow_le_mono_r; lia).
  assert (2 ^ 52 ≤ n * D < 2 ^ 53) as HnD.
  { unfold D. assert (2 ^ 52 = 2 ^ (d - 1) * 2 ^ (53 - d)) as -> by (rewrite <- Z.pow_add_r by lia; f_equal; lia).
    assert (2 ^ 53 = 2 ^ d * 2 ^ (53 - d)) as -> by (rewrite <- Z.pow_add_r by lia; f_equal; lia). nia. }
  unfold F64.mul, SFmul. cbn [xorb]. set (m := Z.pos (p * M)).
  assert (m = Z.pos p * (n * D)) as Hm by (unfold m; by rewrite Pos2Z.inj_mul, HM).
  assert (∃ k : nat, (k = 51 ∨ k = 52)%nat ∧ 2 ^ (53 + Z.of_nat k) ≤ m < 2 ^ (54 + Z.of_nat k)) as (k & Hk & Hmk).
  { destruct (Z.ltb_spec m (2 ^ 105)); [exists 51%nat|exists 52%nat]; (split; [by auto|]); simpl; nia. }
  destruct (round_spec m (-53 + (d - 53)) k Hmk) as (N & t & Hr & Ht & Herr); [unfold emin; lia..|].
  unfold F64.prec, F64.emax. rewrite Hr. clear Hr.
  set (r := (pct * n + 99) / 100).
  assert (100 * (r - 1) + 1 ≤ pct * n ≤ 100 * r) as Hrank.
  { unfold r. pose proof (Z.div_mod (pct * n + 99) 100 ltac:(lia)).
    pose proof (Z.mod_pos_bound (pct * n + 99) 100 ltac:(lia)). lia. }
  replace (-53 + (d - 53) + t) with (- (106 - d - t)) by lia. apply ceil_Z_spec; [lia|].
  assert (2 ^ (106 - d - t) * 2 ^ t = D * 2 ^ 53) as HE.
  { unfold D. rewrite <- !Z.pow_add_r by lia. f_equal. lia. }
  set (G := 2 ^ (106 - d - t)) in *. set (u := 2 ^ t) in *. set (h := 2 ^ (Z.of_nat k + 1)) in *.
  assert (h ≤ u) as Hu by (apply Z.pow_le_mono_r; lia).
  assert (2 ^ 52 ≤ h ≤ 2 ^ 53) as Hh by (unfold h; destruct Hk as [-> | ->]; simpl; lia).
  set (Q := n * D) in *.
  assert (100 * (r * D) - 99 * D ≤ pct * Q ≤ 100 * (r * D)) as HrD.
  { replace (100 * (r * D) - 99 * D) with ((100 * (r - 1) + 1) * D) by lia.
    replace (pct * Q) with (pct * n * D) by (unfold Q; lia). rewrite Z.mul_assoc.
    split; apply Z.mul_le_mono_nonneg_r; lia. }
  assert (pct * 2 ^ 53 * Q - 8 * Q ≤ 100 * m ≤ pct * 2 ^ 53 * Q + 20 * Q) as Hmb.
  { rewrite Hm, Z.mul_assoc, <- Z.mul_sub_distr_r, <- Z.mul_add_distr_r.
    split; apply Z.mul_le_mono_nonneg_r; lia. }
  clearbody Q m. clear Hm Hmk HM Hn Hrank.
  assert (r * G * u = r * D * 2 ^ 53) as HrG by (rewrite <- (Z.mul_assoc r G u), HE; lia).
  assert ((r - 1) * G * u = (r - 1) * D * 2 ^ 53) as HrG' by (rewrite <- (Z.mul_assoc (r - 1) G u), HE; lia).
  split.
  - apply (Z.mul_lt_mono_pos_r u); [lia|]. rewrite HrG'. lia.
  - apply Z.lt_succ_r, (Z.mul_lt_mono_pos_r u); [lia|]. unfold Z.succ. rewrite Z.mul_add_distr_r, HrG. lia.
Qed.
