(* ===== verification/GoStrings.v ===== *)
(** * GoStrings: packages [strings] and [fmt], as far as the program uses them

    [TrimSpace] trims what Unicode calls white space, in UTF-8. [ToLower] is in
    [Submission].
    [quoted] is [%q]: it escapes what Go escapes among the ASCII bytes, and takes
    the other bytes to belong to characters that can be printed. *)

From S2P Require Import Prelude.

Definition HasPrefix (s p : string) : bool := String.prefix p s.

Fixpoint drop_string (n : nat) (s : string) : string :=
  match n, s with
  | S n, String _ s => drop_string n s
  | _, _ => s
  end.

Definition TrimPrefix (s p : string) : string :=
  if HasPrefix s p then drop_string (String.length p) s else s.

Fixpoint Contains (s sub : string) : bool :=
  String.prefix sub s || match s with EmptyString => false | String _ s => Contains s sub end.

(** ** Verbs of [fmt] *)
Definition hexDigit (n : N) : Ascii.ascii := Ascii.ascii_of_N (if (n <? 10)%N then 48 + n else 87 + n)%N.

(** The letter behind the backslash, for the characters that have one. *)
Definition escapeLetter (n : N) : option Ascii.ascii :=
  match n with
  | 7%N => Some (Ascii.ascii_of_N 97) | 8%N => Some (Ascii.ascii_of_N 98) | 12%N => Some (Ascii.ascii_of_N 102)
  | 10%N => Some (Ascii.ascii_of_N 110) | 13%N => Some (Ascii.ascii_of_N 114) | 9%N => Some (Ascii.ascii_of_N 116)
  | 11%N => Some (Ascii.ascii_of_N 118) | 92%N => Some (Ascii.ascii_of_N 92) | 34%N => Some (Ascii.ascii_of_N 34)
  | _ => None
  end.

Definition escape (c : Ascii.ascii) : string :=
  let n := Ascii.N_of_ascii c in
  match escapeLetter n with
  | Some l => "\" +:+ String l ""
  | None =>
      if ((n <? 32) || (n =? 127))%N
      then "\x" +:+ String (hexDigit (n / 16)) (String (hexDigit (n mod 16)) "")
      else String c ""
  end.

Fixpoint escapeAll (s : string) : string :=
  match s with EmptyString => "" | String c s => escape c +:+ escapeAll s end.

(** [%q] of a string, and [%v] of a slice of strings. *)
Definition quoted (s : string) : string :=
  let q := String (Ascii.ascii_of_N 34) "" in q +:+ escapeAll s +:+ q.

Definition slice_text (l : list string) : string := "[" +:+ String.concat " " l +:+ "]".

Example quoted_example :
  quoted ("low" +:+ String (Ascii.ascii_of_N 10) "") =
  let q := String (Ascii.ascii_of_N 34) "" in q +:+ "low\n" +:+ q.
Proof. by vm_compute. Qed.

(** [strings.Split] and [strings.Join] with a separator of one byte. *)
Fixpoint Split (sep : Ascii.ascii) (s : string) : list string :=
  match s with
  | EmptyString => [""]
  | String c s =>
      if bool_decide (c = sep) then "" :: Split sep s
      else match Split sep s with
           | p :: ps => String c p :: ps
           | [] => [String c ""]
           end
  end.

Fixpoint Join (sep : Ascii.ascii) (l : list string) : string :=
  match l with
  | [] => ""
  | [p] => p
  | p :: l => p +:+ String sep (Join sep l)
  end.

Fixpoint has_byte (c : Ascii.ascii) (s : string) : bool :=
  match s with EmptyString => false | String c' s => bool_decide (c' = c) || has_byte c s end.

(** [unicode.IsSpace], of the runes that are one, two and three bytes of UTF-8. *)
Definition is_space (c : Ascii.ascii) : bool :=
  let n := Ascii.N_of_ascii c in ((9 <=? n) && (n <=? 13) || (n =? 32))%N.

Definition is_space2 (c d : Ascii.ascii) : bool :=
  (Ascii.N_of_ascii c =? 194)%N && bool_decide (Ascii.N_of_ascii d ∈ [133; 160]%N).

Definition is_space3 (c d e : Ascii.ascii) : bool :=
  let n := Ascii.N_of_ascii e in
  match Ascii.N_of_ascii c, Ascii.N_of_ascii d with
  | 225%N, 154%N => (n =? 128)%N
  | 226%N, 128%N => (128 <=? n)%N && (n <=? 138)%N || bool_decide (n ∈ [168; 169; 175]%N)
  | 226%N, 129%N => (n =? 159)%N
  | 227%N, 128%N => (n =? 128)%N
  | _, _ => false
  end.

Fixpoint TrimLeft (s : string) : string :=
  match s with
  | EmptyString => EmptyString
  | String c s1 =>
      if is_space c then TrimLeft s1
      else match s1 with
           | EmptyString => s
           | String d s2 =>
               if is_space2 c d then TrimLeft s2
               else match s2 with
                    | EmptyString => s
                    | String e s3 => if is_space3 c d e then TrimLeft s3 else s
                    end
           end
  end.

(** The end of the text goes from where nothing but white space follows. *)
Fixpoint TrimRight (s : string) : string :=
  match s with
  | EmptyString => EmptyString
  | String c rest => if bool_decide (TrimLeft s = "") then EmptyString else String c (TrimRight rest)
  end.

Definition TrimSpace (s : string) : string := TrimRight (TrimLeft s).

Definition isDigit (c : Ascii.ascii) : bool :=
  let n := Ascii.N_of_ascii c in ((48 <=? n) && (n <=? 57))%N.

Definition slash : Ascii.ascii := Ascii.ascii_of_N 47.
Definition comma : Ascii.ascii := Ascii.ascii_of_N 44.

Example strings_examples :
  Split slash "/a//b" = [""; "a"; ""; "b"] ∧ Contains "unsupported language" "supported" = true ∧
  TrimSpace "  two words " = "two words" ∧ TrimPrefix "Bearer key" "Bearer " = "key".
Proof. by vm_compute. Qed.

(** A no-break space, an ideographic space and a line separator are trimmed, the bytes
    of other runes are not. *)
Example TrimSpace_unicode :
  let b (n : Z) := String (Ascii.ascii_of_N (Z.to_N n)) "" in
  TrimSpace (b 194 +:+ b 160 +:+ "a" +:+ b 227 +:+ b 128 +:+ b 128 +:+ " b " +:+ b 226 +:+ b 128 +:+ b 168 +:+ " ") =
    "a" +:+ b 227 +:+ b 128 +:+ b 128 +:+ " b" ∧
  TrimSpace (b 194 +:+ b 160) = "" ∧ TrimSpace (b 195 +:+ b 160) = b 195 +:+ b 160 ∧ TrimSpace (b 160) = b 160.
Proof. by vm_compute. Qed.

(** ** Concatenation *)
Lemma string_cons_app c (a b : string) : String c a +:+ b = String c (a +:+ b).
Proof. done. Qed.

Lemma string_app_nil_r (s : string) : s +:+ "" = s.
Proof. induction s as [|c s IH]; [done|]. by rewrite string_cons_app, IH. Qed.

Lemma length_string_app (a b : string) : String.length (a +:+ b) = (String.length a + String.length b)%nat.
Proof. induction a as [|c a IH]; [done|]. rewrite string_cons_app. simpl. by rewrite IH. Qed.

(** ** Prefixes *)
Lemma prefix_app p s : String.prefix p (p +:+ s) = true.
Proof. induction p as [|c p IH]; simpl; [by destruct s|].
  by destruct (Ascii.ascii_dec c c).
Qed.

Lemma HasPrefix_spec s p : HasPrefix s p = true ↔ ∃ r, s = p +:+ r.
Proof.
  unfold HasPrefix. split; [|intros [r ->]; apply prefix_app].
  revert s. induction p as [|c p IH]; intros s; simpl; [intros _; by exists s|].
  destruct s as [|c' s]; simpl; [by intros|].
  destruct (Ascii.ascii_dec c c') as [->|Hc]; [|by intros].
  intros [r ->]%IH. by exists r.
Qed.

Lemma TrimPrefix_app p r : TrimPrefix (p +:+ r) p = r.
Proof.
  unfold TrimPrefix, HasPrefix. rewrite prefix_app.
  induction p as [|c p IH]; [by destruct r|]. exact IH.
Qed.

(** ** Splitting and joining *)
Lemma Split_not_nil sep s : Split sep s ≠ [].
Proof. destruct s; simpl; [done|]. case_bool_decide; [done|]. by destruct (Split sep s). Qed.

Lemma Join_cons sep p l : l ≠ [] → Join sep (p :: l) = p +:+ String sep (Join sep l).
Proof. by destruct l. Qed.

Lemma Join_Split sep s : Join sep (Split sep s) = s.
Proof.
  induction s as [|c s IH]; [done|]. simpl. case_bool_decide as E.
  - rewrite Join_cons by apply Split_not_nil. rewrite IH, E. done.
  - destruct (Split sep s) as [|p [|q ps]]; simpl in *; by rewrite <- IH.
Qed.

Lemma has_byte_app c s t : has_byte c (s +:+ t) = has_byte c s || has_byte c t.
Proof. induction s as [|c' s IH]; simpl; [done|]. by rewrite IH, orb_assoc. Qed.

Lemma Split_no_sep sep s : has_byte sep s = false → Split sep s = [s].
Proof.
  induction s as [|c s IH]; simpl; [done|]. intros [Hc Hs]%orb_false_iff.
  rewrite Hc, IH by done. done.
Qed.

Lemma Split_app sep p s : has_byte sep p = false → Split sep (p +:+ String sep s) = p :: Split sep s.
Proof.
  induction p as [|c p IH]; simpl; [by rewrite bool_decide_eq_true_2|].
  intros [Hc Hp]%orb_false_iff. rewrite Hc. change (String.append ?a ?b) with (a +:+ b).
  by rewrite IH.
Qed.

Lemma Split_parts sep s : Forall (λ p, has_byte sep p = false) (Split sep s).
Proof.
  induction s as [|c s IH]; simpl; [by repeat constructor|]. case_bool_decide as E; [by constructor|].
  assert (∀ p, has_byte sep p = false → has_byte sep (String c p) = false) as Hcons.
  { intros p Hp. simpl. by rewrite bool_decide_eq_false_2. }
  destruct (Split sep s) as [|p ps]; [by repeat constructor; apply Hcons|].
  apply Forall_cons in IH as [Hp Hps]. constructor; auto.
Qed.

Lemma Split_Join sep l : l ≠ [] → Forall (λ p, has_byte sep p = false) l → Split sep (Join sep l) = l.
Proof.
  intros Hne Hl. induction Hl as [|p l Hp Hl IH]; [done|].
  destruct l as [|q l]; [by apply Split_no_sep|].
  rewrite Join_cons by done. by rewrite Split_app, IH.
Qed.
