(* ===== verification/Strconv.v ===== *)
(** * Strconv: decimal integers ([strconv.ParseInt], [Atoi] and the printing of integers)

    Printing is stdpp's [pretty]; [ParseInt] reads back what it printed. *)

From S2P Require Import Prelude GoStrings.

(** ** Decimal integers *)
Definition digitValue (c : Ascii.ascii) : Z := Z.of_N (Ascii.N_of_ascii c) - 48.

(** The value of the digits after the value [acc] of those before. *)
Fixpoint parseDigits (s : string) (acc : Z) : option Z :=
  match s with
  | EmptyString => Some acc
  | String c s => if isDigit c then parseDigits s (10 * acc + digitValue c) else None
  end.

(** [strconv.ParseInt(s, 10, 64)], which fails outside of [int64]. *)
Definition ParseInt (s : string) : option Z :=
  let '(neg, digits) :=
    match s with
    | String c rest =>
        if bool_decide (Ascii.N_of_ascii c = 45%N) then (true, rest)
        else if bool_decide (Ascii.N_of_ascii c = 43%N) then (false, rest) else (false, s)
    | EmptyString => (false, s)
    end in
  if bool_decide (digits = "") then None
  else match parseDigits digits 0 with
       | Some n => let n := if neg : bool then - n else n in if decide (is_int64 n) then Some n else None
       | None => None
       end.

Example ParseInt_examples :
  ParseInt "20000" = Some 20000 ∧ ParseInt "-7" = Some (-7) ∧ ParseInt "+7" = Some 7 ∧
  ParseInt "9223372036854775808" = None ∧ ParseInt "-9223372036854775808" = Some int64_min ∧
  ParseInt "1_000" = None ∧ ParseInt "-" = None ∧ ParseInt "" = None.
Proof. by vm_compute. Qed.

(** ** Numbers and their decimal texts *)
Lemma digitValue_pretty x : (x < 10)%N →
  isDigit (pretty_N_char x) = true ∧ digitValue (pretty_N_char x) = Z.of_N x.
Proof.
  intros Hx. assert (x = 0 ∨ x = 1 ∨ x = 2 ∨ x = 3 ∨ x = 4 ∨ x = 5 ∨ x = 6 ∨ x = 7 ∨ x = 8 ∨ x = 9)%N
    as Hc by lia. by destruct_or! Hc; subst.
Qed.

Lemma parseDigits_go x s : parseDigits (pretty_N_go x s) 0 = parseDigits s (Z.of_N x).
Proof.
  revert s. induction (N.lt_wf_0 x) as [x _ IH]; intros s.
  destruct (decide (x = 0%N)) as [->|Hx]; [done|].
  assert ((x `mod` 10 < 10)%N ∧ (x `div` 10 < x)%N) as [Hm Hd].
  { split; [by apply N.mod_lt|apply N.div_lt; lia]. }
  rewrite pretty_N_go_step by lia. rewrite IH by done. simpl.
  destruct (digitValue_pretty _ Hm) as [-> ->]. f_equal.
  rewrite N2Z.inj_mod, N2Z.inj_div. rewrite (Z.div_mod (Z.of_N x) 10) at 3 by done. done.
Qed.

Lemma parseDigits_pretty x : parseDigits (pretty x) 0 = Some (Z.of_N x) ∧ pretty x ≠ "".
Proof.
  assert (parseDigits (pretty x) 0 = Some (Z.of_N x)) as Hp.
  { unfold pretty, pretty_N. case_decide as Hx; [by subst|]. by rewrite parseDigits_go. }
  split; [done|]. intros He. rewrite He in Hp. injection Hp as Hx.
  assert (x = 0%N) as -> by lia. done.
Qed.

(** The text of a natural number does not start with a sign. *)
Lemma pretty_head (x : N) c s : pretty x = String c s → isDigit c = true.
Proof.
  intros Hp. destruct (parseDigits_pretty x) as [Hd _]. rewrite Hp in Hd. simpl in Hd.
  by destruct (isDigit c).
Qed.

Definition int64_or_none (n : Z) : option Z := if decide (is_int64 n) then Some n else None.

Lemma ParseInt_nonneg (x : N) : ParseInt (pretty x) = int64_or_none (Z.of_N x).
Proof.
  destruct (parseDigits_pretty x) as [Hd Hne]. unfold ParseInt.
  destruct (pretty x) as [|c s] eqn:Hp; [done|].
  apply pretty_head in Hp. unfold isDigit in Hp.
  rewrite !(bool_decide_eq_false_2 (_ = _ :> N)) by (intros Hc; by rewrite Hc in Hp).
  cbv iota beta. rewrite bool_decide_eq_false_2 by done. by rewrite Hd.
Qed.

Lemma ParseInt_pretty n : ParseInt (pretty n) = int64_or_none n.
Proof.
  destruct n as [|x|x]; [done|by apply (ParseInt_nonneg (N.pos x))|].
  destruct (parseDigits_pretty (N.pos x)) as [Hd Hne].
  change (pretty (Z.neg x)) with (String (Ascii.ascii_of_N 45) (pretty (N.pos x))). unfold ParseInt.
  cbv beta iota. rewrite bool_decide_eq_true_2 by done. cbv beta iota.
  rewrite bool_decide_eq_false_2 by done. by rewrite Hd.
Qed.

Lemma ParseInt_int64 s n : ParseInt s = Some n → is_int64 n.
Proof.
  unfold ParseInt. destruct (match s with String _ _ => _ | _ => _ end) as [neg ds].
  case_bool_decide; [done|]. destruct (parseDigits ds 0); [|done]. case_decide; [|done]. by intros [= <-].
Qed.

