(* ===== verification/Models.v ===== *)
(** * Models: the data of [internal/models/models.go]

    The string types of the source ([SubmissionStatus], [Language], ...) stay
    strings: their values come from JSON, so any string can occur and the
    [default] branches of the code are reachable. [time.Time] is a number of
    nanoseconds since the Unix epoch, [time.Duration] a number of nanoseconds,
    and a [*time.Time] an [option]. *)

From S2P Require Import Prelude.

Abbreviation time := Z (only parsing).
Abbreviation duration := Z (only parsing).

Definition Millisecond : duration := 1000000.
Definition Second : duration := 1000000000.
Definition Minute : duration := 60 * Second.

(** The zero [time.Time]: 1 January of year 1, UTC. *)
Definition zero_time : time := - 62135596800 * Second.

(** [t.Truncate(d)]: rounds down to a multiple of [d] since the zero time. *)
Definition Truncate (t : time) (d : duration) : time :=
  if d <=? 0 then t else t - (t - zero_time) mod d.

(** ** Sentinel errors *)
Inductive models_error :=
| ErrNoActiveContest
| ErrSubmissionInProgress
| ErrContestNotActive.

#[export] Instance models_error_eq_dec : EqDecision models_error.
Proof. solve_decision. Defined.

(** ** Submission lifecycle *)
Definition SubmissionStatus : Type := string.
Definition StatusPending : string := "pending".
Definition StatusBuilding : string := "building".
Definition StatusDeploying : string := "deploying".
Definition StatusRunning : string := "running".
Definition StatusBenchmarking : string := "benchmarking".
Definition StatusCompleted : string := "completed".
Definition StatusFailed : string := "failed".

Definition IsTerminal (s : string) : bool :=
  bool_decide (s = StatusCompleted) || bool_decide (s = StatusFailed).

(** ** Languages and protocols *)
Definition LangGo : string := "go".
Definition LangRust : string := "rust".
Definition LangCpp : string := "cpp".
Definition LangPython : string := "python".
Definition LangBinary : string := "binary".

Definition ProtocolREST : string := "rest".
Definition ProtocolWebSocket : string := "websocket".
Definition ProtocolFIX : string := "fix".

(** ** Contests *)
Definition ContestStatusDraft : string := "draft".
Definition ContestStatusActive : string := "active".
Definition ContestStatusClosed : string := "closed".

Record VolatilityProfile := mkProfile {
  vp_Label : string;
  vp_BotCount : Z;
  vp_TestDuration : duration;
  vp_MarketDataPath : string;
  vp_LimitRatio : float64;
  vp_MarketRatio : float64;
  vp_CancelRatio : float64;
  vp_PriceSpreadCents : Z;
  vp_MaxQuantity : Z;
  vp_TargetP99Ns : Z;
  vp_TargetSustainTPS : float64;
  vp_LatencyWeight : float64;
  vp_ThroughputWeight : float64;
  vp_CorrectnessWeight : float64
}.

(** The zero value [models.VolatilityProfile{}]. *)
Definition zeroProfile : VolatilityProfile :=
  mkProfile "" 0 0 "" F64.zero F64.zero F64.zero 0 0 0 F64.zero F64.zero F64.zero F64.zero.

Record Contest := mkContest {
  c_ID : string;
  c_Name : string;
  c_Status : string;
  c_LowProfile : VolatilityProfile;
  c_MediumProfile : VolatilityProfile;
  c_HighProfile : VolatilityProfile;
  c_LowWeight : float64;
  c_MediumWeight : float64;
  c_HighWeight : float64;
  c_SubmissionsClosedAt : option time;
  c_ContestClosedAt : option time;
  c_EndsAt : option time;
  c_CreatedAt : time;
  c_UpdatedAt : time
}.

Definition ProfileByLabel (c : Contest) (label : string) : VolatilityProfile * bool :=
  if bool_decide (label = "low") then (c_LowProfile c, true)
  else if bool_decide (label = "medium") then (c_MediumProfile c, true)
  else if bool_decide (label = "high") then (c_HighProfile c, true)
  else (zeroProfile, false).

(** ** Results *)
Record BenchmarkResults := mkResults {
  br_VolatilityLabel : string;
  br_P50LatencyMs : float64;
  br_P90LatencyMs : float64;
  br_P99LatencyMs : float64;
  br_MaxTPS : float64;
  br_SustainedTPS : float64;
  br_CorrectnessScore : float64;
  br_TotalOrders : Z;
  br_CorrectFills : Z;
  br_IncorrectFills : Z;
  br_RunScore : float64;
  br_CompositeScore : float64;
  br_BenchmarkDuration : string;
  br_CompletedAt : time
}.

Record DryRunScenarioResult := mkDryRunScenario {
  ds_Name : string;
  ds_Passed : bool;
  ds_Reason : string
}.

Record DryRunResult := mkDryRun {
  dr_AllPassed : bool;
  dr_Scenarios : list DryRunScenarioResult;
  dr_RanAt : time;
  dr_FailSummary : string
}.

(** ** Submissions *)
Record Submission := mkSubmission {
  s_ID : string;
  s_TeamName : string;
  s_Language : string;
  s_Protocol : string;
  s_Status : string;
  s_StatusMsg : string;
  s_ContestID : string;
  s_ArchivePath : string;
  s_ArchiveSize : Z;
  s_ContainerID : string;
  s_ContainerName : string;
  s_ExposedPort : Z;
  s_CreatedAt : time;
  s_UpdatedAt : time;
  s_CompletedAt : option time;
  s_Results : option BenchmarkResults;
  s_AllResults : list BenchmarkResults;
  s_FinalScore : float64;
  s_DryRunResult : option DryRunResult
}.

#[export] Instance profile_eq_dec : EqDecision VolatilityProfile.
Proof. solve_decision. Defined.
#[export] Instance contest_eq_dec : EqDecision Contest.
Proof. solve_decision. Defined.
#[export] Instance results_eq_dec : EqDecision BenchmarkResults.
Proof. solve_decision. Defined.
#[export] Instance dryrun_scenario_eq_dec : EqDecision DryRunScenarioResult.
Proof. solve_decision. Defined.
#[export] Instance dryrun_eq_dec : EqDecision DryRunResult.
Proof. solve_decision. Defined.
#[export] Instance submission_eq_dec : EqDecision Submission.
Proof. solve_decision. Defined.

Definition ResultByLabel (s : Submission) (label : string) : option BenchmarkResults :=
  list_find (λ r, br_VolatilityLabel r = label) (s_AllResults s) ≫= λ '(_, r), Some r.

(** ** Leaderboard *)
Record LeaderboardEntry := mkEntry {
  le_Rank : Z;
  le_SubmissionID : string;
  le_TeamName : string;
  le_Language : string;
  le_Protocol : string;
  le_Status : string;
  le_CompositeScore : float64;
  le_LowScore : float64;
  le_MediumScore : float64;
  le_HighScore : float64;
  le_FinalScore : float64;
  le_BestP99Ms : float64;
  le_PeakSustainedTPS : float64;
  le_AvgCorrectness : float64;
  le_P99LatencyMs : float64;
  le_MaxTPS : float64;
  le_CorrectnessScore : float64;
  le_CompletedAt : option time
}.

#[export] Instance entry_eq_dec : EqDecision LeaderboardEntry.
Proof. solve_decision. Defined.

(** ** Requests *)
Record SubmitRequest := mkSubmitRequest {
  sr_TeamName : string;
  sr_Language : string;
  sr_Protocol : string
}.

(** Field updates: the assignments [sub.F = v] of the code. *)
Definition set_Status (v msg : string) (s : Submission) : Submission :=
  mkSubmission (s_ID s) (s_TeamName s) (s_Language s) (s_Protocol s) v msg
    (s_ContestID s) (s_ArchivePath s) (s_ArchiveSize s) (s_ContainerID s)
    (s_ContainerName s) (s_ExposedPort s) (s_CreatedAt s) (s_UpdatedAt s)
    (s_CompletedAt s) (s_Results s) (s_AllResults s) (s_FinalScore s) (s_DryRunResult s).

Definition set_UpdatedAt (v : time) (s : Submission) : Submission :=
  mkSubmission (s_ID s) (s_TeamName s) (s_Language s) (s_Protocol s) (s_Status s)
    (s_StatusMsg s) (s_ContestID s) (s_ArchivePath s) (s_ArchiveSize s) (s_ContainerID s)
    (s_ContainerName s) (s_ExposedPort s) (s_CreatedAt s) v
    (s_CompletedAt s) (s_Results s) (s_AllResults s) (s_FinalScore s) (s_DryRunResult s).

Definition set_Container (cid name : string) (port : Z) (s : Submission) : Submission :=
  mkSubmission (s_ID s) (s_TeamName s) (s_Language s) (s_Protocol s) (s_Status s)
    (s_StatusMsg s) (s_ContestID s) (s_ArchivePath s) (s_ArchiveSize s) cid
    name port (s_CreatedAt s) (s_UpdatedAt s)
    (s_CompletedAt s) (s_Results s) (s_AllResults s) (s_FinalScore s) (s_DryRunResult s).

Definition set_Completed (v : option time) (r : option BenchmarkResults) (s : Submission)
    : Submission :=
  mkSubmission (s_ID s) (s_TeamName s) (s_Language s) (s_Protocol s) (s_Status s)
    (s_StatusMsg s) (s_ContestID s) (s_ArchivePath s) (s_ArchiveSize s) (s_ContainerID s)
    (s_ContainerName s) (s_ExposedPort s) (s_CreatedAt s) (s_UpdatedAt s)
    v r (s_AllResults s) (s_FinalScore s) (s_DryRunResult s).

Definition set_AllResults (v : list BenchmarkResults) (s : Submission) : Submission :=
  mkSubmission (s_ID s) (s_TeamName s) (s_Language s) (s_Protocol s) (s_Status s)
    (s_StatusMsg s) (s_ContestID s) (s_ArchivePath s) (s_ArchiveSize s) (s_ContainerID s)
    (s_ContainerName s) (s_ExposedPort s) (s_CreatedAt s) (s_UpdatedAt s)
    (s_CompletedAt s) (s_Results s) v (s_FinalScore s) (s_DryRunResult s).

Definition set_FinalScore (v : float64) (s : Submission) : Submission :=
  mkSubmission (s_ID s) (s_TeamName s) (s_Language s) (s_Protocol s) (s_Status s)
    (s_StatusMsg s) (s_ContestID s) (s_ArchivePath s) (s_ArchiveSize s) (s_ContainerID s)
    (s_ContainerName s) (s_ExposedPort s) (s_CreatedAt s) (s_UpdatedAt s)
    (s_CompletedAt s) (s_Results s) (s_AllResults s) v (s_DryRunResult s).

Definition set_DryRunResult (v : option DryRunResult) (s : Submission) : Submission :=
  mkSubmission (s_ID s) (s_TeamName s) (s_Language s) (s_Protocol s) (s_Status s)
    (s_StatusMsg s) (s_ContestID s) (s_ArchivePath s) (s_ArchiveSize s) (s_ContainerID s)
    (s_ContainerName s) (s_ExposedPort s) (s_CreatedAt s) (s_UpdatedAt s)
    (s_CompletedAt s) (s_Results s) (s_AllResults s) (s_FinalScore s) v.

Definition set_ArchivePath (v : string) (s : Submission) : Submission :=
  mkSubmission (s_ID s) (s_TeamName s) (s_Language s) (s_Protocol s) (s_Status s)
    (s_StatusMsg s) (s_ContestID s) v (s_ArchiveSize s) (s_ContainerID s)
    (s_ContainerName s) (s_ExposedPort s) (s_CreatedAt s) (s_UpdatedAt s)
    (s_CompletedAt s) (s_Results s) (s_AllResults s) (s_FinalScore s) (s_DryRunResult s).

Lemma IsTerminal_spec s :
  IsTerminal s = true ↔ s = StatusCompleted ∨ s = StatusFailed.
Proof. unfold IsTerminal. by rewrite orb_true_iff, !bool_decide_eq_true. Qed.
