(* ===== verification/GoTime.v ===== *)
(** * GoTime: package [time], as far as the program uses it

    [Duration.String], and the texts of times in JSON: [MarshalJSON] and
    [UnmarshalJSON] of [time.Time], RFC 3339 with nanoseconds. A time is a number of
    nanoseconds since the Unix epoch; it is printed in UTC, as the program's own times
    are. What is printed is read back as the same time. *)

From S2P Require Import Prelude GoStrings Strconv Models.

#[local] Ltac Zify.zify_post_hook ::= Z.to_euclidean_division_equations.

(** ** Digits *)
Definition digitChar (n : Z) : Ascii.ascii := Ascii.ascii_of_N (Z.to_N (48 + n)).

(** The last [n] decimal digits of [v]. *)
Fixpoint digits (n : nat) (v : Z) : string :=
  match n with O => "" | S n => digits n (v / 10) +:+ String (digitChar (v mod 10)) "" end.

(** Without the zeros at the end. *)
Fixpoint trimZeros (s : string) : string :=
  match s with
  | EmptyString => ""
  | String c s =>
      match trimZeros s with
      | EmptyString => if bool_decide (c = digitChar 0) then "" else String c ""
      | s => String c s
      end
  end.

(** [fmtFrac]: the fraction [v / 10^prec], or nothing. *)
Definition fracText (prec : nat) (v : Z) : string :=
  let t := trimZeros (digits prec v) in if bool_decide (t = "") then "" else "." +:+ t.

(** ** Durations *)
(** [t.Sub(u)] saturates. *)
Definition Sub (t u : time) : duration := Z.max int64_min (Z.min int64_max (t - u)).

Definition Microsecond : duration := 1000.

Definition unitText (u : Z) (prec : nat) (unit : string) : string :=
  pretty (u / 10 ^ Z.of_nat prec) +:+ fracText prec u +:+ unit.

(** [Duration.String]. *)
Definition DurationString (d : duration) : string :=
  let u := Z.abs d in
  let text :=
    if u =? 0 then "0s"
    else if u <? Microsecond then unitText u 0 "ns"
    else if u <? Millisecond then unitText u 3 "µs"
    else if u <? Second then unitText u 6 "ms"
    else
      let secs := u / Second in
      let seconds := pretty (secs mod 60) +:+ fracText 9 u +:+ "s" in
      let minutes := secs / 60 in
      if minutes =? 0 then seconds
      else
        let minuteText := pretty (minutes mod 60) +:+ "m" +:+ seconds in
        if minutes / 60 =? 0 then minuteText else pretty (minutes / 60) +:+ "h" +:+ minuteText in
  if d <? 0 then "-" +:+ text else text.

Example DurationString_examples :
  DurationString (5 * Minute) = "5m0s" ∧ DurationString (1500 * Millisecond) = "1.5s" ∧
  DurationString 1100 = "1.1µs" ∧ DurationString (- 90 * Minute) = "-1h30m0s" ∧
  DurationString 0 = "0s" ∧ DurationString 999 = "999ns" ∧ DurationString 60000000001 = "1m0.000000001s".
Proof. by vm_compute. Qed.

(** ** The calendar *)
Definition isLeap (year : Z) : bool :=
  (year mod 4 =? 0) && (negb (year mod 100 =? 0) || (year mod 400 =? 0)).

(** The days before each month of a year, and those of the month. *)
Definition monthLengths (leap : bool) : list Z :=
  [31; if leap then 29 else 28; 31; 30; 31; 30; 31; 31; 30; 31; 30; 31].

Definition daysIn (leap : bool) (month : Z) : Z := nth (Z.to_nat (month - 1)) (monthLengths leap) 0.

Definition daysBefore (leap : bool) (month : Z) : Z :=
  foldr Z.add 0 (take (Z.to_nat (month - 1)) (monthLengths leap)).

(** The month and the day of a day of the year, counted from 0. *)
Fixpoint findMonth (lengths : list Z) (month yday : Z) : Z * Z :=
  match lengths with
  | [] => (month, yday + 1)
  | n :: lengths => if yday <? n then (month, yday + 1) else findMonth lengths (month + 1) (yday - n)
  end.

(** The year of a day and the day of the year; days are counted from 1 January of
    year 1, by cycles of 400, 100, 4 and 1 years. *)
Definition absYear (days : Z) : Z * Z :=
  let n400 := days / 146097 in
  let d := days - 146097 * n400 in
  let n100 := d / 36524 in
  let n100 := n100 - n100 / 4 in
  let d := d - 36524 * n100 in
  let n4 := d / 1461 in
  let d := d - 1461 * n4 in
  let n1 := d / 365 in
  let n1 := n1 - n1 / 4 in
  (400 * n400 + 100 * n100 + 4 * n4 + n1 + 1, d - 365 * n1).

(** The days from 1 January of year 1 to that of a year. *)
Definition daysToYear (year : Z) : Z :=
  let y := year - 1 in 365 * y + y / 4 - y / 100 + y / 400.

(** The day of the epoch, counted so. *)
Definition epochDay : Z := 719162.

Definition date (days : Z) : Z * Z * Z :=
  let '(year, yday) := absYear (days + epochDay) in
  let '(month, day) := findMonth (monthLengths (isLeap year)) 1 yday in (year, month, day).

Definition daysOf (year month day : Z) : Z :=
  daysToYear year + daysBefore (isLeap year) month + (day - 1) - epochDay.

Example date_examples :
  date 0 = (1970, 1, 1) ∧ date (-1) = (1969, 12, 31) ∧ date 11016 = (2000, 2, 29) ∧
  date 20590 = (2026, 5, 17) ∧ daysOf 2026 5 17 = 20590.
Proof. by vm_compute. Qed.

(** ** RFC 3339 *)
Definition secondsPerDay : Z := 86400.

(** [appendStrictRFC3339]: no text outside of the years 0 to 9999. *)
Definition MarshalTime (t : time) : option string :=
  let secs := t / Second in
  let sod := secs mod secondsPerDay in
  let '(year, month, day) := date (secs / secondsPerDay) in
  if (0 <=? year) && (year <=? 9999) then
    Some (digits 4 year +:+ "-" +:+ digits 2 month +:+ "-" +:+ digits 2 day +:+ "T" +:+
          digits 2 (sod / 3600) +:+ ":" +:+ digits 2 (sod / 60 mod 60) +:+ ":" +:+ digits 2 (sod mod 60) +:+
          fracText 9 (t mod Second) +:+ "Z")
  else None.

(** Exactly [n] digits, and the rest. *)
Fixpoint takeDigits (n : nat) (s : string) (acc : Z) : option (Z * string) :=
  match n with
  | O => Some (acc, s)
  | S n => match s with
           | String c s => if isDigit c then takeDigits n s (10 * acc + digitValue c) else None
           | EmptyString => None
           end
  end.

Definition eat (c : Ascii.ascii) (s : string) : option string :=
  match s with String c' s => if bool_decide (c' = c) then Some s else None | EmptyString => None end.

(** The digits at the front, and the rest. *)
Fixpoint spanDigits (s : string) : string * string :=
  match s with
  | String c s' => if isDigit c then let '(ds, rest) := spanDigits s' in (String c ds, rest) else ("", s)
  | EmptyString => ("", "")
  end.

(** The nanoseconds of a fraction: its first nine digits, with zeros added. *)
Definition nanoseconds (ds : string) : option Z := fst <$> takeDigits 9 (ds +:+ "000000000") 0.

Definition parseFrac (s : string) : option (Z * string) :=
  match eat (Ascii.ascii_of_N 46) s with
  | None => Some (0, s)
  | Some s =>
      let '(ds, rest) := spanDigits s in
      if bool_decide (ds = "") then None else (λ n, (n, rest)) <$> nanoseconds ds
  end.

(** The offset in seconds: [Z], or a sign and hours and minutes. *)
Definition parseZone (s : string) : option Z :=
  match s with
  | String c s =>
      if bool_decide (c = Ascii.ascii_of_N 90) then if bool_decide (s = "") then Some 0 else None
      else
        let sign := if bool_decide (c = Ascii.ascii_of_N 43) then Some 1
                    else if bool_decide (c = Ascii.ascii_of_N 45) then Some (-1) else None in
        sign ← sign;
        '(h, s) ← takeDigits 2 s 0;
        s ← eat (Ascii.ascii_of_N 58) s;
        '(m, s) ← takeDigits 2 s 0;
        if bool_decide (s = "") && (h <? 24) && (m <? 60) then Some (sign * (3600 * h + 60 * m)) else None
  | EmptyString => None
  end.

(** [parseStrictRFC3339]. *)
Definition UnmarshalTime (s : string) : option time :=
  '(year, s) ← takeDigits 4 s 0;
  s ← eat (Ascii.ascii_of_N 45) s;
  '(month, s) ← takeDigits 2 s 0;
  s ← eat (Ascii.ascii_of_N 45) s;
  '(day, s) ← takeDigits 2 s 0;
  s ← eat (Ascii.ascii_of_N 84) s;
  '(hour, s) ← takeDigits 2 s 0;
  s ← eat (Ascii.ascii_of_N 58) s;
  '(minute, s) ← takeDigits 2 s 0;
  s ← eat (Ascii.ascii_of_N 58) s;
  '(second, s) ← takeDigits 2 s 0;
  '(nanos, s) ← parseFrac s;
  zone ← parseZone s;
  if (1 <=? month) && (month <=? 12) && (1 <=? day) && (day <=? daysIn (isLeap year) month) &&
     (hour <? 24) && (minute <? 60) && (second <? 60)
  then Some ((secondsPerDay * daysOf year month day + 3600 * hour + 60 * minute + second - zone) * Second
             + nanos)
  else None.

Example time_examples :
  MarshalTime 1779019200000000123 = Some "2026-05-17T12:00:00.000000123Z" ∧
  UnmarshalTime "2026-05-17T14:00:00.000000123+02:00" = Some 1779019200000000123 ∧
  MarshalTime zero_time = Some "0001-01-01T00:00:00Z" ∧ UnmarshalTime "2026-02-29T00:00:00Z" = None ∧
  MarshalTime 1500000000 = Some "1970-01-01T00:00:01.5Z" ∧ UnmarshalTime "1970-01-01T00:00:01,5Z" = None.
Proof. by vm_compute. Qed.

(** ** Reading back digits *)
Lemma digitChar_spec n : 0 ≤ n < 10 → isDigit (digitChar n) = true ∧ digitValue (digitChar n) = n.
Proof.
  intros Hn. assert (n = 0 ∨ n = 1 ∨ n = 2 ∨ n = 3 ∨ n = 4 ∨ n = 5 ∨ n = 6 ∨ n = 7 ∨ n = 8 ∨ n = 9)
    as Hc by lia. by destruct_or! Hc; subst.
Qed.

Lemma takeDigits_add n m s acc :
  takeDigits (n + m) s acc = '(w, r) ← takeDigits n s acc; takeDigits m r w.
Proof.
  revert s acc. induction n as [|n IH]; intros s acc; simpl; [done|].
  destruct s as [|c s]; [done|]. destruct (isDigit c); [apply IH|done].
Qed.

Lemma takeDigits_digits n v s acc :
  0 ≤ v → takeDigits n (digits n v +:+ s) acc = Some (acc * 10 ^ Z.of_nat n + v mod 10 ^ Z.of_nat n, s).
Proof.
  revert v s. induction n as [|n IH]; intros v s Hv.
  { simpl. rewrite Z.mod_1_r. do 2 f_equal. lia. }
  simpl digits. rewrite string_app_assoc.
  specialize (IH (v / 10) (String (digitChar (v mod 10)) s) ltac:(lia)).
  replace (S n) with (n + 1)%nat by lia.
  change (String (digitChar (v mod 10)) "" +:+ s) with (String (digitChar (v mod 10)) s).
  rewrite takeDigits_add, IH. simpl.
  destruct (digitChar_spec (v mod 10)) as [-> ->]; [lia|]. do 2 f_equal.
  rewrite Nat2Z.inj_add, Z.pow_add_r by lia. change (10 ^ Z.of_nat 1) with 10.
  rewrite (Z.mul_comm (10 ^ Z.of_nat n) 10), Z.rem_mul_r by lia. lia.
Qed.

Lemma takeDigits_range n v s : 0 ≤ v < 10 ^ Z.of_nat n → takeDigits n (digits n v +:+ s) 0 = Some (v, s).
Proof. intros Hv. rewrite takeDigits_digits by lia. by rewrite Z.mod_small. Qed.

(** ** Reading back a fraction *)
Fixpoint zeros (n : nat) : string := match n with O => "" | S n => String (digitChar 0) (zeros n) end.

Fixpoint allDigits (s : string) : bool :=
  match s with EmptyString => true | String c s => isDigit c && allDigits s end.

Lemma zeros_add n m : zeros (n + m) = zeros n +:+ zeros m.
Proof. induction n as [|n IH]; simpl; [done|]. by rewrite IH, string_cons_app. Qed.

Lemma trimZeros_pad s : ∃ k, s = trimZeros s +:+ zeros k.
Proof.
  induction s as [|c s [k IH]]; [by exists 0%nat|]. simpl. destruct (trimZeros s) as [|c' t].
  - case_bool_decide as Hc.
    + exists (S k). by rewrite Hc, IH.
    + exists k. by rewrite IH.
  - exists k. rewrite IH at 1. by rewrite string_cons_app.
Qed.

Lemma allDigits_app a b : allDigits (a +:+ b) = allDigits a && allDigits b.
Proof.
  induction a as [|c a IH]; [done|]. rewrite string_cons_app. simpl. by rewrite IH, andb_assoc.
Qed.

Lemma allDigits_digits n v : allDigits (digits n v) = true.
Proof.
  revert v. induction n as [|n IH]; intros v; [done|]. simpl digits. rewrite allDigits_app, IH. simpl.
  destruct (digitChar_spec (v mod 10)) as [-> _]; [lia|done].
Qed.

Lemma length_digits n v : String.length (digits n v) = n.
Proof.
  revert v. induction n as [|n IH]; intros v; [done|]. simpl digits. rewrite length_string_app, IH. simpl. lia.
Qed.

Lemma spanDigits_app ds rest :
  allDigits ds = true → match rest with String c _ => isDigit c = false | EmptyString => True end →
  spanDigits (ds +:+ rest) = (ds, rest).
Proof.
  intros Hd Hr. induction ds as [|c ds IH].
  - destruct rest as [|c rest]; [done|]. change ("" +:+ String c rest) with (String c rest). simpl. by rewrite Hr.
  - apply andb_prop in Hd as [Hc Hd]. rewrite string_cons_app. simpl. by rewrite Hc, IH.
Qed.

Lemma nanoseconds_trim v : 0 ≤ v < Second → nanoseconds (trimZeros (digits 9 v)) = Some v.
Proof.
  intros Hv. destruct (trimZeros_pad (digits 9 v)) as [k Hk]. unfold nanoseconds.
  assert (String.length (zeros k) = k) as Hz by (clear; induction k; simpl; congruence).
  assert (k ≤ 9)%nat as Hk9.
  { pose proof (f_equal String.length Hk) as Hl. rewrite length_digits, length_string_app in Hl. lia. }
  change "000000000" with (zeros 9). replace 9%nat with (k + (9 - k))%nat at 3 by lia.
  rewrite zeros_add, <- string_app_assoc, <- Hk. by rewrite takeDigits_range.
Qed.

Lemma parseFrac_text v rest :
  0 ≤ v < Second → match rest with String c _ => isDigit c = false ∧ c ≠ Ascii.ascii_of_N 46 | EmptyString => True end →
  parseFrac (fracText 9 v +:+ rest) = Some (v, rest).
Proof.
  intros Hv Hr. unfold fracText. case_bool_decide as Ht.
  - assert (v = 0) as ->.
    { pose proof (nanoseconds_trim v Hv) as Hn. rewrite Ht in Hn. by injection Hn. }
    unfold parseFrac. destruct rest as [|c rest]; [done|]. change ("" +:+ ?x) with x. simpl.
    destruct Hr as [_ Hc]. by rewrite bool_decide_eq_false_2.
  - unfold parseFrac. rewrite string_app_assoc. change ("." +:+ ?x) with (String (Ascii.ascii_of_N 46) x).
    change (eat _ (String _ ?x)) with (Some x). cbv iota beta. rewrite spanDigits_app.
    + rewrite bool_decide_eq_false_2 by done. by rewrite nanoseconds_trim.
    + destruct (trimZeros_pad (digits 9 v)) as [k Hk]. pose proof (allDigits_digits 9 v) as Ha.
      rewrite Hk, allDigits_app in Ha. by apply andb_prop in Ha as [? _].
    + destruct rest; [done|]. by destruct Hr.
Qed.

(** ** Reading back a date *)
Lemma absYear_spec days :
  let '(year, yday) := absYear days in
  daysToYear year + yday = days ∧ 0 ≤ yday < 365 + Z.b2z (isLeap year).
Proof.
  unfold absYear. set (n400 := days / 146097). set (d1 := days - 146097 * n400).
  assert (0 ≤ d1 < 146097) as Hd1 by (subst d1 n400; lia).
  set (n100 := d1 / 36524 - d1 / 36524 / 4). set (d2 := d1 - 36524 * n100).
  assert (0 ≤ n100 ≤ 3 ∧ 0 ≤ d2 ∧ (d2 < 36524 ∨ n100 = 3 ∧ d2 = 36524)) as (Hn100 & Hd2) by (subst d2 n100; lia).
  set (n4 := d2 / 1461). set (d3 := d2 - 1461 * n4).
  assert (0 ≤ n4 ≤ 24 ∧ 0 ≤ d3 < 1461 ∧ (n4 = 24 → n100 ≠ 3 → d3 < 1460)) as (Hn4 & Hd3 & Hd3') by (subst d3 n4; lia).
  set (n1 := d3 / 365 - d3 / 365 / 4).
  assert (0 ≤ n1 ≤ 3 ∧ 0 ≤ d3 - 365 * n1 ∧ (d3 - 365 * n1 < 365 ∨ n1 = 3 ∧ d3 - 365 * n1 = 365 ∧ d3 = 1460))
    as (Hn1 & Hn1' & Hd4) by (subst n1; lia).
  assert (days = 146097 * n400 + 36524 * n100 + 1461 * n4 + d3) as Hdays by (subst d3 d2 d1; lia).
  clearbody n400 n100 n4 n1 d3. clear Hd1 Hd2 d1 d2.
  unfold daysToYear, isLeap. set (y := 400 * n400 + 100 * n100 + 4 * n4 + n1).
  replace (y + 1 - 1) with y by lia.
  assert (y / 4 = 100 * n400 + 25 * n100 + n4 ∧ y / 100 = 4 * n400 + n100 ∧ y / 400 = n400) as (-> & -> & ->)
    by (subst y; lia).
  split; [subst y; lia|]. split; [lia|].
  destruct Hd4 as [?|(-> & He & ->)].
  - destruct (_ && _); simpl; lia.
  - assert ((y + 1) mod 4 = 0) as -> by (subst y; lia). simpl.
    destruct (Z.eqb_spec ((y + 1) mod 100) 0); simpl; [|lia].
    destruct (Z.eqb_spec ((y + 1) mod 400) 0); simpl; [lia|]. exfalso. subst y. lia.
Qed.

Definition month_ok (leap : bool) (yday : Z) : bool :=
  let '(m, d) := findMonth (monthLengths leap) 1 yday in
  (1 <=? m) && (m <=? 12) && (1 <=? d) && (d <=? daysIn leap m) && (d <? 100) &&
  (daysBefore leap m + (d - 1) =? yday).

Lemma month_ok_all leap yday : 0 ≤ yday < 365 + Z.b2z leap → month_ok leap yday = true.
Proof.
  intros Hy. assert (forallb (month_ok leap) (seqZ 0 (365 + Z.b2z leap)) = true) as Hall by (by destruct leap).
  rewrite forallb_forall in Hall. apply Hall. apply list_elem_of_In, elem_of_seqZ. lia.
Qed.

Lemma date_spec days :
  let '(year, month, day) := date days in
  daysOf year month day = days ∧ 1 ≤ month ≤ 12 ∧ 1 ≤ day ≤ daysIn (isLeap year) month ∧ day < 100.
Proof.
  unfold date, daysOf. pose proof (absYear_spec (days + epochDay)) as H. destruct (absYear _) as [year yday].
  destruct H as [Hd Hy]. pose proof (month_ok_all (isLeap year) yday Hy) as Hm. unfold month_ok in Hm.
  destruct (findMonth _ 1 yday) as [month day]. rewrite !andb_true_iff in Hm. lia.
Qed.

Lemma eat_cons c s : eat c (String c s) = Some s.
Proof. simpl. by rewrite bool_decide_eq_true_2. Qed.

Lemma marshal_fields year month day hour minute second nanos :
  0 ≤ year ≤ 9999 → 1 ≤ month ≤ 12 → 1 ≤ day ≤ daysIn (isLeap year) month → day < 100 →
  0 ≤ hour < 24 → 0 ≤ minute < 60 → 0 ≤ second < 60 → 0 ≤ nanos < Second →
  UnmarshalTime (digits 4 year +:+ "-" +:+ digits 2 month +:+ "-" +:+ digits 2 day +:+ "T" +:+
    digits 2 hour +:+ ":" +:+ digits 2 minute +:+ ":" +:+ digits 2 second +:+ fracText 9 nanos +:+ "Z") =
  Some ((secondsPerDay * daysOf year month day + 3600 * hour + 60 * minute + second) * Second + nanos).
Proof.
  intros Hyear Hmonth Hday Hday' Hhour Hminute Hsecond Hnanos. unfold UnmarshalTime.
  do 5 (rewrite takeDigits_range by (simpl; lia); cbn [mbind option_bind];
        rewrite string_cons_app, eat_cons; cbn [mbind option_bind];
        change ("" +:+ ?x) with x).
  rewrite takeDigits_range by (simpl; lia). cbn [mbind option_bind].
  rewrite (parseFrac_text nanos "Z" Hnanos) by done. cbn [mbind option_bind].
  change (parseZone "Z") with (Some 0). cbn [mbind option_bind].
  rewrite !(proj2 (Z.leb_le _ _)) by lia. rewrite !(proj2 (Z.ltb_lt _ _)) by lia. simpl.
  f_equal. lia.
Qed.

(** The years for which a time has a text. *)
Definition in_years (t : time) : Prop :=
  let '(year, _, _) := date (t / Second / secondsPerDay) in 0 ≤ year ≤ 9999.

Lemma MarshalTime_Some t : in_years t → ∃ s, MarshalTime t = Some s ∧ UnmarshalTime s = Some t.
Proof.
  unfold in_years, MarshalTime. pose proof (date_spec (t / Second / secondsPerDay)) as Hd.
  destruct (date _) as [[year month] day]. destruct Hd as (Hdays & Hm & Hday & Hday'). intros Hy.
  rewrite !(proj2 (Z.leb_le _ _)) by lia. cbn [andb]. eexists. split; [reflexivity|].
  assert (0 ≤ t / Second mod secondsPerDay < 86400) as Hsod by (unfold secondsPerDay; lia).
  rewrite marshal_fields; try done; [|unfold Second, secondsPerDay in *; lia..].
  rewrite Hdays. f_equal. unfold Second, secondsPerDay in *. lia.
Qed.

Lemma MarshalTime_None t : ¬ in_years t → MarshalTime t = None.
Proof.
  unfold in_years, MarshalTime. destruct (date _) as [[year month] day]. intros Hy.
  destruct (Z.leb_spec 0 year), (Z.leb_spec year 9999); simpl; [lia|done..].
Qed.

(** The text of a time reads back as that time, to the nanosecond, and it is there
    exactly for the years that RFC 3339 can write. *)
Theorem time_roundtrip t :
  (MarshalTime t ≠ None ↔ in_years t) ∧ ∀ s, MarshalTime t = Some s → UnmarshalTime s = Some t.
Proof.
  assert (in_years t ∨ ¬ in_years t) as [Hy|Hy].
  { unfold in_years. destruct (date _) as [[year ?] ?]. lia. }
  - destruct (MarshalTime_Some t Hy) as (s & Hs & Hu). rewrite Hs. split; [done|]. by intros s' [= <-].
  - rewrite (MarshalTime_None t Hy). done.
Qed.

Lemma year_bounds days year yday :
  daysToYear year + yday = days → 0 ≤ yday < 366 → 0 ≤ days < 3652059 → 0 ≤ year ≤ 9999.
Proof.
  unfold daysToYear. intros Ha Hy Hd.
  assert (∃ z, year = z + 1) as [z ->] by (exists (year - 1); lia). replace (z + 1 - 1) with z in Ha by lia.
  assert (∃ a r, z = 400 * a + r ∧ 0 ≤ r < 400) as (a & r & -> & Hr) by (exists (z / 400), (z mod 400); lia).
  assert ((400 * a + r) / 4 = 100 * a + r / 4 ∧ (400 * a + r) / 100 = 4 * a + r / 100 ∧ (400 * a + r) / 400 = a)
    as (E1 & E2 & E3) by lia.
  rewrite E1, E2, E3 in Ha. clear E1 E2 E3.
  assert (∃ c, c = r / 4 - r / 100 ∧ 0 ≤ c ≤ 96 ∧ (r = 399 → c = 96)) as (c & Hc & Hc1 & Hc2) by (eexists; split; [done|lia]).
  assert (365 * (400 * a + r) + 97 * a + c + yday = days) as Ha' by (rewrite Hc; lia).
  clear Ha Hc. assert (a ≤ -1 ∨ 0 ≤ a ≤ 24 ∨ 25 ≤ a) as [?|[?|?]] by lia; lia.
Qed.

Lemma in_years_between t : zero_time ≤ t < 253402300800 * Second → in_years t.
Proof.
  intros Ht. assert (0 ≤ t / Second / secondsPerDay + epochDay < 3652059) as Hd.
  { unfold zero_time, Second, secondsPerDay, epochDay in *. lia. }
  unfold in_years, date. pose proof (absYear_spec (t / Second / secondsPerDay + epochDay)) as Ha.
  destruct (absYear _) as [year yday]. destruct Ha as [Ha Hy].
  assert (0 ≤ yday < 366) as Hy' by (destruct (isLeap year); simpl in Hy; lia).
  pose proof (year_bounds _ _ _ Ha Hy' Hd). by destruct (findMonth _ _ _).
Qed.
