(* ===== verification/JsonString.v ===== *)
(** * JsonString: JSON string literals ([encoding/json])

    A string is the bytes that Go has. [quoteJSON] writes a literal as [Marshal] does,
    by runes: it escapes the quote, the backslash, control characters, the two line
    separators of Unicode and, unless told otherwise, the characters of HTML tags, and
    replaces what is not UTF-8. [parseString] reads any literal. A text that is UTF-8
    comes back unchanged. *)

From S2P Require Import Prelude GoStrings.

#[local] Ltac Zify.zify_post_hook ::= Z.to_euclidean_division_equations.

Definition chr (n : N) : Ascii.ascii := Ascii.ascii_of_N n.
Definition code (c : Ascii.ascii) : N := Ascii.N_of_ascii c.

Definition dquote : Ascii.ascii := chr 34.

Fixpoint takeString (n : nat) (s : string) : string :=
  match n, s with S n, String c s => String c (takeString n s) | _, _ => "" end.

(** ** UTF-8 *)
Definition between (lo n hi : N) : bool := ((lo <=? n) && (n <=? hi))%N.

(** The number of bytes of the rune at the front; [None] if there is none that is
    valid. *)
Definition runeSize (s : string) : option nat :=
  match s with
  | EmptyString => None
  | String b0 s =>
      let n := code b0 in
      if (n <? 128)%N then Some 1%nat
      else match s with
      | EmptyString => None
      | String b1 s =>
          let n1 := code b1 in
          if between 194 n 223 && between 128 n1 191 then Some 2%nat
          else match s with
          | EmptyString => None
          | String b2 s =>
              let lo := if (n =? 224)%N then 160%N else 128%N in
              let hi := if (n =? 237)%N then 159%N else 191%N in
              if between 224 n 239 && between lo n1 hi && between 128 (code b2) 191 then Some 3%nat
              else match s with
              | EmptyString => None
              | String b3 _ =>
                  let lo := if (n =? 240)%N then 144%N else 128%N in
                  let hi := if (n =? 244)%N then 143%N else 191%N in
                  if between 240 n 244 && between lo n1 hi && between 128 (code b2) 191 &&
                     between 128 (code b3) 191
                  then Some 4%nat else None
              end
          end
      end
  end.

Fixpoint validUTF8 (fuel : nat) (s : string) : bool :=
  match s with
  | EmptyString => true
  | _ =>
      match fuel with
      | O => false
      | S fuel => match runeSize s with Some n => validUTF8 fuel (drop_string n s) | None => false end
      end
  end.

Definition utf8 (s : string) : bool := validUTF8 (String.length s) s.

(** [utf8.AppendRune]; what is not a rune becomes U+FFFD. *)
Definition encodeRune (r : N) : string :=
  let r := if ((1114111 <? r) || between 55296 r 57343)%N then 65533%N else r in
  if (r <? 128)%N then String (chr r) ""
  else if (r <? 2048)%N then String (chr (192 + r / 64)) (String (chr (128 + r mod 64)) "")
  else if (r <? 65536)%N
  then String (chr (224 + r / 4096)) (String (chr (128 + r / 64 mod 64)) (String (chr (128 + r mod 64)) ""))
  else String (chr (240 + r / 262144)) (String (chr (128 + r / 4096 mod 64))
         (String (chr (128 + r / 64 mod 64)) (String (chr (128 + r mod 64)) ""))).

Definition replacement : string := encodeRune 65533.

(** A text as JSON carries it: every byte that begins no rune becomes U+FFFD. *)
Fixpoint asUTF8_go (fuel : nat) (s : string) : string :=
  match fuel, s with
  | O, _ | _, EmptyString => ""
  | S fuel, String _ rest =>
      match runeSize s with
      | None => replacement +:+ asUTF8_go fuel rest
      | Some n => takeString n s +:+ asUTF8_go fuel (drop_string n s)
      end
  end.

Definition asUTF8 (s : string) : string := asUTF8_go (String.length s) s.

(** ** Writing *)
Definition hex4 (n : N) : string :=
  String (hexDigit (n / 4096)) (String (hexDigit (n / 256 mod 16))
    (String (hexDigit (n / 16 mod 16)) (String (hexDigit (n mod 16)) ""))).

Definition backslash (c : N) : string := String (chr 92) (String (chr c) "").
Definition unicodeEscape (n : N) : string := backslash 117 +:+ hex4 n.

(** A character of ASCII. *)
Definition escapeChar (html : bool) (c : Ascii.ascii) : string :=
  let n := code c in
  match n with
  | 34%N => backslash 34
  | 92%N => backslash 92
  | 8%N => backslash 98
  | 12%N => backslash 102
  | 10%N => backslash 110
  | 13%N => backslash 114
  | 9%N => backslash 116
  | _ => if ((n <? 32) || html && ((n =? 60) || (n =? 62) || (n =? 38)))%N then unicodeEscape n
         else String c ""
  end.

Definition lineSeparator : string := encodeRune 8232.
Definition paragraphSeparator : string := encodeRune 8233.

Definition escapeRune (html : bool) (r : string) : string :=
  match r with
  | String c "" => escapeChar html c
  | _ => if bool_decide (r = lineSeparator) then unicodeEscape 8232
         else if bool_decide (r = paragraphSeparator) then unicodeEscape 8233 else r
  end.

Fixpoint quoteBody (html : bool) (fuel : nat) (s : string) : string :=
  match fuel, s with
  | O, _ | _, EmptyString => ""
  | S fuel, String _ rest =>
      match runeSize s with
      | None => unicodeEscape 65533 +:+ quoteBody html fuel rest
      | Some n => escapeRune html (takeString n s) +:+ quoteBody html fuel (drop_string n s)
      end
  end.

Definition quoteJSON (html : bool) (s : string) : string :=
  String dquote (quoteBody html (String.length s) s +:+ String dquote "").

(** ** Reading *)
Definition hexValue (c : Ascii.ascii) : option N :=
  let n := code c in
  if between 48 n 57 then Some (n - 48)%N
  else if between 97 n 102 then Some (n - 87)%N
  else if between 65 n 70 then Some (n - 55)%N else None.

(** Four hexadecimal digits, and the rest. *)
Definition getu4 (s : string) : option (N * string) :=
  match s with
  | String a (String b (String c (String d rest))) =>
      a ← hexValue a; b ← hexValue b; c ← hexValue c; d ← hexValue d;
      Some (4096 * a + 256 * b + 16 * c + d, rest)%N
  | _ => None
  end.

(** The rune of an escape whose first unit is [u]: a surrogate needs a second one. *)
Definition escapedRune (u : N) (rest : string) : N * string :=
  if between 55296 u 57343 then
    match rest with
    | String b (String v rest') =>
        if bool_decide (b = chr 92 ∧ v = chr 117) then
          match getu4 rest' with
          | Some (u2, rest'') =>
              if between 55296 u 56319 && between 56320 u2 57343
              then (65536 + 1024 * (u - 55296) + (u2 - 56320), rest'')%N else (65533%N, rest)
          | None => (65533%N, rest)
          end
        else (65533%N, rest)
    | _ => (65533%N, rest)
    end
  else (u, rest).

(** What stands behind a backslash. *)
Definition parseEscape (s : string) : option (string * string) :=
  match s with
  | EmptyString => None
  | String e rest =>
      let plain n := Some (String (chr n) "", rest) in
      match code e with
      | 34%N => plain 34%N
      | 92%N => plain 92%N
      | 47%N => plain 47%N
      | 98%N => plain 8%N
      | 102%N => plain 12%N
      | 110%N => plain 10%N
      | 114%N => plain 13%N
      | 116%N => plain 9%N
      | 117%N => '(u, rest) ← getu4 rest; let '(r, rest) := escapedRune u rest in Some (encodeRune r, rest)
      | _ => None
      end
  end.

(** One piece of a literal, the text it stands for, and the rest. *)
Definition parsePiece (s : string) : option (string * string) :=
  match s with
  | EmptyString => None
  | String c rest =>
      if bool_decide (c = chr 92) then parseEscape rest
      else if (code c <? 32)%N then None
      else match runeSize s with
           | None => Some (replacement, rest)
           | Some n => Some (takeString n s, drop_string n s)
           end
  end.

(** Behind the opening quote: the text, and what follows the closing quote. *)
Fixpoint parseBody (fuel : nat) (s : string) : option (string * string) :=
  match fuel, s with
  | S fuel, String c rest =>
      if bool_decide (c = dquote) then Some ("", rest)
      else
        '(piece, rest) ← parsePiece s;
        '(text, rest) ← parseBody fuel rest;
        Some (piece +:+ text, rest)
  | _, _ => None
  end.

Definition parseString (s : string) : option (string * string) := parseBody (S (String.length s)) s.

Example quote_examples :
  quoteJSON true ("a" +:+ String dquote "<b>" +:+ String (chr 10) "é") =
    String dquote ("a" +:+ backslash 34 +:+ unicodeEscape 60 +:+ "b" +:+ unicodeEscape 62 +:+ backslash 110 +:+
      "é" +:+ String dquote "") ∧
  quoteJSON true (String (chr 255) "") = String dquote (unicodeEscape 65533 +:+ String dquote "") ∧
  parseString ("\ud83d\ude00" +:+ String dquote "x") = Some ("😀", "x") ∧
  utf8 "é😀" = true ∧ utf8 (String (chr 200) "a") = false.
Proof. by vm_compute. Qed.

(** ** Runes *)
Lemma take_drop_string n s : takeString n s +:+ drop_string n s = s.
Proof.
  revert s. induction n as [|n IH]; intros [|c s]; simpl; try done.
  change (String c (takeString n s) +:+ drop_string n s) with (String c (takeString n s +:+ drop_string n s)).
  by rewrite IH.
Qed.

(** The shape of the rune at the front; what follows it does not matter. *)
Inductive rune : string → Prop :=
| rune1 c : (code c < 128)%N → rune (String c "")
| rune_more c s : (128 ≤ code c)%N → s ≠ "" → rune (String c s).

Lemma runeSize_spec s n :
  runeSize s = Some n →
  rune (takeString n s) ∧
  ∀ t, runeSize (takeString n s +:+ t) = Some n ∧ takeString n (takeString n s +:+ t) = takeString n s ∧
       drop_string n (takeString n s +:+ t) = t.
Proof.
  destruct s as [|b0 s]; [done|]. unfold runeSize at 1. destruct (N.ltb_spec (code b0) 128) as [H0|H0].
  { intros [= <-]. split; [by constructor|]. intros t. simpl. by rewrite (proj2 (N.ltb_lt _ _) H0). }
  assert (((code b0 <? 128) = false)%N) as H0' by (by apply N.ltb_ge).
  destruct s as [|b1 s]; [done|]. destruct (_ && _) eqn:E2.
  { intros [= <-]. split; [by constructor|]. intros t. simpl. rewrite H0', E2. done. }
  destruct s as [|b2 s]; [done|]. destruct (_ && _ && _) eqn:E3.
  { intros [= <-]. split; [by constructor|]. intros t. simpl. rewrite H0', E2, E3. done. }
  destruct s as [|b3 s]; [done|]. destruct (_ && _ && _ && _) eqn:E4; [|done].
  intros [= <-]. split; [by constructor|]. intros t. simpl. rewrite H0', E2, E3, E4. done.
Qed.

(** ** Reading back a literal *)
Lemma hex_digit_value n : (n < 16)%N → hexValue (hexDigit n) = Some n.
Proof.
  intros Hn. assert (forallb (λ n, bool_decide (hexValue (hexDigit (Z.to_N n)) = Some (Z.to_N n))) (seqZ 0 16) = true)
    as Hall by (by vm_compute).
  rewrite forallb_forall in Hall. specialize (Hall (Z.of_N n)). rewrite N2Z.id in Hall.
  apply (bool_decide_eq_true_1 _), Hall, list_elem_of_In, elem_of_seqZ. lia.
Qed.

Lemma getu4_hex4 n rest : (n < 65536)%N → getu4 (hex4 n +:+ rest) = Some (n, rest).
Proof.
  intros Hn. unfold hex4.
  change (getu4 (String ?a (String ?b (String ?c (String ?d ""))) +:+ ?r)) with
    (x ← hexValue a; y ← hexValue b; z ← hexValue c; w ← hexValue d;
     Some (4096 * x + 256 * y + 16 * z + w, r)%N).
  rewrite !hex_digit_value by lia. cbn [mbind option_bind]. do 2 f_equal. lia.
Qed.

Lemma parse_unicodeEscape n rest :
  (n < 65536)%N → between 55296 n 57343 = false →
  parseEscape (String (chr 117) (hex4 n +:+ rest)) = Some (encodeRune n, rest).
Proof.
  intros Hn Hs. unfold parseEscape. change (code (chr 117)) with 117%N. cbv iota beta.
  rewrite getu4_hex4 by lia. cbn [mbind option_bind]. unfold escapedRune. by rewrite Hs.
Qed.

Lemma unicodeEscape_piece u rest :
  (u < 65536)%N → between 55296 u 57343 = false →
  parsePiece (unicodeEscape u +:+ rest) = Some (encodeRune u, rest) ∧
  ∃ c' s, unicodeEscape u +:+ rest = String c' s ∧ c' ≠ dquote.
Proof.
  intros Hu Hs. unfold unicodeEscape, backslash. rewrite string_app_assoc.
  change (String (chr 92) (String (chr 117) "") +:+ ?x) with (String (chr 92) (String (chr 117) x)).
  split; [|by do 2 eexists]. unfold parsePiece. rewrite bool_decide_eq_true_2 by done.
  by apply parse_unicodeEscape.
Qed.

Lemma chr_code c : chr (code c) = c.
Proof. apply Ascii.ascii_N_embedding. Qed.

Lemma escapeChar_piece html c rest :
  (code c < 128)%N → parsePiece (escapeChar html c +:+ rest) = Some (String c "", rest) ∧
  ∃ c' s, escapeChar html c +:+ rest = String c' s ∧ c' ≠ dquote.
Proof.
  intros Hc. destruct c as [b0 b1 b2 b3 b4 b5 b6 []]; [exfalso; by destruct b0, b1, b2, b3, b4, b5, b6|].
  destruct html, b0, b1, b2, b3, b4, b5, b6;
    (split; [reflexivity|do 2 eexists; split; [reflexivity|discriminate]]).
Qed.

Lemma escapeRune_piece html n r rest :
  rune r →
  (∀ t, runeSize (r +:+ t) = Some n ∧ takeString n (r +:+ t) = r ∧ drop_string n (r +:+ t) = t) →
  parsePiece (escapeRune html r +:+ rest) = Some (r, rest) ∧
  ∃ c' s, escapeRune html r +:+ rest = String c' s ∧ c' ≠ dquote.
Proof.
  intros [c Hc|c s Hc Hs] Hn; [by apply escapeChar_piece|].
  unfold escapeRune. destruct s as [|c1 s]; [done|].
  assert (Hu : ∀ u, (u < 65536)%N → between 55296 u 57343 = false → encodeRune u = String c (String c1 s) →
    parsePiece (unicodeEscape u +:+ rest) = Some (String c (String c1 s), rest) ∧
    ∃ c' s, unicodeEscape u +:+ rest = String c' s ∧ c' ≠ dquote).
  { intros u Hu Hb <-. by apply unicodeEscape_piece. }
  repeat case_bool_decide; [by apply Hu..|].
  destruct (Hn rest) as (H1 & H2 & H3).
  change (String c (String c1 s) +:+ rest) with (String c (String c1 s +:+ rest)) in *.
  split; [|do 2 eexists; split; [done|]; intros ->; by vm_compute in Hc].
  unfold parsePiece. rewrite bool_decide_eq_false_2 by (intros ->; by vm_compute in Hc).
  rewrite (proj2 (N.ltb_ge _ _)) by lia. by rewrite H1, H2, H3.
Qed.

Lemma escapeRune_nonempty html r : rune r → escapeRune html r ≠ "".
Proof.
  intros [c Hc|c s Hc Hs]; unfold escapeRune.
  - destruct (escapeChar_piece html c "" Hc) as [_ (c' & s & He & _)]. intros E. by rewrite E in He.
  - destruct s; [done|]. by repeat case_bool_decide.
Qed.

Lemma parseBody_quote html n s rest fuel :
  (String.length (quoteBody html n s) < fuel)%nat →
  parseBody fuel (quoteBody html n s +:+ String dquote rest) = Some (asUTF8_go n s, rest).
Proof.
  revert s fuel. induction n as [|n IH]; intros s fuel Hf.
  { destruct fuel as [|fuel]; [simpl in Hf; lia|]. by destruct s. }
  destruct s as [|c s]; [destruct fuel as [|fuel]; [simpl in Hf; lia|done]|].
  cbn [quoteBody asUTF8_go] in *.
  assert (∃ esc piece tail, parsePiece (esc +:+ (quoteBody html n tail +:+ String dquote rest)) =
      Some (piece, quoteBody html n tail +:+ String dquote rest) ∧
    (∃ c' s', esc +:+ (quoteBody html n tail +:+ String dquote rest) = String c' s' ∧ c' ≠ dquote) ∧ esc ≠ "" ∧
    match runeSize (String c s) with
    | None => unicodeEscape 65533 +:+ quoteBody html n s
    | Some k => escapeRune html (takeString k (String c s)) +:+ quoteBody html n (drop_string k (String c s))
    end = esc +:+ quoteBody html n tail ∧
    match runeSize (String c s) with
    | None => replacement +:+ asUTF8_go n s
    | Some k => takeString k (String c s) +:+ asUTF8_go n (drop_string k (String c s))
    end = piece +:+ asUTF8_go n tail) as (esc & piece & tail & Hp & (c' & s' & Hs' & Hc') & Hne & Hq & ->).
  { destruct (runeSize (String c s)) as [k|] eqn:Hk.
    - destruct (runeSize_spec _ k Hk) as [Hr Hn].
      destruct (escapeRune_piece html k _ (quoteBody html n (drop_string k (String c s)) +:+ String dquote rest) Hr Hn)
        as [Hp Hc']. do 3 eexists. split; [exact Hp|]. split; [exact Hc'|].
      split; [by apply escapeRune_nonempty|done].
    - destruct (unicodeEscape_piece 65533 (quoteBody html n s +:+ String dquote rest) eq_refl eq_refl) as [Hp Hc'].
      do 3 eexists. split; [exact Hp|]. by split. }
  rewrite Hq in *. clear Hq. rewrite length_string_app in Hf.
  assert (0 < String.length esc)%nat as Hpos by (destruct esc; [done|simpl; lia]).
  destruct fuel as [|fuel]; [lia|]. rewrite string_app_assoc.
  cbn [parseBody]. rewrite Hs'. rewrite bool_decide_eq_false_2 by done. rewrite <- Hs', Hp. cbn [mbind option_bind].
  rewrite IH by lia. done.
Qed.

(** A literal followed by anything reads back as the text it was written for, as far as
    that is UTF-8. *)
Lemma parseString_quoted html s rest :
  ∃ body, quoteJSON html s +:+ rest = String dquote body ∧ parseString body = Some (asUTF8 s, rest).
Proof.
  unfold quoteJSON. eexists. split.
  { change (String dquote ?x +:+ rest) with (String dquote (x +:+ rest)). rewrite string_app_assoc. done. }
  unfold parseString. change (String dquote "" +:+ rest) with (String dquote rest). apply parseBody_quote.
  rewrite length_string_app. lia.
Qed.

(** ** Texts as JSON carries them *)
Lemma asUTF8_go_id n s : validUTF8 n s = true → asUTF8_go n s = s.
Proof.
  revert s. induction n as [|n IH]; intros [|c s]; try done. cbn [validUTF8 asUTF8_go].
  destruct (runeSize (String c s)) as [k|]; [|done]. intros Hv. by rewrite IH, take_drop_string.
Qed.

Lemma asUTF8_id s : utf8 s = true → asUTF8 s = s.
Proof. apply asUTF8_go_id. Qed.

Lemma validUTF8_more n m s : validUTF8 n s = true → (n ≤ m)%nat → validUTF8 m s = true.
Proof.
  revert m s. induction n as [|n IH]; intros m [|c s] Hv Hm; try by destruct m.
  destruct m as [|m]; [lia|]. cbn [validUTF8] in *. destruct (runeSize (String c s)) as [k|]; [|done].
  apply IH; [done|lia].
Qed.

Lemma utf8_rune s n t : runeSize s = Some n → utf8 t = true → utf8 (takeString n s +:+ t) = true.
Proof.
  intros Hn Ht. destruct (runeSize_spec s n Hn) as [Hr Hs]. destruct (Hs t) as (H1 & _ & H3). unfold utf8.
  destruct (takeString n s) as [|c r]; [by inversion Hr|]. rewrite string_cons_app in *.
  cbn [String.length validUTF8]. rewrite H1, H3. eapply validUTF8_more; [exact Ht|].
  rewrite length_string_app. lia.
Qed.

Lemma asUTF8_utf8 s : utf8 (asUTF8 s) = true.
Proof.
  unfold asUTF8. generalize (String.length s). intros n. revert s.
  induction n as [|n IH]; intros [|c s]; try done. cbn [asUTF8_go].
  destruct (runeSize (String c s)) as [k|] eqn:Hk; [by apply utf8_rune|].
  apply (utf8_rune replacement 3); [done|apply IH].
Qed.

Lemma asUTF8_idemp s : asUTF8 (asUTF8 s) = asUTF8 s.
Proof. apply asUTF8_id, asUTF8_utf8. Qed.

Lemma asUTF8_empty s : asUTF8 s = "" ↔ s = "".
Proof.
  split; [|by intros ->]. unfold asUTF8. destruct s as [|c s]; [done|]. cbn [String.length asUTF8_go].
  destruct (runeSize (String c s)) as [k|] eqn:Hk; [|done].
  destruct (runeSize_spec _ k Hk) as [Hr _]. by destruct (takeString k (String c s)); [inversion Hr|].
Qed.

Lemma utf8_nil : utf8 "" = true.
Proof. done. Qed.

(** ** ASCII *)
Fixpoint ascii (s : string) : bool :=
  match s with String c s => (code c <? 128)%N && ascii s | EmptyString => true end.

Lemma ascii_app a b : ascii (a +:+ b) = ascii a && ascii b.
Proof. induction a as [|c a IH]; [done|]. rewrite string_cons_app. simpl. by rewrite IH, andb_assoc. Qed.

Lemma ascii_utf8 s : ascii s = true → utf8 s = true.
Proof.
  unfold utf8. induction s as [|c s IH]; [done|]. intros [Hc Hs]%andb_prop.
  simpl. rewrite Hc. simpl. by apply IH.
Qed.
