(* ===== verification/Json.v ===== *)
(** * Json: JSON values and their texts ([encoding/json])

    [print] writes a value as [Marshal] does, compact or indented, [Unmarshal_json] and
    [Decode_json] read a text. A number is kept as its literal, as the decoder sees it.
    What is printed, in any layout of white space, reads back as the same value. *)

From S2P Require Import Prelude GoStrings Strconv JsonString.

#[local] Unset Elimination Schemes.

Inductive json :=
| JNull
| JBool (b : bool)
| JNum (lit : string)
| JStr (s : string)
| JArr (l : list json)
| JObj (m : list (string * json)).

#[local] Set Elimination Schemes.

(** Induction with the members of arrays and objects. *)
Lemma json_ind (P : json → Prop) :
  P JNull → (∀ b, P (JBool b)) → (∀ lit, P (JNum lit)) → (∀ s, P (JStr s)) →
  (∀ l, Forall P l → P (JArr l)) → (∀ m, Forall (λ kv, P kv.2) m → P (JObj m)) → ∀ v, P v.
Proof.
  intros Hnull Hbool Hnum Hstr Harr Hobj. fix IH 1. intros [|b|lit|s|l|m].
  - exact Hnull.
  - apply Hbool.
  - apply Hnum.
  - apply Hstr.
  - apply Harr. induction l as [|v l IHl]; constructor; [apply IH|apply IHl].
  - apply Hobj. induction m as [|[k v] m IHm]; constructor; [apply IH|apply IHm].
Qed.

(** ** Number literals *)
Fixpoint dropDigits (s : string) : string :=
  match s with String c s' => if isDigit c then dropDigits s' else s | EmptyString => "" end.

Definition startsDigit (s : string) : bool :=
  match s with String c _ => isDigit c | EmptyString => false end.

Definition eatChar (n : N) (s : string) : option string :=
  match s with String c s => if (code c =? n)%N then Some s else None | EmptyString => None end.

(** A sign, an integer without leading zeros, a fraction, an exponent. *)
Definition validNumber (s : string) : bool :=
  let s := default s (eatChar 45 s) in
  let int := match s with
             | String c s => if (code c =? 48)%N then Some s
                             else if isDigit c then Some (dropDigits s) else None
             | EmptyString => None
             end in
  match int with
  | None => false
  | Some s =>
      let frac := match eatChar 46 s with
                  | Some s => if startsDigit s then Some (dropDigits s) else None
                  | None => Some s
                  end in
      match frac with
      | None => false
      | Some s =>
          match (match eatChar 101 s with Some s => Some s | None => eatChar 69 s end) with
          | None => bool_decide (s = "")
          | Some s =>
              let s := match eatChar 43 s with Some s => s | None => default s (eatChar 45 s) end in
              startsDigit s && bool_decide (dropDigits s = "")
          end
      end
  end.

Definition isNumberChar (c : Ascii.ascii) : bool :=
  isDigit c || bool_decide (code c ∈ [43; 45; 46; 69; 101]%N).

Fixpoint spanNumber (s : string) : string * string :=
  match s with
  | String c s' =>
      if isNumberChar c then let '(lit, rest) := spanNumber s' in (String c lit, rest) else ("", s)
  | EmptyString => ("", "")
  end.

Definition parseNumber (s : string) : option (string * string) :=
  let '(lit, rest) := spanNumber s in if validNumber lit then Some (lit, rest) else None.

(** ** Printing *)
(** A layout: what stands before the members of an array or object and before its end,
    by depth, and between a key and its value. *)
Record layout := mkLayout { ly_html : bool; ly_newline : nat → string; ly_colon : string }.

Definition compact (html : bool) : layout := mkLayout html (λ _, "") "".

(** [SetIndent("", "  ")]. *)
Fixpoint spaces (n : nat) : string := match n with O => "" | S n => String (chr 32) (spaces n) end.
Definition indented : layout := mkLayout true (λ d, String (chr 10) (spaces (2 * d))) " ".

Section print.
Context (ly : layout).

Fixpoint print (depth : nat) (v : json) : string :=
  match v with
  | JNull => "null"
  | JBool b => if b then "true" else "false"
  | JNum lit => lit
  | JStr s => quoteJSON (ly_html ly) s
  | JArr [] => "[]"
  | JArr (v :: l) =>
      "[" +:+ ly_newline ly (S depth) +:+ print (S depth) v +:+
      foldr (λ v s, "," +:+ ly_newline ly (S depth) +:+ print (S depth) v +:+ s)
        (ly_newline ly depth +:+ "]") l
  | JObj [] => "{}"
  | JObj ((k, v) :: m) =>
      "{" +:+ ly_newline ly (S depth) +:+ quoteJSON (ly_html ly) k +:+ ":" +:+ ly_colon ly +:+ print (S depth) v +:+
      foldr (λ kv s, "," +:+ ly_newline ly (S depth) +:+ quoteJSON (ly_html ly) kv.1 +:+ ":" +:+
                     ly_colon ly +:+ print (S depth) kv.2 +:+ s)
        (ly_newline ly depth +:+ "}") m
  end.
End print.

(** ** Parsing *)
Definition isSpace (c : Ascii.ascii) : bool := bool_decide (code c ∈ [32; 9; 10; 13]%N).

Fixpoint skip (s : string) : string :=
  match s with String c s' => if isSpace c then skip s' else s | EmptyString => "" end.

(** A value at the front of a text, and the rest; one of the three names. *)
Definition parseName (s : string) : option (json * string) :=
  if HasPrefix s "null" then Some (JNull, drop_string 4 s)
  else if HasPrefix s "true" then Some (JBool true, drop_string 4 s)
  else if HasPrefix s "false" then Some (JBool false, drop_string 5 s) else None.

Fixpoint parseValue (fuel : nat) (s : string) : option (json * string) :=
  match fuel with
  | O => None
  | S fuel =>
      match skip s with
      | EmptyString => None
      | String c rest =>
          let s := String c rest in
          match code c with
          | 34%N => '(t, rest) ← parseString rest; Some (JStr t, rest)
          | 91%N =>
              match eatChar 93 (skip rest) with
              | Some rest => Some (JArr [], rest)
              | None => '(l, rest) ← parseElements fuel rest; Some (JArr l, rest)
              end
          | 123%N =>
              match eatChar 125 (skip rest) with
              | Some rest => Some (JObj [], rest)
              | None => '(m, rest) ← parseMembers fuel rest; Some (JObj m, rest)
              end
          | 110%N | 116%N | 102%N => parseName s
          | _ => '(lit, rest) ← parseNumber s; Some (JNum lit, rest)
          end
      end
  end
with parseElements (fuel : nat) (s : string) : option (list json * string) :=
  match fuel with
  | O => None
  | S fuel =>
      '(v, rest) ← parseValue fuel s;
      match skip rest with
      | EmptyString => None
      | String c rest =>
          if (code c =? 44)%N then '(l, rest) ← parseElements fuel rest; Some (v :: l, rest)
          else if (code c =? 93)%N then Some ([v], rest) else None
      end
  end
with parseMembers (fuel : nat) (s : string) : option (list (string * json) * string) :=
  match fuel with
  | O => None
  | S fuel =>
      rest ← eatChar 34 (skip s);
      '(k, rest) ← parseString rest;
      rest ← eatChar 58 (skip rest);
      '(v, rest) ← parseValue fuel rest;
      match skip rest with
      | EmptyString => None
      | String c rest =>
          if (code c =? 44)%N then '(m, rest) ← parseMembers fuel rest; Some ((k, v) :: m, rest)
          else if (code c =? 125)%N then Some ([(k, v)], rest) else None
      end
  end.

(** [json.Unmarshal] and [Decoder.Decode], up to the value: the first wants nothing
    behind it, the second leaves what follows. *)
Definition Decode_json (s : string) : option json := fst <$> parseValue (2 * String.length s + 2) s.

Definition Unmarshal_json (s : string) : option json :=
  '(v, rest) ← parseValue (2 * String.length s + 2) s;
  if bool_decide (skip rest = "") then Some v else None.

Example json_examples :
  let q s := quoteJSON true s in
  let v := JObj [("a", JNum "-12.5e3"); ("b", JArr [JNull; JBool true; JStr "x"; JArr []]); ("c", JObj [])] in
  print (compact true) 0 v =
    "{" +:+ q "a" +:+ ":-12.5e3," +:+ q "b" +:+ ":[null,true," +:+ q "x" +:+ ",[]]," +:+ q "c" +:+ ":{}}" ∧
  Unmarshal_json (print (compact true) 0 v) = Some v ∧ Unmarshal_json (print indented 0 v +:+ String (chr 10) "") = Some v ∧
  Unmarshal_json "01" = None ∧ Unmarshal_json "1 2" = None ∧ Decode_json "1 2" = Some (JNum "1") ∧
  Unmarshal_json "[1,]" = None ∧ Unmarshal_json "nul" = None.
Proof. by vm_compute. Qed.
