(* ===== verification/JsonTheorems.v ===== *)
(** * JsonTheorems: printing and parsing JSON ([encoding/json])

    What is printed in any layout of white space reads back as the same value, and the
    parser's fuel never runs out. *)

From S2P Require Import Prelude GoStrings Strconv JsonString Json.

(** The values with a text: numbers are literals. *)
Fixpoint wf_numbers (v : json) : bool :=
  match v with
  | JNull | JBool _ | JStr _ => true
  | JNum lit => validNumber lit
  | JArr l => forallb wf_numbers l
  | JObj m => forallb (λ kv, wf_numbers kv.2) m
  end.

(** What the text of a value carries of its strings. *)
Fixpoint carried (v : json) : json :=
  match v with
  | JNull | JBool _ | JNum _ => v
  | JStr s => JStr (asUTF8 s)
  | JArr l => JArr (map carried l)
  | JObj m => JObj (map (λ kv, (asUTF8 kv.1, carried kv.2)) m)
  end.

(** Those whose text carries them as they are: strings are UTF-8 as well. *)
Fixpoint wf_json (v : json) : bool :=
  match v with
  | JNull | JBool _ => true
  | JNum lit => validNumber lit
  | JStr s => utf8 s
  | JArr l => forallb wf_json l
  | JObj m => forallb (λ kv, utf8 kv.1 && wf_json kv.2) m
  end.

Fixpoint allSpace (s : string) : bool :=
  match s with String c s => isSpace c && allSpace s | EmptyString => true end.

Lemma wf_json_numbers v : wf_json v = true → wf_numbers v = true.
Proof.
  induction v as [|b|lit|s|l IH|m IH] using json_ind; try done; simpl; rewrite !forallb_forall; intros Hw.
  - rewrite Forall_forall in IH. intros v Hv. apply IH; [by apply list_elem_of_In|by apply Hw].
  - rewrite Forall_forall in IH. intros kv Hv. apply IH; [by apply list_elem_of_In|].
    by apply Hw, andb_prop in Hv as [_ ?].
Qed.

Lemma wf_json_carried v : wf_json v = true → carried v = v.
Proof.
  induction v as [|b|lit|s|l IH|m IH] using json_ind; try done; simpl; intros Hw.
  - by rewrite asUTF8_id.
  - f_equal. induction IH as [|v l Hv _ IHl]; [done|]. simpl in *. apply andb_prop in Hw as [? ?].
    by rewrite Hv, IHl.
  - f_equal. induction IH as [|[k v] m Hv _ IHm]; [done|]. simpl in *.
    apply andb_prop in Hw as [[? ?]%andb_prop ?]. by rewrite asUTF8_id, Hv, IHm.
Qed.

Lemma carried_numbers v : wf_numbers (carried v) = wf_numbers v.
Proof.
  induction v as [|b|lit|s|l IH|m IH] using json_ind; try done; simpl.
  - induction IH as [|v l Hv _ IHl]; [done|]. simpl. by rewrite Hv, IHl.
  - induction IH as [|[k v] m Hv _ IHm]; [done|]. simpl in *. by rewrite Hv, IHm.
Qed.

Record layout_ok (ly : layout) : Prop := {
  newline_space d : allSpace (ly_newline ly d) = true;
  colon_space : allSpace (ly_colon ly) = true
}.

Lemma compact_ok html : layout_ok (compact html).
Proof. done. Qed.

Lemma indented_ok : layout_ok indented.
Proof.
  split; [|done]. intros d. simpl. generalize (d + (d + 0))%nat. intros n. by induction n.
Qed.

(** ** Spaces *)
Lemma skip_space ws s : allSpace ws = true → skip (ws +:+ s) = skip s.
Proof.
  induction ws as [|c ws IH]; [done|]. intros [Hc Hws]%andb_prop. rewrite string_cons_app. simpl.
  rewrite Hc. by apply IH.
Qed.

Lemma parseValue_space fuel ws s : allSpace ws = true → parseValue fuel (ws +:+ s) = parseValue fuel s.
Proof. intros Hws. destruct fuel; [done|]. cbn [parseValue]. by rewrite skip_space. Qed.

Lemma parseElements_space fuel ws s : allSpace ws = true → parseElements fuel (ws +:+ s) = parseElements fuel s.
Proof. intros Hws. destruct fuel; [done|]. cbn [parseElements]. by rewrite parseValue_space. Qed.

Lemma parseMembers_space fuel ws s : allSpace ws = true → parseMembers fuel (ws +:+ s) = parseMembers fuel s.
Proof. intros Hws. destruct fuel; [done|]. cbn [parseMembers]. by rewrite skip_space. Qed.

(** ** Numbers *)
Fixpoint allNumber (s : string) : bool :=
  match s with String c s => isNumberChar c && allNumber s | EmptyString => true end.

Definition not_number (s : string) : Prop :=
  match s with String c _ => isNumberChar c = false | EmptyString => True end.

Lemma allNumber_dropDigits s : allNumber (dropDigits s) = true → allNumber s = true.
Proof.
  induction s as [|c s IH]; [done|]. simpl. destruct (isDigit c) eqn:Hc; [|done].
  intros ?. unfold isNumberChar. rewrite Hc. simpl. by apply IH.
Qed.

Lemma allNumber_eat n s s' :
  eatChar n s = Some s' → isNumberChar (chr n) = true → allNumber s' = true → allNumber s = true.
Proof.
  destruct s as [|c s]; [done|]. simpl. destruct (N.eqb_spec (code c) n) as [<-|]; [|done].
  intros [= <-]. rewrite chr_code. by intros -> ->.
Qed.

Lemma validNumber_all s : validNumber s = true → allNumber s = true.
Proof.
  unfold validNumber. intros H.
  assert (allNumber (default s (eatChar 45 s)) = true) as Hs.
  2: { destruct (eatChar 45 s) eqn:E; [|done]. by eapply allNumber_eat. }
  revert H. generalize (default s (eatChar 45 s)). clear s. intros s.
  set (int := match s with String _ _ => _ | _ => _ end).
  assert (∀ s', int = Some s' → allNumber s' = true → allNumber s = true) as Hint.
  { subst int. destruct s as [|c s]; [done|]. intros s' He Hs'. simpl.
    destruct (N.eqb_spec (code c) 48) as [Hc|].
    - injection He as ->. rewrite Hs', andb_true_r. unfold isNumberChar, isDigit. unfold code in Hc. by rewrite Hc.
    - destruct (isDigit c) eqn:Hc; [|done]. injection He as <-. unfold isNumberChar. rewrite Hc.
      by apply allNumber_dropDigits. }
  destruct int as [s1|]; [|done]. intros H. apply (Hint s1 eq_refl). revert H. clear. generalize s1. clear. intros s.
  set (frac := match eatChar 46 s with Some _ => _ | None => _ end).
  assert (∀ s', frac = Some s' → allNumber s' = true → allNumber s = true) as Hfrac.
  { subst frac. destruct (eatChar 46 s) as [s1|] eqn:E; [|by intros s' [= ->]].
    destruct (startsDigit s1); [|done]. intros s' [= <-] Hs'. eapply allNumber_eat; [done..|].
    by apply allNumber_dropDigits. }
  destruct frac as [s1|]; [|done]. intros H. apply (Hfrac s1 eq_refl). revert H. clear. generalize s1. clear. intros s.
  assert (∀ s', startsDigit s' && bool_decide (dropDigits s' = "") = true → allNumber s' = true) as Hdig.
  { intros s' [_ H%bool_decide_eq_true]%andb_prop. apply allNumber_dropDigits. by rewrite H. }
  assert (∀ s', startsDigit (match eatChar 43 s' with Some s => s | None => default s' (eatChar 45 s') end) &&
      bool_decide (dropDigits (match eatChar 43 s' with Some s => s | None => default s' (eatChar 45 s') end) = "") = true →
    allNumber s' = true) as Hexp.
  { intros s' H%Hdig. destruct (eatChar 43 s') eqn:E1; [by eapply allNumber_eat|].
    destruct (eatChar 45 s') eqn:E2; [by eapply allNumber_eat|done]. }
  destruct (eatChar 101 s) eqn:E1; [intros ?%Hexp; by eapply allNumber_eat|].
  destruct (eatChar 69 s) eqn:E2; [intros ?%Hexp; by eapply allNumber_eat|].
  by intros ->%bool_decide_eq_true.
Qed.

Lemma spanNumber_app lit rest :
  allNumber lit = true → not_number rest → spanNumber (lit +:+ rest) = (lit, rest).
Proof.
  intros Hl Hr. induction lit as [|c lit IH].
  - change ("" +:+ rest) with rest. destruct rest as [|c rest]; [done|]. simpl in *. by rewrite Hr.
  - apply andb_prop in Hl as [Hc Hl]. rewrite string_cons_app. simpl. by rewrite Hc, IH.
Qed.

Lemma parseNumber_app lit rest :
  validNumber lit = true → not_number rest → parseNumber (lit +:+ rest) = Some (lit, rest).
Proof.
  intros Hl Hr. unfold parseNumber. rewrite spanNumber_app by (done || by apply validNumber_all). by rewrite Hl.
Qed.

(** A literal begins with a sign or a digit. *)
Lemma validNumber_head lit :
  validNumber lit = true → ∃ c s, lit = String c s ∧ code c ∈ [45; 48; 49; 50; 51; 52; 53; 54; 55; 56; 57]%N.
Proof.
  intros H. destruct lit as [|c s]; [done|]. exists c, s. split; [done|]. unfold validNumber in H. simpl in H.
  destruct (N.eqb_spec (code c) 45) as [->|]; [by left|]. simpl in H.
  destruct (N.eqb_spec (code c) 48) as [->|]; [by right; left|].
  destruct (isDigit c) eqn:Hc; [|done]. unfold isDigit in Hc. apply andb_prop in Hc as [H1%N.leb_le H2%N.leb_le].
  fold (code c) in *. rewrite !elem_of_cons. lia.
Qed.

Lemma parseValue_number fuel lit rest :
  validNumber lit = true → not_number rest → parseValue (S fuel) (lit +:+ rest) = Some (JNum lit, rest).
Proof.
  intros Hl Hr. pose proof (parseNumber_app lit rest Hl Hr) as Hp.
  destruct (validNumber_head lit Hl) as (c & s & -> & Hc). rewrite string_cons_app in *.
  cbn [parseValue skip]. rewrite !elem_of_cons, elem_of_nil in Hc.
  assert (isSpace c = false) as ->.
  { apply bool_decide_eq_false_2. rewrite !elem_of_cons, elem_of_nil. lia. }
  cbv zeta. by destruct_or! Hc; rewrite Hc, Hp.
Qed.

(** ** Values *)
(** How much fuel a value takes. *)
Fixpoint jsize (v : json) : nat :=
  match v with
  | JArr l => S (foldr (λ v n, S (jsize v + n)) 0 l)
  | JObj m => S (foldr (λ kv n, S (jsize kv.2 + n)) 0 m)
  | _ => 1
  end%nat.

Section printing.
Context (ly : layout) (Hly : layout_ok ly).

(** The end of an array or object, behind its first member. *)
Definition elementsTail (depth : nat) (l : list json) : string :=
  foldr (λ v s, "," +:+ ly_newline ly (S depth) +:+ print ly (S depth) v +:+ s) (ly_newline ly depth +:+ "]") l.

Definition member (depth : nat) (kv : string * json) : string :=
  quoteJSON (ly_html ly) kv.1 +:+ ":" +:+ ly_colon ly +:+ print ly depth kv.2.

Definition membersTail (depth : nat) (m : list (string * json)) : string :=
  foldr (λ kv s, "," +:+ ly_newline ly (S depth) +:+ member (S depth) kv +:+ s) (ly_newline ly depth +:+ "}") m.

Lemma print_array depth v l :
  print ly depth (JArr (v :: l)) =
    "[" +:+ ly_newline ly (S depth) +:+ print ly (S depth) v +:+ elementsTail depth l.
Proof. done. Qed.

Lemma membersTail_eq depth m :
  foldr (λ kv s, "," +:+ ly_newline ly (S depth) +:+ quoteJSON (ly_html ly) kv.1 +:+ ":" +:+
                 ly_colon ly +:+ print ly (S depth) kv.2 +:+ s) (ly_newline ly depth +:+ "}") m = membersTail depth m.
Proof.
  induction m as [|kv m IH]; [done|]. cbn [foldr membersTail]. unfold membersTail in *. cbn [foldr].
  rewrite <- IH. unfold member. by rewrite !string_app_assoc.
Qed.

Lemma print_object depth kv m :
  print ly depth (JObj (kv :: m)) =
    "{" +:+ ly_newline ly (S depth) +:+ member (S depth) kv +:+ membersTail depth m.
Proof.
  destruct kv as [k v]. rewrite <- membersTail_eq. unfold member. cbn [print fst snd]. by rewrite !string_app_assoc.
Qed.

Lemma member_app depth kv rest :
  member depth kv +:+ rest =
    quoteJSON (ly_html ly) kv.1 +:+ ":" +:+ ly_colon ly +:+ print ly depth kv.2 +:+ rest.
Proof. unfold member. by rewrite !string_app_assoc. Qed.

(** A printed value starts with something other than a space or a closing bracket. *)
Lemma print_head depth v rest :
  wf_numbers v = true → ∃ c s, print ly depth v +:+ rest = String c s ∧ isSpace c = false ∧
    code c ≠ 93%N ∧ code c ≠ 125%N.
Proof.
  destruct v as [|[]|lit|s|[|v l]|[|[k v] m]]; intros Hv; try by do 2 eexists.
  destruct (validNumber_head lit Hv) as (c & s & -> & Hc). exists c, (s +:+ rest). split; [done|].
  rewrite !elem_of_cons, elem_of_nil in Hc. split; [|lia]. apply bool_decide_eq_false_2.
  rewrite !elem_of_cons, elem_of_nil. lia.
Qed.

Definition reads_back (v : json) : Prop :=
  wf_numbers v = true → ∀ fuel depth rest, (jsize v ≤ fuel)%nat → not_number rest →
  parseValue fuel (print ly depth v +:+ rest) = Some (carried v, rest).

Lemma skip_cons c s : isSpace c = false → skip (String c s) = String c s.
Proof. simpl. by intros ->. Qed.

Lemma not_number_space ws c s :
  allSpace ws = true → isNumberChar c = false → not_number (ws +:+ String c s).
Proof.
  destruct ws as [|c' ws]; [done|]. intros [Hc _]%andb_prop _. simpl. unfold isSpace in Hc.
  apply bool_decide_eq_true in Hc. rewrite !elem_of_cons, elem_of_nil in Hc. unfold isNumberChar, isDigit.
  fold (code c'). rewrite bool_decide_eq_false_2; [|rewrite !elem_of_cons, elem_of_nil; lia].
  rewrite (proj2 (N.leb_gt _ _)) by lia. done.
Qed.

Lemma elements_back l v depth fuel rest :
  Forall reads_back (v :: l) → forallb wf_numbers (v :: l) = true →
  (S (jsize v + foldr (λ v n, S (jsize v + n)) 0 l) ≤ fuel)%nat →
  parseElements fuel (print ly (S depth) v +:+ elementsTail depth l +:+ rest) = Some (map carried (v :: l), rest).
Proof using Hly.
  revert v fuel. induction l as [|v' l IH]; intros v fuel [Hv Hl]%Forall_cons [Hw Hwl]%andb_prop Hf;
    (destruct fuel as [|fuel]; [lia|]); cbn [parseElements].
  - unfold elementsTail. cbn [foldr]. rewrite string_app_assoc. change ("]" +:+ rest) with (String (chr 93) rest).
    rewrite Hv; [|done|simpl in Hf; lia|apply not_number_space; [by apply newline_space|done]].
    cbn [mbind option_bind]. by rewrite skip_space by by apply newline_space.
  - unfold elementsTail. cbn [foldr]. fold (elementsTail depth l). rewrite !string_app_assoc.
    change ("," +:+ ?x) with (String (chr 44) x).
    rewrite Hv; [|done|simpl in Hf; lia|done]. cbn [mbind option_bind].
    rewrite skip_cons by done. change (code (chr 44) =? 44)%N with true. cbv iota.
    rewrite parseElements_space by by apply newline_space.
    rewrite IH; [done..|simpl in Hf; lia].
Qed.

Lemma member_back depth kv fuel rest :
  reads_back kv.2 → wf_numbers kv.2 = true → (jsize kv.2 ≤ fuel)%nat → not_number rest →
  ∃ s s', skip (member depth kv +:+ rest) = String dquote s ∧ parseString s = Some (asUTF8 kv.1, String (chr 58) s') ∧
    parseValue fuel s' = Some (carried kv.2, rest).
Proof using Hly.
  intros Hv Hw Hf Hr. rewrite member_app.
  destruct (parseString_quoted (ly_html ly) kv.1 (":" +:+ ly_colon ly +:+ print ly depth kv.2 +:+ rest))
    as (body & Hb & Hp).
  exists body, (ly_colon ly +:+ print ly depth kv.2 +:+ rest). rewrite Hb. split; [done|]. split; [done|].
  rewrite parseValue_space by by apply colon_space. by apply Hv.
Qed.

Lemma members_back m kv depth fuel rest :
  Forall (λ kv, reads_back kv.2) (kv :: m) → forallb (λ kv, wf_numbers kv.2) (kv :: m) = true →
  (S (jsize kv.2 + foldr (λ kv n, S (jsize kv.2 + n)) 0 m) ≤ fuel)%nat →
  parseMembers fuel (member (S depth) kv +:+ membersTail depth m +:+ rest) =
    Some (map (λ kv, (asUTF8 kv.1, carried kv.2)) (kv :: m), rest).
Proof using Hly.
  revert kv fuel. induction m as [|kv' m IH]; intros kv fuel [Hv Hl]%Forall_cons [Hw Hwl]%andb_prop Hf;
    (destruct fuel as [|fuel]; [lia|]); cbn [parseMembers].
  - unfold membersTail. cbn [foldr]. rewrite string_app_assoc. change ("}" +:+ rest) with (String (chr 125) rest).
    destruct (member_back (S depth) kv fuel (ly_newline ly depth +:+ String (chr 125) rest) Hv Hw)
      as (s & s' & Hs & Hk & Hval); [simpl in Hf; lia|apply not_number_space; [by apply newline_space|done]|].
    rewrite Hs. change (eatChar 34 (String dquote s)) with (Some s). cbn [mbind option_bind]. rewrite Hk.
    cbn [mbind option_bind]. change (eatChar 58 (skip (String (chr 58) s'))) with (Some s'). cbn [mbind option_bind].
    rewrite Hval. cbn [mbind option_bind]. rewrite skip_space by by apply newline_space. by destruct kv.
  - unfold membersTail. cbn [foldr]. fold (membersTail depth m). rewrite !string_app_assoc.
    change ("," +:+ ?x) with (String (chr 44) x).
    destruct (member_back (S depth) kv fuel
      (String (chr 44) (ly_newline ly (S depth) +:+ member (S depth) kv' +:+ membersTail depth m +:+ rest)) Hv Hw)
      as (s & s' & Hs & Hk & Hval); [simpl in Hf; lia|done|].
    rewrite Hs. change (eatChar 34 (String dquote s)) with (Some s). cbn [mbind option_bind]. rewrite Hk.
    cbn [mbind option_bind]. change (eatChar 58 (skip (String (chr 58) s'))) with (Some s'). cbn [mbind option_bind].
    rewrite Hval. cbn [mbind option_bind]. rewrite skip_cons by done. change (code (chr 44) =? 44)%N with true. cbv iota.
    rewrite parseMembers_space by by apply newline_space. rewrite IH; [by destruct kv|done..|simpl in Hf; lia].
Qed.

Lemma print_parse v : reads_back v.
Proof using Hly.
  induction v as [|b|lit|s|l IH|m IH] using json_ind; intros Hw fuel depth rest Hf Hr;
    (destruct fuel as [|fuel]; [simpl in Hf; lia|]).
  - cbn [print]. change (parseName ("null" +:+ rest) = Some (JNull, rest)).
    unfold parseName, HasPrefix. by rewrite prefix_app.
  - destruct b; cbn [print].
    + change (parseName ("true" +:+ rest) = Some (JBool true, rest)).
      unfold parseName, HasPrefix at 2. by rewrite prefix_app.
    + change (parseName ("false" +:+ rest) = Some (JBool false, rest)).
      unfold parseName, HasPrefix at 3. by rewrite prefix_app.
  - by apply parseValue_number.
  - destruct (parseString_quoted (ly_html ly) s rest) as (body & Hb & Hp). cbn [print]. rewrite Hb.
    cbn [parseValue]. rewrite skip_cons by done. change (code dquote) with 34%N. cbv iota zeta. by rewrite Hp.
  - destruct l as [|v l]; [done|]. rewrite print_array, !string_app_assoc.
    change ("[" +:+ ?x) with (String (chr 91) x). cbn [parseValue]. rewrite skip_cons by done.
    change (code (chr 91)) with 91%N. cbv iota zeta. rewrite skip_space by by apply newline_space.
    apply andb_prop in Hw as Hw'. destruct Hw' as [Hv _].
    destruct (print_head (S depth) v (elementsTail depth l +:+ rest) Hv) as (c & s & He & Hc & H93 & _).
    rewrite He at 1. rewrite skip_cons by done. unfold eatChar at 1.
    destruct (N.eqb_spec (code c) 93); [done|]. rewrite parseElements_space by by apply newline_space.
    rewrite elements_back; [done..|simpl in Hf |- *; lia].
  - destruct m as [|kv m]; [done|]. rewrite print_object, !string_app_assoc.
    change ("{" +:+ ?x) with (String (chr 123) x). cbn [parseValue]. rewrite skip_cons by done.
    change (code (chr 123)) with 123%N. cbv iota zeta. rewrite skip_space by by apply newline_space.
    assert (∃ s, member (S depth) kv +:+ membersTail depth m +:+ rest = String dquote s) as [s He] by by eexists.
    rewrite He at 1. rewrite skip_cons by done.
    change (eatChar 125 (String dquote ?x)) with (@None string). cbv iota.
    rewrite parseMembers_space by by apply newline_space.
    rewrite members_back; [done..|simpl in Hf |- *; lia].
Qed.

(** A printed value is at least as long as the fuel it takes. *)
Lemma elementsTail_length depth l :
  Forall (λ v, wf_numbers v = true → ∀ d, (jsize v ≤ String.length (print ly d v))%nat) l → forallb wf_numbers l = true →
  (foldr (λ v n, S (jsize v + n)) 0 l < String.length (elementsTail depth l))%nat.
Proof.
  unfold elementsTail. induction 1 as [|v l Hv _ IH]; intros Hw; cbn [foldr].
  - rewrite length_string_app. simpl. lia.
  - apply andb_prop in Hw as [Hwv Hwl]. specialize (IH Hwl). specialize (Hv Hwv (S depth)).
    rewrite !length_string_app. simpl. lia.
Qed.

Lemma membersTail_length depth m :
  Forall (λ kv, wf_numbers kv.2 = true → ∀ d, (jsize kv.2 ≤ String.length (print ly d kv.2))%nat) m →
  forallb (λ kv, wf_numbers kv.2) m = true →
  (foldr (λ kv n, S (jsize kv.2 + n)) 0 m < String.length (membersTail depth m))%nat.
Proof.
  unfold membersTail. induction 1 as [|kv m Hv _ IH]; intros Hw; cbn [foldr].
  - rewrite length_string_app. simpl. lia.
  - apply andb_prop in Hw as [Hwv Hwl]. specialize (IH Hwl). specialize (Hv Hwv (S depth)).
    assert (jsize kv.2 ≤ String.length (member (S depth) kv))%nat.
    { unfold member. rewrite !length_string_app. lia. }
    rewrite !length_string_app. change (String.length ",") with 1%nat. lia.
Qed.

Lemma jsize_print v : wf_numbers v = true → ∀ depth, (jsize v ≤ String.length (print ly depth v))%nat.
Proof.
  induction v as [|[]|lit|s|l IH|m IH] using json_ind; intros Hw depth; try (simpl; lia).
  - destruct (validNumber_head lit Hw) as (c & s & -> & _). simpl. lia.
  - destruct l as [|v l]; [simpl; lia|]. rewrite print_array. apply Forall_cons in IH as [Hv IH].
    apply andb_prop in Hw as [Hwv Hwl]. specialize (Hv Hwv (S depth)).
    pose proof (elementsTail_length depth l IH Hwl). rewrite !length_string_app. simpl. lia.
  - destruct m as [|kv m]; [simpl; lia|]. rewrite print_object. apply Forall_cons in IH as [Hv IH].
    apply andb_prop in Hw as [Hwv Hwm]. specialize (Hv Hwv (S depth)).
    pose proof (membersTail_length depth m IH Hwm).
    unfold member. rewrite !length_string_app. simpl. lia.
Qed.
End printing.

(** A text that was printed, with what follows it. *)
Lemma print_carried ly v rest :
  layout_ok ly → wf_numbers v = true → not_number rest →
  parseValue (2 * String.length (print ly 0 v +:+ rest) + 2) (print ly 0 v +:+ rest) = Some (carried v, rest).
Proof.
  intros Hly Hw Hr. apply print_parse; [done..| |done]. pose proof (jsize_print ly v Hw 0).
  rewrite length_string_app. lia.
Qed.

Lemma print_Decode_carried ly v rest :
  layout_ok ly → wf_numbers v = true → not_number rest → Decode_json (print ly 0 v +:+ rest) = Some (carried v).
Proof. intros Hly Hw Hr. unfold Decode_json. by rewrite print_carried. Qed.

Lemma print_read ly v rest :
  layout_ok ly → wf_json v = true → not_number rest →
  parseValue (2 * String.length (print ly 0 v +:+ rest) + 2) (print ly 0 v +:+ rest) = Some (v, rest).
Proof. intros Hly Hw Hr. rewrite print_carried by auto using wf_json_numbers. by rewrite wf_json_carried. Qed.

Lemma print_Decode ly v rest :
  layout_ok ly → wf_json v = true → not_number rest → Decode_json (print ly 0 v +:+ rest) = Some v.
Proof. intros Hly Hw Hr. unfold Decode_json. by rewrite print_read. Qed.

Lemma print_Unmarshal ly v ws :
  layout_ok ly → wf_json v = true → allSpace ws = true → Unmarshal_json (print ly 0 v +:+ ws) = Some v.
Proof.
  intros Hly Hw Hws. unfold Unmarshal_json. rewrite print_read; [|done..|].
  - cbn [mbind option_bind]. rewrite <- (string_app_nil_r ws), skip_space by done. done.
  - destruct ws as [|c ws]; [done|]. rewrite <- (string_app_nil_r (String c ws)).
    pose proof (not_number_space (String c ws) (chr 93) "" Hws eq_refl) as Hn. done.
Qed.

(** A JSON value that is printed, compact or with any layout of white space, is read
    back as the same value, whatever follows it; numbers are literals and strings
    UTF-8. [Unmarshal] wants nothing but space behind the text, [Decode] stops there. *)
Theorem json_roundtrip ly v :
  layout_ok ly → wf_json v = true →
  (∀ ws, allSpace ws = true → Unmarshal_json (print ly 0 v +:+ ws) = Some v) ∧
  (∀ rest, not_number rest → Decode_json (print ly 0 v +:+ rest) = Some v).
Proof. intros Hly Hw. split; [intros ws; by apply print_Unmarshal|intros rest; by apply print_Decode]. Qed.

Lemma json_roundtrip_witness :
  let v := JObj [("a", JNum "-12.5e3"); ("b", JArr [JNull; JStr "é<"])] in
  Unmarshal_json (print indented 0 v +:+ String (chr 10) "") = Some v ∧
  Decode_json (print (compact true) 0 v +:+ "x") = Some v.
Proof.
  intros v. split.
  - by apply (json_roundtrip indented v indented_ok eq_refl).
  - by apply (json_roundtrip (compact true) v (compact_ok true) eq_refl).
Defined.

(** ** The fuel of the parser *)
Lemma skip_length s : (String.length (skip s) ≤ String.length s)%nat.
Proof. induction s as [|c s IH]; simpl; [lia|]. destruct (isSpace c); simpl; lia. Qed.

Lemma eatChar_length n s s' : eatChar n s = Some s' → String.length s = S (String.length s').
Proof. destruct s as [|c s]; simpl; [done|]. destruct (_ =? _)%N; [|done]. by intros [= ->]. Qed.

Lemma drop_length n s : (String.length (drop_string n s) ≤ String.length s)%nat.
Proof. revert s. induction n as [|n IH]; intros [|c s]; simpl; try lia. specialize (IH s). lia. Qed.

Lemma getu4_length s u rest : getu4 s = Some (u, rest) → (String.length rest < String.length s)%nat.
Proof.
  destruct s as [|a [|b [|c [|d s]]]]; try done. simpl.
  destruct (hexValue a), (hexValue b), (hexValue c), (hexValue d); simpl; try done. intros [= _ ->]. lia.
Qed.

Lemma parseEscape_length s p rest : parseEscape s = Some (p, rest) → (String.length rest ≤ String.length s)%nat.
Proof.
  destruct s as [|e s]; [done|]. unfold parseEscape. destruct (getu4 s) as [[u r]|] eqn:Hu; simpl.
  - apply getu4_length in Hu. assert (String.length (escapedRune u r).2 ≤ String.length r)%nat as Hr.
    { unfold escapedRune. destruct (between _ _ _); [|done]. destruct r as [|b [|v r]]; [done..|].
      case_bool_decide; [|done]. destruct (getu4 r) as [[u2 r2]|] eqn:E; [|done].
      apply getu4_length in E. destruct (_ && _); simpl; lia. }
    destruct (escapedRune u r) as [x y]. simpl in Hr. destruct (code e) as [|q]; [done|].
    do 7 (try destruct q as [q|q|]); try done; intros [= <- <-]; simpl; lia.
  - destruct (code e) as [|q]; [done|]. do 7 (try destruct q as [q|q|]); try done; intros [= <- <-]; simpl; lia.
Qed.

Lemma parseBody_length fuel s t rest :
  parseBody fuel s = Some (t, rest) → (String.length rest ≤ String.length s)%nat.
Proof.
  revert s t. induction fuel as [|fuel IH]; intros s t; [done|]. destruct s as [|c s]; [done|]. cbn [parseBody].
  case_bool_decide; [intros [= _ <-]; simpl; lia|].
  destruct (parsePiece (String c s)) as [[p r]|] eqn:Hp; [|done]. simpl.
  destruct (parseBody fuel r) as [[t' r']|] eqn:Hb; [|done]. intros [= _ <-]. apply IH in Hb.
  unfold parsePiece in Hp. case_bool_decide; [apply parseEscape_length in Hp; simpl; lia|].
  destruct (code c <? 32)%N; [done|]. destruct (runeSize (String c s)) as [n|]; injection Hp as _ <-; simpl in *.
  - pose proof (drop_length n (String c s)) as Hd. simpl in Hd. lia.
  - lia.
Qed.

Lemma parseString_length s t rest :
  parseString s = Some (t, rest) → (String.length rest ≤ String.length s)%nat.
Proof. apply parseBody_length. Qed.

Lemma parseName_length s v rest :
  parseName s = Some (v, rest) → s ≠ "" → (String.length rest < String.length s)%nat.
Proof.
  intros H Hs. assert (∀ n c s, (String.length (drop_string (S n) (String c s)) < String.length (String c s))%nat) as Hd.
  { intros n c s'. simpl. pose proof (drop_length n s'). lia. }
  destruct s as [|c s]; [done|]. unfold parseName in H.
  pose proof (Hd 3%nat c s). pose proof (Hd 4%nat c s).
  repeat (destruct (HasPrefix _ _); [injection H as _ <-; done|]). done.
Qed.

Lemma spanNumber_length s : let '(lit, rest) := spanNumber s in
  String.length s = (String.length lit + String.length rest)%nat.
Proof.
  induction s as [|c s IH]; [done|]. simpl. destruct (isNumberChar c); [|done].
  destruct (spanNumber s) as [lit rest]. simpl. lia.
Qed.

Lemma parseNumber_length s lit rest :
  parseNumber s = Some (lit, rest) → (String.length rest < String.length s)%nat.
Proof.
  unfold parseNumber. pose proof (spanNumber_length s) as Hl. destruct (spanNumber s) as [l r].
  destruct (validNumber l) eqn:Hv; [|done]. intros [= -> ->].
  destruct (validNumber_head lit Hv) as (c & t & -> & _). simpl in Hl. lia.
Qed.

(** What a parser leaves is shorter than what it was given. *)
Lemma parse_length fuel :
  (∀ s v rest, parseValue fuel s = Some (v, rest) → (String.length rest < String.length s)%nat) ∧
  (∀ s l rest, parseElements fuel s = Some (l, rest) → (String.length rest < String.length s)%nat) ∧
  (∀ s m rest, parseMembers fuel s = Some (m, rest) → (String.length rest < String.length s)%nat).
Proof.
  induction fuel as [|fuel (IHv & IHe & IHm)]; [done|]. split; [|split].
  - intros s v rest. cbn [parseValue]. pose proof (skip_length s) as Hs.
    destruct (skip s) as [|c r] eqn:E; [done|]. simpl in Hs. cbv zeta.
    assert (Hstr : ('(t, r) ← parseString r; Some (JStr t, r)) = Some (v, rest) → (String.length rest < String.length s)%nat).
    { destruct (parseString r) as [[t r']|] eqn:Hp; [|done]. intros [= _ <-]. apply parseString_length in Hp. lia. }
    pose proof (skip_length r) as Hr.
    assert (Harr : match eatChar 93 (skip r) with
                   | Some rest => Some (JArr [], rest)
                   | None => '(l, rest) ← parseElements fuel r; Some (JArr l, rest) end = Some (v, rest) →
      (String.length rest < String.length s)%nat).
    { destruct (eatChar 93 _) eqn:He; [intros [= _ <-]; apply eatChar_length in He; lia|].
      destruct (parseElements fuel r) as [[l r']|] eqn:Hp; [|done]. intros [= _ <-]. apply IHe in Hp. lia. }
    assert (Hobj : match eatChar 125 (skip r) with
                   | Some rest => Some (JObj [], rest)
                   | None => '(m, rest) ← parseMembers fuel r; Some (JObj m, rest) end = Some (v, rest) →
      (String.length rest < String.length s)%nat).
    { destruct (eatChar 125 _) eqn:He; [intros [= _ <-]; apply eatChar_length in He; lia|].
      destruct (parseMembers fuel r) as [[m r']|] eqn:Hp; [|done]. intros [= _ <-]. apply IHm in Hp. lia. }
    assert (Hname : parseName (String c r) = Some (v, rest) → (String.length rest < String.length s)%nat).
    { intros Hp%parseName_length; [|done]. simpl in Hp. lia. }
    assert (Hnum : ('(lit, r) ← parseNumber (String c r); Some (JNum lit, r)) = Some (v, rest) →
      (String.length rest < String.length s)%nat).
    { destruct (parseNumber _) as [[lit r']|] eqn:Hp; [|done]. intros [= _ <-]. apply parseNumber_length in Hp.
      simpl in Hp. lia. }
    destruct (code c) as [|p]; [exact Hnum|].
    do 7 (try destruct p as [p|p|]); try first [exact Hnum|exact Hstr|exact Harr|exact Hobj|exact Hname].
  - intros s l rest. cbn [parseElements]. destruct (parseValue fuel s) as [[v r]|] eqn:Hv; [|done]. simpl.
    apply IHv in Hv. pose proof (skip_length r) as Hr. destruct (skip r) as [|c r']; [done|]. simpl in Hr.
    destruct (_ =? _)%N.
    + destruct (parseElements fuel r') as [[l' r'']|] eqn:He; [|done]. intros [= _ <-]. apply IHe in He. lia.
    + destruct (_ =? _)%N; [|done]. intros [= _ <-]. lia.
  - intros s m rest. cbn [parseMembers]. pose proof (skip_length s) as Hs.
    destruct (eatChar 34 _) as [r|] eqn:H1; [|done]. apply eatChar_length in H1. simpl.
    destruct (parseString r) as [[k r1]|] eqn:H2; [|done]. apply parseString_length in H2. simpl.
    pose proof (skip_length r1) as Hs1.
    destruct (eatChar 58 _) as [r2|] eqn:H3; [|done]. apply eatChar_length in H3. simpl.
    destruct (parseValue fuel r2) as [[v r3]|] eqn:H4; [|done]. apply IHv in H4. simpl.
    pose proof (skip_length r3) as Hs3. destruct (skip r3) as [|c r']; [done|]. simpl in Hs3.
    destruct (_ =? _)%N.
    + destruct (parseMembers fuel r') as [[m' r'']|] eqn:He; [|done]. intros [= _ <-]. apply IHm in He. lia.
    + destruct (_ =? _)%N; [|done]. intros [= _ <-]. lia.
Qed.

(** The fuel of [Unmarshal] is enough: more of it never changes an answer. *)
Lemma parse_fuel fuel :
  (∀ s fuel', (2 * String.length s + 2 ≤ fuel ≤ fuel')%nat → parseValue fuel s = parseValue fuel' s) ∧
  (∀ s fuel', (2 * String.length s + 3 ≤ fuel ≤ fuel')%nat → parseElements fuel s = parseElements fuel' s) ∧
  (∀ s fuel', (2 * String.length s + 3 ≤ fuel ≤ fuel')%nat → parseMembers fuel s = parseMembers fuel' s).
Proof.
  induction fuel as [|fuel (IHv & IHe & IHm)]; [split_and!; intros; lia|]. split; [|split].
  - intros s fuel' Hf. destruct fuel' as [|fuel']; [lia|]. cbn [parseValue]. pose proof (skip_length s) as Hs.
    destruct (skip s) as [|c r] eqn:E; [done|]. simpl in Hs. cbv zeta.
    rewrite (IHe r fuel'), (IHm r fuel') by lia. done.
  - intros s fuel' Hf. destruct fuel' as [|fuel']; [lia|]. cbn [parseElements]. rewrite (IHv s fuel') by lia.
    destruct (parseValue fuel' s) as [[v r]|] eqn:Hv; [|done]. apply (proj1 (parse_length fuel')) in Hv. simpl.
    pose proof (skip_length r) as Hr. destruct (skip r) as [|c r']; [done|]. simpl in Hr.
    by rewrite (IHe r' fuel') by lia.
  - intros s fuel' Hf. destruct fuel' as [|fuel']; [lia|]. cbn [parseMembers]. pose proof (skip_length s) as Hs.
    destruct (eatChar 34 _) as [r|] eqn:H1; [|done]. apply eatChar_length in H1. simpl.
    destruct (parseString r) as [[k r1]|] eqn:H2; [|done]. apply parseString_length in H2. simpl.
    pose proof (skip_length r1) as Hs1.
    destruct (eatChar 58 _) as [r2|] eqn:H3; [|done]. apply eatChar_length in H3. simpl.
    rewrite (IHv r2 fuel') by lia. destruct (parseValue fuel' r2) as [[v r3]|] eqn:H4; [|done].
    apply (proj1 (parse_length fuel')) in H4. simpl.
    pose proof (skip_length r3) as Hs3. destruct (skip r3) as [|c r']; [done|]. simpl in Hs3.
    by rewrite (IHm r' fuel') by lia.
Qed.

(** The parser ends: with any more fuel it gives the same answer, so a text that is
    refused is refused for what it says. *)
Theorem json_parser_terminates s fuel :
  (2 * String.length s + 2 ≤ fuel)%nat → parseValue fuel s = parseValue (2 * String.length s + 2) s.
Proof. intros Hf. symmetry. apply (proj1 (parse_fuel _)). lia. Qed.

(** ** Lines *)
(** No control characters: the text of a value is one line, whatever its strings hold. *)
Fixpoint printable (s : string) : bool :=
  match s with String c s => (32 <=? code c)%N && printable s | EmptyString => true end.

Lemma printable_app a b : printable (a +:+ b) = printable a && printable b.
Proof. induction a as [|c a IH]; [done|]. rewrite string_cons_app. simpl. by rewrite IH, andb_assoc. Qed.

Lemma rune_printable s n :
  runeSize s = Some n → n ≠ 1%nat → printable (takeString n s) = true.
Proof.
  intros Hr Hn. destruct s as [|b0 s]; [done|]. unfold runeSize, between in Hr.
  destruct (N.ltb_spec (code b0) 128) as [H0|H0]; [by injection Hr as <-|].
  destruct s as [|b1 s]; [done|]. destruct (_ && _) eqn:E2.
  { injection Hr as <-. apply andb_prop in E2 as [_ [E%N.leb_le _]%andb_prop]. simpl.
    by rewrite !(proj2 (N.leb_le _ _)) by lia. }
  clear E2. destruct s as [|b2 s]; [done|]. destruct (_ && _ && _) eqn:E3.
  { injection Hr as <-. apply andb_prop in E3 as [[_ [E%N.leb_le _]%andb_prop]%andb_prop [E'%N.leb_le _]%andb_prop].
    simpl. rewrite !(proj2 (N.leb_le _ _)); [done|lia| |lia]. destruct (code b0 =? 224)%N; lia. }
  clear E3. destruct s as [|b3 s]; [done|]. destruct (_ && _ && _ && _) eqn:E4; [|done]. injection Hr as <-.
  apply andb_prop in E4 as [[[_ [E%N.leb_le _]%andb_prop]%andb_prop [E'%N.leb_le _]%andb_prop]%andb_prop [E''%N.leb_le _]%andb_prop].
  simpl. rewrite !(proj2 (N.leb_le _ _)); [done|lia|lia| |lia]. destruct (code b0 =? 240)%N; lia.
Qed.

Lemma escapeChar_printable html c : (code c < 128)%N → printable (escapeChar html c) = true.
Proof.
  intros Hc. destruct c as [b0 b1 b2 b3 b4 b5 b6 []]; [exfalso; by destruct b0, b1, b2, b3, b4, b5, b6|].
  by destruct html, b0, b1, b2, b3, b4, b5, b6.
Qed.

Lemma escapeRune_printable html s n : runeSize s = Some n → printable (escapeRune html (takeString n s)) = true.
Proof.
  intros Hr. destruct (runeSize_spec s n Hr) as [Hrune _]. pose proof (rune_printable s n Hr) as Hp.
  remember (takeString n s) as r eqn:Er. destruct Hrune as [c Hc|c t Hc Ht]; [by apply escapeChar_printable|].
  unfold escapeRune. destruct t as [|c1 t]; [done|]. repeat (case_bool_decide; [reflexivity|]). apply Hp.
  intros ->. by destruct s.
Qed.

Lemma quote_printable html s : printable (quoteJSON html s) = true.
Proof.
  assert (∀ fuel s, printable (quoteBody html fuel s) = true) as Hb.
  { intros fuel. induction fuel as [|fuel IH]; intros [|c t]; try done. cbn [quoteBody].
    destruct (runeSize (String c t)) as [n|] eqn:Hr; rewrite printable_app, IH, andb_true_r; [|by vm_compute].
    by apply escapeRune_printable. }
  unfold quoteJSON. change (printable (String dquote ?t)) with (printable t). by rewrite printable_app, Hb.
Qed.

Lemma number_printable lit : validNumber lit = true → printable lit = true.
Proof.
  intros H%validNumber_all. induction lit as [|c s IH]; [done|]. simpl in *. apply andb_prop in H as [Hc Hs].
  rewrite IH by done. destruct c as [[] [] [] [] [] [] [] []]; done.
Qed.

Lemma compact_printable html v d : wf_json v = true → printable (print (compact html) d v) = true.
Proof.
  revert d. induction v as [|b|lit|s|l Hl|m Hm] using json_ind; intros d Hw.
  - done.
  - by destruct b.
  - by apply number_printable.
  - apply quote_printable.
  - destruct l as [|v l]; [done|]. apply Forall_cons in Hl as [Hv Hl]. simpl in Hw. apply andb_prop in Hw as [Hwv Hwl].
    change (print (compact html) d (JArr (v :: l))) with ("[" +:+ "" +:+ print (compact html) (S d) v +:+
      foldr (λ v s, "," +:+ "" +:+ print (compact html) (S d) v +:+ s) ("" +:+ "]") l).
    rewrite !printable_app, Hv by done. simpl. clear Hv Hwv.
    induction Hl as [|w l Hw' _ IH]; [done|]. simpl in Hwl. apply andb_prop in Hwl as [? ?]. simpl foldr.
    rewrite !printable_app, Hw', IH by done. done.
  - destruct m as [|[k v] m]; [done|]. apply Forall_cons in Hm as [Hv Hm]. simpl in Hw, Hv.
    apply andb_prop in Hw as [[_ Hwv]%andb_prop Hwm].
    change (print (compact html) d (JObj ((k, v) :: m))) with ("{" +:+ "" +:+ quoteJSON html k +:+ ":" +:+ "" +:+
      print (compact html) (S d) v +:+
      foldr (λ kv s, "," +:+ "" +:+ quoteJSON html kv.1 +:+ ":" +:+ "" +:+ print (compact html) (S d) kv.2 +:+ s)
        ("" +:+ "}") m).
    rewrite !printable_app, quote_printable, Hv by done. simpl. clear Hv Hwv.
    induction Hm as [|[k' w] m Hw' _ IH]; [done|]. simpl in Hwm, Hw'. apply andb_prop in Hwm as [[_ ?]%andb_prop ?].
    simpl foldr. rewrite !printable_app, quote_printable, Hw', IH by done. done.
Qed.
