(* ===== verification/FloatText.v ===== *)
(** * FloatText: the texts of [float64] in JSON ([strconv], [encoding/json])

    [ParseFloat] reads a JSON number as the nearest double, [FormatFloat] writes the
    shortest decimal that reads back as the same double, the nearest one if there are
    several: the contract of [strconv]. Doubles are the [spec_float] of [Prelude]. *)

From S2P Require Import Prelude GoStrings Strconv Models GoTime JsonString Json.

(** The double nearest to [m * 10 ^ e]. *)
Definition nearest (neg : bool) (m e : Z) : float64 :=
  match m with
  | Z.pos p =>
      if 0 <=? e then binary_normalize F64.prec F64.emax ((if neg then -1 else 1) * m * 10 ^ e) 0 neg
      else F64.div (S754_finite neg p 0) (S754_finite false (Z.to_pos (10 ^ (- e))) 0)
  | _ => S754_zero neg
  end.

(** A literal as sign, mantissa and decimal exponent. *)
Definition parseDecimal (s : string) : option (bool * Z * Z) :=
  let '(neg, s) := match eatChar 45 s with Some s => (true, s) | None => (false, s) end in
  let '(int, s) := spanDigits s in
  let '(frac, s) := match eatChar 46 s with Some s => spanDigits s | None => ("", s) end in
  let e := match (match eatChar 101 s with Some s => Some s | None => eatChar 69 s end) with
           | None => Some 0
           | Some s =>
               match eatChar 45 s with
               | Some s => Z.opp <$> parseDigits s 0
               | None => parseDigits (default s (eatChar 43 s)) 0
               end
           end in
  m ← parseDigits (int +:+ frac) 0;
  e ← e;
  Some (neg, m, e - Z.of_nat (String.length frac)).

(** A number too large for a double is an error. *)
Definition ParseFloat (s : string) : option float64 :=
  if validNumber s then
    '(neg, m, e) ← parseDecimal s;
    match nearest neg m e with S754_infinity _ | S754_nan => None | x => Some x end
  else None.

(** ** Formatting *)
Definition decimalLength (n : Z) : Z := Z.of_nat (String.length (pretty n)).

(** The digits [ds] with the decimal point behind the first [dp] of them: ['f'] and,
    with an exponent, ['e']. *)
Definition fixedText (ds : string) (dp : Z) : string :=
  let len := Z.of_nat (String.length ds) in
  if dp <=? 0 then "0." +:+ zeros (Z.to_nat (- dp)) +:+ ds
  else if len <=? dp then ds +:+ zeros (Z.to_nat (dp - len))
  else takeString (Z.to_nat dp) ds +:+ "." +:+ drop_string (Z.to_nat dp) ds.

Definition scientificText (ds : string) (dp : Z) : string :=
  takeString 1 ds +:+ (if bool_decide (drop_string 1 ds = "") then "" else "." +:+ drop_string 1 ds) +:+
  "e" +:+ (if dp - 1 <? 0 then "-" else "+") +:+ pretty (Z.abs (dp - 1)).

(** The encoder's choice between the two. *)
Definition decimalText (x : float64) (q k : Z) : string :=
  let ds := trimZeros (pretty q) in
  let dp := decimalLength q + k in
  let abs := SFabs x in
  (if F64.ltb x F64.zero then "-" else "") +:+
  (if F64.ltb abs (F64.lit 1 1000000) || F64.geb abs (F64.of_Z (10 ^ 21))
   then scientificText ds dp else fixedText ds dp).

(** With [n] digits: the decimals around [num / den], which lies between the powers
    [dp - 1] and [dp] of ten, the nearer one first. *)
Definition decimals (num den dp : Z) (n : nat) : list (Z * Z) :=
  let k := dp - Z.of_nat n in
  let '(a, b) := if 0 <=? k then (num, den * 10 ^ k) else (num * 10 ^ (- k), den) in
  let q := a / b in
  let r := a mod b in
  let up := (b <? 2 * r) || ((b =? 2 * r) && Z.odd q) in
  if up then [(q + 1, k); (q, k)] else [(q, k); (q + 1, k)].

Definition decimalExponent (num den : Z) : Z :=
  let d := decimalLength num - decimalLength den in
  if (if 0 <=? d then den * 10 ^ d <=? num else den <=? num * 10 ^ (- d)) then d + 1 else d.

(** Seventeen digits tell any two doubles apart. *)
Definition FormatFloat (x : float64) : option string :=
  match x with
  | S754_nan | S754_infinity _ => None
  | S754_zero neg => Some (if neg then "-0" else "0")
  | S754_finite _ m e =>
      let '(num, den) := if 0 <=? e then (Z.pos m * 2 ^ e, 1) else (Z.pos m, 2 ^ (- e)) in
      let dp := decimalExponent num den in
      let texts := '(q, k) ← seq 1 17 ≫= decimals num den dp; [decimalText x q k] in
      snd <$> list_find (λ s, ParseFloat s = Some x) texts
  end.

Example FormatFloat_examples :
  FormatFloat (F64.lit 1 10) = Some "0.1" ∧ FormatFloat (F64.of_Z 100) = Some "100" ∧
  FormatFloat (F64.div F64.one (F64.of_Z 3)) = Some "0.3333333333333333" ∧
  FormatFloat (F64.of_Z (10 ^ 21)) = Some "1e+21" ∧ FormatFloat (F64.lit (-15) 100000000) = Some "-1.5e-7" ∧
  FormatFloat (F64.of_Z (2 ^ 53)) = Some "9007199254740992" ∧
  FormatFloat (S754_finite false 1 (-1074)) = Some "5e-324" ∧
  FormatFloat (S754_finite false (2 ^ 53 - 1) 971) = Some "1.7976931348623157e+308" ∧
  FormatFloat (F64.add (F64.lit 1 10) (F64.lit 2 10)) = Some "0.30000000000000004" ∧
  ParseFloat "1e400" = None ∧ ParseFloat "-0.0" = Some (S754_zero true) ∧ ParseFloat "1E2" = Some (F64.of_Z 100) ∧
  ParseFloat ".5" = None.
Proof. by vm_compute. Qed.

(** What is formatted is a JSON number and reads back. *)
Lemma ParseFloat_valid s x : ParseFloat s = Some x → validNumber s = true.
Proof. unfold ParseFloat. by destruct (validNumber s). Qed.

Lemma FormatFloat_parse x s : FormatFloat x = Some s → ParseFloat s = Some x.
Proof.
  destruct x as [neg|neg| |neg m e]; simpl; [|done..|].
  - by destruct neg; intros [= <-].
  - destruct (if 0 <=? e then _ else _) as [num den].
    destruct (list_find _ _) as [[i t]|] eqn:Hf; [|done]. intros [= <-]. by apply list_find_Some in Hf as (_ & ? & _).
Qed.
