(* ===== verification/Codec.v ===== *)
(** * Codec: Go values and their JSON ([encoding/json])

    A codec encodes a value, which may fail, and decodes JSON into a value that is
    already there, as [Unmarshal] does into its target: [null] changes nothing, an array
    takes over the elements in place, a map keeps its keys, a struct its other fields.
    A struct is a list of fields with their tags. Values that satisfy [c_ok] have
    a text and are read back as they were, whatever codecs they are made of. A nil slice,
    which Go writes as [null], is an empty one here; both are decoded alike. *)

From S2P Require Import Prelude GoStrings Strconv Models GoTime JsonString Json JsonTheorems FloatText.

Record codec (A : Type) := mkCodec {
  c_zero : A;
  c_empty : A → bool;
  c_enc : A → option json;
  c_dec : json → A → option A;
  c_ok : A → Prop
}.
Arguments c_zero {A} c.
Arguments c_empty {A} c a.
Arguments c_enc {A} c a.
Arguments c_dec {A} c v a.
Arguments c_ok {A} c a.

(** What the codecs promise to each other. *)
Class CodecLaws {A} (c : codec A) : Prop := {
  codec_empty a : c_ok c a → c_empty c a = true → a = c_zero c;
  codec_reads a : c_ok c a → ∃ v, c_enc c a = Some v ∧ wf_json v = true ∧ c_dec c v (c_zero c) = Some a
}.

(** What a pointer may point to. *)
Class NeverNull {A} (c : codec A) : Prop := enc_never_null a : c_enc c a ≠ Some JNull.

(** ** Basic kinds *)
Definition stringCodec : codec string := {|
  c_zero := "";
  c_empty s := bool_decide (s = "");
  c_enc s := Some (JStr s);
  c_dec v s := match v with JNull => Some s | JStr s => Some s | _ => None end;
  c_ok s := utf8 s = true
|}.

Definition boolCodec : codec bool := {|
  c_zero := false;
  c_empty := negb;
  c_enc b := Some (JBool b);
  c_dec v b := match v with JNull => Some b | JBool b => Some b | _ => None end;
  c_ok b := True
|}.

(** [int], [int64] and [time.Duration]. *)
Definition intCodec : codec Z := {|
  c_zero := 0;
  c_empty n := n =? 0;
  c_enc n := Some (JNum (pretty n));
  c_dec v n := match v with JNull => Some n | JNum lit => ParseInt lit | _ => None end;
  c_ok := is_int64
|}.

(** A negative zero counts as empty. *)
Definition floatCodec : codec float64 := {|
  c_zero := F64.zero;
  c_empty x := F64.eqb x F64.zero;
  c_enc x := JNum <$> FormatFloat x;
  c_dec v x := match v with JNull => Some x | JNum lit => ParseFloat lit | _ => None end;
  c_ok x := x ≠ S754_zero true ∧ is_Some (FormatFloat x)
|}.

(** [time.Time]: never empty, for it is a struct. *)
Definition timeCodec : codec time := {|
  c_zero := zero_time;
  c_empty t := false;
  c_enc t := JStr <$> MarshalTime t;
  c_dec v t := match v with JNull => Some t | JStr s => UnmarshalTime s | _ => None end;
  c_ok := in_years
|}.

(** ** Pointers, slices and maps *)
Section composite.
Context {A} (c : codec A).

(** A pointer; what it points to is decoded into a new value if it was nil. *)
Definition pointerCodec : codec (option A) := {|
  c_zero := None;
  c_empty p := bool_decide (p = None);
  c_enc p := match p with Some a => c_enc c a | None => Some JNull end;
  c_dec v p := match v with JNull => Some None | _ => Some <$> c_dec c v (default (c_zero c) p) end;
  c_ok p := match p with Some a => c_ok c a | None => True end
|}.

(** A pointer that the program never has nil: [null] would leave a nil pointer, which
    it would follow; it is no value of this type. *)
Definition nonNilCodec : codec A := {|
  c_zero := c_zero c;
  c_empty p := false;
  c_enc p := c_enc c p;
  c_dec v p := match v with JNull => None | _ => c_dec c v p end;
  c_ok := c_ok c
|}.

(** The elements of an array, into those that are there. *)
Fixpoint decodeElements (vs : list json) (old : list A) : option (list A) :=
  match vs with
  | [] => Some []
  | v :: vs =>
      a ← c_dec c v (default (c_zero c) (head old));
      l ← decodeElements vs (tail old);
      Some (a :: l)
  end.

(** A slice; an empty one is written as [[]] when it is not omitted, and read from
    [null] as well. *)
Definition sliceCodec : codec (list A) := {|
  c_zero := [];
  c_empty l := bool_decide (l = []);
  c_enc l := JArr <$> mapM (c_enc c) l;
  c_dec v l := match v with JNull => Some [] | JArr vs => decodeElements vs l | _ => None end;
  c_ok l := Forall (c_ok c) l
|}.
End composite.

(** The order of the keys of a map: by bytes. *)
Fixpoint string_less (a b : string) : bool :=
  match a, b with
  | EmptyString, String _ _ => true
  | String c a, String d b => (code c <? code d)%N || (bool_decide (c = d) && string_less a b)
  | _, EmptyString => false
  end.

Fixpoint decodeEntries (kvs : list (string * json)) (m : gmap string string) : option (gmap string string) :=
  match kvs with
  | [] => Some m
  | (k, JNull) :: kvs => decodeEntries kvs (<[k := ""]> m)
  | (k, JStr s) :: kvs => decodeEntries kvs (<[k := s]> m)
  | _ => None
  end.

Definition mapCodec : codec (gmap string string) := {|
  c_zero := ∅;
  c_empty m := bool_decide (m = ∅);
  c_enc m := Some (JObj (prod_map id JStr <$> SliceStable (λ a b, string_less a.1 b.1) (map_to_list m)));
  c_dec v m := match v with JNull => Some ∅ | JObj kvs => decodeEntries kvs m | _ => None end;
  c_ok m := map_Forall (λ k s, utf8 k = true ∧ utf8 s = true) m
|}.

(** ** Structs *)
(** A field: its name, whether it is omitted when empty, and its place in [S]. *)
Record field (S : Type) := mkField {
  f_name : string;
  f_omitempty : bool;
  f_type : Type;
  f_codec : codec f_type;
  f_get : S → f_type;
  f_set : f_type → S → S
}.
Arguments mkField {S} _ _ {f_type} _ _ _.
Arguments f_name {S} f.
Arguments f_omitempty {S} f.
Arguments f_type {S} f.
Arguments f_codec {S} f.
Arguments f_get {S} f s.
Arguments f_set {S} f v s.

(** [foldName]: two keys that differ in case only are the same. The names of fields are
    ASCII; two runes outside fold to a letter. *)
Fixpoint foldName (s : string) : string :=
  match s with
  | EmptyString => ""
  | String c s' =>
      match code c, s' with
      | 197%N, String d r => if (code d =? 191)%N then String (chr 83) (foldName r) else String c (foldName s')
      | 226%N, String d (String e r) =>
          if (code d =? 132)%N && (code e =? 170)%N then String (chr 75) (foldName r)
          else String c (foldName s')
      | n, _ => String (if between 97 n 122 then chr (n - 32) else c) (foldName s')
      end
  end.

Section struct.
Context {S : Type}.

(** The field of a key: one with this name, or the first that differs in case only. *)
Definition fieldOf (fs : list (field S)) (key : string) : option (field S) :=
  match list_find (λ f, f_name f = key) fs with
  | Some (_, f) => Some f
  | None => snd <$> list_find (λ f, foldName (f_name f) = foldName key) fs
  end.

Fixpoint encodeFields (fs : list (field S)) (s : S) : option (list (string * json)) :=
  match fs with
  | [] => Some []
  | f :: fs =>
      if f_omitempty f && c_empty (f_codec f) (f_get f s) then encodeFields fs s
      else
        v ← c_enc (f_codec f) (f_get f s);
        m ← encodeFields fs s;
        Some ((f_name f, v) :: m)
  end.

(** A member: keys that are no field are passed over. *)
Definition decodeMember (fs : list (field S)) (kv : string * json) (s : S) : option S :=
  match fieldOf fs kv.1 with
  | None => Some s
  | Some f => (λ v, f_set f v s) <$> c_dec (f_codec f) kv.2 (f_get f s)
  end.

Fixpoint decodeMembers (fs : list (field S)) (m : list (string * json)) (s : S) : option S :=
  match m with
  | [] => Some s
  | kv :: m => s ← decodeMember fs kv s; decodeMembers fs m s
  end.

Definition structCodec (zero : S) (fs : list (field S)) : codec S := {|
  c_zero := zero;
  c_empty s := false;
  c_enc s := JObj <$> encodeFields fs s;
  c_dec v s := match v with JNull => Some s | JObj m => decodeMembers fs m s | _ => None end;
  c_ok s := Forall (λ f, c_ok (f_codec f) (f_get f s)) fs
|}.
End struct.

(** ** Texts of integers and times *)
Lemma dropDigits_all s acc n : parseDigits s acc = Some n → dropDigits s = "".
Proof.
  revert acc. induction s as [|c s IH]; [done|]. intros acc. simpl. destruct (isDigit c); [|done]. apply IH.
Qed.

Lemma pretty_go_head x s : (0 < x)%N → ∃ c t, pretty_N_go x s = String c t ∧ isDigit c = true ∧ code c ≠ 48%N.
Proof.
  revert s. induction (N.lt_wf_0 x) as [x _ IH]; intros s Hx. rewrite pretty_N_go_step by lia.
  destruct (decide (x `div` 10 = 0)%N) as [Hd|Hd].
  - rewrite Hd. assert (x < 10)%N as Hx' by (apply N.div_small_iff; [lia|exact Hd]).
    rewrite N.mod_small by done. simpl. do 2 eexists. split; [done|].
    assert (x = 1 ∨ x = 2 ∨ x = 3 ∨ x = 4 ∨ x = 5 ∨ x = 6 ∨ x = 7 ∨ x = 8 ∨ x = 9)%N as Hc by lia.
    by destruct_or! Hc; subst.
  - apply IH; [apply N.div_lt; lia|].
    by apply N.neq_0_lt_0.
Qed.

Lemma validNumber_pretty_N (x : N) : validNumber (pretty x) = true ∧ validNumber (String (chr 45) (pretty x)) = true.
Proof.
  destruct (decide (x = 0%N)) as [->|Hx]; [done|].
  destruct (parseDigits_pretty x) as [Hp _]. apply dropDigits_all in Hp.
  unfold pretty, pretty_N in *. rewrite decide_False in * by done.
  destruct (pretty_go_head x "") as (c & t & Hg & Hc & Hne); [lia|]. rewrite Hg in *. simpl in Hp. rewrite Hc in Hp.
  assert (code c ≠ 45%N) as H45. { intros E. unfold isDigit in Hc. fold (code c) in Hc. by rewrite E in Hc. }
  unfold validNumber. simpl. rewrite !(proj2 (N.eqb_neq _ _)) by done. simpl.
  rewrite !(proj2 (N.eqb_neq _ _)) by done. by rewrite Hc, Hp.
Qed.

Lemma validNumber_pretty (n : Z) : validNumber (pretty n) = true.
Proof.
  destruct n as [|x|x]; [done|by apply (validNumber_pretty_N (N.pos x))|by apply (validNumber_pretty_N (N.pos x))].
Qed.

Lemma allDigits_ascii s : allDigits s = true → ascii s = true.
Proof.
  induction s as [|c s IH]; [done|]. simpl. intros [Hc Hs]%andb_prop. rewrite IH by done.
  rewrite (proj2 (N.ltb_lt _ _)); [done|].
  unfold isDigit in Hc. unfold code. apply andb_prop in Hc as [_ Hc%N.leb_le]. lia.
Qed.

Lemma fracText_ascii n v : ascii (fracText n v) = true.
Proof.
  unfold fracText. case_bool_decide; [done|]. change (ascii (trimZeros (digits n v)) = true).
  apply allDigits_ascii. destruct (trimZeros_pad (digits n v)) as [k Hk].
  pose proof (allDigits_digits n v) as Hd. rewrite Hk, allDigits_app in Hd. by apply andb_prop in Hd as [? _].
Qed.

Lemma MarshalTime_utf8 t s : MarshalTime t = Some s → utf8 s = true.
Proof.
  unfold MarshalTime. destruct (date _) as [[year month] day]. destruct (_ && _); [|done].
  intros Hs. apply (inj Some) in Hs as <-. apply ascii_utf8. rewrite !ascii_app, fracText_ascii, !(allDigits_ascii _ (allDigits_digits _ _)). done.
Qed.

(** ** The laws of the basic kinds *)
#[export] Instance string_laws : CodecLaws stringCodec.
Proof. split; [intros a _ H; by apply bool_decide_eq_true in H|]. intros a Ha. by eexists. Qed.

#[export] Instance bool_laws : CodecLaws boolCodec.
Proof. split; [by intros []|]. intros a _. by eexists. Qed.

#[export] Instance int_laws : CodecLaws intCodec.
Proof.
  split; [intros a _ H; by apply Z.eqb_eq in H|]. intros a Ha. eexists. split; [done|]. simpl.
  rewrite ParseInt_pretty. unfold int64_or_none. rewrite decide_True by done. split; [|done].
  apply validNumber_pretty.
Qed.

#[export] Instance float_laws : CodecLaws floatCodec.
Proof.
  split.
  - intros [[]|[]| |[] m e] [Hne _] Hx; done.
  - intros x [_ [s Hs]]. exists (JNum s). simpl. rewrite Hs. apply FormatFloat_parse in Hs. split; [done|].
    split; [by eapply ParseFloat_valid|done].
Qed.

Lemma time_reads t :
  in_years t → ∃ v, JStr <$> MarshalTime t = Some v ∧ wf_json v = true ∧ c_dec timeCodec v zero_time = Some t.
Proof.
  intros Ht. destruct (MarshalTime_Some t Ht) as (s & Hs & Hu). exists (JStr s). rewrite Hs.
  split_and!; [done|by apply MarshalTime_utf8 in Hs|exact Hu].
Qed.

#[export] Instance time_laws : CodecLaws timeCodec.
Proof. split; [done|exact time_reads]. Qed.

#[export] Instance time_never_null : NeverNull timeCodec.
Proof. intros t. simpl. by destruct (MarshalTime t). Qed.

(** ** Composite kinds *)
Section laws.
Context {A} (c : codec A) `{!CodecLaws c}.

#[export] Instance pointer_laws `{!NeverNull c} : CodecLaws (pointerCodec c).
Proof.
  split; [intros a _ H; by apply bool_decide_eq_true in H|]. intros [a|] Ha; [|by exists JNull].
  destruct (codec_reads a Ha) as (v & Hv & Hw & Hd). exists v. split_and!; [done..|]. simpl. rewrite Hd.
  destruct v; try done. by apply enc_never_null in Hv.
Qed.

#[export] Instance nonNil_laws `{!NeverNull c} : CodecLaws (nonNilCodec c).
Proof.
  split; [done|]. intros a Ha.
  destruct (codec_reads (c := c) a Ha) as (v & Hv & Hw & Hd). exists v. split_and!; [done..|].
  simpl. destruct v; try done. by apply enc_never_null in Hv.
Qed.

Lemma decodeElements_enc l :
  Forall (c_ok c) l →
  ∃ vs, mapM (c_enc c) l = Some vs ∧ forallb wf_json vs = true ∧ decodeElements c vs [] = Some l.
Proof.
  induction 1 as [|a l Ha _ (vs & Hvs & Hws & Hds)]; [by exists []|].
  destruct (codec_reads a Ha) as (v & Hv & Hw & Hd). exists (v :: vs). simpl. by rewrite Hv, Hvs, Hw, Hws, Hd, Hds.
Qed.

#[export] Instance slice_laws : CodecLaws (sliceCodec c).
Proof.
  split; [intros a _ H; by apply bool_decide_eq_true in H|].
  intros l (vs & Hvs & Hws & Hds)%decodeElements_enc. exists (JArr vs). simpl. by rewrite Hvs.
Qed.
End laws.

(** A map is read back from its entries, in whatever order they stand. *)
Lemma decodeEntries_strings (l : list (string * string)) m :
  decodeEntries (prod_map id JStr <$> l) m = Some (foldl (λ m kv, <[kv.1 := kv.2]> m) m l).
Proof. revert m. induction l as [|[k s] l IH]; intros m; [done|]. simpl. apply IH. Qed.

Lemma insert_all (l : list (string * string)) (m : gmap string string) :
  l ≡ₚ map_to_list m → foldl (λ m kv, <[kv.1 := kv.2]> m) ∅ l = m.
Proof.
  intros Hl. assert (foldl (λ (m : gmap string string) kv, <[kv.1 := kv.2]> m) ∅ l = list_to_map (reverse l)) as ->.
  { clear Hl. induction l as [|[k s] l IH] using rev_ind; [done|].
    rewrite foldl_snoc, reverse_snoc, IH. done. }
  rewrite <- (list_to_map_to_list m). symmetry. apply list_to_map_proper.
  - apply NoDup_fst_map_to_list.
  - by rewrite reverse_Permutation.
Qed.

#[export] Instance map_laws : CodecLaws mapCodec.
Proof.
  split; [intros a _ H; by apply bool_decide_eq_true in H|]. intros m Hm. eexists. split; [done|].
  set (l := SliceStable _ _). pose proof (SliceStable_perm (λ a b, string_less a.1 b.1) (map_to_list m)) as Hl.
  fold l in Hl. split.
  - apply forallb_forall. intros kv Hkv. apply list_elem_of_In, list_elem_of_fmap in Hkv as ([k s] & -> & Hks). simpl.
    rewrite Hl in Hks. apply elem_of_map_to_list in Hks. by destruct (Hm k s Hks) as [-> ->].
  - simpl. rewrite decodeEntries_strings. f_equal. by apply insert_all.
Qed.

(** ** Structs *)
Section structLaws.
Context {S : Type}.
Implicit Types (f g : field S) (fs : list (field S)).

(** Setting a field leaves those behind it alone. *)
Fixpoint independent fs : Prop :=
  match fs with
  | [] => True
  | f :: fs => Forall (λ g, ∀ v s, f_get g (f_set f v s) = f_get g s) fs ∧ independent fs
  end.

(** What a list of fields has to be: the fields of [S], each with its own name. *)
Record fields_ok (zero : S) fs : Prop := {
  fo_names : NoDup (f_name <$> fs);
  fo_utf8 : Forall (λ f, utf8 (f_name f) = true) fs;
  fo_laws : Forall (λ f, CodecLaws (f_codec f)) fs;
  fo_zero : Forall (λ f, f_get f zero = c_zero (f_codec f)) fs;
  fo_same : Forall (λ f, ∀ s, f_set f (f_get f s) s = s) fs;
  fo_independent : independent fs;
  fo_all s : foldl (λ d f, f_set f (f_get f s) d) zero fs = s
}.

Lemma fieldOf_name fs f : NoDup (f_name <$> fs) → f ∈ fs → fieldOf fs (f_name f) = Some f.
Proof.
  intros Hnd Hf. unfold fieldOf. apply list_elem_of_lookup in Hf as [i Hi].
  rewrite (proj2 (list_find_Some _ fs i f)); [done|]. split_and!; [done..|].
  intros j g Hg Hj Hn. assert (j = i); [|lia]. eapply NoDup_lookup; [done|..].
  - by rewrite list_lookup_fmap, Hg.
  - by rewrite list_lookup_fmap, Hi, Hn.
Qed.

Lemma decode_encoded zero all fs s d :
  fields_ok zero all → (∀ f, f ∈ fs → f ∈ all) → independent fs →
  Forall (λ f, f_get f d = c_zero (f_codec f)) fs → Forall (λ f, c_ok (f_codec f) (f_get f s)) fs →
  ∃ m, encodeFields fs s = Some m ∧ forallb (λ kv, utf8 kv.1 && wf_json kv.2) m = true ∧
    decodeMembers all m d = Some (foldl (λ d f, f_set f (f_get f s) d) d fs).
Proof.
  intros Hall. revert d. induction fs as [|f fs IH]; intros d Hin Hind Hz Hok; simpl; [by exists []|].
  destruct Hind as [Hf Hind]. apply Forall_cons in Hz as [Hzf Hz], Hok as [Hokf Hok].
  assert (f ∈ all) as Hfa by (apply Hin; by left).
  pose proof (proj1 (Forall_forall _ _) (fo_laws _ _ Hall) f Hfa) as Hlaws. simpl in Hlaws.
  pose proof (proj1 (Forall_forall _ _) (fo_same _ _ Hall) f Hfa d) as Hsame. rewrite Hzf in Hsame.
  assert (Hz' : Forall (λ g, f_get g (f_set f (f_get f s) d) = c_zero (f_codec g)) fs).
  { apply Forall_forall. intros g Hg. rewrite Forall_forall in Hf, Hz. by rewrite Hf, Hz. }
  destruct (IH (f_set f (f_get f s) d)) as (m & Hm & Hws & Hds); [intros g Hg; apply Hin; by right|done..|].
  destruct (f_omitempty f && c_empty (f_codec f) (f_get f s)) eqn:Hom.
  - apply andb_prop in Hom as [_ He]. apply codec_empty in He; [|done]. rewrite He, Hsame in *. by exists m.
  - destruct (codec_reads _ Hokf) as (v & Hv & Hw & Hd). exists ((f_name f, v) :: m). simpl. rewrite Hv, Hm.
    pose proof (proj1 (Forall_forall _ _) (fo_utf8 _ _ Hall) f Hfa) as Hu. simpl in Hu. rewrite Hu, Hw, Hws.
    split_and!; [done..|]. unfold decodeMember. simpl. rewrite fieldOf_name by (done || apply Hall).
    by rewrite Hzf, Hd.
Qed.

Lemma struct_laws zero fs : fields_ok zero fs → CodecLaws (structCodec zero fs).
Proof.
  intros Hfs. split; [done|]. intros s Hs.
  destruct (decode_encoded zero fs fs s zero) as (m & Hm & Hw & Hd); try done; [apply Hfs..|].
  exists (JObj m). simpl. rewrite Hm. split_and!; [done..|]. rewrite Hd. f_equal. apply Hfs.
Qed.

#[export] Instance struct_never_null zero fs : NeverNull (structCodec zero fs).
Proof. intros s. simpl. by destruct (encodeFields fs s). Qed.

(** Members that are no field change nothing. *)
Lemma decodeMembers_app fs m m' s :
  decodeMembers fs (m ++ m') s = decodeMembers fs m s ≫= decodeMembers fs m'.
Proof.
  revert s. induction m as [|kv m IH]; intros s; [done|]. simpl. destruct (decodeMember fs kv s); [apply IH|done].
Qed.

Lemma decodeMembers_unknown fs m s : Forall (λ kv, fieldOf fs kv.1 = None) m → decodeMembers fs m s = Some s.
Proof.
  intros Hm. induction Hm as [|kv m Hkv _ IH]; [done|]. simpl. unfold decodeMember. by rewrite Hkv.
Qed.
End structLaws.

(** ** Rows of fields *)
(** The fields of a tuple, in order; [r <: (n, c)] is a row with one more field, which
    [<:?] omits when it is empty. A struct is a tuple up to its constructor. *)
Inductive row : Type → Type :=
| row_nil : row unit
| row_snoc {P A} (r : row P) (omitempty : bool) (f : string * codec A) : row (P * A).

Notation "r <: f" := (row_snoc r false f) (at level 50, left associativity) : nexus_scope.
Notation "r <:? f" := (row_snoc r true f) (at level 50, left associativity) : nexus_scope.

Definition liftField {P A} (f : field P) : field (P * A) :=
  mkField (f_name f) (f_omitempty f) (f_codec f) (λ p, f_get f p.1) (λ v p, (f_set f v p.1, p.2)).

Definition lastField {P A} (omitempty : bool) (f : string * codec A) : field (P * A) :=
  mkField f.1 omitempty f.2 snd (λ v p, (p.1, v)).

Fixpoint rowFields {P} (r : row P) : list (field P) :=
  match r with
  | row_nil => []
  | row_snoc r om f => (liftField <$> rowFields r) ++ [lastField om f]
  end.

Fixpoint rowZero {P} (r : row P) : P :=
  match r with row_nil => () | row_snoc r _ f => (rowZero r, c_zero f.2) end.

Fixpoint rowNames {P} (r : row P) : list string :=
  match r with row_nil => [] | row_snoc r _ f => rowNames r ++ [f.1] end.

Class RowLaws {P} (r : row P) : Prop := row_laws : Forall (λ f, CodecLaws (f_codec f)) (rowFields r).

#[export] Instance row_nil_laws : RowLaws row_nil.
Proof. constructor. Qed.

#[export] Instance row_snoc_laws {P A} (r : row P) om n (c : codec A) :
  RowLaws r → CodecLaws c → RowLaws (row_snoc r om (n, c)).
Proof.
  intros Hr Hc. apply Forall_app. split; [|by constructor]. apply Forall_fmap. apply (Forall_impl _ _ _ Hr). done.
Qed.

Lemma rowFields_names {P} (r : row P) : f_name <$> rowFields r = rowNames r.
Proof.
  induction r as [|P A r IH om f]; [done|]. simpl. rewrite fmap_app, <- IH. f_equal. by rewrite <- list_fmap_compose.
Qed.

Lemma lift_independent {P A} (fs : list (field P)) om (f : string * codec A) :
  independent fs → independent ((liftField <$> fs) ++ [lastField om f]).
Proof.
  induction fs as [|g fs IH]; [by repeat constructor|]. intros [Hg Hfs]. split; [|by apply IH].
  apply Forall_app. split; [|by repeat constructor]. apply Forall_fmap. apply (Forall_impl _ _ _ Hg).
  intros h Hh v s. simpl. by rewrite Hh.
Qed.

Lemma lift_all {P A} (fs : list (field P)) (s d : P * A) :
  foldl (λ d f, f_set f (f_get f s) d) d (liftField <$> fs) =
    (foldl (λ d f, f_set f (f_get f s.1) d) d.1 fs, d.2).
Proof. revert d. induction fs as [|f fs IH]; intros [d1 d2]; [done|]. simpl. by rewrite IH. Qed.

Lemma row_fields_ok {P} (r : row P) `{!RowLaws r} :
  NoDup (rowNames r) → Forall (λ n, utf8 n = true) (rowNames r) → fields_ok (rowZero r) (rowFields r).
Proof.
  intros Hn Hu. rewrite <- rowFields_names in Hn, Hu. apply Forall_fmap in Hu.
  split; [done|done|done|..]; clear.
  - induction r as [|P A r IH om f]; [constructor|]. apply Forall_app. split; [|by repeat constructor].
    apply Forall_fmap. by apply (Forall_impl _ _ _ IH).
  - induction r as [|P A r IH om f]; [constructor|]. apply Forall_app. split; [|by repeat constructor; intros []].
    apply Forall_fmap. apply (Forall_impl _ _ _ IH). intros g Hg [p a]. simpl. by rewrite Hg.
  - induction r as [|P A r IH om f]; [done|]. by apply lift_independent.
  - induction r as [|P A r IH om f]; [by intros []|]. intros [p a]. simpl. rewrite foldl_app, lift_all. simpl.
    by rewrite IH.
Qed.

(** The condition, field by field. *)
Fixpoint row_ok {P} (r : row P) : P → Prop :=
  match r with row_nil => λ _, True | row_snoc r _ f => λ p, row_ok r p.1 ∧ c_ok f.2 p.2 end.

Lemma row_ok_fields {P} (r : row P) p :
  row_ok r p ↔ Forall (λ f, c_ok (f_codec f) (f_get f p)) (rowFields r).
Proof.
  induction r as [|P A r IH om f]; [done|]. simpl. rewrite Forall_app, Forall_fmap, Forall_singleton, IH. done.
Qed.

(** The fields of a row, one goal each. *)
Ltac split_row := first [exact I | refine (conj _ _); [split_row|cbn [fst snd]]].

(** A struct with its tuple: [build] and [tuple] are inverse. *)
Section rowStruct.
Context {S P : Type} (r : row P) (tuple : S → P) (build : P → S).

Definition rowCodec : codec S :=
  let c := structCodec (rowZero r) (rowFields r) in
  {| c_zero := build (c_zero c);
     c_empty s := false;
     c_enc s := c_enc c (tuple s);
     c_dec v s := build <$> c_dec c v (tuple s);
     c_ok s := c_ok c (tuple s) |}.

Lemma rowCodec_laws `{!RowLaws r} :
  (∀ s, build (tuple s) = s) → (∀ p, tuple (build p) = p) →
  bool_decide (NoDup (rowNames r)) && forallb utf8 (rowNames r) = true → CodecLaws rowCodec.
Proof.
  intros Hbuild Htuple [Hn%bool_decide_eq_true Hu]%andb_prop. pose proof (row_fields_ok r Hn) as Hr.
  assert (Forall (λ n, utf8 n = true) (rowNames r)) as Hu'.
  { apply Forall_forall. intros n Hin. rewrite forallb_forall in Hu. apply Hu. by apply list_elem_of_In. }
  destruct (struct_laws _ _ (Hr Hu')) as [_ Henc]. split; [done|]. intros s Hs.
  destruct (Henc (tuple s) Hs) as (v & Hv & Hw & Hd). exists v. split_and!; [done..|].
  simpl in *. rewrite Htuple, Hd. simpl. by rewrite Hbuild.
Qed.

Lemma rowCodec_ok s : c_ok rowCodec s ↔ row_ok r (tuple s).
Proof. symmetry. apply row_ok_fields. Qed.

Lemma rowCodec_never_null : NeverNull rowCodec.
Proof. intros s. simpl. by destruct (encodeFields _ _). Qed.
End rowStruct.

(** ** What the text of a value carries *)
(** [f a] is what is read back from the text of [a]: its strings are UTF-8. *)
Class CarriedBy {A} (c : codec A) (f : A → A) : Prop := {
  carried_empty a : c_empty c (f a) = c_empty c a;
  carried_enc a : c_enc c (f a) = carried <$> c_enc c a;
  carried_ok a : c_ok c a → f a = a
}.

#[export] Instance string_carried : CarriedBy stringCodec asUTF8.
Proof. split; intros s; [|done|apply asUTF8_id]. simpl. apply bool_decide_ext, asUTF8_empty. Qed.

#[export] Instance bool_carried : CarriedBy boolCodec id.
Proof. split; reflexivity. Qed.

#[export] Instance int_carried : CarriedBy intCodec id.
Proof. split; reflexivity. Qed.

#[export] Instance float_carried : CarriedBy floatCodec id.
Proof.
  split; [reflexivity| |reflexivity]. intros x. simpl. by destruct (FormatFloat x).
Qed.

#[export] Instance time_carried : CarriedBy timeCodec id.
Proof.
  split; [reflexivity| |reflexivity]. intros t. simpl. destruct (MarshalTime t) as [s|] eqn:Ht; [|done]. simpl.
  by rewrite (asUTF8_id s) by by apply (MarshalTime_utf8 t).
Qed.

#[export] Instance pointer_carried {A} (c : codec A) f : CarriedBy c f → CarriedBy (pointerCodec c) (fmap f).
Proof.
  intros Hc. split; intros [a|]; [done|done|exact (carried_enc (c := c) a)|done| |done].
  intros Ha. simpl. f_equal. by apply (carried_ok (c := c)).
Qed.

#[export] Instance nonNil_carried {A} (c : codec A) f : CarriedBy c f → CarriedBy (nonNilCodec c) f.
Proof. intros Hc. split; [done|apply (carried_enc (c := c))|apply (carried_ok (c := c))]. Qed.

#[export] Instance slice_carried {A} (c : codec A) f : CarriedBy c f → CarriedBy (sliceCodec c) (fmap f).
Proof.
  intros Hc. split; [by intros []| |].
  2:{ intros l Hl. induction Hl as [|a l Ha _ IH]; [done|]. rewrite fmap_cons, IH. by rewrite (carried_ok (c := c)). }
  intros l. simpl.
  assert (mapM (c_enc c) (f <$> l) = map carried <$> mapM (c_enc c) l) as ->; [|by destruct (mapM _ l)].
  induction l as [|a l IH]; [done|]. rewrite fmap_cons. cbn [mapM]. rewrite carried_enc, IH.
  destruct (c_enc c a); [|done]. simpl. by destruct (mapM (c_enc c) l).
Qed.

Lemma encodeFields_app {S} (fs gs : list (field S)) s :
  encodeFields (fs ++ gs) s = m ← encodeFields fs s; m' ← encodeFields gs s; Some (m ++ m').
Proof.
  induction fs as [|f fs IH]; cbn [encodeFields app]; [simpl; by destruct (encodeFields gs s)|].
  destruct (_ && _); [done|]. destruct (c_enc _ _); [|done]. simpl. rewrite IH.
  destruct (encodeFields fs s); [|done]. simpl. by destruct (encodeFields gs s).
Qed.

Lemma encodeFields_lift {P A} (fs : list (field P)) (p : P * A) :
  encodeFields (liftField <$> fs) p = encodeFields fs p.1.
Proof.
  induction fs as [|f fs IH]; [done|]. rewrite fmap_cons. cbn [encodeFields]. by rewrite IH.
Qed.

Class CarriedRow {P} (r : row P) (f : P → P) : Prop := {
  carried_row p : forallb utf8 (rowNames r) = true →
    encodeFields (rowFields r) (f p) = map (λ kv, (asUTF8 kv.1, carried kv.2)) <$> encodeFields (rowFields r) p;
  carried_row_ok p : row_ok r p → f p = p
}.

#[export] Instance row_nil_carried : CarriedRow row_nil id.
Proof. by split. Qed.

#[export] Instance row_snoc_carried {P A} (r : row P) om n (c : codec A) f g :
  CarriedRow r f → CarriedBy c g → CarriedRow (row_snoc r om (n, c)) (prod_map f g).
Proof.
  intros Hr Hc. split.
  - intros [p a]. cbn [rowNames rowFields fst]. rewrite forallb_app. intros [Hn [Hu _]%andb_prop]%andb_prop.
    rewrite !encodeFields_app, !encodeFields_lift. cbn [prod_map fst snd]. rewrite (carried_row (r := r) p Hn).
    destruct (encodeFields (rowFields r) p) as [m|]; [|done]. cbn. rewrite carried_empty, carried_enc.
    destruct (om && c_empty c a); simpl; [by rewrite map_app|]. destruct (c_enc c a); simpl; [|done].
    rewrite map_app. simpl. by rewrite (asUTF8_id n).
  - intros [p a] [Hp Ha]. unfold prod_map. simpl in *. by rewrite (carried_row_ok (r := r)), (carried_ok (c := c)).
Qed.

Lemma rowCodec_carried {S P} (r : row P) (tuple : S → P) (build : P → S) f g `{!CarriedRow r f} :
  forallb utf8 (rowNames r) = true → (∀ s, tuple (g s) = f (tuple s)) → (∀ s, build (tuple s) = s) →
  CarriedBy (rowCodec r tuple build) g.
Proof.
  intros Hn Ht Hb. split; [done|..].
  - intros s. simpl. rewrite Ht, carried_row by done. by destruct (encodeFields _ _).
  - intros s Hs%rowCodec_ok. rewrite <- (Hb (g s)), Ht, (carried_row_ok (r := r)) by done. apply Hb.
Qed.

(** ** Texts *)
(** [json.Marshal], [Encoder.Encode] with and without indentation, [json.Unmarshal] and
    [Decoder.Decode] into a new value. *)
Section texts.
Context {A} (c : codec A).

Definition Marshal (a : A) : option string := print (compact true) 0 <$> c_enc c a.
Definition newline : string := String (chr 10) "".
Definition EncodeLine (a : A) : option string := (λ t, t +:+ newline) <$> Marshal a.
Definition EncodeIndent (a : A) : option string := (λ v, print indented 0 v +:+ newline) <$> c_enc c a.
Definition Unmarshal (s : string) : option A := v ← Unmarshal_json s; c_dec c v (c_zero c).
Definition DecodeText (s : string) : option A := v ← Decode_json s; c_dec c v (c_zero c).

Context `{!CodecLaws c}.

(** Each of them is undone by either reader. *)
Lemma Marshal_read a :
  c_ok c a → ∃ s, Marshal a = Some s ∧ Unmarshal s = Some a ∧ DecodeText s = Some a.
Proof.
  intros (v & Hv & Hw & Hd)%codec_reads. exists (print (compact true) 0 v).
  pose proof (print_Unmarshal (compact true) v "" (compact_ok true) Hw eq_refl) as Hu.
  pose proof (print_Decode (compact true) v "" (compact_ok true) Hw I) as Hr.
  rewrite string_app_nil_r in Hu, Hr. unfold Marshal, Unmarshal, DecodeText. by rewrite Hv, Hu, Hr.
Qed.

(** One line: NDJSON and event streams can be cut at line breaks. *)
Lemma Marshal_printable a s : c_ok c a → Marshal a = Some s → printable s = true.
Proof.
  intros (v & Hv & Hw & _)%codec_reads. unfold Marshal. rewrite Hv. intros [= <-]. by apply compact_printable.
Qed.

Lemma EncodeLine_read a :
  c_ok c a → ∃ s, EncodeLine a = Some s ∧ Unmarshal s = Some a ∧ DecodeText s = Some a.
Proof.
  intros (v & Hv & Hw & Hd)%codec_reads. exists (print (compact true) 0 v +:+ newline).
  unfold EncodeLine, Marshal, Unmarshal, DecodeText. rewrite Hv.
  by rewrite (print_Unmarshal _ _ _ (compact_ok true) Hw), (print_Decode _ _ _ (compact_ok true) Hw).
Qed.

Lemma EncodeIndent_read a :
  c_ok c a → ∃ s, EncodeIndent a = Some s ∧ Unmarshal s = Some a ∧ DecodeText s = Some a.
Proof.
  intros (v & Hv & Hw & Hd)%codec_reads. exists (print indented 0 v +:+ newline).
  unfold EncodeIndent, Unmarshal, DecodeText. rewrite Hv.
  by rewrite (print_Unmarshal _ _ _ indented_ok Hw), (print_Decode _ _ _ indented_ok Hw).
Qed.
(** What is read back of a value, whether its texts are UTF-8 or not. *)
Lemma EncodeIndent_carried f a :
  CarriedBy c f → c_ok c (f a) → ∃ s, EncodeIndent a = Some s ∧ DecodeText s = Some (f a).
Proof.
  intros Hc (v & Hv & Hw & Hd)%codec_reads. rewrite carried_enc in Hv.
  destruct (c_enc c a) as [v0|] eqn:Ha; [|done]. injection Hv as <-.
  exists (print indented 0 v0 +:+ newline). unfold EncodeIndent, DecodeText. rewrite Ha.
  rewrite print_Decode_carried; [done|exact indented_ok| |done].
  rewrite <- carried_numbers. by apply wf_json_numbers.
Qed.
End texts.
