(* ===== verification/OrderBook.v ===== *)
(** * OrderBook: the golden order book of [internal/correctness/orderbook.go]

    [GoldenOrderbook] keeps its resting orders behind pointers: the slices
    [buys] and [sells] and the map [index] refer to the same [bookEntry], whose
    [remainingQ] the matching loop decreases in place. The model has the heap
    of entries and pointers into it. Quantities and prices are [int64], the
    arrival counter is a [uint64]; the arithmetic wraps. *)

From S2P Require Import Prelude.

(** ** Data *)
Definition SideBuy : string := "buy".
Definition SideSell : string := "sell".
Definition KindLimit : string := "limit".
Definition KindMarket : string := "market".
Definition KindCancel : string := "cancel".

Record GoldenOrder := mkOrder {
  go_ID : string;
  go_Kind : string;
  go_Side : string;
  go_Price : Z;
  go_Quantity : Z
}.

Record GoldenFill := mkFill {
  gf_OrderID : string;
  gf_ExecutedPrice : Z;
  gf_ExecutedQty : Z;
  gf_Accepted : bool
}.

#[export] Instance GoldenFill_eq_dec : EqDecision GoldenFill.
Proof. solve_decision. Defined.

(** A resting limit order. *)
Record bookEntry := mkBookEntry {
  be_id : string;
  be_side : string;
  be_price : Z;
  be_quantity : Z;
  be_seq : Z;
  be_remainingQ : Z
}.

(** [*bookEntry]. *)
Abbreviation ptr := positive (only parsing).

Record GoldenOrderbook := mkBook {
  heap : gmap positive bookEntry;
  next_ptr : ptr;
  buys : list ptr;
  sells : list ptr;
  index : gmap string positive;
  seq : Z
}.

Definition nilEntry : bookEntry := mkBookEntry "" "" 0 0 0 0.

(** [*p]. *)
Definition deref (h : gmap positive bookEntry) (p : ptr) : bookEntry := default nilEntry (h !! p).

Definition set_remainingQ (q : Z) (e : bookEntry) : bookEntry :=
  mkBookEntry (be_id e) (be_side e) (be_price e) (be_quantity e) (be_seq e) q.

Definition NewGoldenOrderbook : GoldenOrderbook := mkBook ∅ 1 [] [] ∅ 0.

Inductive book_error :=
| ErrEmptyID
| ErrUnknownKind (kind : string).

(** ** Operations *)
Definition min64 (a b : Z) : Z := if a <? b then a else b.

(** [less] of [sortBuys]: higher price first, then earlier arrival. *)
Definition buyLess (a b : bookEntry) : bool :=
  if negb (be_price a =? be_price b) then be_price b <? be_price a
  else be_seq a <? be_seq b.

(** [less] of [sortSells]: lower price first, then earlier arrival. *)
Definition sellLess (a b : bookEntry) : bool :=
  if negb (be_price a =? be_price b) then be_price a <? be_price b
  else be_seq a <? be_seq b.

Definition sortBuys (g : GoldenOrderbook) : GoldenOrderbook :=
  mkBook (heap g) (next_ptr g)
    (SliceStable (λ i j, buyLess (deref (heap g) i) (deref (heap g) j)) (buys g))
    (sells g) (index g) (seq g).

Definition sortSells (g : GoldenOrderbook) : GoldenOrderbook :=
  mkBook (heap g) (next_ptr g) (buys g)
    (SliceStable (λ i j, sellLess (deref (heap g) i) (deref (heap g) j)) (sells g))
    (index g) (seq g).

(** The variables of the matching loop. [ms_book] is the side matched against. *)
Record matchState := mkMatch {
  ms_heap : gmap positive bookEntry;
  ms_book : list ptr;
  ms_index : gmap string positive;
  ms_remaining : Z;
  ms_totalExecutedQty : Z;
  ms_executedPrice : Z
}.

(** The loop [for len(book) > 0 && remaining > 0], with [stop price] the
    condition of its [break]. Every iteration takes the best entry out or
    exhausts [remaining], so [S (length book)] iterations are enough: see
    [matchLoop_refines] in [Refinement.v]. *)
Fixpoint matchLoop (fuel : nat) (stop : Z → bool) (m : matchState) : matchState :=
  match fuel with
  | O => m
  | S fuel =>
    match ms_book m with
    | [] => m
    | best :: rest =>
      if negb (0 <? ms_remaining m) then m else
      let e := deref (ms_heap m) best in
      if stop (be_price e) then m else
      let matchQty := min64 (ms_remaining m) (be_remainingQ e) in
      let left := i64 (be_remainingQ e - matchQty) in
      matchLoop fuel stop (mkMatch
        (<[best := set_remainingQ left e]> (ms_heap m))
        (if left =? 0 then rest else best :: rest)
        (if left =? 0 then delete (be_id e) (ms_index m) else ms_index m)
        (i64 (ms_remaining m - matchQty))
        (i64 (ms_totalExecutedQty m + matchQty))
        (be_price e))
    end
  end.

(** Matching against the asks (after [sortSells]) or the bids (after [sortBuys]). *)
Definition matchSells (stop : Z → bool) (qty : Z) (g : GoldenOrderbook)
    : matchState * GoldenOrderbook :=
  let g := sortSells g in
  let m := matchLoop (S (length (sells g))) stop
             (mkMatch (heap g) (sells g) (index g) qty 0 0) in
  (m, mkBook (ms_heap m) (next_ptr g) (buys g) (ms_book m) (ms_index m) (seq g)).

Definition matchBuys (stop : Z → bool) (qty : Z) (g : GoldenOrderbook)
    : matchState * GoldenOrderbook :=
  let g := sortBuys g in
  let m := matchLoop (S (length (buys g))) stop
             (mkMatch (heap g) (buys g) (index g) qty 0 0) in
  (m, mkBook (ms_heap m) (next_ptr g) (ms_book m) (sells g) (ms_index m) (seq g)).

(** [g.seq++]. *)
Definition bumpSeq (g : GoldenOrderbook) : GoldenOrderbook :=
  mkBook (heap g) (next_ptr g) (buys g) (sells g) (index g) (u64 (seq g + 1)).

(** The new entry of an unmatched remainder, appended to its side. *)
Definition restOrder (o : GoldenOrder) (remaining : Z) (g : GoldenOrderbook) : GoldenOrderbook :=
  let entry := mkBookEntry (go_ID o) (go_Side o) (go_Price o) (go_Quantity o) (seq g) remaining in
  let p := next_ptr g in
  mkBook (<[p := entry]> (heap g)) (Pos.succ p)
    (if bool_decide (go_Side o = SideBuy) then buys g ++ [p] else buys g)
    (if bool_decide (go_Side o = SideBuy) then sells g else sells g ++ [p])
    (<[go_ID o := p]> (index g)) (seq g).

Definition rejected (o : GoldenOrder) : GoldenFill := mkFill (go_ID o) 0 0 false.

Definition applyLimit (g : GoldenOrderbook) (o : GoldenOrder) : GoldenFill * GoldenOrderbook :=
  if go_Quantity o <=? 0 then (rejected o, g)
  else if go_Price o <=? 0 then (rejected o, g)
  else
    let g := bumpSeq g in
    let '(m, g) :=
      if bool_decide (go_Side o = SideBuy)
      then matchSells (λ p, go_Price o <? p) (go_Quantity o) g
      else matchBuys (λ p, p <? go_Price o) (go_Quantity o) g in
    let g := if 0 <? ms_remaining m then restOrder o (ms_remaining m) g else g in
    (mkFill (go_ID o) (ms_executedPrice m) (ms_totalExecutedQty m) true, g).

Definition applyMarket (g : GoldenOrderbook) (o : GoldenOrder) : GoldenFill * GoldenOrderbook :=
  if go_Quantity o <=? 0 then (rejected o, g)
  else
    let g := bumpSeq g in
    let '(m, g) :=
      if bool_decide (go_Side o = SideBuy)
      then matchSells (λ _, false) (go_Quantity o) g
      else matchBuys (λ _, false) (go_Quantity o) g in
    (mkFill (go_ID o) (ms_executedPrice m) (ms_totalExecutedQty m)
       (0 <? ms_totalExecutedQty m), g).

(** Removes the first entry with the id. *)
Fixpoint removeEntry (h : gmap positive bookEntry) (entries : list ptr) (id : string) : list ptr :=
  match entries with
  | [] => []
  | e :: rest => if bool_decide (be_id (deref h e) = id) then rest else e :: removeEntry h rest id
  end.

Definition applyCancel (g : GoldenOrderbook) (o : GoldenOrder) : GoldenFill * GoldenOrderbook :=
  match index g !! go_ID o with
  | None => (rejected o, g)
  | Some entry =>
    let index' := delete (go_ID o) (index g) in
    let g' :=
      if bool_decide (be_side (deref (heap g) entry) = SideBuy)
      then mkBook (heap g) (next_ptr g) (removeEntry (heap g) (buys g) (go_ID o))
             (sells g) index' (seq g)
      else mkBook (heap g) (next_ptr g) (buys g)
             (removeEntry (heap g) (sells g) (go_ID o)) index' (seq g) in
    (mkFill (go_ID o) 0 0 true, g')
  end.

Definition Apply (g : GoldenOrderbook) (o : GoldenOrder)
    : result book_error GoldenFill * GoldenOrderbook :=
  if bool_decide (go_ID o = "") then (Err ErrEmptyID, g)
  else if bool_decide (go_Kind o = KindCancel) then
    let '(f, g) := applyCancel g o in (Ok f, g)
  else if bool_decide (go_Kind o = KindLimit) then
    let '(f, g) := applyLimit g o in (Ok f, g)
  else if bool_decide (go_Kind o = KindMarket) then
    let '(f, g) := applyMarket g o in (Ok f, g)
  else (Err (ErrUnknownKind (go_Kind o)), g).

(** A sequence of orders applied to one book, with the fill of each. *)
Fixpoint ApplyAll (g : GoldenOrderbook) (os : list GoldenOrder)
    : list (result book_error GoldenFill) * GoldenOrderbook :=
  match os with
  | [] => ([], g)
  | o :: os => let '(f, g) := Apply g o in let '(fs, g) := ApplyAll g os in (f :: fs, g)
  end.

Definition limit (id side : string) (price qty : Z) : GoldenOrder :=
  mkOrder id KindLimit side price qty.
Definition market (id side : string) (qty : Z) : GoldenOrder :=
  mkOrder id KindMarket side 0 qty.
Definition cancel (id : string) : GoldenOrder := mkOrder id KindCancel "" 0 0.

Example book_smoke :
  (ApplyAll NewGoldenOrderbook
    [limit "a" SideBuy 10050 5; limit "b" SideBuy 10050 3; limit "c" SideBuy 10000 10;
     limit "d" SideSell 10000 5; limit "e" SideSell 10000 5; cancel "c"; cancel "a";
     market "f" SideSell 5]).1
  = [Ok (mkFill "a" 0 0 true); Ok (mkFill "b" 0 0 true); Ok (mkFill "c" 0 0 true);
     Ok (mkFill "d" 10050 5 true); Ok (mkFill "e" 10000 5 true);
     Ok (mkFill "c" 0 0 true); Ok (mkFill "a" 0 0 false); Ok (mkFill "f" 0 0 false)].
Proof. vm_compute. reflexivity. Qed.
