(* ===== verification/BookSpec.v ===== *)
(** * BookSpec: what a price-time priority book promises

    The abstract book has no pointers, no sorting and no index: each side is a
    finite map from order ids to resting orders, and matching repeatedly takes
    the order that has priority over every other one. [Refinement.v] proves
    that the golden book of [OrderBook.v] implements it. *)

From S2P Require Import Prelude OrderBook.

Record Resting := mkResting { r_price : Z; r_seq : Z; r_qty : Z }.

(** Priority on the ask side: lower price, then earlier arrival. On the bid
    side: higher price, then earlier arrival. *)
Definition ask_before (a b : Resting) : Prop :=
  r_price a < r_price b ∨ r_price a = r_price b ∧ r_seq a < r_seq b.
Definition bid_before (a b : Resting) : Prop :=
  r_price b < r_price a ∨ r_price a = r_price b ∧ r_seq a < r_seq b.

Record SpecBook := mkSpecBook {
  bids : gmap string Resting;
  asks : gmap string Resting;
  clock : Z
}.

Definition empty_spec : SpecBook := mkSpecBook ∅ ∅ 0.

(** One execution: the resting order, its price and the quantity matched. *)
Record Trade := mkTrade { t_id : string; t_price : Z; t_qty : Z }.

Definition total_qty (ts : list Trade) : Z := foldr (λ t n, t_qty t + n) 0 ts.

(** The price of the last execution, [p] when there is none. *)
Fixpoint last_price (p : Z) (ts : list Trade) : Z :=
  match ts with [] => p | t :: ts => last_price (t_price t) ts end.

Section matching.
Context (before : Resting → Resting → Prop) (crosses : Z → Prop).

(** [r] is in the book and has priority over every other resting order. *)
Definition is_best (m : gmap string Resting) (id : string) (r : Resting) : Prop :=
  m !! id = Some r ∧ ∀ id' r', m !! id' = Some r' → id' ≠ id → before r r'.

(** Matching a quantity against one side of the book. *)
Inductive spec_match :
    gmap string Resting → Z → list Trade → gmap string Resting → Z → Prop :=
| sm_filled m : spec_match m 0 [] m 0
| sm_no_cross m rem :
    0 < rem → (∀ id r, m !! id = Some r → ¬ crosses (r_price r)) →
    spec_match m rem [] m rem
| sm_partial m rem id r :
    is_best m id r → crosses (r_price r) → 0 < rem < r_qty r →
    spec_match m rem [mkTrade id (r_price r) rem]
      (<[id := mkResting (r_price r) (r_seq r) (r_qty r - rem)]> m) 0
| sm_full m rem id r ts m' rem' :
    is_best m id r → crosses (r_price r) → 0 < rem → r_qty r ≤ rem →
    spec_match (delete id m) (rem - r_qty r) ts m' rem' →
    spec_match m rem (mkTrade id (r_price r) (r_qty r) :: ts) m' rem'.
End matching.

Definition rest (o : GoldenOrder) (t rem : Z) (m : gmap string Resting) : gmap string Resting :=
  if decide (0 < rem) then <[go_ID o := mkResting (go_Price o) t rem]> m else m.

(** The effect of one order on the abstract book and the fill it is answered with. *)
Inductive spec_apply (b : SpecBook) (o : GoldenOrder) : GoldenFill → SpecBook → Prop :=
| sa_reject_quantity :
    go_Kind o = KindLimit ∨ go_Kind o = KindMarket → go_Quantity o ≤ 0 → spec_apply b o (mkFill (go_ID o) 0 0 false) b
| sa_reject_price :
    go_Kind o = KindLimit → 0 < go_Quantity o → go_Price o ≤ 0 →
    spec_apply b o (mkFill (go_ID o) 0 0 false) b
| sa_limit_buy ts asks' rem :
    go_Kind o = KindLimit → go_Side o = SideBuy → 0 < go_Quantity o → 0 < go_Price o →
    spec_match ask_before (λ p, p ≤ go_Price o) (asks b) (go_Quantity o) ts asks' rem →
    spec_apply b o (mkFill (go_ID o) (last_price 0 ts) (total_qty ts) true)
      (mkSpecBook (rest o (clock b + 1) rem (bids b)) asks' (clock b + 1))
| sa_limit_sell ts bids' rem :
    go_Kind o = KindLimit → go_Side o ≠ SideBuy → 0 < go_Quantity o → 0 < go_Price o →
    spec_match bid_before (λ p, go_Price o ≤ p) (bids b) (go_Quantity o) ts bids' rem →
    spec_apply b o (mkFill (go_ID o) (last_price 0 ts) (total_qty ts) true)
      (mkSpecBook bids' (rest o (clock b + 1) rem (asks b)) (clock b + 1))
| sa_market_buy ts asks' rem :
    go_Kind o = KindMarket → go_Side o = SideBuy → 0 < go_Quantity o →
    spec_match ask_before (λ _, True) (asks b) (go_Quantity o) ts asks' rem →
    spec_apply b o (mkFill (go_ID o) (last_price 0 ts) (total_qty ts) (bool_decide (ts ≠ [])))
      (mkSpecBook (bids b) asks' (clock b + 1))
| sa_market_sell ts bids' rem :
    go_Kind o = KindMarket → go_Side o ≠ SideBuy → 0 < go_Quantity o →
    spec_match bid_before (λ _, True) (bids b) (go_Quantity o) ts bids' rem →
    spec_apply b o (mkFill (go_ID o) (last_price 0 ts) (total_qty ts) (bool_decide (ts ≠ [])))
      (mkSpecBook bids' (asks b) (clock b + 1))
| sa_cancel :
    go_Kind o = KindCancel → is_Some (bids b !! go_ID o) ∨ is_Some (asks b !! go_ID o) →
    spec_apply b o (mkFill (go_ID o) 0 0 true)
      (mkSpecBook (delete (go_ID o) (bids b)) (delete (go_ID o) (asks b)) (clock b))
| sa_cancel_unknown :
    go_Kind o = KindCancel → bids b !! go_ID o = None → asks b !! go_ID o = None →
    spec_apply b o (mkFill (go_ID o) 0 0 false) b.

(** ** Facts about matching *)
Section matching_facts.
Context {before : Resting → Resting → Prop} {crosses : Z → Prop}.

Abbreviation matches := (spec_match before crosses).

Lemma spec_match_remaining m rem ts m' rem' :
  matches m rem ts m' rem' → 0 ≤ rem → 0 ≤ rem' ∧ rem = total_qty ts + rem'.
Proof. induction 1; simpl; intros; lia. Qed.

Lemma spec_match_lookup m rem ts m' rem' id r' :
  matches m rem ts m' rem' → m' !! id = Some r' →
  ∃ r, m !! id = Some r ∧ r_price r = r_price r' ∧ r_seq r = r_seq r' ∧ r_qty r' ≤ r_qty r.
Proof.
  induction 1 as [m|m rem Hrem Hno|m rem i r [Hi Hbest] Hc Hrem
                 |m rem i r ts m' rem' Hbest Hc Hrem Hq Hm IH]; intros Hl.
  - eauto with lia.
  - eauto with lia.
  - destruct (decide (i = id)) as [->|Hne].
    + rewrite lookup_insert_eq in Hl. injection Hl as <-. exists r. simpl. auto with lia.
    + rewrite lookup_insert_ne in Hl by done. eauto with lia.
  - destruct (IH Hl) as (r0 & Hr0 & ?).
    rewrite lookup_delete in Hr0. case_decide; [done|]. eauto.
Qed.

(** The resting orders keep a positive quantity. *)
Lemma spec_match_positive m rem ts m' rem' :
  matches m rem ts m' rem' →
  map_Forall (λ _ r, 0 < r_qty r) m → map_Forall (λ _ r, 0 < r_qty r) m'.
Proof.
  induction 1 as [m|m rem Hrem Hno|m rem i r [Hi Hbest] Hc Hrem
                 |m rem i r ts m' rem' Hbest Hc Hrem Hq Hm IH]; intros Hpos; auto.
  - apply map_Forall_insert_2; [simpl; lia|done].
  - apply IH. by apply map_Forall_delete.
Qed.

(** Unless the order is filled, nothing that crosses is left in the book. *)
Lemma spec_match_exhausts m rem ts m' rem' id r :
  matches m rem ts m' rem' → 0 < rem' → m' !! id = Some r → ¬ crosses (r_price r).
Proof. induction 1; intros; eauto; lia. Qed.

(** Every execution is at a price that crosses. *)
Lemma spec_match_crosses m rem ts m' rem' :
  matches m rem ts m' rem' → Forall (λ t, crosses (t_price t)) ts.
Proof. induction 1; repeat constructor; auto. Qed.

Lemma spec_match_trade_positive m rem ts m' rem' :
  matches m rem ts m' rem' → map_Forall (λ _ r, 0 < r_qty r) m →
  Forall (λ t, 0 < t_qty t) ts.
Proof.
  induction 1 as [m|m rem Hrem Hno|m rem i r [Hi Hbest] Hc Hrem
                 |m rem i r ts m' rem' [Hi Hbest] Hc Hrem Hq Hm IH]; intros Hpos; auto.
  - constructor; [simpl; lia|done].
  - constructor; [by apply (Hpos i r)|]. apply IH. by apply map_Forall_delete.
Qed.

(** Price-time priority: whatever was executed had priority over, or is, each
    order left in the book. *)
Lemma spec_match_priority `{!Transitive before} m rem ts m' rem' :
  matches m rem ts m' rem' →
  Forall (λ t, ∃ r, m !! t_id t = Some r ∧ r_price r = t_price t ∧
    ∀ id' r', m' !! id' = Some r' → id' ≠ t_id t →
      ∃ r0, m !! id' = Some r0 ∧ before r r0) ts.
Proof.
  induction 1 as [m|m rem Hrem Hno|m rem i r [Hi Hbest] Hc Hrem
                 |m rem i r ts m' rem' [Hi Hbest] Hc Hrem Hq Hm IH]; auto.
  - constructor; [|done]. exists r. split_and!; [done|done|]. simpl.
    intros id' r' Hl Hne. rewrite lookup_insert_ne in Hl by done. eauto.
  - constructor.
    + exists r. split_and!; [done|done|]. simpl. intros id' r' Hl Hne.
      destruct (spec_match_lookup _ _ _ _ _ _ _ Hm Hl) as (r0 & Hr0 & _).
      rewrite lookup_delete_ne in Hr0 by done. eauto.
    + eapply Forall_impl; [exact IH|]. simpl. intros t (r1 & Hr1 & Hp & Hall).
      rewrite lookup_delete in Hr1. case_decide as Hd; [done|].
      exists r1. split_and!; [done|done|]. intros id' r' Hl Hne.
      destruct (Hall id' r' Hl Hne) as (r0 & Hr0 & Hb).
      rewrite lookup_delete in Hr0. case_decide; [done|]. eauto.
Qed.
End matching_facts.

#[export] Instance ask_before_trans : Transitive ask_before.
Proof. unfold ask_before. intros [] [] []; simpl; lia. Qed.
#[export] Instance bid_before_trans : Transitive bid_before.
Proof. unfold bid_before. intros [] [] []; simpl; lia. Qed.
