(* ===== verification/Refinement.v ===== *)
(** * Refinement: the golden book implements the abstract book

    [abs] reads a [GoldenOrderbook] as a [SpecBook]; [book_wf] is the invariant
    of the pointer structure. Every operation keeps the invariant and is a step
    of the specification. *)

From S2P Require Import Prelude OrderBook BookSpec.

Definition resting_of (e : bookEntry) : Resting :=
  mkResting (be_price e) (be_seq e) (be_remainingQ e).
Definition kv (h : gmap positive bookEntry) (p : positive) : string * Resting :=
  (be_id (deref h p), resting_of (deref h p)).
Definition side_map (h : gmap positive bookEntry) (ls : list positive) : gmap string Resting :=
  list_to_map (kv h <$> ls).
Definition ids (h : gmap positive bookEntry) (ls : list positive) : list string :=
  (λ p, be_id (deref h p)) <$> ls.
Definition seqs (h : gmap positive bookEntry) (ls : list positive) : list Z :=
  (λ p, be_seq (deref h p)) <$> ls.

Definition abs (g : GoldenOrderbook) : SpecBook :=
  mkSpecBook (side_map (heap g) (buys g)) (side_map (heap g) (sells g)) (seq g).

Definition entry_ok (limit : Z) (e : bookEntry) : Prop :=
  0 < be_remainingQ e ∧ be_remainingQ e ≤ int64_max ∧ 0 < be_price e ∧ be_seq e ≤ limit.

(** A pointer to an order that rests in the book. *)
Definition resting (g : GoldenOrderbook) (p : positive) : Prop := p ∈ buys g ∨ p ∈ sells g.

Record book_wf (g : GoldenOrderbook) : Prop := {
  wf_nodup : NoDup (buys g ++ sells g);
  wf_ids p q : resting g p → resting g q →
    be_id (deref (heap g) p) = be_id (deref (heap g) q) → p = q;
  wf_seqs p q : resting g p → resting g q →
    be_seq (deref (heap g) p) = be_seq (deref (heap g) q) → p = q;
  wf_alloc p : resting g p → (p < next_ptr g)%positive;
  wf_entries p : resting g p → entry_ok (seq g) (deref (heap g) p);
  wf_buys p : p ∈ buys g → be_side (deref (heap g) p) = SideBuy;
  wf_sells p : p ∈ sells g → be_side (deref (heap g) p) ≠ SideBuy;
  wf_index id p : index g !! id = Some p ↔ resting g p ∧ be_id (deref (heap g) p) = id;
  wf_seq : 0 ≤ seq g
}.

Lemma new_wf : book_wf NewGoldenOrderbook.
Proof.
  unfold NewGoldenOrderbook. split; unfold resting; simpl; try (by constructor); try lia;
    set_solver.
Qed.

(** ** The heap *)
Lemma deref_insert_eq h p e : deref (<[p := e]> h) p = e.
Proof. unfold deref. by rewrite lookup_insert_eq. Qed.
Lemma deref_insert_ne h p q e : p ≠ q → deref (<[p := e]> h) q = deref h q.
Proof. intros. unfold deref. by rewrite lookup_insert_ne. Qed.

(** A slice of pointers only depends on the entries it points to. *)
Lemma fmap_deref_ext {A} (f : bookEntry → A) h h' (ls : list positive) :
  (∀ p, p ∈ ls → deref h' p = deref h p) →
  (λ p, f (deref h' p)) <$> ls = (λ p, f (deref h p)) <$> ls.
Proof.
  intros Hd. apply list_fmap_ext. intros i p Hp. f_equal. apply Hd.
  by apply list_elem_of_lookup_2 in Hp.
Qed.

Lemma ids_ext h h' ls :
  (∀ p, p ∈ ls → deref h' p = deref h p) → ids h' ls = ids h ls.
Proof. apply fmap_deref_ext. Qed.

Lemma seqs_ext h h' ls :
  (∀ p, p ∈ ls → deref h' p = deref h p) → seqs h' ls = seqs h ls.
Proof. apply fmap_deref_ext. Qed.

Lemma ids_cons h p ls : ids h (p :: ls) = be_id (deref h p) :: ids h ls.
Proof. done. Qed.

Lemma side_map_ext h h' ls :
  (∀ p, p ∈ ls → deref h' p = deref h p) → side_map h' ls = side_map h ls.
Proof.
  intros Hd. unfold side_map. f_equal.
  exact (fmap_deref_ext (λ e, (be_id e, resting_of e)) h h' ls Hd).
Qed.

Lemma side_map_fst h ls : (kv h <$> ls).*1 = ids h ls.
Proof. unfold ids. by rewrite <- list_fmap_compose. Qed.

Lemma side_map_perm h ls ls' :
  NoDup (ids h ls) → ls ≡ₚ ls' → side_map h ls = side_map h ls'.
Proof.
  intros Hnd Hp. unfold side_map. apply list_to_map_proper; [by rewrite side_map_fst|].
  by rewrite Hp.
Qed.

Lemma side_map_cons h p ls :
  side_map h (p :: ls) = <[be_id (deref h p) := resting_of (deref h p)]> (side_map h ls).
Proof. done. Qed.

Lemma side_map_app h ls ls' : side_map h (ls ++ ls') = side_map h ls ∪ side_map h ls'.
Proof. unfold side_map. by rewrite fmap_app, list_to_map_app. Qed.

Lemma side_map_lookup_None h ls id : side_map h ls !! id = None ↔ id ∉ ids h ls.
Proof. unfold side_map. by rewrite <- not_elem_of_list_to_map, side_map_fst. Qed.

Lemma side_map_lookup h ls id r :
  side_map h ls !! id = Some r →
  ∃ p, p ∈ ls ∧ be_id (deref h p) = id ∧ resting_of (deref h p) = r.
Proof.
  intros Hl. apply elem_of_list_to_map_2 in Hl.
  apply list_elem_of_fmap in Hl as (p & Hp & Hin). injection Hp as -> ->. eauto.
Qed.

Lemma side_map_lookup_2 h ls p :
  NoDup (ids h ls) → p ∈ ls →
  side_map h ls !! be_id (deref h p) = Some (resting_of (deref h p)).
Proof.
  intros Hnd Hp. apply elem_of_list_to_map_1; [by rewrite side_map_fst|].
  apply list_elem_of_fmap. by exists p.
Qed.

(** ** The matching loop *)
Section match_loop.
Context (before : Resting → Resting → Prop) (crosses : Z → Prop) (stop : Z → bool).
Context (Hstop : ∀ p, stop p = false ↔ crosses p).
(** A better order is the first to cross. *)
Context (Hmono : ∀ r r', before r r' → crosses (r_price r') → crosses (r_price r)).

Abbreviation matches := (spec_match before crosses).

(** What the loop needs of the side it works on: sorted entries, without
    duplicates, with positive quantities. *)
Record side_ok (limit : Z) (h : gmap positive bookEntry) (ls : list positive) : Prop := {
  so_nodup : NoDup ls;
  so_ids : NoDup (ids h ls);
  so_sorted : StronglySorted (λ p q, before (resting_of (deref h p)) (resting_of (deref h q))) ls;
  so_entries p : p ∈ ls → entry_ok limit (deref h p)
}.

Lemma side_ok_tail limit h p ls e :
  side_ok limit h (p :: ls) → side_ok limit (<[p := e]> h) ls.
Proof.
  intros [Hnd Hids Hs He]. apply NoDup_cons in Hnd as [Hp Hnd]. rewrite ids_cons in Hids.
  assert (Hd : ∀ q, q ∈ ls → deref (<[p := e]> h) q = deref h q).
  { intros q Hq. apply deref_insert_ne. by intros ->. }
  split; [done| | |].
  - rewrite (ids_ext h) by done. by apply NoDup_cons in Hids as [_ ?].
  - inversion Hs as [|? ? Hs' Hall]; subst. revert Hs' Hd. clear.
    induction 1 as [|q ls Hs IH Hall]; intros Hd; constructor.
    + apply IH. intros. apply Hd. by right.
    + rewrite Forall_forall in *. intros z Hz.
      rewrite !Hd by (by (left || right)). by apply Hall.
  - intros q Hq. rewrite Hd by done. apply He. by right.
Qed.

Lemma side_ok_is_best limit h p ls :
  side_ok limit h (p :: ls) →
  is_best before (side_map h (p :: ls)) (be_id (deref h p)) (resting_of (deref h p)).
Proof.
  intros [_ Hids Hs _]. split.
  - by rewrite side_map_cons, lookup_insert_eq.
  - intros id' r' Hl Hne. rewrite side_map_cons, lookup_insert_ne in Hl by done.
    apply side_map_lookup in Hl as (q & Hq & _ & <-).
    inversion Hs as [|? ? _ Hall]; subst. rewrite Forall_forall in Hall. by apply Hall.
Qed.

(** Nothing crosses when the best order does not. *)
Lemma side_ok_no_cross limit h p ls id r :
  side_ok limit h (p :: ls) → stop (be_price (deref h p)) = true →
  side_map h (p :: ls) !! id = Some r → ¬ crosses (r_price r).
Proof.
  intros Hok Hst Hl Hc.
  assert (crosses (be_price (deref h p))) as Hcp.
  { destruct (decide (id = be_id (deref h p))) as [->|Hne].
    - rewrite side_map_cons, lookup_insert_eq in Hl. by injection Hl as <-.
    - apply (Hmono (resting_of (deref h p)) r); [|done].
      by eapply (side_ok_is_best limit h p ls). }
  apply Hstop in Hcp. congruence.
Qed.

(** The loop is a matching of the specification. [out] are the entries taken
    out of the book, the others keep their identity. *)
Record loop_post (h : gmap positive bookEntry) (ls : list positive)
    (idx : gmap string positive) (rem tot px : Z) (m : matchState)
    (out : list positive) (ts : list Trade) : Prop := {
  lp_split : ls = out ++ ms_book m;
  lp_match : matches (side_map h ls) rem ts (side_map (ms_heap m) (ms_book m)) (ms_remaining m);
  lp_total : ms_totalExecutedQty m = tot + total_qty ts;
  lp_price : ms_executedPrice m = last_price px ts;
  lp_index id : ms_index m !! id = if decide (id ∈ ids h out) then None else idx !! id;
  lp_frame p : p ∉ ls → deref (ms_heap m) p = deref h p;
  lp_same p : p ∈ ms_book m → ∃ q, 0 < q ≤ be_remainingQ (deref h p) ∧
    deref (ms_heap m) p = set_remainingQ q (deref h p)
}.

Lemma loop_post_id h ls idx rem tot px :
  (∀ p, p ∈ ls → 0 < be_remainingQ (deref h p)) →
  matches (side_map h ls) rem [] (side_map h ls) rem →
  loop_post h ls idx rem tot px (mkMatch h ls idx rem tot px) [] [].
Proof.
  intros Hpos Hm. split; simpl; auto; [lia|].
  intros p Hp. exists (be_remainingQ (deref h p)). split; [specialize (Hpos p Hp); lia|].
  by destruct (deref h p).
Qed.

(** One iteration that takes the best entry out. *)
Lemma loop_post_full limit h p ls idx rem tot px m out ts :
  side_ok limit h (p :: ls) →
  crosses (be_price (deref h p)) → 0 < rem → be_remainingQ (deref h p) ≤ rem →
  loop_post (<[p := set_remainingQ 0 (deref h p)]> h) ls (delete (be_id (deref h p)) idx)
    (rem - be_remainingQ (deref h p)) (tot + be_remainingQ (deref h p)) (be_price (deref h p))
    m out ts →
  loop_post h (p :: ls) idx rem tot px m (p :: out)
    (mkTrade (be_id (deref h p)) (be_price (deref h p)) (be_remainingQ (deref h p)) :: ts).
Proof.
  intros Hok Hc Hrem Hq [Hsplit Hm Htot Hpx Hidx Hframe Hsame].
  pose proof (so_nodup _ _ _ Hok) as Hnd. apply NoDup_cons in Hnd as [Hp Hnd].
  pose proof (so_ids _ _ _ Hok) as Hids. rewrite ids_cons in Hids.
  apply NoDup_cons in Hids as [Hpid Hids].
  assert (Hd : ∀ q, q ∈ ls → deref (<[p := set_remainingQ 0 (deref h p)]> h) q = deref h q).
  { intros q Hq'. apply deref_insert_ne. by intros ->. }
  assert (Hout : ∀ q, q ∈ out → q ∈ ls) by (intros; rewrite Hsplit; apply elem_of_app; auto).
  assert (Hin : ∀ q, q ∈ ms_book m → q ∈ ls)
    by (intros; rewrite Hsplit; apply elem_of_app; auto).
  split; simpl.
  - by rewrite Hsplit.
  - apply (sm_full _ _ _ _ (be_id (deref h p)) (resting_of (deref h p)));
      [by eapply side_ok_is_best|done|done|done|].
    rewrite side_map_cons, delete_insert_id by (by apply side_map_lookup_None).
    by rewrite (side_map_ext h _ ls) in Hm.
  - lia.
  - done.
  - intros id. rewrite Hidx. rewrite (ids_ext h _ out) by auto.
    rewrite lookup_delete. repeat case_decide; set_solver.
  - intros q Hq'. rewrite Hframe by set_solver. apply deref_insert_ne. set_solver.
  - intros q Hq'. destruct (Hsame q Hq') as (n & Hn & ->). rewrite Hd in * by auto. eauto.
Qed.

(** One iteration that exhausts the order. *)
Lemma loop_post_partial limit h p ls idx rem tot px :
  side_ok limit h (p :: ls) →
  crosses (be_price (deref h p)) → 0 < rem < be_remainingQ (deref h p) →
  loop_post h (p :: ls) idx rem tot px
    (mkMatch (<[p := set_remainingQ (be_remainingQ (deref h p) - rem) (deref h p)]> h)
       (p :: ls) idx 0 (tot + rem) (be_price (deref h p)))
    [] [mkTrade (be_id (deref h p)) (be_price (deref h p)) rem].
Proof.
  intros Hok Hc Hrem.
  pose proof (so_nodup _ _ _ Hok) as Hnd. apply NoDup_cons in Hnd as [Hp Hnd].
  assert (Hd : ∀ q, q ≠ p → deref
    (<[p := set_remainingQ (be_remainingQ (deref h p) - rem) (deref h p)]> h) q = deref h q).
  { intros q Hq'. apply deref_insert_ne. by intros ->. }
  split; simpl; auto.
  - rewrite !side_map_cons, deref_insert_eq. simpl.
    rewrite (side_map_ext h (<[p:=_]> h) ls) by (intros; apply Hd; set_solver).
    rewrite <- (insert_insert_eq (side_map h ls) _
      (mkResting (be_price (deref h p)) (be_seq (deref h p)) (be_remainingQ (deref h p) - rem))
      (resting_of (deref h p))).
    apply (sm_partial _ _ _ _ (be_id (deref h p)) (resting_of (deref h p)));
      [by eapply side_ok_is_best|done|done].
  - lia.
  - intros q Hq. apply Hd. set_solver.
  - intros q Hq. destruct (decide (q = p)) as [->|Hne].
    + rewrite deref_insert_eq. eexists. split; [|done]. lia.
    + rewrite Hd by done. exists (be_remainingQ (deref h q)).
      assert (entry_ok limit (deref h q)) as [? _] by (by eapply so_entries).
      split; [lia|]. by destruct (deref h q).
Qed.

Lemma int64_pos z : 0 ≤ z ≤ int64_max → i64 z = z.
Proof. intros. apply i64_id. solve_int64. Qed.

Lemma matchLoop_done fuel h ls idx tot px :
  matchLoop fuel stop (mkMatch h ls idx 0 tot px) = mkMatch h ls idx 0 tot px.
Proof. by destruct fuel, ls. Qed.

(** With more fuel than entries the loop performs the specification's matching. *)
Lemma matchLoop_refines limit fuel h ls idx rem tot px :
  side_ok limit h ls → (length ls < fuel)%nat →
  0 ≤ rem → 0 ≤ tot → tot + rem ≤ int64_max →
  ∃ out ts, loop_post h ls idx rem tot px
    (matchLoop fuel stop (mkMatch h ls idx rem tot px)) out ts.
Proof.
  revert fuel h idx rem tot px.
  induction ls as [|p ls IH]; intros [|fuel] h idx rem tot px Hok Hf Hrem Htot Hmax;
    simpl in Hf; try lia.
  { exists [], []. apply loop_post_id; [set_solver|].
    destruct (decide (rem = 0)) as [->|]; [apply sm_filled|apply sm_no_cross; [lia|]].
    done. }
  assert (Hpos : ∀ q, q ∈ p :: ls → 0 < be_remainingQ (deref h q))
    by (intros q Hq; by apply (so_entries _ _ _ Hok)).
  destruct (so_entries _ _ _ Hok p) as (Hp & Hp' & _); [by left|].
  cbn [matchLoop ms_book ms_remaining ms_heap ms_index ms_totalExecutedQty].
  destruct (Z.ltb_spec 0 rem); cbn [negb]; [|].
  2: { exists [], []. assert (rem = 0) as -> by lia.
       apply loop_post_id; [done|apply sm_filled]. }
  destruct (stop (be_price (deref h p))) eqn:Hst.
  { exists [], []. apply loop_post_id; [done|]. apply sm_no_cross; [done|].
    intros. by eapply side_ok_no_cross. }
  apply Hstop in Hst. unfold min64.
  destruct (Z.ltb_spec rem (be_remainingQ (deref h p))) as [Hlt|Hge].
  - rewrite !(int64_pos (be_remainingQ _ - _)), (int64_pos (rem - rem)),
      (int64_pos (tot + rem)) by (unfold int64_max in *; lia).
    destruct (Z.eqb_spec (be_remainingQ (deref h p) - rem) 0); [lia|].
    rewrite Z.sub_diag, matchLoop_done.
    exists [], [mkTrade (be_id (deref h p)) (be_price (deref h p)) rem].
    eapply loop_post_partial; [done|done|lia].
  - rewrite Z.sub_diag.
    rewrite (int64_pos 0), (int64_pos (rem - _)), (int64_pos (tot + _))
      by (unfold int64_max in *; lia).
    simpl. destruct (IH fuel (<[p:=set_remainingQ 0 (deref h p)]> h)
      (delete (be_id (deref h p)) idx) (rem - be_remainingQ (deref h p))
      (tot + be_remainingQ (deref h p)) (be_price (deref h p))) as (out & ts & Hpost);
      [by apply side_ok_tail|lia|lia|lia|lia|].
    exists (p :: out), (mkTrade (be_id (deref h p)) (be_price (deref h p))
      (be_remainingQ (deref h p)) :: ts).
    by eapply loop_post_full.
Qed.
End match_loop.

(** ** From the sorted side to the loop *)
Ltac solve_less :=
  repeat match goal with |- context [?a =? ?b] => destruct (Z.eqb_spec a b); simpl end;
  rewrite ?Z.ltb_lt, ?Z.ltb_ge; lia.

#[export] Instance sellLess_swo (h : gmap positive bookEntry) :
  StrictWeakOrder (λ i j, sellLess (deref h i) (deref h j)).
Proof.
  split; unfold sellLess; intros *; solve_less.
Qed.

#[export] Instance buyLess_swo (h : gmap positive bookEntry) :
  StrictWeakOrder (λ i j, buyLess (deref h i) (deref h j)).
Proof.
  split; unfold buyLess; intros *; solve_less.
Qed.

Lemma sellLess_before a b :
  sellLess b a = false → be_seq a ≠ be_seq b → ask_before (resting_of a) (resting_of b).
Proof.
  unfold sellLess, ask_before. simpl.
  destruct (Z.eqb_spec (be_price b) (be_price a)); simpl; rewrite Z.ltb_ge; lia.
Qed.

Lemma buyLess_before a b :
  buyLess b a = false → be_seq a ≠ be_seq b → bid_before (resting_of a) (resting_of b).
Proof.
  unfold buyLess, bid_before. simpl.
  destruct (Z.eqb_spec (be_price b) (be_price a)); simpl; rewrite Z.ltb_ge; lia.
Qed.

(** A side of a well-formed book, once sorted, is ready for the loop. *)
Lemma sorted_side_ok before less limit h ls :
  (∀ a b, less b a = false → be_seq a ≠ be_seq b → before (resting_of a) (resting_of b)) →
  StrictWeakOrder (λ i j, less (deref h i) (deref h j)) →
  NoDup ls →
  (∀ p q, p ∈ ls → q ∈ ls → be_id (deref h p) = be_id (deref h q) → p = q) →
  (∀ p q, p ∈ ls → q ∈ ls → be_seq (deref h p) = be_seq (deref h q) → p = q) →
  (∀ p, p ∈ ls → entry_ok limit (deref h p)) →
  side_ok before limit h (SliceStable (λ i j, less (deref h i) (deref h j)) ls).
Proof.
  intros Hless Hswo Hnd Hids Hseqs He.
  pose proof (SliceStable_sorted _ ls) as Hs.
  pose proof (SliceStable_perm (λ i j, less (deref h i) (deref h j)) ls) as Hp.
  revert Hs Hp. generalize (SliceStable (λ i j, less (deref h i) (deref h j)) ls).
  intros ls' Hs Hp. assert (NoDup ls') as Hnd' by (by rewrite Hp).
  split.
  - done.
  - unfold ids. apply NoDup_fmap_2_strong; [|done].
    intros p q. rewrite Hp. auto.
  - assert (Hin : ∀ p, p ∈ ls' → p ∈ ls) by (intros p; by rewrite Hp).
    clear Hp. revert Hnd' Hin. unfold sorted_by in Hs.
    induction Hs as [|p ls' Hs IH Hall]; intros Hnd' Hin; constructor.
    + apply NoDup_cons in Hnd' as [_ ?]. apply IH; [done|]. intros q ?. apply Hin. by right.
    + rewrite Forall_forall in *. intros q Hq. apply Hless; [by apply Hall|].
      intros Heq. apply NoDup_cons in Hnd' as [Hn _]. apply Hn.
      rewrite (Hseqs p q); [done| | |done]; apply Hin; by (left || right).
  - intros p. rewrite Hp. apply He.
Qed.

(** ** The invariant after a match *)
Lemma shrink_wf g g' :
  book_wf g → next_ptr g' = next_ptr g → seq g ≤ seq g' →
  NoDup (buys g' ++ sells g') →
  (∀ p, p ∈ buys g' → p ∈ buys g) → (∀ p, p ∈ sells g' → p ∈ sells g) →
  (∀ p, resting g' p → ∃ q, 0 < q ≤ be_remainingQ (deref (heap g) p) ∧
    deref (heap g') p = set_remainingQ q (deref (heap g) p)) →
  (∀ id p, index g' !! id = Some p ↔ resting g' p ∧ be_id (deref (heap g) p) = id) →
  book_wf g'.
Proof.
  intros [Hnd Hids Hseqs Halloc He Hb Hs Hidx Hseq] Hnext Hseq' Hnd' Hb' Hs' Hsame Hidx'.
  assert (Hr : ∀ p, resting g' p → resting g p) by (unfold resting; naive_solver).
  assert (Hf : ∀ p, resting g' p → be_id (deref (heap g') p) = be_id (deref (heap g) p) ∧
    be_seq (deref (heap g') p) = be_seq (deref (heap g) p) ∧
    be_side (deref (heap g') p) = be_side (deref (heap g) p)).
  { intros p Hp. by destruct (Hsame p Hp) as (q & _ & ->). }
  split; [done|..].
  - intros p q Hp Hq. destruct (Hf p Hp) as [-> _], (Hf q Hq) as [-> _]. auto.
  - intros p q Hp Hq. destruct (Hf p Hp) as (_ & -> & _), (Hf q Hq) as (_ & -> & _). auto.
  - intros p Hp. rewrite Hnext. auto.
  - intros p Hp. destruct (Hsame p Hp) as (q & Hq & ->).
    destruct (He p (Hr p Hp)) as (? & ? & ? & ?). unfold entry_ok. simpl. lia.
  - intros p Hp. destruct (Hf p) as (_ & _ & ->); [by left|]. auto.
  - intros p Hp. destruct (Hf p) as (_ & _ & ->); [by right|]. auto.
  - intros id p. rewrite Hidx'. split; intros [Hp Hid]; (split; [done|]);
      destruct (Hf p Hp) as [Heq _]; congruence.
  - lia.
Qed.

(** The index after the loop: the entries taken out are gone, the others are
    where they were. [other] is the side the loop does not touch. *)
Lemma loop_index g other out book (idx' : gmap string positive) :
  book_wf g → NoDup (other ++ out ++ book) →
  (∀ p, resting g p ↔ p ∈ other ∨ p ∈ out ++ book) →
  (∀ id, idx' !! id = if decide (id ∈ ids (heap g) out) then None else index g !! id) →
  ∀ id p, idx' !! id = Some p ↔ (p ∈ other ∨ p ∈ book) ∧ be_id (deref (heap g) p) = id.
Proof.
  intros Hwf Hnd Hr Hidx id p. rewrite Hidx.
  rewrite app_assoc, NoDup_app in Hnd. destruct Hnd as (Hnd & Hdisj & _).
  apply NoDup_app in Hnd as (_ & Hdisj' & _). unfold ids.
  case_decide as Hd.
  - split; [done|]. intros [Hp Hid]. exfalso.
    apply list_elem_of_fmap in Hd as (q & Hq & Hqo).
    assert (p = q) as ->.
    { apply (wf_ids _ Hwf); [apply Hr..|congruence]; rewrite elem_of_app; tauto. }
    destruct Hp as [Hp|Hp]; [by apply (Hdisj' q)|].
    apply (Hdisj q); [|done]. rewrite elem_of_app. tauto.
  - rewrite (wf_index _ Hwf), Hr, elem_of_app. split; [|tauto].
    intros [Hp Hid]. split; [|done]. destruct Hp as [|[Hp|]]; [tauto| |tauto].
    exfalso. apply Hd. apply list_elem_of_fmap. by exists p.
Qed.

(** [g'] keeps some of the entries of [g], with their identity. *)
Definition keeps (g g' : GoldenOrderbook) : Prop :=
  next_ptr g' = next_ptr g ∧ seq g' = seq g ∧
  ∀ p, resting g' p → resting g p ∧
    be_id (deref (heap g') p) = be_id (deref (heap g) p) ∧
    be_seq (deref (heap g') p) = be_seq (deref (heap g) p).

Lemma keeps_of_entries g g' :
  next_ptr g' = next_ptr g → seq g' = seq g →
  (∀ p, resting g' p → resting g p) →
  (∀ p, resting g' p → ∃ q, 0 < q ≤ be_remainingQ (deref (heap g) p) ∧
    deref (heap g') p = set_remainingQ q (deref (heap g) p)) →
  keeps g g'.
Proof.
  intros Hn Hs Hr He. split_and!; [done|done|]. intros p Hp.
  destruct (He p Hp) as (q & _ & ->). auto.
Qed.

(** What the loop leaves of a well-formed book, whichever side it worked on. *)
Record side_post (g : GoldenOrderbook) (other mine : list positive) (m : matchState) : Prop := {
  sp_nodup : NoDup (other ++ ms_book m);
  sp_subset p : p ∈ ms_book m → p ∈ mine;
  sp_other p : p ∈ other → deref (ms_heap m) p = deref (heap g) p;
  sp_entries p : p ∈ other ∨ p ∈ ms_book m →
    ∃ q, 0 < q ≤ be_remainingQ (deref (heap g) p) ∧
      deref (ms_heap m) p = set_remainingQ q (deref (heap g) p);
  sp_index id p : ms_index m !! id = Some p ↔
    (p ∈ other ∨ p ∈ ms_book m) ∧ be_id (deref (heap g) p) = id
}.

Lemma loop_side_post before crosses g other mine ls rem tot px m out ts :
  book_wf g → NoDup (other ++ mine) → (∀ p, resting g p ↔ p ∈ other ∨ p ∈ mine) → ls ≡ₚ mine →
  loop_post before crosses (heap g) ls (index g) rem tot px m out ts →
  side_post g other mine m.
Proof.
  intros Hwf Hnd Hr Hp [Hsplit _ _ _ Hidx Hframe Hsame].
  assert (Hnd' : NoDup (other ++ out ++ ms_book m)) by (by rewrite <- Hsplit, Hp).
  assert (Hb : ∀ p, p ∈ other → deref (ms_heap m) p = deref (heap g) p).
  { intros p Hpb. apply Hframe. rewrite Hp. intros Hps.
    by apply (proj1 (proj2 (proj1 (NoDup_app _ _) Hnd)) p). }
  split.
  - rewrite app_assoc, (Permutation_app_comm other), <- app_assoc in Hnd'.
    by apply NoDup_app in Hnd' as (_ & _ & ?).
  - intros p Hpb. rewrite <- Hp, Hsplit. apply elem_of_app. by right.
  - done.
  - intros p [Hpb|Hpm]; [|by apply Hsame]. rewrite Hb by done.
    destruct (wf_entries _ Hwf p) as (? & _); [apply Hr; by left|].
    exists (be_remainingQ (deref (heap g) p)). split; [lia|by destruct (deref (heap g) p)].
  - apply (loop_index g _ out); [done..| |done].
    intros p. by rewrite Hr, <- Hsplit, Hp.
Qed.

Section match_side.
Context (crosses : Z → Prop) (stop : Z → bool) (qty : Z).
Context (Hstop : ∀ p, stop p = false ↔ crosses p) (Hqty : 0 < qty ≤ int64_max).

Lemma matchSells_ok g :
  (∀ r r', ask_before r r' → crosses (r_price r') → crosses (r_price r)) →
  book_wf g →
  let '(m, g') := matchSells stop qty g in
  ∃ ts, spec_match ask_before crosses (asks (abs g)) qty ts (asks (abs g')) (ms_remaining m) ∧
    bids (abs g') = bids (abs g) ∧ ms_totalExecutedQty m = total_qty ts ∧
    ms_executedPrice m = last_price 0 ts ∧ book_wf g' ∧ keeps g g'.
Proof.
  intros Hmono Hwf. unfold matchSells, sortSells.
  cbn [heap next_ptr buys sells index seq].
  set (ls := SliceStable _ (sells g)).
  assert (Hp : ls ≡ₚ sells g) by apply SliceStable_perm.
  assert (Hok : side_ok ask_before (seq g) (heap g) ls).
  { apply (sorted_side_ok ask_before sellLess); [by apply sellLess_before|apply _|..].
    - by destruct (proj1 (NoDup_app _ _) (wf_nodup _ Hwf)) as (_ & _ & ?).
    - intros p q ??. apply (wf_ids _ Hwf); by right.
    - intros p q ??. apply (wf_seqs _ Hwf); by right.
    - intros p ?. apply (wf_entries _ Hwf); by right. }
  destruct (matchLoop_refines ask_before crosses stop Hstop Hmono (seq g)
    (S (length ls)) (heap g) ls (index g) qty 0 0 Hok) as (out & ts & Hpost); [lia..|].
  revert Hpost. generalize (matchLoop (S (length ls)) stop (mkMatch (heap g) ls (index g) qty 0 0)).
  intros m Hpost. exists ts.
  destruct (loop_side_post _ _ g (buys g) (sells g) ls _ _ _ _ _ _ Hwf (wf_nodup _ Hwf)
    (λ p, reflexivity _) Hp Hpost) as [Hnd Hsub Hoth Hent Hidx].
  destruct Hpost as [_ Hm Htot Hpx _ _ _].
  split_and!; [| |done|done| |].
  - unfold abs. simpl. rewrite (side_map_perm _ (sells g) ls); [done| |done].
    unfold ids. rewrite <- Hp. apply (so_ids _ _ _ _ Hok).
  - unfold abs. simpl. by apply side_map_ext.
  - by apply (shrink_wf g).
  - apply keeps_of_entries; [done..| |done]. intros p [?|?]; [by left|right; by apply Hsub].
Qed.

Lemma matchBuys_ok g :
  (∀ r r', bid_before r r' → crosses (r_price r') → crosses (r_price r)) →
  book_wf g →
  let '(m, g') := matchBuys stop qty g in
  ∃ ts, spec_match bid_before crosses (bids (abs g)) qty ts (bids (abs g')) (ms_remaining m) ∧
    asks (abs g') = asks (abs g) ∧ ms_totalExecutedQty m = total_qty ts ∧
    ms_executedPrice m = last_price 0 ts ∧ book_wf g' ∧ keeps g g'.
Proof.
  intros Hmono Hwf. unfold matchBuys, sortBuys.
  cbn [heap next_ptr buys sells index seq].
  set (ls := SliceStable _ (buys g)).
  assert (Hp : ls ≡ₚ buys g) by apply SliceStable_perm.
  assert (Hok : side_ok bid_before (seq g) (heap g) ls).
  { apply (sorted_side_ok bid_before buyLess); [by apply buyLess_before|apply _|..].
    - by destruct (proj1 (NoDup_app _ _) (wf_nodup _ Hwf)) as (? & _ & _).
    - intros p q ??. apply (wf_ids _ Hwf); by left.
    - intros p q ??. apply (wf_seqs _ Hwf); by left.
    - intros p ?. apply (wf_entries _ Hwf); by left. }
  destruct (matchLoop_refines bid_before crosses stop Hstop Hmono (seq g)
    (S (length ls)) (heap g) ls (index g) qty 0 0 Hok) as (out & ts & Hpost); [lia..|].
  revert Hpost. generalize (matchLoop (S (length ls)) stop (mkMatch (heap g) ls (index g) qty 0 0)).
  intros m Hpost. exists ts.
  assert (Hnd0 : NoDup (sells g ++ buys g)).
  { rewrite Permutation_app_comm. apply (wf_nodup _ Hwf). }
  destruct (loop_side_post _ _ g (sells g) (buys g) ls _ _ _ _ _ _ Hwf Hnd0
    (λ p, or_comm _ _) Hp Hpost) as [Hnd Hsub Hoth Hent Hidx].
  destruct Hpost as [_ Hm Htot Hpx _ _ _].
  split_and!; [| |done|done| |].
  - unfold abs. simpl. rewrite (side_map_perm _ (buys g) ls); [done| |done].
    unfold ids. rewrite <- Hp. apply (so_ids _ _ _ _ Hok).
  - unfold abs. simpl. by apply side_map_ext.
  - apply (shrink_wf g); simpl; [done|done|lia| |done|done| |].
    + by rewrite Permutation_app_comm.
    + intros p [?|?]; apply Hent; auto.
    + intros id p. rewrite Hidx. unfold resting. simpl. tauto.
  - apply keeps_of_entries; [done|done| |].
    + intros p [?|?]; [left; by apply Hsub|by right].
    + intros p [?|?]; apply Hent; auto.
Qed.
End match_side.

(** ** Resting a remainder *)
Lemma side_map_snoc h p e ls :
  p ∉ ls → be_id e ∉ ids h ls →
  side_map (<[p := e]> h) (ls ++ [p]) = <[be_id e := resting_of e]> (side_map h ls).
Proof.
  intros Hp Hid. rewrite side_map_app, (side_map_ext h _ ls).
  - unfold side_map at 2. simpl. unfold kv. rewrite deref_insert_eq.
    rewrite insert_empty. symmetry. apply insert_union_singleton_r.
    by apply side_map_lookup_None.
  - intros q Hq. apply deref_insert_ne. by intros ->.
Qed.

Definition rest_ok (g : GoldenOrderbook) (o : GoldenOrder) (rem : Z) : Prop :=
  0 < rem ≤ int64_max ∧ 0 < go_Price o ∧
  (∀ p, resting g p → be_id (deref (heap g) p) ≠ go_ID o) ∧
  (∀ p, resting g p → be_seq (deref (heap g) p) < seq g).

Lemma buys_rest o rem g p :
  p ∈ buys (restOrder o rem g) → go_Side o = SideBuy ∧ p = next_ptr g ∨ p ∈ buys g.
Proof.
  unfold restOrder. simpl. case_bool_decide; [|tauto].
  rewrite elem_of_app, list_elem_of_singleton. tauto.
Qed.

Lemma sells_rest o rem g p :
  p ∈ sells (restOrder o rem g) → go_Side o ≠ SideBuy ∧ p = next_ptr g ∨ p ∈ sells g.
Proof.
  unfold restOrder. simpl. case_bool_decide; [tauto|].
  rewrite elem_of_app, list_elem_of_singleton. tauto.
Qed.

Lemma resting_rest o rem g p :
  resting (restOrder o rem g) p ↔ resting g p ∨ p = next_ptr g.
Proof.
  unfold resting, restOrder. simpl.
  destruct (bool_decide (go_Side o = SideBuy)); rewrite elem_of_app, list_elem_of_singleton; tauto.
Qed.

Lemma restOrder_wf g o rem : book_wf g → rest_ok g o rem → book_wf (restOrder o rem g).
Proof.
  intros Hwf (Hrem & Hprice & Hfresh & Hseq).
  assert (Hne : ∀ p, resting g p → next_ptr g ≠ p)
    by (intros p Hp; pose proof (wf_alloc _ Hwf p Hp); lia).
  set (e := mkBookEntry (go_ID o) (go_Side o) (go_Price o) (go_Quantity o) (seq g) rem).
  assert (Hh : heap (restOrder o rem g) = <[next_ptr g := e]> (heap g)) by done.
  assert (Hold : ∀ p, resting g p → deref (heap (restOrder o rem g)) p = deref (heap g) p).
  { intros p Hp. rewrite Hh. apply deref_insert_ne. auto. }
  assert (Hnew : deref (heap (restOrder o rem g)) (next_ptr g) = e)
    by (rewrite Hh; apply deref_insert_eq).
  split.
  - unfold restOrder; simpl.
    assert (Hn : NoDup (next_ptr g :: buys g ++ sells g)).
    { apply NoDup_cons. split; [|apply (wf_nodup _ Hwf)].
      rewrite elem_of_app. intros Hp. by apply (Hne (next_ptr g)). }
    destruct (bool_decide (go_Side o = SideBuy)).
    + rewrite <- app_assoc. simpl. by rewrite <- (Permutation_middle (buys g) (sells g)).
    + by rewrite app_assoc, <- Permutation_cons_append.
  - intros p q [Hp| ->]%resting_rest [Hq| ->]%resting_rest; rewrite ?Hnew, ?Hold by done; simpl.
    + apply (wf_ids _ Hwf); done.
    + intros Hid. by destruct (Hfresh p Hp).
    + intros Hid. by destruct (Hfresh q Hq).
    + done.
  - intros p q [Hp| ->]%resting_rest [Hq| ->]%resting_rest; rewrite ?Hnew, ?Hold by done; simpl.
    + apply (wf_seqs _ Hwf); done.
    + specialize (Hseq p Hp). lia.
    + specialize (Hseq q Hq). lia.
    + done.
  - intros p [Hp| ->]%resting_rest; simpl; [|lia]. pose proof (wf_alloc _ Hwf p Hp). lia.
  - intros p [Hp| ->]%resting_rest; rewrite ?Hnew, ?Hold by done.
    + by apply (wf_entries _ Hwf).
    + unfold entry_ok. simpl. lia.
  - intros p [[Hs ->]|Hp]%buys_rest; [by rewrite Hnew|].
    rewrite Hold by (by left). by apply (wf_buys _ Hwf).
  - intros p [[Hs ->]|Hp]%sells_rest; [by rewrite Hnew|].
    rewrite Hold by (by right). by apply (wf_sells _ Hwf).
  - intros id p. rewrite resting_rest.
    change (index (restOrder o rem g)) with (<[go_ID o := next_ptr g]> (index g)).
    rewrite lookup_insert.
    case_decide as Hid.
    + split; [intros [= <-]; rewrite Hnew; auto|].
      intros [[Hp| ->] Hpid]; [|done]. rewrite Hold in Hpid by done.
      destruct (Hfresh p Hp). congruence.
    + rewrite (wf_index _ Hwf). split.
      * intros [Hp Hpid]. rewrite Hold by done. auto.
      * intros [[Hp| ->] Hpid]; [by rewrite Hold in Hpid|]. by rewrite Hnew in Hpid.
  - apply (wf_seq _ Hwf).
Qed.

Lemma restOrder_abs g o rem :
  book_wf g → rest_ok g o rem →
  abs (restOrder o rem g) =
    if bool_decide (go_Side o = SideBuy)
    then mkSpecBook (<[go_ID o := mkResting (go_Price o) (seq g) rem]> (bids (abs g)))
           (asks (abs g)) (seq g)
    else mkSpecBook (bids (abs g))
           (<[go_ID o := mkResting (go_Price o) (seq g) rem]> (asks (abs g))) (seq g).
Proof.
  intros Hwf (Hrem & Hprice & Hfresh & Hseq).
  assert (Hne : ∀ p, resting g p → p ≠ next_ptr g)
    by (intros p Hp; pose proof (wf_alloc _ Hwf p Hp); lia).
  assert (Hfr : ∀ ls, (∀ p, p ∈ ls → resting g p) →
    (next_ptr g ∉ ls) ∧ (go_ID o ∉ ids (heap g) ls)).
  { intros ls Hls. split; [intros Hp; by apply (Hne (next_ptr g)); [apply Hls|]|].
    intros Hin. apply list_elem_of_fmap in Hin as (p & Hp & Hin).
    by apply (Hfresh p); [apply Hls|]. }
  destruct (Hfr (buys g)) as [Hb1 Hb2]; [by left|].
  destruct (Hfr (sells g)) as [Hs1 Hs2]; [by right|].
  unfold restOrder, abs. simpl. destruct (bool_decide (go_Side o = SideBuy)); simpl; f_equal.
  - by rewrite side_map_snoc.
  - apply side_map_ext. intros p Hp. apply deref_insert_ne. by intros <-.
  - apply side_map_ext. intros p Hp. apply deref_insert_ne. by intros <-.
  - by rewrite side_map_snoc.
Qed.

(** ** The operations *)
Lemma bumpSeq_wf g : book_wf g → seq g + 1 < 2 ^ 64 → book_wf (bumpSeq g).
Proof.
  intros Hwf Hs. pose proof (wf_seq _ Hwf) as Hge.
  assert (seq (bumpSeq g) = seq g + 1) as Heq
    by (simpl; apply u64_id; unfold is_uint64; lia).
  destruct Hwf; split; try done.
  - intros p Hp. destruct (wf_entries0 p Hp) as (? & ? & ? & ?).
    rewrite Heq. unfold entry_ok. simpl. lia.
  - lia.
Qed.

(** What an order must satisfy for the book's arithmetic not to wrap and its
    index not to be overwritten: [int64] quantities, room in the counter, and a
    limit order's id that is not the id of a resting order. *)
Record order_ok (g : GoldenOrderbook) (o : GoldenOrder) : Prop := {
  oo_qty : go_Quantity o ≤ int64_max;
  oo_seq : seq g + 1 < 2 ^ 64;
  oo_fresh : go_Kind o = KindLimit → ∀ p, resting g p → be_id (deref (heap g) p) ≠ go_ID o
}.

Lemma bumpSeq_abs g :
  book_wf g → seq g + 1 < 2 ^ 64 →
  abs (bumpSeq g) = mkSpecBook (bids (abs g)) (asks (abs g)) (clock (abs g) + 1).
Proof.
  intros Hwf Hs. pose proof (wf_seq _ Hwf). unfold abs, bumpSeq. simpl.
  by rewrite u64_id by (unfold is_uint64; lia).
Qed.

(** The entries of the book before the counter was bumped are all earlier. *)
Lemma keeps_rest_ok g g' o rem :
  book_wf g → order_ok g o → go_Kind o = KindLimit → 0 < go_Price o →
  keeps (bumpSeq g) g' → 0 < rem ≤ int64_max → rest_ok g' o rem.
Proof.
  intros Hwf Ho Hk Hpr (Hn & Hs & Hkeep) Hrem. split_and!; [lia|lia|done|..].
  - intros p Hp. destruct (Hkeep p Hp) as (Hr & -> & _). simpl. by apply (oo_fresh _ _ Ho).
  - intros p Hp. destruct (Hkeep p Hp) as (Hr & _ & ->). rewrite Hs. simpl.
    destruct (wf_entries _ Hwf p Hr) as (_ & _ & _ & ?). pose proof (wf_seq _ Hwf).
    pose proof (oo_seq _ _ Ho). rewrite u64_id; unfold is_uint64; lia.
Qed.

(** A limit order after its match: the remainder rests, or nothing is left. *)
Lemma rest_step g g' o rem :
  book_wf g → order_ok g o → go_Kind o = KindLimit → 0 < go_Price o →
  book_wf g' → keeps (bumpSeq g) g' → 0 ≤ rem ≤ int64_max →
  let g'' := if 0 <? rem then restOrder o rem g' else g' in
  book_wf g'' ∧
  abs g'' = if bool_decide (go_Side o = SideBuy)
    then mkSpecBook (rest o (clock (abs g) + 1) rem (bids (abs g'))) (asks (abs g'))
           (clock (abs g) + 1)
    else mkSpecBook (bids (abs g')) (rest o (clock (abs g) + 1) rem (asks (abs g')))
           (clock (abs g) + 1).
Proof.
  intros Hwf Ho Hk Hpr Hwf' Hkeep Hrem.
  assert (Hseq : seq g' = clock (abs g) + 1).
  { destruct Hkeep as (_ & -> & _). pose proof (wf_seq _ Hwf). pose proof (oo_seq _ _ Ho).
    simpl. apply u64_id. unfold is_uint64. lia. }
  unfold rest. simpl. destruct (Z.ltb_spec 0 rem).
  - assert (rest_ok g' o rem) by (apply (keeps_rest_ok g); auto; lia).
    split; [by apply restOrder_wf|]. rewrite restOrder_abs by done.
    rewrite !decide_True by done. by rewrite Hseq.
  - split; [done|]. rewrite !decide_False by lia.
    transitivity (mkSpecBook (bids (abs g')) (asks (abs g')) (seq g')); [done|].
    rewrite Hseq. by case_bool_decide.
Qed.

Lemma spec_match_rem_le before crosses m qty ts m' rem :
  spec_match before crosses m qty ts m' rem →
  map_Forall (λ _ r, 0 < r_qty r) m → 0 ≤ qty → 0 ≤ rem ≤ qty.
Proof.
  intros Hm Hpos Hq. pose proof (spec_match_remaining _ _ _ _ _ Hm Hq).
  pose proof (spec_match_trade_positive _ _ _ _ _ Hm Hpos) as Ht.
  assert (0 ≤ total_qty ts) by (clear -Ht; induction Ht; simpl; lia). lia.
Qed.

Lemma abs_positive g :
  book_wf g →
  map_Forall (λ _ r, 0 < r_qty r) (bids (abs g)) ∧ map_Forall (λ _ r, 0 < r_qty r) (asks (abs g)).
Proof.
  intros Hwf. split; intros id r (p & Hp & _ & <-)%side_map_lookup;
    (destruct (wf_entries _ Hwf p) as (? & _); [unfold resting; tauto|done]).
Qed.

Theorem applyLimit_refines g o :
  book_wf g → order_ok g o → go_Kind o = KindLimit →
  let '(f, g') := applyLimit g o in book_wf g' ∧ spec_apply (abs g) o f (abs g').
Proof.
  intros Hwf Ho Hk. unfold applyLimit.
  destruct (Z.leb_spec (go_Quantity o) 0).
  { split; [done|]. apply sa_reject_quantity; auto. }
  destruct (Z.leb_spec (go_Price o) 0).
  { split; [done|]. by apply sa_reject_price. }
  pose proof (oo_qty _ _ Ho). pose proof (oo_seq _ _ Ho) as Hs.
  pose proof (bumpSeq_wf g Hwf Hs) as Hwfb. destruct (abs_positive _ Hwf) as [Hpb Hpa].
  case_bool_decide as Hside.
  - pose proof (matchSells_ok (λ p, p ≤ go_Price o) (λ p, go_Price o <? p) (go_Quantity o)
      (λ p, Z.ltb_ge _ _) ltac:(lia) (bumpSeq g)) as Hm.
    destruct (matchSells _ _ _) as [m g'].
    destruct Hm as (ts & Hm & Hb & -> & -> & Hwf' & Hkeep);
      [unfold ask_before; intros [] []; simpl; lia|done|].
    rewrite bumpSeq_abs in Hm, Hb by done. cbn [bids asks] in Hm, Hb.
    pose proof (spec_match_rem_le _ _ _ _ _ _ _ Hm Hpa ltac:(lia)).
    destruct (rest_step g g' o (ms_remaining m)) as [Hwf'' Habs]; auto; [lia|].
    split; [done|]. rewrite Habs, bool_decide_eq_true_2, Hb by done. by apply sa_limit_buy.
  - pose proof (matchBuys_ok (λ p, go_Price o ≤ p) (λ p, p <? go_Price o) (go_Quantity o)
      (λ p, Z.ltb_ge _ _) ltac:(lia) (bumpSeq g)) as Hm.
    destruct (matchBuys _ _ _) as [m g'].
    destruct Hm as (ts & Hm & Hb & -> & -> & Hwf' & Hkeep);
      [unfold bid_before; intros [] []; simpl; lia|done|].
    rewrite bumpSeq_abs in Hm, Hb by done. cbn [bids asks] in Hm, Hb.
    pose proof (spec_match_rem_le _ _ _ _ _ _ _ Hm Hpb ltac:(lia)).
    destruct (rest_step g g' o (ms_remaining m)) as [Hwf'' Habs]; auto; [lia|].
    split; [done|]. rewrite Habs, bool_decide_eq_false_2, Hb by done. by apply sa_limit_sell.
Qed.

Lemma total_qty_accepted ts :
  Forall (λ t, 0 < t_qty t) ts → (0 <? total_qty ts) = bool_decide (ts ≠ []).
Proof.
  intros Ht. assert (0 ≤ total_qty ts) by (induction Ht; simpl; lia).
  destruct Ht as [|t ts Ht Hts]; [done|]. rewrite bool_decide_eq_true_2 by done.
  assert (0 ≤ total_qty ts) by (clear -Hts; induction Hts; simpl; lia).
  apply Z.ltb_lt. simpl. lia.
Qed.

Theorem applyMarket_refines g o :
  book_wf g → order_ok g o → go_Kind o = KindMarket →
  let '(f, g') := applyMarket g o in book_wf g' ∧ spec_apply (abs g) o f (abs g').
Proof.
  intros Hwf Ho Hk. unfold applyMarket.
  destruct (Z.leb_spec (go_Quantity o) 0).
  { split; [done|]. apply sa_reject_quantity; auto. }
  pose proof (oo_qty _ _ Ho). pose proof (oo_seq _ _ Ho) as Hs.
  pose proof (bumpSeq_wf g Hwf Hs) as Hwfb. destruct (abs_positive _ Hwf) as [Hpb Hpa].
  assert (Hclock : ∀ g', keeps (bumpSeq g) g' → abs g' =
    mkSpecBook (bids (abs g')) (asks (abs g')) (clock (abs g) + 1)).
  { intros g' (_ & Hk' & _). transitivity (mkSpecBook (bids (abs g')) (asks (abs g')) (seq g'));
      [done|]. rewrite Hk'. f_equal. pose proof (wf_seq _ Hwf). simpl. apply u64_id.
    unfold is_uint64. lia. }
  case_bool_decide as Hside.
  - pose proof (matchSells_ok (λ _, True) (λ _, false) (go_Quantity o)
      ltac:(done) ltac:(lia) (bumpSeq g)) as Hm.
    destruct (matchSells _ _ _) as [m g'].
    destruct Hm as (ts & Hm & Hb & -> & -> & Hwf' & Hkeep); [done..|].
    rewrite bumpSeq_abs in Hm, Hb by done. cbn [bids asks] in Hm, Hb.
    split; [done|]. rewrite (Hclock g'), Hb by done.
    rewrite total_qty_accepted by (by eapply spec_match_trade_positive).
    by eapply sa_market_buy.
  - pose proof (matchBuys_ok (λ _, True) (λ _, false) (go_Quantity o)
      ltac:(done) ltac:(lia) (bumpSeq g)) as Hm.
    destruct (matchBuys _ _ _) as [m g'].
    destruct Hm as (ts & Hm & Hb & -> & -> & Hwf' & Hkeep); [done..|].
    rewrite bumpSeq_abs in Hm, Hb by done. cbn [bids asks] in Hm, Hb.
    split; [done|]. rewrite (Hclock g'), Hb by done.
    rewrite total_qty_accepted by (by eapply spec_match_trade_positive).
    by eapply sa_market_sell.
Qed.

(** ** Cancelling *)
Lemma removeEntry_elem h ls id p :
  NoDup ls → (∀ q q', q ∈ ls → q' ∈ ls → be_id (deref h q) = be_id (deref h q') → q = q') →
  p ∈ removeEntry h ls id ↔ p ∈ ls ∧ be_id (deref h p) ≠ id.
Proof.
  induction ls as [|q ls IH]; intros Hnd Hinj; [set_solver|]. simpl.
  apply NoDup_cons in Hnd as [Hq Hnd].
  assert (Hinj' : ∀ a b, a ∈ ls → b ∈ ls → be_id (deref h a) = be_id (deref h b) → a = b).
  { intros a b ??. apply Hinj; by right. }
  case_bool_decide as Hid; rewrite !elem_of_cons.
  - split; [|naive_solver]. intros Hp. split; [by right|]. intros Hpid. subst id.
    apply Hq. rewrite (Hinj q p); [done|by left|by right|done].
  - rewrite IH by done. naive_solver.
Qed.

Lemma removeEntry_sublist h ls id : sublist (removeEntry h ls id) ls.
Proof.
  induction ls as [|q ls IH]; simpl; [constructor|]. case_bool_decide; by constructor.
Qed.

Lemma side_map_remove h ls id :
  NoDup (ids h ls) → side_map h (removeEntry h ls id) = delete id (side_map h ls).
Proof.
  induction ls as [|q ls IH]; intros Hnd; simpl.
  - unfold side_map. simpl. by rewrite delete_empty.
  - rewrite ids_cons in Hnd. apply NoDup_cons in Hnd as [Hq Hnd]. rewrite side_map_cons.
    case_bool_decide as Hid.
    + subst id. symmetry. apply delete_insert_id. by apply side_map_lookup_None.
    + rewrite side_map_cons, IH, delete_insert_ne by done. done.
Qed.

Lemma resting_ids g :
  book_wf g → NoDup (ids (heap g) (buys g)) ∧ NoDup (ids (heap g) (sells g)).
Proof.
  intros Hwf. pose proof (wf_nodup _ Hwf) as Hnd. apply NoDup_app in Hnd as (Hb & _ & Hs).
  split; (apply NoDup_fmap_2_strong; [|done]); intros p q ??;
    apply (wf_ids _ Hwf); unfold resting; tauto.
Qed.

(** The book without the order [id]. *)
Definition without (g g' : GoldenOrderbook) (id : string) : Prop :=
  heap g' = heap g ∧ next_ptr g' = next_ptr g ∧ seq g' = seq g ∧
  index g' = delete id (index g) ∧
  sublist (buys g') (buys g) ∧ sublist (sells g') (sells g) ∧
  ∀ p, resting g' p ↔ resting g p ∧ be_id (deref (heap g) p) ≠ id.

Lemma without_wf g g' id : book_wf g → without g g' id → book_wf g'.
Proof.
  intros Hwf (Hh & Hn & Hs & Hi & Hsb & Hss & Hr).
  apply (shrink_wf g); [done|done|lia| | | | |].
  - eapply sublist_NoDup; [apply (wf_nodup _ Hwf)|]. by apply sublist_app.
  - intros p Hp. by eapply elem_of_sublist.
  - intros p Hp. by eapply elem_of_sublist.
  - intros p [Hp _]%Hr. destruct (wf_entries _ Hwf p Hp) as (? & _).
    exists (be_remainingQ (deref (heap g) p)). rewrite Hh.
    split; [lia|by destruct (deref (heap g) p)].
  - intros id' p. rewrite Hi, lookup_delete. case_decide as Hd.
    + split; [done|]. intros [[_ ?]%Hr ?]. congruence.
    + rewrite (wf_index _ Hwf), Hr. naive_solver.
Qed.

Lemma applyCancel_hit g o p :
  book_wf g → index g !! go_ID o = Some p →
  let g' := (applyCancel g o).2 in
  (applyCancel g o).1 = mkFill (go_ID o) 0 0 true ∧ without g g' (go_ID o) ∧
  abs g' = mkSpecBook (delete (go_ID o) (bids (abs g))) (delete (go_ID o) (asks (abs g)))
             (clock (abs g)).
Proof.
  intros Hwf Hp. unfold applyCancel. rewrite Hp.
  pose proof (proj1 (wf_index _ Hwf _ _) Hp) as [Hr Hid].
  destruct (resting_ids _ Hwf) as [Hib Hia].
  pose proof (wf_nodup _ Hwf) as Hnd. apply NoDup_app in Hnd as (Hb & Hd & Ha).
  assert (Hinj : ∀ q, resting g q → be_id (deref (heap g) q) = go_ID o → q = p).
  { intros q Hq Hqid. apply (wf_ids _ Hwf); [done|done|congruence]. }
  case_bool_decide as Hside; cbn [fst snd]; (split; [done|]).
  - assert (p ∈ buys g) as Hpb by (destruct Hr; [done|by destruct (wf_sells _ Hwf p)]).
    split.
    + split_and!; try done; simpl; [apply removeEntry_sublist|].
      intros q. unfold resting. simpl. rewrite removeEntry_elem; [|done|].
      * split; [|tauto]. intros [?|Hq]; [tauto|]. split; [by right|]. intros Hqid.
        apply (Hd p Hpb). by rewrite <- (Hinj q); [|right|].
      * intros q' q''??. apply (wf_ids _ Hwf); by left.
    + unfold abs. simpl. f_equal; [by apply side_map_remove|].
      symmetry. apply delete_id. apply side_map_lookup_None.
      intros (q & Hq & Hqs)%list_elem_of_fmap. apply (Hd p Hpb).
      by rewrite <- (Hinj q); [|right|].
  - assert (p ∈ sells g) as Hps by (destruct Hr; [by destruct Hside; apply (wf_buys _ Hwf)|done]).
    split.
    + split_and!; try done; simpl; [apply removeEntry_sublist|].
      intros q. unfold resting. simpl. rewrite removeEntry_elem; [|done|].
      * split; [|tauto]. intros [Hq|?]; [|tauto]. split; [by left|]. intros Hqid.
        apply (Hd q Hq). by rewrite (Hinj q); [|left|].
      * intros q' q''??. apply (wf_ids _ Hwf); by right.
    + unfold abs. simpl. f_equal; [|by apply side_map_remove].
      symmetry. apply delete_id. apply side_map_lookup_None.
      intros (q & Hq & Hqs)%list_elem_of_fmap. apply (Hd q Hqs).
      by rewrite (Hinj q); [|left|].
Qed.

Lemma index_lookup_abs g id :
  book_wf g →
  index g !! id = None ↔ bids (abs g) !! id = None ∧ asks (abs g) !! id = None.
Proof.
  intros Hwf. unfold abs. simpl. rewrite !side_map_lookup_None. unfold ids.
  rewrite eq_None_not_Some, !list_elem_of_fmap. split.
  - intros Hn. split; intros (p & -> & Hp); apply Hn; exists p;
      apply (wf_index _ Hwf); unfold resting; auto.
  - intros [Hb Ha] [p [[Hp|Hp] Hid]%(wf_index _ Hwf)]; [apply Hb|apply Ha]; eauto.
Qed.

Theorem applyCancel_refines g o :
  book_wf g → go_Kind o = KindCancel →
  let '(f, g') := applyCancel g o in book_wf g' ∧ spec_apply (abs g) o f (abs g').
Proof.
  intros Hwf Hk. pose proof (index_lookup_abs g (go_ID o) Hwf) as Hi.
  destruct (index g !! go_ID o) as [p|] eqn:Hp.
  - pose proof (applyCancel_hit g o p Hwf Hp) as (Hf & Hw & Habs).
    destruct (applyCancel g o) as [f g']. simpl in *. subst f. split; [by eapply without_wf|].
    rewrite Habs. apply sa_cancel; [done|].
    destruct (bids (abs g) !! go_ID o) eqn:Eb, (asks (abs g) !! go_ID o) eqn:Ea; eauto.
    discriminate (proj2 Hi (conj Eb Ea)).
  - unfold applyCancel. rewrite Hp. split; [done|].
    destruct Hi as [[Hb Ha] _]; [done|]. by apply sa_cancel_unknown.
Qed.
