(* ===== verification/BookTheorems.v ===== *)
(** * BookTheorems: what the golden order book guarantees

    [Refinement.v] relates each handler of the golden book to the abstract
    book. Here the handlers are put together: [Apply] and whole sequences of
    orders, with the properties a trader relies on. *)

From S2P Require Import Prelude OrderBook BookSpec Refinement.

(** ** One order *)
(** A step of the specification with its errors: an order without id or with an
    unknown kind is an error and leaves the book alone. *)
Inductive spec_step (b : SpecBook) (o : GoldenOrder)
    : result book_error GoldenFill → SpecBook → Prop :=
| ss_empty : go_ID o = "" → spec_step b o (Err ErrEmptyID) b
| ss_unknown :
    go_ID o ≠ "" → go_Kind o ≠ KindCancel → go_Kind o ≠ KindLimit → go_Kind o ≠ KindMarket →
    spec_step b o (Err (ErrUnknownKind (go_Kind o))) b
| ss_ok f b' : go_ID o ≠ "" → spec_apply b o f b' → spec_step b o (Ok f) b'.

Inductive spec_run : SpecBook → list GoldenOrder → list (result book_error GoldenFill) →
    SpecBook → Prop :=
| sr_nil b : spec_run b [] [] b
| sr_cons b o r b1 os rs b2 :
    spec_step b o r b1 → spec_run b1 os rs b2 → spec_run b (o :: os) (r :: rs) b2.

Lemma Apply_step g o :
  book_wf g → order_ok g o →
  let '(r, g') := Apply g o in book_wf g' ∧ spec_step (abs g) o r (abs g').
Proof.
  intros Hwf Ho. unfold Apply.
  case_bool_decide; [split; [done|by constructor]|].
  case_bool_decide as Hc.
  { pose proof (applyCancel_refines g o Hwf Hc). destruct (applyCancel g o). naive_solver (by constructor). }
  case_bool_decide as Hl.
  { pose proof (applyLimit_refines g o Hwf Ho Hl). destruct (applyLimit g o). naive_solver (by constructor). }
  case_bool_decide as Hm.
  { pose proof (applyMarket_refines g o Hwf Ho Hm). destruct (applyMarket g o). naive_solver (by constructor). }
  split; [done|by constructor].
Qed.

(** ** The specification is a function *)
Section functional.
Context {before : Resting → Resting → Prop} {crosses : Z → Prop}.
Hypothesis before_asym : ∀ a b, before a b → ¬ before b a.

Lemma is_best_unique m i r i' r' : is_best before m i r → is_best before m i' r' → i = i' ∧ r = r'.
Proof.
  intros [Hi Hb] [Hi' Hb']. destruct (decide (i = i')) as [->|Hne]; [naive_solver|].
  destruct (before_asym r r'); eauto.
Qed.

Lemma spec_match_functional m rem ts m' rem' :
  spec_match before crosses m rem ts m' rem' → 0 ≤ rem →
  ∀ ts2 m2 rem2, spec_match before crosses m rem ts2 m2 rem2 →
  map_Forall (λ _ r, 0 < r_qty r) m → ts = ts2 ∧ m' = m2 ∧ rem' = rem2.
Proof.
  induction 1 as [m|m rem Hrem Hno|m rem i r Hbest Hc Hrem
                 |m rem i r ts m' rem' Hbest Hc Hrem Hq Hm IH]; intros Hge ts2 m2 rem2 H2 Hpos.
  - inversion H2; subst; try lia; done.
  - inversion H2; subst; try lia; [done|..];
      match goal with Hb : is_best _ _ _ _ |- _ => destruct Hb as [Hl _] end; naive_solver.
  - inversion H2; subst; try lia.
    + destruct Hbest as [Hl _]. naive_solver.
    + match goal with Hb : is_best _ _ _ _ |- _ =>
        destruct (is_best_unique _ _ _ _ _ Hbest Hb) as [-> ->] end. done.
    + match goal with Hb : is_best _ _ _ _ |- _ =>
        destruct (is_best_unique _ _ _ _ _ Hbest Hb) as [-> ->] end. lia.
  - inversion H2; subst; try lia.
    + destruct Hbest as [Hl _]. naive_solver.
    + match goal with Hb : is_best _ _ _ _ |- _ =>
        destruct (is_best_unique _ _ _ _ _ Hbest Hb) as [-> ->] end. lia.
    + match goal with Hb : is_best _ _ _ _ |- _ =>
        destruct (is_best_unique _ _ _ _ _ Hbest Hb) as [-> ->] end.
      destruct (IH ltac:(lia) ts0 m2 rem2) as (-> & -> & ->); [done| |done].
      by apply map_Forall_delete.
Qed.
End functional.

Lemma ask_before_asym a b : ask_before a b → ¬ ask_before b a.
Proof. unfold ask_before. lia. Qed.
Lemma bid_before_asym a b : bid_before a b → ¬ bid_before b a.
Proof. unfold bid_before. lia. Qed.

(** Resting quantities are positive. *)
Definition positive_book (b : SpecBook) : Prop :=
  map_Forall (λ _ r, 0 < r_qty r) (bids b) ∧ map_Forall (λ _ r, 0 < r_qty r) (asks b).

Ltac inv_kind :=
  repeat match goal with
  | H : go_Kind ?o = _ |- _ => rewrite H in *; clear H
  | H : _ ∨ _ |- _ => destruct H
  end; try done.

Lemma kinds_distinct :
  KindLimit ≠ KindMarket ∧ KindLimit ≠ KindCancel ∧ KindMarket ≠ KindCancel.
Proof. done. Qed.

Ltac same_match H :=
  lazymatch type of H with
  | spec_match ask_before _ _ _ ?ts _ _ =>
      match goal with H' : spec_match ask_before _ _ _ ?ts2 _ _ |- _ =>
        assert_fails (unify ts ts2);
        destruct (spec_match_functional ask_before_asym _ _ _ _ _ H ltac:(lia) _ _ _ H')
          as (-> & -> & ->); [done|] end
  | spec_match bid_before _ _ _ ?ts _ _ =>
      match goal with H' : spec_match bid_before _ _ _ ?ts2 _ _ |- _ =>
        assert_fails (unify ts ts2);
        destruct (spec_match_functional bid_before_asym _ _ _ _ _ H ltac:(lia) _ _ _ H')
          as (-> & -> & ->); [done|] end
  end.

Lemma spec_apply_functional b o f1 b1 f2 b2 :
  positive_book b → spec_apply b o f1 b1 → spec_apply b o f2 b2 → f1 = f2 ∧ b1 = b2.
Proof.
  intros [Hpb Hpa] H1 H2. pose proof kinds_distinct as (?&?&?).
  inversion H1; subst; inversion H2; subst; try done; try lia; try (naive_solver (lia || congruence));
    lazymatch goal with
    | _ : is_Some _ ∨ is_Some _ |- _ =>
        exfalso; match goal with H : _ ∨ _ |- _ => destruct H as [[??]|[??]]; congruence end
    | H : spec_match _ _ _ _ _ _ _ |- _ => same_match H; done
    end.
Qed.

Lemma spec_step_functional b o r1 b1 r2 b2 :
  positive_book b → spec_step b o r1 b1 → spec_step b o r2 b2 → r1 = r2 ∧ b1 = b2.
Proof.
  intros Hp H1 H2.
  assert (Hk : ∀ f b', spec_apply b o f b' →
    go_Kind o = KindCancel ∨ go_Kind o = KindLimit ∨ go_Kind o = KindMarket).
  { intros f b' []; tauto. }
  destruct H1, H2; try done; try (edestruct Hk as [|[|]]; [eassumption|done..]).
  by edestruct spec_apply_functional as [-> ->]; [exact Hp|eassumption..|].
Qed.

(** ** Sequences of orders *)
(** The ids of the limit orders of a sequence, the only ones that can rest. *)
Definition limit_ids (os : list GoldenOrder) : list string :=
  go_ID <$> filter (λ o, go_Kind o = KindLimit) os.

(** What a sequence of orders must satisfy: quantities in range and no limit
    order with the id of an earlier one. *)
Record orders_ok (os : list GoldenOrder) : Prop := {
  os_qty : Forall (λ o, go_Quantity o ≤ int64_max) os;
  os_len : Z.of_nat (length os) < 2 ^ 64;
  os_ids : NoDup (limit_ids os)
}.

Definition book_ids (b : SpecBook) : gset string := dom (bids b) ∪ dom (asks b).

Lemma spec_match_dom before crosses m rem ts m' rem' :
  spec_match before crosses m rem ts m' rem' → dom m' ⊆ dom m.
Proof.
  intros Hm id Hid. apply elem_of_dom in Hid as [r Hr].
  destruct (spec_match_lookup _ _ _ _ _ _ _ Hm Hr) as (r0 & ? & _).
  apply elem_of_dom. eauto.
Qed.

Lemma rest_dom o t rem m : dom (rest o t rem m) ⊆ {[go_ID o]} ∪ dom m.
Proof. unfold rest. case_decide; [rewrite dom_insert|]; set_solver. Qed.

Lemma spec_step_ids b o r b' :
  spec_step b o r b' →
  book_ids b' ⊆ book_ids b ∪ (if decide (go_Kind o = KindLimit) then {[go_ID o]} else ∅).
Proof.
  unfold book_ids. destruct 1 as [| |f b' _ H]; [set_solver..|].
  destruct H; simpl; try (case_decide; set_solver);
    try (match goal with H : spec_match _ _ _ _ _ _ _ |- _ => apply spec_match_dom in H end);
    try (rewrite decide_True by done;
         match goal with |- context [rest ?o ?t ?r ?m] => pose proof (rest_dom o t r m) end);
    try rewrite !dom_delete; set_solver.
Qed.

Lemma spec_step_clock b o r b' : spec_step b o r b' → clock b ≤ clock b' ≤ clock b + 1.
Proof. destruct 1 as [| |f b' _ []]; simpl; lia. Qed.

Lemma book_ids_resting g p : resting g p → be_id (deref (heap g) p) ∈ book_ids (abs g).
Proof.
  unfold book_ids, abs. simpl. intros Hr. rewrite elem_of_union, !elem_of_dom, <- !not_eq_None_Some.
  rewrite !side_map_lookup_None. unfold ids.
  destruct Hr as [Hr|Hr]; [left|right]; intros Hn; apply Hn, list_elem_of_fmap; eauto.
Qed.

Lemma ApplyAll_run g os :
  book_wf g → Forall (λ o, go_Quantity o ≤ int64_max) os →
  seq g + Z.of_nat (length os) < 2 ^ 64 → NoDup (limit_ids os) →
  (∀ id, id ∈ limit_ids os → id ∉ book_ids (abs g)) →
  let '(rs, g') := ApplyAll g os in
  book_wf g' ∧ spec_run (abs g) os rs (abs g').
Proof.
  revert g. induction os as [|o os IH]; intros g Hwf Hq Hlen Hnd Hfresh; simpl.
  { split; [done|constructor]. }
  apply Forall_cons in Hq as [Hqo Hq]. simpl in Hlen.
  assert (order_ok g o) as Ho.
  { split; [done|lia|]. intros Hk p Hp Heq. apply (Hfresh (go_ID o)).
    - unfold limit_ids. rewrite filter_cons_True by done. by left.
    - rewrite <- Heq. by apply book_ids_resting. }
  pose proof (Apply_step g o Hwf Ho) as Hstep. destruct (Apply g o) as [r g1].
  destruct Hstep as [Hwf1 Hstep].
  pose proof (spec_step_clock _ _ _ _ Hstep) as Hc. pose proof (spec_step_ids _ _ _ _ Hstep) as Hids.
  specialize (IH g1 Hwf1 Hq). destruct (ApplyAll g1 os) as [rs g2].
  destruct IH as [Hwf2 Hrun].
  - unfold abs in Hc. simpl in Hc. lia.
  - unfold limit_ids in *. rewrite filter_cons in Hnd. case_decide; [|done].
    by apply NoDup_cons in Hnd as [_ ?].
  - intros id Hid Hin. specialize (Hids _ Hin). unfold limit_ids in *.
    rewrite filter_cons in Hnd, Hfresh. case_decide as Hk.
    + apply NoDup_cons in Hnd as [Hni _].
      apply elem_of_union in Hids as [Hids|Hids].
      * apply (Hfresh id); [by right|done].
      * apply elem_of_singleton in Hids as ->. done.
    + apply (Hfresh id); [done|]. set_solver.
  - split; [done|]. by econstructor.
Qed.

Lemma ApplyAll_new os :
  orders_ok os →
  let '(rs, g') := ApplyAll NewGoldenOrderbook os in
  book_wf g' ∧ spec_run empty_spec os rs (abs g').
Proof.
  intros [Hq Hl Hn]. apply (ApplyAll_run NewGoldenOrderbook); simpl; [apply new_wf|done|lia|done|].
  intros id _. unfold book_ids, abs. simpl. set_solver.
Qed.

Lemma spec_run_functional b os rs1 b1 :
  (∀ b o r b', positive_book b → spec_step b o r b' → positive_book b') →
  positive_book b → spec_run b os rs1 b1 →
  ∀ rs2 b2, spec_run b os rs2 b2 → rs1 = rs2 ∧ b1 = b2.
Proof.
  intros Hpres Hp H1. revert Hp. induction H1 as [|b o r b1 os rs b2 Hs Hr IH]; intros Hp rs2 b3 H2.
  { by inversion H2. }
  inversion H2 as [|? ? r' b1' ? rs' ? Hs' Hr']; subst.
  destruct (spec_step_functional _ _ _ _ _ _ Hp Hs Hs') as [-> ->].
  destruct (IH (Hpres _ _ _ _ Hp Hs) _ _ Hr') as [-> ->]. done.
Qed.

(** ** Invariants of the abstract book *)
(** No bid is at or above an ask. *)
Definition uncrossed (b : SpecBook) : Prop :=
  ∀ i r j s, bids b !! i = Some r → asks b !! j = Some s → r_price r < r_price s.

Lemma rest_lookup o t rem m id r :
  rest o t rem m !! id = Some r →
  m !! id = Some r ∨ 0 < rem ∧ r = mkResting (go_Price o) t rem.
Proof.
  unfold rest. case_decide; [|tauto]. rewrite lookup_insert. case_decide; naive_solver.
Qed.

Lemma rest_positive o t rem m :
  map_Forall (λ _ r, 0 < r_qty r) m → map_Forall (λ _ r, 0 < r_qty r) (rest o t rem m).
Proof. intros Hm id r [Hl|[? ->]]%rest_lookup; [by eapply Hm|done]. Qed.

Lemma spec_step_positive b o r b' : positive_book b → spec_step b o r b' → positive_book b'.
Proof.
  intros [Hb Ha] [| |f b1 _ H]; [done..|].
  destruct H; (split; simpl);
    first [done | by apply map_Forall_delete | by eapply spec_match_positive
          | by apply rest_positive].
Qed.

Lemma spec_apply_uncrossed b o f b' : uncrossed b → spec_apply b o f b' → uncrossed b'.
Proof.
  intros Hu [| |ts a' rem _ _ _ _ Hm|ts a' rem _ _ _ _ Hm|ts a' rem _ _ _ Hm|ts a' rem _ _ _ Hm| |];
    try done; intros i r j s Hr Hs; simpl in *.
  - destruct (spec_match_lookup _ _ _ _ _ _ _ Hm Hs) as (s0 & Hs0 & <- & _).
    apply rest_lookup in Hr as [Hr|[Hrem ->]]; [by eapply Hu|].
    pose proof (spec_match_exhausts _ _ _ _ _ _ _ Hm Hrem Hs) as Hno.
    destruct (spec_match_lookup _ _ _ _ _ _ _ Hm Hs) as (s1 & ? & Hp & _). simpl in *.
    replace s1 with s0 in * by congruence. lia.
  - destruct (spec_match_lookup _ _ _ _ _ _ _ Hm Hr) as (r0 & Hr0 & <- & _).
    apply rest_lookup in Hs as [Hs|[Hrem ->]]; [by eapply Hu|].
    pose proof (spec_match_exhausts _ _ _ _ _ _ _ Hm Hrem Hr) as Hno.
    destruct (spec_match_lookup _ _ _ _ _ _ _ Hm Hr) as (r1 & ? & Hp & _). simpl in *.
    replace r1 with r0 in * by congruence. lia.
  - destruct (spec_match_lookup _ _ _ _ _ _ _ Hm Hs) as (s0 & Hs0 & <- & _). by eapply Hu.
  - destruct (spec_match_lookup _ _ _ _ _ _ _ Hm Hr) as (r0 & Hr0 & <- & _). by eapply Hu.
  - rewrite lookup_delete in Hr, Hs. repeat case_decide; try done. by eapply Hu.
Qed.

Lemma spec_step_uncrossed b o r b' : uncrossed b → spec_step b o r b' → uncrossed b'.
Proof. intros Hu [| |f b1 _ H]; [done..|]. by eapply spec_apply_uncrossed. Qed.

Lemma spec_run_invariant (I : SpecBook → Prop) b os rs b' :
  (∀ b o r b', I b → spec_step b o r b' → I b') → I b → spec_run b os rs b' → I b'.
Proof. intros Hstep. induction 2; eauto. Qed.

(** ** Fills *)
(** What a fill says of the order it answers. *)
Record fill_ok (o : GoldenOrder) (f : GoldenFill) : Prop := {
  fo_id : gf_OrderID f = go_ID o;
  fo_qty : 0 ≤ gf_ExecutedQty f ≤ Z.max 0 (go_Quantity o);
  fo_price : gf_ExecutedQty f = 0 ↔ gf_ExecutedPrice f = 0;
  fo_buy : go_Kind o = KindLimit → go_Side o = SideBuy → gf_ExecutedQty f ≠ 0 →
    0 < gf_ExecutedPrice f ≤ go_Price o;
  fo_sell : go_Kind o = KindLimit → go_Side o ≠ SideBuy → gf_ExecutedQty f ≠ 0 →
    go_Price o ≤ gf_ExecutedPrice f;
  fo_limit : go_Kind o = KindLimit →
    gf_Accepted f = true ↔ 0 < go_Quantity o ∧ 0 < go_Price o;
  fo_market : go_Kind o = KindMarket → gf_Accepted f = true ↔ 0 < gf_ExecutedQty f;
  fo_cancel : go_Kind o = KindCancel → gf_ExecutedQty f = 0
}.

(** Resting prices are positive. *)
Definition positive_prices (b : SpecBook) : Prop :=
  map_Forall (λ _ r, 0 < r_price r) (bids b) ∧ map_Forall (λ _ r, 0 < r_price r) (asks b).

Lemma total_qty_nonneg ts : Forall (λ t, 0 < t_qty t) ts → 0 ≤ total_qty ts.
Proof. induction 1; simpl; lia. Qed.

Lemma last_price_Forall (P : Z → Prop) p ts :
  P p ∨ ts ≠ [] → Forall (λ t, P (t_price t)) ts → P (last_price p ts).
Proof.
  intros Hp Hts. revert p Hp. induction Hts as [|t ts Ht Hts IH]; intros p Hp; simpl.
  - by destruct Hp.
  - apply IH. by left.
Qed.

Lemma total_qty_nil ts : Forall (λ t, 0 < t_qty t) ts → total_qty ts = 0 ↔ ts = [].
Proof.
  intros Ht. destruct Ht as [|t ts Ht Hts]; [done|]. pose proof (total_qty_nonneg _ Hts).
  simpl. split; [lia|done].
Qed.

Lemma spec_match_prices before crosses m rem ts m' rem' :
  spec_match before crosses m rem ts m' rem' →
  map_Forall (λ _ r, 0 < r_price r) m → Forall (λ t, 0 < t_price t) ts.
Proof.
  induction 1 as [m|m rem Hrem Hno|m rem i r [Hi Hbest] Hc Hrem
                 |m rem i r ts m' rem' [Hi Hbest] Hc Hrem Hq Hm IH]; intros Hpos; auto.
  - constructor; [by apply (Hpos i r)|done].
  - constructor; [by apply (Hpos i r)|]. apply IH. by apply map_Forall_delete.
Qed.

(** The facts about one matching that the bounds on a fill need. *)
Lemma matched before crosses m qty ts m' rem :
  spec_match before crosses m qty ts m' rem → 0 < qty →
  map_Forall (λ _ r, 0 < r_qty r) m → map_Forall (λ _ r, 0 < r_price r) m →
  0 ≤ total_qty ts ≤ qty ∧ (total_qty ts = 0 ↔ last_price 0 ts = 0) ∧
  (total_qty ts ≠ 0 → 0 < last_price 0 ts ∧ crosses (last_price 0 ts)) ∧
  (bool_decide (ts ≠ []) = true ↔ 0 < total_qty ts).
Proof.
  intros Hm Hq Hqs Hps.
  pose proof (spec_match_trade_positive _ _ _ _ _ Hm Hqs) as Htq.
  pose proof (spec_match_prices _ _ _ _ _ _ _ Hm Hps) as Htp.
  pose proof (spec_match_remaining _ _ _ _ _ Hm ltac:(lia)).
  pose proof (spec_match_crosses _ _ _ _ _ Hm) as Hc.
  pose proof (total_qty_nonneg _ Htq). pose proof (total_qty_nil _ Htq) as Hnil.
  assert (ts ≠ [] → 0 < last_price 0 ts ∧ crosses (last_price 0 ts)) as Hne.
  { intros Hne. split; [apply (last_price_Forall (λ p, 0 < p))|apply last_price_Forall]; auto. }
  rewrite bool_decide_eq_true. split_and!; [lia|lia|..].
  - split; [by intros ->%Hnil|]. intros Hl. destruct ts; [done|]. destruct Hne; [done|lia].
  - intros Ht. apply Hne. by intros ->.
  - split; [intros Ht|intros Ht ->; simpl in *; lia].
    assert (total_qty ts ≠ 0) by (by rewrite Hnil). lia.
Qed.

Lemma spec_apply_fill b o f b' :
  positive_book b → positive_prices b → spec_apply b o f b' → fill_ok o f.
Proof.
  intros [Hqb Hqa] [Hpb Hpa] H. pose proof kinds_distinct as (?&?&?).
  destruct H;
    try (match goal with H : spec_match _ _ _ _ _ _ _ |- _ =>
      apply matched in H as (?&?&?&?); [|done..] end);
    (split; simpl; try done; try lia; try (intros; congruence); try tauto;
      intros; try (split; [done|lia]); naive_solver lia).
Qed.

Lemma spec_step_prices b o r b' : positive_prices b → spec_step b o r b' → positive_prices b'.
Proof.
  intros [Hb Ha] [| |f b1 _ H]; [done..|].
  assert (Hsub : ∀ before crosses m rem ts m' rem',
    spec_match before crosses m rem ts m' rem' → map_Forall (λ _ r, 0 < r_price r) m →
    map_Forall (λ _ r, 0 < r_price r) m').
  { intros before crosses m rem ts m' rem' Hm Hpos id r' Hl.
    destruct (spec_match_lookup _ _ _ _ _ _ _ Hm Hl) as (r0 & Hr0 & <- & _). by eapply Hpos. }
  assert (Hrest : ∀ o t rem m, 0 < go_Price o → map_Forall (λ _ r, 0 < r_price r) m →
    map_Forall (λ _ r, 0 < r_price r) (rest o t rem m)).
  { intros o' t rem m Hpr Hm id r' [Hl|[_ ->]]%rest_lookup; simpl; eauto. }
  destruct H; (split; simpl);
    first [done | by apply map_Forall_delete | by eapply Hsub | by apply Hrest].
Qed.

Lemma spec_run_fills b os rs b' :
  positive_book b → positive_prices b → spec_run b os rs b' →
  Forall2 (λ o r, match r with Ok f => fill_ok o f | Err _ => True end) os rs.
Proof.
  intros Hq Hp H. revert Hq Hp.
  induction H as [|b o r b1 os rs b2 Hs Hr IH]; intros Hq Hp; constructor.
  - destruct Hs; [done..|]. by eapply spec_apply_fill.
  - eauto using spec_step_positive, spec_step_prices.
Qed.

(** ** Conservation *)
(** The quantity that rests on one side. *)
Definition side_qty (m : gmap string Resting) : Z := map_fold (λ _ r n, r_qty r + n) 0 m.

Lemma side_qty_insert m id r : m !! id = None → side_qty (<[id := r]> m) = r_qty r + side_qty m.
Proof. intros Hm. unfold side_qty. apply (map_fold_insert_L (λ _ r n, r_qty r + n)); [intros; lia|done]. Qed.

Lemma side_qty_delete m id r : m !! id = Some r → side_qty m = r_qty r + side_qty (delete id m).
Proof. intros Hm. unfold side_qty. apply (map_fold_delete_L (λ _ r n, r_qty r + n)); [intros; lia|done]. Qed.

Lemma side_qty_match before crosses m rem ts m' rem' :
  spec_match before crosses m rem ts m' rem' → side_qty m = total_qty ts + side_qty m'.
Proof.
  induction 1 as [m|m rem Hrem Hno|m rem i r [Hi Hbest] Hc Hrem
                 |m rem i r ts m' rem' [Hi Hbest] Hc Hrem Hq Hm IH]; simpl; [lia|lia|..].
  - rewrite (side_qty_delete _ _ _ Hi), <- insert_delete_eq, side_qty_insert
      by apply lookup_delete_eq. simpl. lia.
  - rewrite (side_qty_delete _ _ _ Hi), IH. lia.
Qed.

Lemma side_qty_rest o t rem m :
  0 ≤ rem → m !! go_ID o = None → side_qty (rest o t rem m) = rem + side_qty m.
Proof.
  intros Hrem Hm. unfold rest. case_decide; [by rewrite side_qty_insert|lia].
Qed.

(** Quantity is neither made nor lost: an accepted limit order trades against
    the other side and the rest of it is added to its own side. *)
Lemma spec_apply_conserves b o f b' :
  spec_apply b o f b' → go_Kind o = KindLimit → gf_Accepted f = true →
  (if decide (go_Side o = SideBuy) then bids b else asks b) !! go_ID o = None →
  if decide (go_Side o = SideBuy)
  then side_qty (asks b') = side_qty (asks b) - gf_ExecutedQty f ∧
       side_qty (bids b') = side_qty (bids b) + (go_Quantity o - gf_ExecutedQty f)
  else side_qty (bids b') = side_qty (bids b) - gf_ExecutedQty f ∧
       side_qty (asks b') = side_qty (asks b) + (go_Quantity o - gf_ExecutedQty f).
Proof.
  intros H Hk Hacc. pose proof kinds_distinct as (?&?&?).
  destruct H as [|?|ts a' rem _ Hside Hq _ Hm|ts a' rem _ Hside Hq _ Hm| | | |]; try done;
    try congruence; case_decide; try done; intros Hfresh; simpl;
    pose proof (side_qty_match _ _ _ _ _ _ _ Hm);
    pose proof (spec_match_remaining _ _ _ _ _ Hm ltac:(lia));
    rewrite side_qty_rest by (done || lia); lia.
Qed.

(** ** The theorems *)
Lemma empty_positive : positive_book empty_spec ∧ positive_prices empty_spec.
Proof. done. Qed.

(** C1: On every sequence of orders with in-range quantities and distinct limit
    order ids, the golden book answers with the fills of the abstract
    price-time priority book, which has no other answer for them, and it ends in a
    representation of the abstract book's state. *)
Theorem golden_book_price_time os :
  orders_ok os →
  let '(rs, g) := ApplyAll NewGoldenOrderbook os in
  spec_run empty_spec os rs (abs g) ∧
  ∀ rs' b, spec_run empty_spec os rs' b → rs' = rs ∧ b = abs g.
Proof.
  intros Hos. pose proof (ApplyAll_new os Hos). destruct (ApplyAll _ os) as [rs g].
  destruct H as [_ Hrun]. split; [done|]. intros rs' b Hrun'.
  by eapply (spec_run_functional empty_spec); eauto using spec_step_positive.
Qed.

Definition sample_orders : list GoldenOrder :=
  [limit "a" SideSell 101 4; limit "b" SideSell 100 2; limit "c" SideBuy 101 5;
   market "d" SideBuy 9; cancel "a"; limit "e" SideBuy 99 1; limit "f" SideSell 98 3].

Lemma sample_orders_ok : orders_ok sample_orders.
Proof.
  split; [|done|].
  - repeat constructor; simpl; unfold int64_max; lia.
  - apply (bool_decide_unpack _). by vm_compute.
Qed.

Lemma golden_book_price_time_witness :
  orders_ok sample_orders ∧
  let '(rs, g) := ApplyAll NewGoldenOrderbook sample_orders in
  spec_run empty_spec sample_orders rs (abs g) ∧
  ∀ rs' b, spec_run empty_spec sample_orders rs' b → rs' = rs ∧ b = abs g.
Proof.
  split; [apply sample_orders_ok|]. apply (golden_book_price_time sample_orders sample_orders_ok).
Defined.

(** C8: The golden book is never crossed: after any such sequence of orders
    every resting bid is priced below every resting ask, no order rests twice,
    and each resting order has a positive price and a positive remaining
    quantity that fits in an int64. *)
Theorem golden_book_uncrossed os :
  orders_ok os →
  let g := (ApplyAll NewGoldenOrderbook os).2 in
  (∀ p q, p ∈ buys g → q ∈ sells g →
    be_price (deref (heap g) p) < be_price (deref (heap g) q)) ∧
  NoDup (ids (heap g) (buys g ++ sells g)) ∧
  ∀ p, resting g p → 0 < be_price (deref (heap g) p) ∧
    0 < be_remainingQ (deref (heap g) p) ≤ int64_max.
Proof.
  intros Hos. pose proof (ApplyAll_new os Hos) as H. destruct (ApplyAll _ os) as [rs g].
  destruct H as [Hwf Hrun]. simpl. split_and!.
  - intros p q Hp Hq.
    assert (uncrossed (abs g)) as Hu.
    { eapply (spec_run_invariant uncrossed); [by intros ????; apply spec_step_uncrossed| |done].
      by intros ?????. }
    destruct (resting_ids _ Hwf) as [Hb Ha].
    apply (Hu (be_id (deref (heap g) p)) (resting_of (deref (heap g) p))
              (be_id (deref (heap g) q)) (resting_of (deref (heap g) q)));
      by apply side_map_lookup_2.
  - apply NoDup_fmap_2_strong; [|apply (wf_nodup _ Hwf)].
    intros p q [Hp|Hp]%elem_of_app [Hq|Hq]%elem_of_app; apply (wf_ids _ Hwf); unfold resting; tauto.
  - intros p Hp. destruct (wf_entries _ Hwf p Hp) as (?&?&?&?). lia.
Qed.

Definition sample_book : GoldenOrderbook :=
  (ApplyAll NewGoldenOrderbook [limit "a" SideSell 101 4; limit "b" SideBuy 100 2]).2.

Lemma golden_book_uncrossed_witness :
  2%positive ∈ buys sample_book ∧ 1%positive ∈ sells sample_book ∧
  be_price (deref (heap sample_book) 2) < be_price (deref (heap sample_book) 1).
Proof.
  assert (2%positive ∈ buys sample_book) by (by apply list_elem_of_singleton).
  assert (1%positive ∈ sells sample_book) by (by apply list_elem_of_singleton).
  split_and!; [done..|].
  apply (golden_book_uncrossed [limit "a" SideSell 101 4; limit "b" SideBuy 100 2]); [|done..].
  split; [|done|].
  - repeat constructor; simpl; unfold int64_max; lia.
  - apply (bool_decide_unpack _). by vm_compute.
Defined.

(** Every fill is within the order: it carries the order's id, executes at
    most its quantity and only at prices its limit allows, has a price exactly
    when it has a quantity, and is accepted exactly for a valid limit order or a
    market order that traded; a cancel never executes. *)
Theorem golden_fill_bounds os :
  orders_ok os →
  Forall2 (λ o r, match r with Ok f => fill_ok o f | Err _ => True end)
    os (ApplyAll NewGoldenOrderbook os).1.
Proof.
  intros Hos. pose proof (ApplyAll_new os Hos) as H. destruct (ApplyAll _ os) as [rs g].
  destruct H as [_ Hrun]. by eapply spec_run_fills; [apply empty_positive..|].
Qed.

Lemma golden_fill_bounds_witness :
  Forall2 (λ o r, match r with Ok f => fill_ok o f | Err _ => True end)
    sample_orders (ApplyAll NewGoldenOrderbook sample_orders).1.
Proof. apply (golden_fill_bounds sample_orders sample_orders_ok). Defined.

(** Conservation of quantity: in a reachable book, an accepted limit order
    takes what it executes from the other side and adds exactly the rest of its
    quantity to its own side. *)
Theorem golden_limit_conserves g o f g' :
  book_wf g → order_ok g o → go_Kind o = KindLimit →
  Apply g o = (Ok f, g') → gf_Accepted f = true →
  let mine b := if decide (go_Side o = SideBuy) then bids b else asks b in
  let other b := if decide (go_Side o = SideBuy) then asks b else bids b in
  side_qty (other (abs g')) = side_qty (other (abs g)) - gf_ExecutedQty f ∧
  side_qty (mine (abs g')) = side_qty (mine (abs g)) + (go_Quantity o - gf_ExecutedQty f).
Proof.
  intros Hwf Ho Hk Happ Hacc. pose proof (Apply_step g o Hwf Ho) as Hs. rewrite Happ in Hs.
  destruct Hs as [_ Hs]. inversion Hs as [| |? ? Hid Hspec]; subst.
  assert (index g !! go_ID o = None) as Hfresh.
  { apply eq_None_not_Some. intros [p [Hp Hpid]%(wf_index _ Hwf)]. by apply (oo_fresh _ _ Ho Hk p). }
  apply index_lookup_abs in Hfresh as [Hb Ha]; [|done].
  pose proof (spec_apply_conserves _ _ _ _ Hspec Hk Hacc) as Hc. simpl.
  by case_decide; apply Hc.
Qed.

Definition resting_ask : GoldenOrderbook :=
  (Apply NewGoldenOrderbook (limit "a" SideSell 101 4)).2.
Definition crossing_bid : GoldenOrder := limit "b" SideBuy 101 7.

Lemma golden_limit_conserves_witness :
  side_qty (asks (abs (Apply resting_ask crossing_bid).2)) = side_qty (asks (abs resting_ask)) - 4 ∧
  side_qty (bids (abs (Apply resting_ask crossing_bid).2)) =
    side_qty (bids (abs resting_ask)) + (7 - 4).
Proof.
  apply (golden_limit_conserves resting_ask crossing_bid (mkFill "b" 101 4 true));
    [| |done|by vm_compute|done].
  - apply (Apply_step NewGoldenOrderbook (limit "a" SideSell 101 4) new_wf).
    split; [by vm_compute|by vm_compute|]. intros _ p [H|H]; by inversion H.
  - split; [by vm_compute|by vm_compute|]. intros _ p [H|H]; [by inversion H|].
    apply list_elem_of_singleton in H as ->. by vm_compute.
Defined.

(** Cancelling: in a reachable book a cancel is accepted exactly when the
    order rests, it takes the order out and leaves every other one alone, and
    cancelling it again is rejected. *)
Theorem golden_cancel g id :
  book_wf g → id ≠ "" →
  ∃ f g', Apply g (cancel id) = (Ok f, g') ∧ book_wf g' ∧
    (gf_Accepted f = true ↔ ∃ p, resting g p ∧ be_id (deref (heap g) p) = id) ∧
    (∀ p, resting g' p ↔ resting g p ∧ be_id (deref (heap g) p) ≠ id) ∧
    heap g' = heap g ∧
    Apply g' (cancel id) = (Ok (mkFill id 0 0 false), g').
Proof.
  intros Hwf Hid. unfold Apply. simpl. rewrite bool_decide_eq_false_2 by done.
  destruct (index g !! id) as [p|] eqn:Hp.
  - pose proof (applyCancel_hit g (cancel id) p Hwf Hp) as (Hf & Hw & _).
    destruct (applyCancel g (cancel id)) as [f g'] eqn:Hc. simpl in Hf, Hw. subst f.
    pose proof (without_wf _ _ _ Hwf Hw) as Hwf'. destruct Hw as (Hh & _ & _ & Hi & _ & _ & Hr).
    exists (mkFill id 0 0 true), g'. split_and!; try done; simpl.
    + split; [|done]. intros _. apply (wf_index _ Hwf) in Hp. eauto.
    + unfold applyCancel. simpl. by rewrite Hi, lookup_delete_eq.
  - assert (Hno : ∀ p, resting g p → be_id (deref (heap g) p) ≠ id).
    { intros p Hr Hpid. rewrite (proj2 (wf_index _ Hwf id p)) in Hp; [done|auto]. }
    assert (applyCancel g (cancel id) = (mkFill id 0 0 false, g)) as ->
      by (unfold applyCancel; simpl; by rewrite Hp).
    exists (mkFill id 0 0 false), g. split_and!; try done; simpl.
    + split; [done|]. intros (p & Hr & Hpid). by destruct (Hno p).
    + naive_solver.
    + by unfold applyCancel; simpl; rewrite Hp.
Qed.

Lemma golden_cancel_witness :
  ∃ f g', Apply NewGoldenOrderbook (cancel "a") = (Ok f, g') ∧ gf_Accepted f = false.
Proof.
  destruct (golden_cancel NewGoldenOrderbook "a" new_wf ltac:(done))
    as (f & g' & H1 & _ & H2 & _).
  exists f, g'. split; [done|]. injection H1 as <- <-. reflexivity.
Defined.
