(* ===== verification/Checker.v ===== *)
(** * Checker: [internal/correctness/checker.go]

    [Check] compares the fills of a contestant's engine with the golden fills.
    Go maps that are only looked up, written and counted are finite maps; the
    loop over a map counts, so its order is not visible. *)

From S2P Require Import Prelude OrderBook.

Record CorrectnessResult := mkCorrectness {
  cr_Score : float64;
  cr_TotalFills : Z;
  cr_CorrectFills : Z;
  cr_IncorrectFills : Z
}.

Record ContestantFill := mkContestantFill {
  cf_OrderID : string;
  cf_ExecutedPrice : Z;
  cf_ExecutedQty : Z;
  cf_Accepted : bool
}.

Definition fillsMatch (cf : ContestantFill) (gf : GoldenFill) : bool :=
  bool_decide (cf_Accepted cf = gf_Accepted gf) &&
  (cf_ExecutedPrice cf =? gf_ExecutedPrice gf) && (cf_ExecutedQty cf =? gf_ExecutedQty gf).

(** The lookup table: the first golden fill of each order id. *)
Definition goldenByID (goldenFills : list GoldenFill) : gmap string GoldenFill :=
  fold_left (λ m gf,
    match m !! gf_OrderID gf with Some _ => m | None => <[gf_OrderID gf := gf]> m end)
    goldenFills ∅.

(** The variables of the loop over the contestant's fills. [ck_matched] holds
    the ids mapped to [true]. *)
Record checkState := mkCheck { ck_matched : gset string; ck_correct : Z; ck_incorrect : Z }.

Definition checkFill (golden : gmap string GoldenFill) (st : checkState) (cf : ContestantFill)
    : checkState :=
  match golden !! cf_OrderID cf with
  | None => mkCheck (ck_matched st) (ck_correct st) (ck_incorrect st + 1)
  | Some gf =>
      if bool_decide (cf_OrderID cf ∈ ck_matched st)
      then mkCheck (ck_matched st) (ck_correct st) (ck_incorrect st + 1)
      else
        let matched := {[cf_OrderID cf]} ∪ ck_matched st in
        if fillsMatch cf gf
        then mkCheck matched (ck_correct st + 1) (ck_incorrect st)
        else mkCheck matched (ck_correct st) (ck_incorrect st + 1)
  end.

(** [for id := range goldenByID { if !matched\[id\] { incorrect++ } }] *)
Definition countUnmatched (golden : gmap string GoldenFill) (matched : gset string) : Z :=
  foldr (λ kv n, if bool_decide (kv.1 ∈ matched) then n else n + 1) 0 (map_to_list golden).

Definition Check_fills (contestantFills : list ContestantFill) (goldenFills : list GoldenFill)
    : CorrectnessResult :=
  match goldenFills, contestantFills with
  | [], [] => mkCorrectness F64.zero 0 0 0
  | _, _ =>
      let golden := goldenByID goldenFills in
      let st := fold_left (checkFill golden) contestantFills (mkCheck ∅ 0 0) in
      let incorrect := ck_incorrect st + countUnmatched golden (ck_matched st) in
      let total := ck_correct st + incorrect in
      let score := if 0 <? total then F64.div (F64.of_Z (ck_correct st)) (F64.of_Z total)
                   else F64.zero in
      mkCorrectness score total (ck_correct st) incorrect
  end.

(** ** What the counts mean *)
(** The first fill of an id. *)
Fixpoint first_fill (cs : list ContestantFill) (id : string) : option ContestantFill :=
  match cs with
  | [] => None
  | cf :: cs => if decide (cf_OrderID cf = id) then Some cf else first_fill cs id
  end.

Fixpoint first_golden (gs : list GoldenFill) (id : string) : option GoldenFill :=
  match gs with
  | [] => None
  | gf :: gs => if decide (gf_OrderID gf = id) then Some gf else first_golden gs id
  end.

(** The first answer for [id] agrees with the first golden fill. *)
Definition answered (golden : gmap string GoldenFill) (cs : list ContestantFill) (id : string)
    : bool :=
  match golden !! id, first_fill cs id with
  | Some gf, Some cf => fillsMatch cf gf
  | _, _ => false
  end.

Definition answered_ids (golden : gmap string GoldenFill) (cs : list ContestantFill)
    (among : gset string) : gset string :=
  filter (λ id, answered golden cs id = true) among.

Definition contestant_ids (cs : list ContestantFill) : gset string :=
  list_to_set (cf_OrderID <$> cs).
Definition golden_ids (gs : list GoldenFill) : gset string := list_to_set (gf_OrderID <$> gs).

Lemma goldenByID_lookup gs id : goldenByID gs !! id = first_golden gs id.
Proof.
  unfold goldenByID.
  assert (∀ m : gmap string GoldenFill, fold_left (λ m gf,
    match m !! gf_OrderID gf with Some _ => m | None => <[gf_OrderID gf := gf]> m end) gs m !! id
    = match m !! id with Some gf => Some gf | None => first_golden gs id end) as Hgen.
  { induction gs as [|gf gs IH]; intros m; simpl; [by destruct (m !! id)|]. rewrite IH.
    destruct (m !! gf_OrderID gf) eqn:Hm.
    - case_decide; [subst; by rewrite Hm|done].
    - rewrite lookup_insert. case_decide; subst; [by rewrite Hm|done]. }
  rewrite Hgen. by rewrite lookup_empty.
Qed.

Lemma first_golden_Some gs id gf :
  first_golden gs id = Some gf → gf ∈ gs ∧ gf_OrderID gf = id.
Proof.
  induction gs as [|g gs IH]; simpl; [done|]. case_decide as Hd; intros Hf.
  - injection Hf as <-. split; [by left|done].
  - destruct (IH Hf). split; [by right|done].
Qed.

Lemma first_golden_None gs id : first_golden gs id = None ↔ id ∉ golden_ids gs.
Proof.
  unfold golden_ids. induction gs as [|g gs IH]; simpl; [set_solver|].
  case_decide; [split; [done|set_solver]|]. rewrite IH. set_solver.
Qed.

Lemma goldenByID_dom gs : dom (goldenByID gs) = golden_ids gs.
Proof.
  apply set_eq. intros id.
  rewrite elem_of_dom, goldenByID_lookup, <- not_eq_None_Some, first_golden_None.
  destruct (decide (id ∈ golden_ids gs)); tauto.
Qed.

Lemma gset_size_union (X Y : gset string) : X ## Y → size (X ∪ Y) = (size X + size Y)%nat.
Proof. apply size_union. Qed.

Lemma gset_filter_union (P : string → Prop) `{!∀ x, Decision (P x)} (X Y : gset string) :
  filter P (X ∪ Y) = filter P X ∪ filter P Y.
Proof. apply set_eq. set_solver. Qed.

Lemma size_add (id : string) (X : gset string) : id ∉ X → size ({[id]} ∪ X) = S (size X).
Proof. intros Hid. rewrite gset_size_union by set_solver. by rewrite size_singleton. Qed.

Lemma countUnmatched_size golden matched :
  countUnmatched golden matched = Z.of_nat (size (dom golden ∖ matched)).
Proof.
  unfold countUnmatched. induction golden as [|id gf m Hm IH] using map_ind.
  { rewrite map_to_list_empty, dom_empty_L. simpl.
    by replace (∅ ∖ matched) with (∅ : gset string) by set_solver. }
  assert (id ∉ dom m) as Hd by (by apply not_elem_of_dom).
  assert (Hperm : ∀ l l' : list (string * GoldenFill), l ≡ₚ l' →
    foldr (λ kv n, if bool_decide (kv.1 ∈ matched) then n else n + 1) 0 l =
    foldr (λ kv n, if bool_decide (kv.1 ∈ matched) then n else n + 1) 0 l').
  { induction 1; simpl; repeat case_bool_decide; lia. }
  rewrite (Hperm _ ((id, gf) :: map_to_list m)) by (by apply map_to_list_insert).
  simpl. rewrite IH, dom_insert_L. case_bool_decide.
  - by replace (({[id]} ∪ dom m) ∖ matched) with (dom m ∖ matched) by set_solver.
  - replace (({[id]} ∪ dom m) ∖ matched) with ({[id]} ∪ (dom m ∖ matched)) by set_solver.
    rewrite size_add by set_solver. lia.
Qed.

(** One more fill in front of [cs]. *)
Lemma answered_ids_other golden cf cs among :
  cf_OrderID cf ∉ among → answered_ids golden (cf :: cs) among = answered_ids golden cs among.
Proof.
  intros Hn. apply set_eq. intros id. unfold answered_ids, answered. rewrite !elem_of_filter. simpl.
  case_decide; [subst; tauto|done].
Qed.

Lemma answered_ids_size_cons golden cf cs (matched : gset string) gf :
  golden !! cf_OrderID cf = Some gf → cf_OrderID cf ∉ matched →
  size (answered_ids golden (cf :: cs) (dom golden ∖ matched)) =
  ((if fillsMatch cf gf then 1 else 0) +
   size (answered_ids golden cs (dom golden ∖ ({[cf_OrderID cf]} ∪ matched))))%nat.
Proof.
  intros Hg Hn. set (i := cf_OrderID cf) in *.
  assert (i ∈ dom golden) by (apply elem_of_dom; eauto).
  replace (dom golden ∖ matched) with ({[i]} ∪ (dom golden ∖ ({[i]} ∪ matched))).
  2: { apply set_eq. intros x. destruct (decide (x = i)); set_solver. }
  unfold answered_ids at 1. rewrite gset_filter_union, gset_size_union.
  2: { intros x. rewrite !elem_of_filter. set_solver. }
  rewrite <- (answered_ids_other golden cf cs (dom golden ∖ ({[i]} ∪ matched))) by set_solver.
  replace (filter (λ id, answered golden (cf :: cs) id = true) ({[i]} : gset string))
    with (if fillsMatch cf gf then {[i]} else ∅ : gset string).
  { by destruct (fillsMatch cf gf); rewrite ?size_singleton, ?size_empty. }
  assert (answered golden (cf :: cs) i = fillsMatch cf gf) as Ha.
  { unfold answered. rewrite Hg. simpl. by rewrite decide_True. }
  apply set_eq. intros x. rewrite elem_of_filter, elem_of_singleton.
  destruct (fillsMatch cf gf) eqn:E.
  - rewrite elem_of_singleton. naive_solver.
  - split; [set_solver|]. intros [Hx ->]. congruence.
Qed.

Lemma check_loop golden cs st :
  ck_matched st ⊆ dom golden →
  let st' := fold_left (checkFill golden) cs st in
  let hits := Z.of_nat (size (answered_ids golden cs (dom golden ∖ ck_matched st))) in
  ck_matched st' = ck_matched st ∪ (contestant_ids cs ∩ dom golden) ∧
  ck_correct st' = ck_correct st + hits ∧
  ck_incorrect st' = ck_incorrect st + (Z.of_nat (length cs) - hits).
Proof.
  revert st. unfold contestant_ids. induction cs as [|cf cs IH]; intros st Hsub; cbn [fold_left].
  { simpl. replace (answered_ids golden [] (dom golden ∖ ck_matched st)) with (∅ : gset string).
    - rewrite size_empty. split_and!; [set_solver|lia|lia].
    - apply set_eq. intros id. unfold answered_ids, answered. rewrite elem_of_filter. simpl.
      destruct (golden !! id); set_solver. }
  assert (Hskip : ∀ st1, ck_matched st1 = ck_matched st → ck_correct st1 = ck_correct st →
    ck_incorrect st1 = ck_incorrect st + 1 →
    cf_OrderID cf ∉ dom golden ∖ ck_matched st →
    let st' := fold_left (checkFill golden) cs st1 in
    let hits := Z.of_nat (size (answered_ids golden (cf :: cs) (dom golden ∖ ck_matched st))) in
    ck_matched st' = ck_matched st ∪ (list_to_set (cf_OrderID <$> cf :: cs) ∩ dom golden) ∧
    ck_correct st' = ck_correct st + hits ∧
    ck_incorrect st' = ck_incorrect st + (Z.of_nat (length (cf :: cs)) - hits)).
  { intros st1 Hm Hc Hi Hn. destruct (IH st1) as (H1 & H2 & H3); [by rewrite Hm|].
    rewrite answered_ids_other by done. simpl. rewrite H1, H2, H3, Hm, Hc, Hi.
    split_and!; [|lia|lia]. apply set_eq. intros x.
    rewrite !elem_of_union, !elem_of_intersection, elem_of_union, elem_of_singleton.
    destruct (decide (x ∈ ck_matched st)), (decide (x ∈ dom golden)); set_solver. }
  unfold checkFill at 2 4 6. destruct (golden !! cf_OrderID cf) as [gf|] eqn:Hg.
  2: { apply Hskip; try done. apply not_elem_of_dom in Hg. set_solver. }
  assert (cf_OrderID cf ∈ dom golden) by (apply elem_of_dom; eauto).
  case_bool_decide as Hm; [apply Hskip; try done; set_solver|].
  rewrite (answered_ids_size_cons _ _ _ _ _ Hg Hm).
  destruct (fillsMatch cf gf); edestruct IH as (H1 & H2 & H3); cycle 1;
    try (cbn zeta; rewrite H1, H2, H3; simpl; split_and!; [set_solver|lia|lia]);
    simpl; set_solver.
Qed.

(** ** The result of a check *)
Lemma Check_counts cs gs :
  let golden := goldenByID gs in
  let hits := Z.of_nat (size (answered_ids golden cs (golden_ids gs))) in
  cr_CorrectFills (Check_fills cs gs) = hits ∧
  cr_TotalFills (Check_fills cs gs) =
    Z.of_nat (length cs) + Z.of_nat (size (golden_ids gs ∖ contestant_ids cs)) ∧
  cr_IncorrectFills (Check_fills cs gs) = cr_TotalFills (Check_fills cs gs) - hits.
Proof.
  cbv zeta. unfold Check_fills.
  pose proof (check_loop (goldenByID gs) cs (mkCheck ∅ 0 0) ltac:(set_solver)) as (H1 & H2 & H3).
  cbn [ck_matched ck_correct ck_incorrect] in *.
  assert (dom (goldenByID gs) ∖ ∅ = golden_ids gs) as Hd
    by (rewrite goldenByID_dom; set_solver).
  rewrite Hd in *.
  assert (golden_ids gs ∖ (∅ ∪ (contestant_ids cs ∩ golden_ids gs)) =
    golden_ids gs ∖ contestant_ids cs) as Hs.
  { apply set_eq. intros x. rewrite !elem_of_difference, elem_of_union, elem_of_intersection.
    set_solver. }
  destruct gs as [|g gs], cs as [|c cs]; [by split_and!|..];
    cbn [cr_CorrectFills cr_TotalFills cr_IncorrectFills];
    rewrite countUnmatched_size, H1, goldenByID_dom, Hs, H2, H3; split_and!; lia.
Qed.

Lemma Check_score cs gs :
  let r := Check_fills cs gs in
  cr_Score r = if 0 <? cr_TotalFills r
               then F64.div (F64.of_Z (cr_CorrectFills r)) (F64.of_Z (cr_TotalFills r))
               else F64.zero.
Proof. by destruct gs, cs. Qed.

Lemma answered_ids_subset golden cs among : answered_ids golden cs among ⊆ among.
Proof. unfold answered_ids. set_solver. Qed.

(** The result is a function of three numbers. *)
Lemma Check_determined cs gs cs' gs' :
  size (answered_ids (goldenByID gs) cs (golden_ids gs)) =
    size (answered_ids (goldenByID gs') cs' (golden_ids gs')) →
  length cs = length cs' →
  size (golden_ids gs ∖ contestant_ids cs) = size (golden_ids gs' ∖ contestant_ids cs') →
  Check_fills cs gs = Check_fills cs' gs'.
Proof.
  intros H1 H2 H3. pose proof (Check_counts cs gs) as (A1 & A2 & A3).
  pose proof (Check_counts cs' gs') as (B1 & B2 & B3).
  pose proof (Check_score cs gs) as A4. pose proof (Check_score cs' gs') as B4. cbv zeta in *.
  assert (cr_CorrectFills (Check_fills cs gs) = cr_CorrectFills (Check_fills cs' gs')) as E1
    by congruence.
  assert (cr_TotalFills (Check_fills cs gs) = cr_TotalFills (Check_fills cs' gs')) as E2
    by (rewrite A2, B2; lia).
  assert (cr_IncorrectFills (Check_fills cs gs) = cr_IncorrectFills (Check_fills cs' gs')) as E3
    by lia.
  rewrite E1, E2, <- B4 in A4.
  destruct (Check_fills cs gs), (Check_fills cs' gs'). simpl in *. congruence.
Qed.

Lemma first_fill_Some cs id cf :
  NoDup (cf_OrderID <$> cs) → first_fill cs id = Some cf ↔ cf ∈ cs ∧ cf_OrderID cf = id.
Proof.
  induction cs as [|c cs IH]; simpl; intros Hnd; [set_solver|].
  apply NoDup_cons in Hnd as [Hni Hnd]. rewrite elem_of_cons.
  case_decide as Hc.
  - split; [intros [= ->]; auto|]. intros [[->|Hin] Hid]; [done|]. destruct Hni.
    apply list_elem_of_fmap. exists cf. split; [congruence|done].
  - rewrite IH by done. split; [tauto|]. intros [[->|?] ?]; [congruence|done].
Qed.

Lemma first_golden_elem gs id gf :
  NoDup (gf_OrderID <$> gs) → first_golden gs id = Some gf ↔ gf ∈ gs ∧ gf_OrderID gf = id.
Proof.
  induction gs as [|c gs IH]; simpl; intros Hnd; [set_solver|].
  apply NoDup_cons in Hnd as [Hni Hnd]. rewrite elem_of_cons.
  case_decide as Hc.
  - split; [intros [= ->]; auto|]. intros [[->|Hin] Hid]; [done|]. destruct Hni.
    apply list_elem_of_fmap. exists gf. split; [congruence|done].
  - rewrite IH by done. split; [tauto|]. intros [[->|?] ?]; [congruence|done].
Qed.

(** Two lookups with the same [Some] results are equal. *)
Lemma option_eq_Some {A} (x y : option A) : (∀ a, x = Some a ↔ y = Some a) → x = y.
Proof. intros Hxy. destruct x as [a|]; [symmetry; by apply Hxy|]. destruct y as [a|]; [|done]. by apply Hxy. Qed.

Lemma first_fill_perm cs cs' id :
  NoDup (cf_OrderID <$> cs) → cs ≡ₚ cs' → first_fill cs id = first_fill cs' id.
Proof.
  intros Hnd Hp. apply option_eq_Some. intros cf.
  assert (NoDup (cf_OrderID <$> cs')) by (by rewrite <- Hp).
  rewrite !first_fill_Some by done. by rewrite Hp.
Qed.

Lemma first_golden_perm gs gs' id :
  NoDup (gf_OrderID <$> gs) → gs ≡ₚ gs' → first_golden gs id = first_golden gs' id.
Proof.
  intros Hnd Hp. apply option_eq_Some. intros gf.
  assert (NoDup (gf_OrderID <$> gs')) by (by rewrite <- Hp).
  rewrite !first_golden_elem by done. by rewrite Hp.
Qed.

(** The fills of an engine that answers exactly like the golden book. *)
Definition mirror (gf : GoldenFill) : ContestantFill :=
  mkContestantFill (gf_OrderID gf) (gf_ExecutedPrice gf) (gf_ExecutedQty gf) (gf_Accepted gf).

Lemma fillsMatch_spec cf gf : cf_OrderID cf = gf_OrderID gf → fillsMatch cf gf = true ↔ cf = mirror gf.
Proof.
  intros Hid. unfold fillsMatch, mirror.
  rewrite !andb_true_iff, bool_decide_eq_true, !Z.eqb_eq. destruct cf; simpl in *.
  split; [intros [[-> ->] ->]; congruence|intros [=]; auto].
Qed.

Lemma first_fill_mirror gs id : first_fill (mirror <$> gs) id = mirror <$> first_golden gs id.
Proof. induction gs as [|g gs IH]; simpl; [done|]. by case_decide. Qed.

(** The number of different strings of a list. *)
Lemma size_list_to_set (l : list string) :
  (size (list_to_set l : gset string) ≤ length l)%nat ∧
  (size (list_to_set l : gset string) = length l ↔ NoDup l).
Proof.
  induction l as [|x l [IHle IHnd]].
  { split; [done|]. split; [constructor|done]. }
  rewrite list_to_set_cons, NoDup_cons. cbn [length].
  destruct (decide (x ∈ l)) as [Hin|Hin].
  - rewrite (subseteq_union_1_L {[x]}) by set_solver. split; [lia|].
    split; [lia|]. by intros [? _].
  - rewrite size_add by set_solver. split; [lia|].
    rewrite <- IHnd. split; [intros ?; split; [done|lia]|lia].
Qed.

Lemma size_golden_ids gs :
  (size (golden_ids gs) ≤ length gs)%nat ∧
  (size (golden_ids gs) = length gs ↔ NoDup (gf_OrderID <$> gs)).
Proof. pose proof (size_list_to_set (gf_OrderID <$> gs)) as Hs. by rewrite length_fmap in Hs. Qed.

Lemma answered_ids_size cs gs :
  (size (answered_ids (goldenByID gs) cs (golden_ids gs)) ≤ length cs)%nat.
Proof.
  pose proof (size_list_to_set (cf_OrderID <$> cs)) as [Hle _]. rewrite length_fmap in Hle.
  transitivity (size (contestant_ids cs)); [|done]. apply subseteq_size. intros id.
  unfold answered_ids, answered. rewrite elem_of_filter. intros [Ha _].
  destruct (goldenByID gs !! id); [|done]. clear Hle. unfold contestant_ids.
  induction cs as [|c cs IH]; simpl in *; [done|]. case_decide; set_solver.
Qed.

(** ** The theorems *)
(** The order ids a contestant answered correctly. *)
Definition correct_ids (cs : list ContestantFill) (gs : list GoldenFill) (X : gset string) : Prop :=
  ∀ id, id ∈ X ↔
    ∃ gf, first_golden gs id = Some gf ∧ first_fill cs id = Some (mirror gf).

Lemma first_fill_id cs id cf : first_fill cs id = Some cf → cf_OrderID cf = id.
Proof. induction cs as [|c cs IH]; simpl; [done|]. case_decide as Hc; [by intros [= <-]|done]. Qed.

Lemma answered_ids_correct cs gs :
  correct_ids cs gs (answered_ids (goldenByID gs) cs (golden_ids gs)).
Proof.
  intros id. unfold answered_ids, answered. rewrite elem_of_filter, goldenByID_lookup. split.
  - intros [Ha _]. destruct (first_golden gs id) as [gf|] eqn:Hg; [|done].
    destruct (first_fill cs id) as [cf|] eqn:Hc; [|done].
    destruct (first_golden_Some _ _ _ Hg). pose proof (first_fill_id _ _ _ Hc).
    apply fillsMatch_spec in Ha as ->; [|congruence]. eauto.
  - intros (gf & Hg & Hc). rewrite Hg, Hc. split; [by apply fillsMatch_spec|].
    apply dec_stable. intros Hn. apply first_golden_None in Hn. congruence.
Qed.

(** The checker counts what it says: the correct fills are the golden
    order ids whose first contestant fill carries exactly the first golden
    fill's acceptance, price and quantity; the total is every contestant fill
    plus the golden ids nobody answered; the rest of the total is incorrect. *)
Theorem checker_counts cs gs :
  let r := Check_fills cs gs in
  ∃ X, correct_ids cs gs X ∧ cr_CorrectFills r = Z.of_nat (size X) ∧
    cr_TotalFills r = Z.of_nat (length cs) + Z.of_nat (size (golden_ids gs ∖ contestant_ids cs)) ∧
    cr_CorrectFills r + cr_IncorrectFills r = cr_TotalFills r ∧
    0 ≤ cr_CorrectFills r ≤ Z.of_nat (length gs) ∧ 0 ≤ cr_IncorrectFills r.
Proof.
  exists (answered_ids (goldenByID gs) cs (golden_ids gs)).
  pose proof (Check_counts cs gs) as (H1 & H2 & H3). cbv zeta in *.
  split; [apply answered_ids_correct|]. split; [done|]. split; [done|]. split; [lia|].
  assert (Hlen : ∀ X : gset string, X ⊆ golden_ids gs → (size X ≤ length gs)%nat).
  { intros X HX. apply subseteq_size in HX. pose proof (size_golden_ids gs). lia. }
  pose proof (Hlen _ (answered_ids_subset (goldenByID gs) cs (golden_ids gs))).
  pose proof (answered_ids_size cs gs). lia.
Qed.

(** The order of the fills in either list does not matter, as long as no
    order id occurs twice in it: the result, score included, is the same. *)
Theorem checker_order_independent cs cs' gs gs' :
  NoDup (cf_OrderID <$> cs) → NoDup (gf_OrderID <$> gs) → cs ≡ₚ cs' → gs ≡ₚ gs' →
  Check_fills cs gs = Check_fills cs' gs'.
Proof.
  intros Hnc Hng Hc Hg.
  assert (golden_ids gs = golden_ids gs') as Hgi
    by (apply set_eq; intros; unfold golden_ids; by rewrite !elem_of_list_to_set, Hg).
  assert (contestant_ids cs = contestant_ids cs') as Hci
    by (apply set_eq; intros; unfold contestant_ids; by rewrite !elem_of_list_to_set, Hc).
  apply Check_determined; [|by rewrite Hc|by rewrite Hgi, Hci].
  f_equal. apply set_eq. intros id. unfold answered_ids, answered. rewrite !elem_of_filter, Hgi.
  rewrite !goldenByID_lookup, (first_golden_perm gs gs'), (first_fill_perm cs cs') by done. done.
Qed.

Definition sample_golden : list GoldenFill := [mkFill "a" 0 0 true; mkFill "b" 100 5 true].
Definition sample_fills : list ContestantFill :=
  [mkContestantFill "a" 0 0 true; mkContestantFill "b" 100 4 true].

Lemma checker_order_independent_witness :
  Check_fills sample_fills sample_golden = Check_fills (rev sample_fills) (rev sample_golden) ∧
  cr_CorrectFills (Check_fills sample_fills sample_golden) = 1.
Proof.
  split; [|done]. apply checker_order_independent.
  - apply (bool_decide_unpack _). by vm_compute.
  - apply (bool_decide_unpack _). by vm_compute.
  - apply Permutation_rev.
  - apply Permutation_rev.
Defined.

Lemma Check_mirror gs :
  let r := Check_fills (mirror <$> gs) gs in
  cr_TotalFills r = Z.of_nat (length gs) ∧
  cr_CorrectFills r = Z.of_nat (size (golden_ids gs)) ∧
  (cr_IncorrectFills r = 0 ↔ NoDup (gf_OrderID <$> gs)).
Proof.
  pose proof (Check_counts (mirror <$> gs) gs) as (H1 & H2 & H3). cbv zeta in *.
  assert (contestant_ids (mirror <$> gs) = golden_ids gs) as Hids.
  { unfold contestant_ids, golden_ids. by rewrite <- list_fmap_compose. }
  rewrite Hids, difference_diag_L, size_empty, length_fmap in H2.
  assert (answered_ids (goldenByID gs) (mirror <$> gs) (golden_ids gs) = golden_ids gs) as Ha.
  { apply set_eq. intros id. split; [apply answered_ids_subset|]. intros Hid.
    apply answered_ids_correct. destruct (first_golden gs id) as [gf|] eqn:Hg.
    - exists gf. split; [done|]. by rewrite first_fill_mirror, Hg.
    - by apply first_golden_None in Hg. }
  rewrite Ha in *. pose proof (size_golden_ids gs) as [Hle Hnd].
  split_and!; [lia|done|]. rewrite <- Hnd. lia.
Qed.

(** An engine that gives the golden answer to every order has one correct
    fill per order id: it is marked fully correct exactly when no two of the
    orders share an id. Two fills of one id, as for an order and its later
    cancel, always cost a point. *)
Theorem checker_perfect_engine gs :
  let r := Check_fills (mirror <$> gs) gs in
  cr_TotalFills r = Z.of_nat (length gs) ∧
  cr_CorrectFills r = Z.of_nat (size (golden_ids gs)) ∧
  (cr_IncorrectFills r = 0 ↔ NoDup (gf_OrderID <$> gs)).
Proof. apply Check_mirror. Qed.
