(* ===== verification/Botfleet.v ===== *)
(** * Botfleet: orders, the order generator, the bots and the fleet
    ([internal/botfleet/order.go], [generator.go], [bot.go], [fleet.go])

    [botfleet.Side] and [botfleet.OrderKind] have the same values as the types
    of the golden order book, whose constants are used here. Times are numbers
    of nanoseconds; [math/rand] is used through [Rand], its documented
    contract; a panic is [None]. *)

From S2P Require Import Prelude Models OrderBook GoTime.

(** ** order.go *)
Record Order := mkBotOrder {
  o_ID : string;
  o_Kind : string;
  o_Side : string;
  o_Price : Z;
  o_Quantity : Z
}.

Record Fill := mkBotFill {
  f_OrderID : string;
  f_ExecutedPrice : Z;
  f_ExecutedQty : Z;
  f_Accepted : bool
}.

Definition zeroFill : Fill := mkBotFill "" 0 0 false.

Record OrderResult := mkOrderResult {
  or_Order : Order;
  or_Fill : Fill;
  or_SentAt : time;
  or_AckedAt : time;
  or_LatencyNs : Z;
  or_Err : option string
}.

(** ** generator.go *)
Record OrderRatios := mkRatios { Limit : float64; Market : float64; Cancel : float64 }.

Definition DefaultOrderRatios : OrderRatios :=
  mkRatios (F64.lit 60 100) (F64.lit 30 100) (F64.lit 10 100).

Inductive ratios_error := ErrRatiosSum | ErrRatiosNegative.

Definition ratiosValidate (r : OrderRatios) : option ratios_error :=
  let sum := F64.add (F64.add (Limit r) (Market r)) (Cancel r) in
  if F64.ltb sum (F64.lit 999 1000) || F64.gtb sum (F64.lit 1001 1000) then Some ErrRatiosSum
  else if F64.ltb (Limit r) F64.zero || F64.ltb (Market r) F64.zero || F64.ltb (Cancel r) F64.zero
  then Some ErrRatiosNegative
  else None.

Record PriceConfig := mkPriceConfig { MidPrice : Z; Spread : Z }.
Definition DefaultPriceConfig : PriceConfig := mkPriceConfig 10000 500.

Record QuantityConfig := mkQuantityConfig { qc_Min : Z; qc_Max : Z }.
Definition DefaultQuantityConfig : QuantityConfig := mkQuantityConfig 1 100.

Record RandomGeneratorConfig := mkGeneratorConfig {
  gc_Ratios : OrderRatios;
  gc_Price : PriceConfig;
  gc_Quantity : QuantityConfig;
  gc_Seed : Z
}.

Definition DefaultRandomGeneratorConfig : RandomGeneratorConfig :=
  mkGeneratorConfig DefaultOrderRatios DefaultPriceConfig DefaultQuantityConfig 0.

(** [math/rand]: a source seeded by an int64, [Float64], and [Intn] and [Int63n],
    which panic unless their argument is positive. *)
Class Rand : Type := {
  rng_t : Type;
  NewSource : Z → rng_t;
  Float64 : rng_t → float64 * rng_t;
  Intn : Z → rng_t → Z * rng_t;
  Int63n : Z → rng_t → Z * rng_t;
  Intn_range n r : 0 < n → 0 ≤ (Intn n r).1 < n;
  Int63n_range n r : 0 < n → 0 ≤ (Int63n n r).1 < n
}.

Inductive generator_error :=
| ErrRatios (e : ratios_error)
| ErrQuantityMin
| ErrQuantityMax
| ErrSpread.

Section generator.
Context `{!Rand}.

Record RandomGenerator := mkGenerator {
  g_cfg : RandomGeneratorConfig;
  g_rng : rng_t;
  g_botID : string;
  g_seq : Z;
  g_pendingIDs : list string
}.

Definition NewRandomGenerator (now : time) (botID : string) (cfg : RandomGeneratorConfig)
    : result generator_error RandomGenerator :=
  match ratiosValidate (gc_Ratios cfg) with
  | Some e => Err (ErrRatios e)
  | None =>
    if qc_Min (gc_Quantity cfg) <? 1 then Err ErrQuantityMin
    else if qc_Max (gc_Quantity cfg) <? qc_Min (gc_Quantity cfg) then Err ErrQuantityMax
    else if Spread (gc_Price cfg) <? 0 then Err ErrSpread
    else
      let seed := if gc_Seed cfg =? 0 then now else gc_Seed cfg in
      Ok (mkGenerator cfg (NewSource seed) botID 0 [])
  end.

Definition set_rng (r : rng_t) (g : RandomGenerator) : RandomGenerator :=
  mkGenerator (g_cfg g) r (g_botID g) (g_seq g) (g_pendingIDs g).
Definition set_pending (l : list string) (g : RandomGenerator) : RandomGenerator :=
  mkGenerator (g_cfg g) (g_rng g) (g_botID g) (g_seq g) l.

(** [rng.Int63n(n)] and [rng.Intn(n)]. *)
Definition drawInt63n (n : Z) (g : RandomGenerator) : option (Z * RandomGenerator) :=
  if n <=? 0 then None else let '(v, r) := Int63n n (g_rng g) in Some (v, set_rng r g).
Definition drawIntn (n : Z) (g : RandomGenerator) : option (Z * RandomGenerator) :=
  if n <=? 0 then None else let '(v, r) := Intn n (g_rng g) in Some (v, set_rng r g).

Definition drawSide (g : RandomGenerator) : option (string * RandomGenerator) :=
  '(b, g) ← drawIntn 2 g; Some (if b =? 1 then SideSell else SideBuy, g).

Definition drawQuantity (g : RandomGenerator) : option (Z * RandomGenerator) :=
  let q := gc_Quantity (g_cfg g) in
  '(n, g) ← drawInt63n (i64 (qc_Max q - qc_Min q + 1)) g; Some (i64 (qc_Min q + n), g).

Definition limitOrder (id : string) (g : RandomGenerator) : option (Order * RandomGenerator) :=
  '(side, g) ← drawSide g;
  let spread := Spread (gc_Price (g_cfg g)) in
  '(offset, g) ← (if 0 <? spread
                  then '(n, g) ← drawInt63n (i64 (spread * 2 + 1)) g; Some (i64 (n - spread), g)
                  else Some (0, g));
  let price := i64 (MidPrice (gc_Price (g_cfg g)) + offset) in
  '(qty, g) ← drawQuantity g;
  Some (mkBotOrder id KindLimit side price qty, g).

Definition marketOrder (id : string) (g : RandomGenerator) : option (Order * RandomGenerator) :=
  '(side, g) ← drawSide g;
  '(qty, g) ← drawQuantity g;
  Some (mkBotOrder id KindMarket side 0 qty, g).

(** [pendingIDs\[idx\] = pendingIDs\[len-1\]; pendingIDs = pendingIDs\[:len-1\]] *)
Definition removePending (idx : nat) (l : list string) : list string :=
  match last l with
  | Some x => take (length l - 1) (<[idx := x]> l)
  | None => l
  end.

Definition cancelOrder (id : string) (g : RandomGenerator) : option (Order * RandomGenerator) :=
  match g_pendingIDs g with
  | [] => Some (mkBotOrder (id +:+ "-unknown") KindCancel "" 0 0, g)
  | _ =>
    '(idx, g) ← drawIntn (Z.of_nat (length (g_pendingIDs g))) g;
    target ← g_pendingIDs g !! Z.to_nat idx;
    Some (mkBotOrder target KindCancel "" 0 0,
          set_pending (removePending (Z.to_nat idx) (g_pendingIDs g)) g)
  end.

(** [fmt.Sprintf("%s-%d", botID, seq)] *)
Definition orderID (botID : string) (seq : Z) : string :=
  botID +:+ "-" +:+ pretty (Z.to_N seq).

Definition Next (g : RandomGenerator) : option (Order * RandomGenerator) :=
  let seq := u64 (g_seq g + 1) in
  let id := orderID (g_botID g) seq in
  let '(roll, r) := Float64 (g_rng g) in
  let g := mkGenerator (g_cfg g) r (g_botID g) seq (g_pendingIDs g) in
  let ratios := gc_Ratios (g_cfg g) in
  if F64.ltb roll (Limit ratios) then
    '(o, g) ← limitOrder id g;
    Some (o, if Z.of_nat (length (g_pendingIDs g)) <? 1000
             then set_pending (g_pendingIDs g ++ [id]) g else g)
  else if F64.ltb roll (F64.add (Limit ratios) (Market ratios)) then marketOrder id g
  else cancelOrder id g.

(** [n] calls of [Next]. *)
Fixpoint NextN (n : nat) (g : RandomGenerator) : option (list Order * RandomGenerator) :=
  match n with
  | O => Some ([], g)
  | S n => '(o, g) ← Next g; '(os, g) ← NextN n g; Some (o :: os, g)
  end.

(** ** bot.go *)
(** What happens around one call of the transport: the clock before, the
    outcome, and the clock after. *)
Record exchange := mkExchange { ex_sent : time; ex_reply : result string Fill; ex_acked : time }.

Definition toResult (o : Order) (ex : exchange) : OrderResult :=
  match ex_reply ex with
  | Err e => mkOrderResult o zeroFill (ex_sent ex) zero_time 0 (Some e)
  | Ok fill => mkOrderResult o fill (ex_sent ex) (ex_acked ex)
                 (Sub (ex_acked ex) (ex_sent ex)) None
  end.

(** [Bot.Run]: one round per exchange, until the context is done. *)
Fixpoint botRun (gen : RandomGenerator) (env : list exchange) : option (list OrderResult) :=
  match env with
  | [] => Some []
  | ex :: env =>
      '(o, gen) ← Next gen;
      rs ← botRun gen env;
      Some (toResult o ex :: rs)
  end.
End generator.

(** *** The REST transport *)
Record restOrderRequest := mkRestRequest {
  rq_OrderID : string; rq_Kind : string; rq_Side : string; rq_Price : Z; rq_Quantity : Z
}.
Record restOrderResponse := mkRestResponse {
  rp_OrderID : string; rp_Accepted : bool; rp_ExecutedPrice : Z; rp_ExecutedQty : Z
}.

Inductive send_error := ErrDoRequest | ErrDecode (status : Z).

Section rest.
(** [http.Client.Do] on method, URL and body: the status and the body read, or a
    transport error; and [json.Unmarshal] of a response. *)
Context (Do : string → string → restOrderRequest → option (Z * string))
        (Unmarshal : string → option restOrderResponse) (baseURL : string).

Definition restSend (o : Order) : result send_error Fill :=
  let body := mkRestRequest (o_ID o) (o_Kind o) (o_Side o) (o_Price o) (o_Quantity o) in
  let method := if bool_decide (o_Kind o = KindCancel) then "DELETE" else "POST" in
  match Do method (baseURL +:+ "/orders") body with
  | None => Err ErrDoRequest
  | Some (status, resp) =>
      match Unmarshal (String.substring 0 4096 resp) with
      | None => Err (ErrDecode status)
      | Some d => Ok (mkBotFill (rp_OrderID d) (rp_ExecutedPrice d) (rp_ExecutedQty d) (rp_Accepted d))
      end
  end.
End rest.

(** ** fleet.go *)
Record FleetConfig := mkFleetConfig {
  fc_BotCount : Z;
  fc_RampUpDuration : duration;
  fc_TestDuration : duration;
  fc_TargetURL : string;
  fc_Protocol : string;
  fc_PerBotHTTPTimeout : duration;
  fc_GeneratorConfig : RandomGeneratorConfig
}.

Definition DefaultFleetConfig (targetURL : string) : FleetConfig :=
  mkFleetConfig 100 (5 * Second) (60 * Second) targetURL "rest" (2 * Second)
    DefaultRandomGeneratorConfig.

Inductive fleet_error :=
| ErrBotCount (n : Z) | ErrTestDuration | ErrTargetURL | ErrFleetRatios (e : ratios_error)
| ErrProtocol (p : string).

Definition fleetProtocol (c : FleetConfig) : string :=
  if bool_decide (fc_Protocol c = "") then "rest" else fc_Protocol c.

Definition fleetValidate (c : FleetConfig) : option fleet_error :=
  if fc_BotCount c <? 1 then Some (ErrBotCount (fc_BotCount c))
  else if fc_TestDuration c <=? 0 then Some ErrTestDuration
  else if bool_decide (fc_TargetURL c = "") then Some ErrTargetURL
  else match ratiosValidate (gc_Ratios (fc_GeneratorConfig c)) with
  | Some e => Some (ErrFleetRatios e)
  | None =>
      let protocol := fleetProtocol c in
      if bool_decide (protocol = "rest") || bool_decide (protocol = "websocket") then None
      else Some (ErrProtocol protocol)
  end.

Definition NewFleet (c : FleetConfig) : result fleet_error FleetConfig :=
  match fleetValidate c with Some e => Err e | None => Ok c end.

(** The delay before bot [idx] starts. *)
Definition rampDelay (c : FleetConfig) (idx : Z) : duration :=
  let rampInterval :=
    if (1 <? fc_BotCount c) && (0 <? fc_RampUpDuration c)
    then fc_RampUpDuration c ÷ fc_BotCount c else 0 in
  if (0 <? rampInterval) && (0 <? idx) then i64 (idx * rampInterval) else 0.

(** The seed of bot [idx], [now] being [time.Now().UnixNano()]. *)
Definition botSeed (now : Z) (seed idx : Z) : Z :=
  if seed =? 0 then i64 (now + i64 (idx * 1000003)) else i64 (seed + i64 (idx * 1000003)).

(** [fmt.Sprintf("bot-%04d", idx)] *)
Definition botID (idx : Z) : string :=
  let d := pretty (Z.to_N idx) in
  "bot-" +:+ String.concat "" (replicate (4 - String.length d) "0") +:+ d.

Section fleet.
Context `{!Rand}.

(** [newBot] up to its transport, which for a WebSocket can fail to connect. *)
Definition newBot (c : FleetConfig) (now : time) (idx : Z) : result generator_error RandomGenerator :=
  let cfg := fc_GeneratorConfig c in
  NewRandomGenerator now (botID idx)
    (mkGeneratorConfig (gc_Ratios cfg) (gc_Price cfg) (gc_Quantity cfg)
       (botSeed now (gc_Seed cfg) idx)).

(** What one bot goroutine sends to [resultsCh]: [nil] when the context ends
    during the ramp-up ([None]) or the bot cannot be made. *)
Definition runOne (c : FleetConfig) (now : time) (idx : Z) (env : option (list exchange))
    : option (list OrderResult) :=
  match env with
  | None => Some []
  | Some env =>
      match newBot c now idx with
      | Err _ => Some []
      | Ok gen => botRun gen env
      end
  end.
End fleet.

(** The collector appends the bots' slices in the order in which they arrive. *)
Definition collect (arrivals : list (list OrderResult)) : list OrderResult := concat arrivals.

(** [Fleet.Run]: [envs] gives each bot its exchanges, or [None] for a bot that
    never starts (the context ends during its ramp-up, or its transport cannot
    connect). The slices arrive in any order. *)


Inductive fleet_run `{!Rand} (c : FleetConfig) (now : Z → time)
    (envs : list (option (list exchange))) : list OrderResult → Prop :=
| fleet_run_intro slices arrivals :
    Z.of_nat (length envs) = fc_BotCount c →
    Forall2 (λ '(idx, env) slice, runOne c (now idx) idx env = Some slice)
      (zip (seqZ 0 (fc_BotCount c)) envs) slices →
    arrivals ≡ₚ slices →
    fleet_run c now envs (collect arrivals).
