(* ===== verification/Generator.v ===== *)
(** * Generator: the orders a bot sends are well formed

    Bounds, identifiers and cancellations of the order generator, and the ids of
    different bots of a fleet. *)

From S2P Require Import Prelude Models OrderBook Botfleet.

(** ** Decimal strings *)
Fixpoint all_chars (P : Ascii.ascii → bool) (s : string) : bool :=
  match s with
  | EmptyString => true
  | String c s => P c && all_chars P s
  end.

Definition is_digit (c : Ascii.ascii) : bool :=
  (48 <=? Ascii.N_of_ascii c)%N && (Ascii.N_of_ascii c <=? 57)%N.

Lemma all_chars_app P s t : all_chars P (s +:+ t) = all_chars P s && all_chars P t.
Proof. induction s as [|c s IH]; simpl; [done|]. by rewrite IH, andb_assoc. Qed.

Lemma pretty_N_char_digit x : (x < 10)%N → is_digit (pretty_N_char x) = true.
Proof.
  intros Hx. assert (x = 0 ∨ x = 1 ∨ x = 2 ∨ x = 3 ∨ x = 4 ∨ x = 5 ∨ x = 6 ∨ x = 7 ∨ x = 8 ∨ x = 9)%N
    as Hc by lia.
  by repeat destruct Hc as [->|Hc]; [..|subst].
Qed.

Lemma pretty_N_go_digits x s :
  all_chars is_digit s = true → all_chars is_digit (pretty_N_go x s) = true.
Proof.
  revert s. induction (N.lt_wf_0 x) as [x _ IH]; intros s Hs.
  destruct (decide (x = 0)%N) as [->|Hx]; [by rewrite pretty_N_go_0|].
  rewrite pretty_N_go_step by lia. apply IH; [apply N.div_lt; lia|].
  simpl. rewrite Hs, pretty_N_char_digit; [done|]. apply N.mod_lt. lia.
Qed.

Lemma pretty_digits (n : N) : all_chars is_digit (pretty n) = true.
Proof. unfold pretty, pretty_N. case_decide; [done|]. by apply pretty_N_go_digits. Qed.

(** ** Order ids *)
Definition unknownID (b : string) (seq : Z) : string := orderID b seq +:+ "-unknown".

Lemma orderID_inj b s s' : 0 ≤ s → 0 ≤ s' → orderID b s = orderID b s' → s = s'.
Proof.
  unfold orderID. intros Hs Hs' H. apply (inj _), (inj _), (inj _) in H. lia.
Qed.

Lemma string_length_app (s t : string) :
  String.length (s +:+ t) = (String.length s + String.length t)%nat.
Proof. induction s as [|c s IH]; [done|]. exact (f_equal S IH). Qed.

Lemma string_app_inv_tail (s s' t : string) : s +:+ t = s' +:+ t → s = s'.
Proof.
  intros H. assert (String.length s = String.length s') as Hl.
  { apply (f_equal String.length) in H. rewrite !string_length_app in H. lia. }
  revert s' H Hl. induction s as [|c s IH]; intros [|c' s'] H Hl; simpl in *; try done.
  injection H as -> H. f_equal. apply IH; [done|lia].
Qed.

Lemma unknownID_fresh b s s' : unknownID b s ≠ orderID b s'.
Proof.
  unfold unknownID, orderID. rewrite !string_app_assoc. intros H.
  apply (inj _), (inj _) in H. pose proof (pretty_digits (Z.to_N s')) as Hd.
  rewrite <- H, all_chars_app in Hd. apply andb_true_iff in Hd as [_ Hd]. discriminate Hd.
Qed.

Lemma unknownID_inj b s s' : 0 ≤ s → 0 ≤ s' → unknownID b s = unknownID b s' → s = s'.
Proof. intros ?? H%string_app_inv_tail. by eapply orderID_inj. Qed.

Lemma orderID_nonempty b s : orderID b s ≠ "".
Proof. unfold orderID. by destruct b. Qed.

(** ** The generator *)
(** A configuration whose prices and sizes fit in an int64. *)
Record config_ok (cfg : RandomGeneratorConfig) : Prop := {
  co_min : 1 ≤ qc_Min (gc_Quantity cfg);
  co_max : qc_Min (gc_Quantity cfg) ≤ qc_Max (gc_Quantity cfg) ≤ int64_max;
  co_spread : 0 ≤ Spread (gc_Price cfg) ∧ Spread (gc_Price cfg) * 2 + 1 ≤ int64_max;
  co_low : int64_min ≤ MidPrice (gc_Price cfg) - Spread (gc_Price cfg);
  co_high : MidPrice (gc_Price cfg) + Spread (gc_Price cfg) ≤ int64_max
}.

(** What the orders of a configuration look like. *)
Inductive order_in_bounds (cfg : RandomGeneratorConfig) : Order → Prop :=
| oib_limit id side price qty :
    side = SideBuy ∨ side = SideSell →
    MidPrice (gc_Price cfg) - Spread (gc_Price cfg) ≤ price ≤
      MidPrice (gc_Price cfg) + Spread (gc_Price cfg) →
    qc_Min (gc_Quantity cfg) ≤ qty ≤ qc_Max (gc_Quantity cfg) → id ≠ "" →
    order_in_bounds cfg (mkBotOrder id KindLimit side price qty)
| oib_market id side qty :
    side = SideBuy ∨ side = SideSell →
    qc_Min (gc_Quantity cfg) ≤ qty ≤ qc_Max (gc_Quantity cfg) → id ≠ "" →
    order_in_bounds cfg (mkBotOrder id KindMarket side 0 qty)
| oib_cancel id : id ≠ "" → order_in_bounds cfg (mkBotOrder id KindCancel "" 0 0).

Abbreviation non_cancels os := (filter (λ o, o_Kind o ≠ KindCancel) os).
Abbreviation cancels os := (filter (λ o, o_Kind o = KindCancel) os).

Section generator_facts.
Context `{!Rand}.

Record gen_ok (g : RandomGenerator) : Prop := {
  go_cfg : config_ok (g_cfg g);
  go_seq : 0 ≤ g_seq g;
  go_nodup : NoDup (g_pendingIDs g);
  go_pending : Forall (λ id, ∃ s, 1 ≤ s ≤ g_seq g ∧ id = orderID (g_botID g) s) (g_pendingIDs g);
  go_cap : (length (g_pendingIDs g) ≤ 1000)%nat
}.

(** The generator after a draw: only the source of randomness moved. *)
Definition redrawn (g g' : RandomGenerator) : Prop := ∃ r, g' = set_rng r g.

Lemma redrawn_trans g1 g2 g3 : redrawn g1 g2 → redrawn g2 g3 → redrawn g1 g3.
Proof. intros [r ->] [r' ->]. by exists r'. Qed.

Lemma drawIntn_ok n g :
  0 < n → ∃ v g', drawIntn n g = Some (v, g') ∧ 0 ≤ v < n ∧ redrawn g g'.
Proof.
  intros Hn. unfold drawIntn. rewrite (proj2 (Z.leb_gt _ _)) by done.
  pose proof (Intn_range n (g_rng g) Hn). destruct (Intn n (g_rng g)) as [v r].
  exists v, (set_rng r g). split; [done|]. split; [done|]. by exists r.
Qed.

Lemma drawInt63n_ok n g :
  0 < n → ∃ v g', drawInt63n n g = Some (v, g') ∧ 0 ≤ v < n ∧ redrawn g g'.
Proof.
  intros Hn. unfold drawInt63n. rewrite (proj2 (Z.leb_gt _ _)) by done.
  pose proof (Int63n_range n (g_rng g) Hn). destruct (Int63n n (g_rng g)) as [v r].
  exists v, (set_rng r g). split; [done|]. split; [done|]. by exists r.
Qed.

Lemma drawSide_ok g :
  ∃ s g', drawSide g = Some (s, g') ∧ (s = SideBuy ∨ s = SideSell) ∧ redrawn g g'.
Proof.
  unfold drawSide. destruct (drawIntn_ok 2 g) as (v & g' & -> & _ & Hr); [done|].
  simpl. eexists _, g'. split; [done|]. split; [|done]. destruct (v =? 1); auto.
Qed.

Lemma drawQuantity_ok g :
  config_ok (g_cfg g) →
  ∃ q g', drawQuantity g = Some (q, g') ∧
    qc_Min (gc_Quantity (g_cfg g)) ≤ q ≤ qc_Max (gc_Quantity (g_cfg g)) ∧ redrawn g g'.
Proof.
  intros []. unfold drawQuantity. rewrite i64_id by (solve_int64).
  destruct (drawInt63n_ok (qc_Max (gc_Quantity (g_cfg g)) - qc_Min (gc_Quantity (g_cfg g)) + 1) g)
    as (v & g' & -> & Hv & Hr); [lia|].
  simpl. eexists _, g'. split; [done|]. split; [|done].
  rewrite i64_id by (solve_int64). lia.
Qed.

Lemma redrawn_cfg g g' : redrawn g g' → g_cfg g' = g_cfg g.
Proof. by intros [r ->]. Qed.

Lemma limitOrder_ok id g :
  config_ok (g_cfg g) → id ≠ "" →
  ∃ o g', limitOrder id g = Some (o, g') ∧ redrawn g g' ∧ order_in_bounds (g_cfg g) o ∧
    o_ID o = id ∧ o_Kind o = KindLimit.
Proof.
  intros Hc Hid. unfold limitOrder.
  destruct (drawSide_ok g) as (side & g1 & -> & Hside & H1). simpl.
  pose proof (redrawn_cfg _ _ H1) as Hc1. rewrite Hc1.
  set (spread := Spread (gc_Price (g_cfg g))).
  assert (∃ off g2, (if 0 <? spread
    then '(n, g) ← drawInt63n (i64 (spread * 2 + 1)) g1; Some (i64 (n - spread), g)
    else Some (0, g1)) = Some (off, g2) ∧ - spread ≤ off ≤ spread ∧ redrawn g1 g2)
    as (off & g2 & -> & Hoff & H2).
  { destruct Hc as [_ _ [Hs0 Hs1] _ _]. fold spread in Hs0, Hs1. destruct (Z.ltb_spec 0 spread).
    - rewrite i64_id by (solve_int64).
      destruct (drawInt63n_ok (spread * 2 + 1) g1) as (v & g2 & -> & Hv & Hr); [lia|].
      simpl. eexists _, g2. split; [done|]. split; [|done].
      rewrite i64_id by (solve_int64). lia.
    - exists 0, g1. split; [done|]. split; [lia|]. by exists (g_rng g1); destruct g1. }
  cbn [mbind option_bind].
  destruct (drawQuantity_ok g2) as (q & g3 & -> & Hq & H3);
    [by rewrite (redrawn_cfg _ _ H2), Hc1|]. simpl.
  rewrite (redrawn_cfg _ _ H2), Hc1 in Hq.
  eexists _, g3. split; [done|]. split; [by eapply redrawn_trans, redrawn_trans|].
  split; [|done]. destruct Hc as [_ _ [? ?] ? ?]. unfold spread in Hoff.
  constructor; [done| |done|done]. rewrite (redrawn_cfg _ _ H2), Hc1.
  rewrite i64_id by (solve_int64). lia.
Qed.

Lemma marketOrder_ok id g :
  config_ok (g_cfg g) → id ≠ "" →
  ∃ o g', marketOrder id g = Some (o, g') ∧ redrawn g g' ∧ order_in_bounds (g_cfg g) o ∧
    o_ID o = id ∧ o_Kind o = KindMarket.
Proof.
  intros Hc Hid. unfold marketOrder.
  destruct (drawSide_ok g) as (side & g1 & -> & Hside & H1). simpl.
  pose proof (redrawn_cfg _ _ H1) as Hc1.
  destruct (drawQuantity_ok g1) as (q & g2 & -> & Hq & H2); [by rewrite Hc1|]. simpl.
  rewrite Hc1 in Hq.
  eexists _, g2. split; [done|]. split; [by eapply redrawn_trans|]. split; [|done].
  by constructor.
Qed.

Lemma removePending_perm (idx : nat) (l : list string) (x : string) :
  l !! idx = Some x → l ≡ₚ x :: removePending idx l.
Proof.
  intros Hx. unfold removePending. destruct l as [|y l _] using rev_ind; [done|].
  rewrite last_snoc, length_app. cbn [length].
  replace (length l + 1 - 1)%nat with (length l) by lia.
  apply lookup_app_Some in Hx as [Hx|[Hge Hx]].
  - pose proof (lookup_lt_Some _ _ _ Hx).
    rewrite insert_app_l, take_app_length' by (rewrite ?length_insert; lia).
    rewrite (insert_take_drop l idx y) by done.
    rewrite <- (take_drop_middle l idx x Hx) at 1.
    rewrite <- app_assoc. cbn [app]. rewrite <- Permutation_middle. constructor.
    apply Permutation_app_head. symmetry. apply Permutation_cons_append.
  - assert (idx - length l = 0)%nat as He by (destruct (idx - length l)%nat; [done|destruct n; done]).
    rewrite He in Hx. injection Hx as ->.
    rewrite insert_app_r_alt by lia. rewrite He, take_app_length' by done.
    by rewrite Permutation_app_comm.
Qed.

(** What one call of [Next] does to the list of pending orders. *)
Inductive pending_step (b : string) (s : Z) (pend : list string) : Order → list string → Prop :=
| ps_limit o : o_Kind o = KindLimit → o_ID o = orderID b s →
    (length pend < 1000)%nat → pending_step b s pend o (pend ++ [o_ID o])
| ps_limit_full o : o_Kind o = KindLimit → o_ID o = orderID b s → pending_step b s pend o pend
| ps_market o : o_Kind o = KindMarket → o_ID o = orderID b s → pending_step b s pend o pend
| ps_unknown o : o_Kind o = KindCancel → o_ID o = unknownID b s → pending_step b s pend o pend
| ps_cancel o pend' : o_Kind o = KindCancel → pend ≡ₚ o_ID o :: pend' →
    pending_step b s pend o pend'.

Lemma Next_pending g :
  gen_ok g → g_seq g + 1 < 2 ^ 64 →
  ∃ o g', Next g = Some (o, g') ∧ order_in_bounds (g_cfg g) o ∧
    g_cfg g' = g_cfg g ∧ g_botID g' = g_botID g ∧ g_seq g' = g_seq g + 1 ∧
    pending_step (g_botID g) (g_seq g + 1) (g_pendingIDs g) o (g_pendingIDs g').
Proof.
  intros Hok Hmax. unfold Next. pose proof (go_seq _ Hok).
  rewrite u64_id by (unfold is_uint64; lia).
  destruct (Float64 (g_rng g)) as [roll r].
  set (g1 := mkGenerator (g_cfg g) r (g_botID g) (g_seq g + 1) (g_pendingIDs g)).
  assert (config_ok (g_cfg g1)) as Hc by apply (go_cfg _ Hok).
  pose proof (orderID_nonempty (g_botID g) (g_seq g + 1)) as Hne.
  destruct (F64.ltb roll _); [|destruct (F64.ltb roll _)].
  - destruct (limitOrder_ok _ g1 Hc Hne) as (o & g2 & -> & [r' ->] & Hb & Hid & Hk). simpl.
    eexists o, _. split; [done|]. split; [done|].
    destruct (Z.ltb_spec (Z.of_nat (length (g_pendingIDs g))) 1000); split_and!; try done; simpl.
    + rewrite <- Hid. apply ps_limit; [done|done|lia].
    + by apply ps_limit_full.
  - destruct (marketOrder_ok _ g1 Hc Hne) as (o & g2 & -> & [r' ->] & Hb & Hid & Hk).
    eexists o, _. split; [done|]. split; [done|]. split_and!; try done. by apply ps_market.
  - unfold cancelOrder. destruct (g_pendingIDs g1) as [|id0 ids] eqn:Hp.
    + eexists _, g1. split; [done|]. split; [constructor; by destruct (orderID _ _)|].
      split_and!; try done. rewrite Hp. replace (g_pendingIDs g) with ([] : list string) by done.
      by apply ps_unknown.
    + destruct (drawIntn_ok (Z.of_nat (length (g_pendingIDs g1))) g1) as (v & g2 & Hd & Hv & [r' ->]);
        [rewrite Hp; simpl; lia|].
      rewrite Hp in Hd. rewrite Hd. cbn [mbind option_bind].
      destruct (lookup_lt_is_Some_2 (g_pendingIDs g1) (Z.to_nat v)) as [x Hx]; [lia|].
      cbn [g_pendingIDs set_rng]. rewrite Hx. cbn [mbind option_bind].
      pose proof (removePending_perm _ _ _ Hx) as Hperm.
      eexists _, _. split; [done|]. split.
      * constructor. pose proof (go_pending _ Hok) as Hpend. rewrite Forall_forall in Hpend.
        destruct (Hpend x) as (s & _ & ->); [by eapply list_elem_of_lookup_2|].
        apply orderID_nonempty.
      * split_and!; try done. by apply ps_cancel.
Qed.

Lemma Next_ok g :
  gen_ok g → g_seq g + 1 < 2 ^ 64 →
  ∃ o g', Next g = Some (o, g') ∧ gen_ok g' ∧ order_in_bounds (g_cfg g) o ∧
    g_cfg g' = g_cfg g ∧ g_botID g' = g_botID g ∧ g_seq g' = g_seq g + 1 ∧
    pending_step (g_botID g) (g_seq g + 1) (g_pendingIDs g) o (g_pendingIDs g').
Proof.
  intros Hok Hmax. destruct (Next_pending g Hok Hmax) as (o & g' & HN & Hb & Hc & Hi & Hs & Hp).
  exists o, g'. split_and!; try done. destruct Hok as [Hcfg Hseq Hnd Hpend Hcap].
  assert (Forall (λ id, ∃ s, 1 ≤ s ≤ g_seq g + 1 ∧ id = orderID (g_botID g) s) (g_pendingIDs g))
    as Hpend1 by (eapply Forall_impl; [exact Hpend|]; intros ? (s & ? & ->); exists s; split; [lia|done]).
  split; rewrite ?Hc, ?Hi, ?Hs; [done|lia| | |]; destruct Hp as [o Hk Hid Hl| | | |o p' Hk Hperm]; try done.
  - apply NoDup_app. split; [done|]. split; [|apply NoDup_singleton].
    intros x Hx ->%list_elem_of_singleton. rewrite Forall_forall in Hpend.
    destruct (Hpend _ Hx) as (s & ? & He). rewrite Hid in He. apply orderID_inj in He; lia.
  - rewrite Hperm in Hnd. by apply NoDup_cons in Hnd as [_ ?].
  - apply Forall_app. split; [done|]. repeat constructor. exists (g_seq g + 1). split; [lia|done].
  - rewrite Hperm in Hpend1. by apply Forall_cons in Hpend1 as [_ ?].
  - rewrite length_app. simpl. lia.
  - rewrite Hperm in Hcap. simpl in Hcap. lia.
Qed.

(** ** Runs *)

(** What a run from [g] to [g'] sent. *)
Record run_ok (g g' : RandomGenerator) (os : list Order) : Prop := {
  ro_cfg : g_cfg g' = g_cfg g;
  ro_bot : g_botID g' = g_botID g;
  ro_seq : g_seq g' = g_seq g + Z.of_nat (length os);
  ro_bounds : Forall (order_in_bounds (g_cfg g)) os;
  ro_new : Forall (λ o, ∃ s, g_seq g < s ∧ o_ID o = orderID (g_botID g) s) (non_cancels os);
  ro_new_nodup : NoDup (o_ID <$> non_cancels os);
  ro_cancel_nodup : NoDup (o_ID <$> cancels os);
  ro_target os1 o os2 : os = os1 ++ o :: os2 → o_Kind o = KindCancel →
    (∃ s, g_seq g < s ∧ o_ID o = unknownID (g_botID g) s) ∨ o_ID o ∈ g_pendingIDs g ∨
    ∃ l, l ∈ os1 ∧ o_Kind l = KindLimit ∧ o_ID l = o_ID o
}.

(** Where the pending orders after a step come from. *)
Lemma pending_step_from b s pend o pend' id :
  pending_step b s pend o pend' → id ∈ pend' →
  id ∈ pend ∨ o_Kind o = KindLimit ∧ o_ID o = id.
Proof.
  intros [o' Hk Hid Hl|o' Hk Hid|o' Hk Hid|o' Hk Hid|o' p' Hk Hperm] Hin; try tauto.
  - apply elem_of_app in Hin as [?|Hin]; [tauto|]. apply list_elem_of_singleton in Hin as ->. tauto.
  - left. rewrite Hperm. by right.
Qed.

Lemma run_cons g o g1 g' os :
  gen_ok g → gen_ok g1 → order_in_bounds (g_cfg g) o →
  g_cfg g1 = g_cfg g → g_botID g1 = g_botID g → g_seq g1 = g_seq g + 1 →
  pending_step (g_botID g) (g_seq g + 1) (g_pendingIDs g) o (g_pendingIDs g1) →
  run_ok g1 g' os → run_ok g g' (o :: os).
Proof.
  intros Hok Hok1 Hb Hc Hi Hs Hp [Rc Rb Rs Rbd Rn Rnn Rcn Rt].
  pose proof (go_seq _ Hok) as Hge.
  assert (Hnew : Forall (λ o, ∃ s, g_seq g + 1 < s ∧ o_ID o = orderID (g_botID g) s) (non_cancels os))
    by (by rewrite Hs, Hi in Rn).
  assert (Htgt : ∀ c, c ∈ cancels os → o_ID c ∈ g_pendingIDs g1 ∨
    ∃ s, g_seq g + 1 < s ∧ (o_ID c = unknownID (g_botID g) s ∨ o_ID c = orderID (g_botID g) s)).
  { intros c [Hck Hc']%list_elem_of_filter. apply list_elem_of_split in Hc' as (os1 & os2 & ->).
    destruct (Rt _ _ _ eq_refl Hck) as [(s & Hlt & He)|[Hin|(l & Hl & Hlk & He)]].
    - right. exists s. rewrite Hi in He. split; [lia|auto].
    - by left.
    - right. rewrite Forall_forall in Hnew. destruct (Hnew l) as (s & Hlt & He').
      + apply list_elem_of_filter. rewrite Hlk. split; [done|]. apply elem_of_app. by left.
      + exists s. split; [done|]. right. congruence. }
  split.
  - congruence.
  - congruence.
  - simpl. lia.
  - constructor; [done|]. by rewrite <- Hc.
  - rewrite filter_cons. case_decide as Hk.
    + constructor; [|eapply Forall_impl; [exact Hnew|]; intros x (s & ? & ?); exists s; split; [lia|done]].
      exists (g_seq g + 1). split; [lia|]. by destruct Hp.
    + eapply Forall_impl; [exact Hnew|]; intros x (s & ? & ?); exists s; split; [lia|done].
  - rewrite filter_cons. case_decide as Hk; [|done]. rewrite fmap_cons. apply NoDup_cons. split; [|done].
    intros (x & Hx & Hin)%list_elem_of_fmap. rewrite Forall_forall in Hnew.
    destruct (Hnew _ Hin) as (s & Hlt & He).
    assert (o_ID o = orderID (g_botID g) (g_seq g + 1)) as Ho by (by destruct Hp).
    rewrite Hx, He in Ho. apply orderID_inj in Ho; lia.
  - rewrite filter_cons. case_decide as Hk; [|done]. rewrite fmap_cons. apply NoDup_cons. split; [|done].
    intros (x & Hx & Hin)%list_elem_of_fmap. pose proof (go_pending _ Hok) as Hpend.
    rewrite Forall_forall in Hpend.
    destruct Hp as [o Hk' _|o Hk' _|o Hk' _|o _ Ho|o pend' _ Hperm]; try (by rewrite Hk' in Hk).
    + destruct (Htgt _ Hin) as [Hpi|(s & Hlt & [He|He])]; rewrite <- Hx, Ho in *.
      * destruct (Hpend _ Hpi) as (s & _ & He). by apply unknownID_fresh in He.
      * apply unknownID_inj in He; lia.
      * by apply unknownID_fresh in He.
    + destruct (Hpend (o_ID o)) as (s0 & Hs0 & Ho); [rewrite Hperm; by left|].
      destruct (Htgt _ Hin) as [Hpi|(s & Hlt & [He|He])]; rewrite <- Hx in *.
      * pose proof (go_nodup _ Hok) as Hnd. rewrite Hperm in Hnd.
        by apply NoDup_cons in Hnd as [? _].
      * rewrite Ho in He. symmetry in He. by apply unknownID_fresh in He.
      * rewrite Ho in He. apply orderID_inj in He; lia.
  - intros [|o1 os1] c os2 Heq Hk; injection Heq as -> Heq.
    + destruct Hp as [o Hk' _|o Hk' _|o Hk' _|o _ Ho|o pend' _ Hperm]; try (by rewrite Hk' in Hk).
      * left. exists (g_seq g + 1). split; [lia|done].
      * right. left. rewrite Hperm. by left.
    + destruct (Rt _ _ _ Heq Hk) as [(s & Hlt & He)|[Hin|(l & Hl & Hlk & He)]].
      * left. exists s. rewrite Hi in He. split; [lia|done].
      * destruct (pending_step_from _ _ _ _ _ _ Hp Hin) as [?|[? ?]]; [tauto|].
        right. right. exists o1. split; [by left|done].
      * right. right. exists l. split; [by right|done].
Qed.

Lemma NextN_ok n g :
  gen_ok g → g_seq g + Z.of_nat n < 2 ^ 64 →
  ∃ os g', NextN n g = Some (os, g') ∧ length os = n ∧ gen_ok g' ∧ run_ok g g' os.
Proof.
  revert g. induction n as [|n IH]; intros g Hok Hmax; cbn [NextN].
  { exists [], g. split_and!; try done.
    split; [done|done|simpl; lia|constructor|constructor|constructor|constructor|by intros []]. }
  destruct (Next_ok g Hok) as (o & g1 & -> & Hok1 & Hb & Hc & Hi & Hs & Hp); [lia|].
  cbn [mbind option_bind].
  destruct (IH g1 Hok1) as (os & g' & -> & Hl & Hok' & Hr); [lia|]. cbn [mbind option_bind].
  exists (o :: os), g'. split; [done|]. split; [simpl; lia|]. split; [done|].
  by apply (run_cons g o g1 g' os).
Qed.

Lemma NewRandomGenerator_ok now b cfg g :
  config_ok cfg → NewRandomGenerator now b cfg = Ok g → gen_ok g ∧ g_cfg g = cfg ∧ g_seq g = 0 ∧
  g_botID g = b ∧ g_pendingIDs g = [].
Proof.
  intros Hc. unfold NewRandomGenerator. destruct (ratiosValidate _); [done|].
  destruct (_ <? _); [done|]. destruct (_ <? _); [done|]. destruct (_ <? _); [done|].
  intros [= <-]. split; [|done]. split; simpl; [done|lia|constructor|constructor|lia].
Qed.
End generator_facts.

(** A linear congruential source, to run the generator. *)
#[export] Instance Rand_lcg : Rand.
Proof.
  refine {| rng_t := Z; NewSource := λ s, s;
    Float64 := λ r, (F64.div (F64.of_Z ((r / 65536) mod 1024)) (F64.of_Z 1024),
                     (r * 1103515245 + 12345) mod 2 ^ 31);
    Intn := λ n r, ((r / 65536) mod n, (r * 1103515245 + 12345) mod 2 ^ 31);
    Int63n := λ n r, ((r / 65536) mod n, (r * 1103515245 + 12345) mod 2 ^ 31) |};
    intros n r Hn; simpl; by apply Z.mod_pos_bound.
Defined.

(** ** The theorems *)
(** C31: A generator made from a configuration whose prices and sizes fit in an
    int64 never panics: for any source of randomness every call of [Next]
    returns an order with an id, a valid side, a price within the spread of the
    mid price and a quantity between the configured minimum and maximum. *)
Theorem generator_in_bounds `{!Rand} now b cfg g n :
  config_ok cfg → NewRandomGenerator now b cfg = Ok g → Z.of_nat n < 2 ^ 64 →
  ∃ os g', NextN n g = Some (os, g') ∧ length os = n ∧ Forall (order_in_bounds cfg) os.
Proof.
  intros Hc Hg Hn. destruct (NewRandomGenerator_ok _ _ _ _ Hc Hg) as (Hok & <- & Hs & _).
  destruct (NextN_ok n g Hok) as (os & g' & HN & Hl & _ & Hr); [lia|].
  exists os, g'. split; [done|]. split; [done|]. apply (ro_bounds _ _ _ Hr).
Qed.

Lemma default_config_ok : config_ok DefaultRandomGeneratorConfig.
Proof. split; unfold int64_min, int64_max; simpl; lia. Qed.

Definition sample_generator : RandomGenerator :=
  mkGenerator DefaultRandomGeneratorConfig (NewSource 42) "bot-0000" 0 [].

Lemma default_ratios_ok : ratiosValidate DefaultOrderRatios = None.
Proof. by vm_compute. Qed.

Lemma sample_generator_new :
  NewRandomGenerator 42 "bot-0000" DefaultRandomGeneratorConfig = Ok sample_generator.
Proof. unfold NewRandomGenerator. cbn [gc_Ratios DefaultRandomGeneratorConfig]. by rewrite default_ratios_ok. Qed.

Lemma generator_in_bounds_witness :
  ∃ os g', NextN 20 sample_generator = Some (os, g') ∧ length os = 20%nat ∧
    Forall (order_in_bounds DefaultRandomGeneratorConfig) os.
Proof.
  apply (generator_in_bounds 42 "bot-0000" DefaultRandomGeneratorConfig sample_generator 20);
    [apply default_config_ok|apply sample_generator_new|done].
Defined.

(** Order ids: in any run of a new generator the limit and market orders
    have distinct ids, and a cancel either names an id that no order ever has or
    an earlier limit order; no two cancels name the same id. *)
Theorem generator_ids `{!Rand} now b cfg g n os g' :
  config_ok cfg → NewRandomGenerator now b cfg = Ok g → Z.of_nat n < 2 ^ 64 →
  NextN n g = Some (os, g') →
  NoDup (o_ID <$> non_cancels os) ∧ NoDup (o_ID <$> cancels os) ∧
  ∀ os1 o os2, os = os1 ++ o :: os2 → o_Kind o = KindCancel →
    (∀ o', o' ∈ non_cancels os → o_ID o' ≠ o_ID o) ∨
    ∃ l, l ∈ os1 ∧ o_Kind l = KindLimit ∧ o_ID l = o_ID o.
Proof.
  intros Hc Hg Hn HN. destruct (NewRandomGenerator_ok _ _ _ _ Hc Hg) as (Hok & _ & Hs & _ & Hp).
  destruct (NextN_ok n g Hok) as (os' & g'' & HN' & _ & _ & Hr); [lia|].
  rewrite HN in HN'. injection HN' as <- <-. destruct Hr as [_ _ _ _ Rn Rnn Rcn Rt].
  split; [done|]. split; [done|]. intros os1 o os2 Heq Hk.
  destruct (Rt _ _ _ Heq Hk) as [(s & _ & He)|[Hin|?]]; [|by rewrite Hp in Hin; inversion Hin|tauto].
  left. intros o' Ho'. rewrite Forall_forall in Rn. destruct (Rn _ Ho') as (s' & _ & ->). rewrite He.
  intros Heq'. symmetry in Heq'. by apply unknownID_fresh in Heq'.
Qed.

Definition sample_run : list Order := default [] (fst <$> NextN 20 sample_generator).

Lemma sample_run_length : length sample_run = 20%nat.
Proof. by vm_compute. Qed.
Lemma sample_run_cancels : cancels sample_run ≠ [].
Proof. by vm_compute. Qed.

Lemma sample_run_ok : ∃ g', NextN 20 sample_generator = Some (sample_run, g').
Proof.
  destruct (NewRandomGenerator_ok 42 "bot-0000" _ _ default_config_ok sample_generator_new)
    as [Hok _].
  destruct (NextN_ok 20 sample_generator Hok) as (os & g' & HN & _); [done|].
  exists g'. unfold sample_run. rewrite HN. exact eq_refl.
Qed.

Lemma generator_ids_witness :
  NoDup (o_ID <$> non_cancels sample_run) ∧ NoDup (o_ID <$> cancels sample_run) ∧
  cancels sample_run ≠ [].
Proof.
  destruct sample_run_ok as [g' HN].
  destruct (generator_ids 42 "bot-0000" DefaultRandomGeneratorConfig sample_generator 20 sample_run g'
    default_config_ok sample_generator_new eq_refl HN) as (H1 & H2 & _).
  split; [exact H1|]. split; [exact H2|exact sample_run_cancels].
Defined.

(** ** Ids across the fleet *)
(** The number a string of digits stands for. *)
Fixpoint decimal_from (acc : N) (s : string) : N :=
  match s with
  | EmptyString => acc
  | String c s => decimal_from (10 * acc + (Ascii.N_of_ascii c - 48))%N s
  end.
Definition decimal : string → N := decimal_from 0.

Lemma decimal_go x s : decimal (pretty_N_go x s) = decimal_from x s.
Proof.
  unfold decimal. revert s. induction (N.lt_wf_0 x) as [x _ IH]; intros s.
  destruct (decide (x = 0)%N) as [->|Hx]; [by rewrite pretty_N_go_0|].
  rewrite pretty_N_go_step by lia. rewrite IH by (apply N.div_lt; lia).
  cbn [decimal_from]. f_equal.
  assert (∀ d, (d < 10)%N → (Ascii.N_of_ascii (pretty_N_char d) - 48)%N = d) as Hd.
  { intros d Hd. assert (d = 0 ∨ d = 1 ∨ d = 2 ∨ d = 3 ∨ d = 4 ∨ d = 5 ∨ d = 6 ∨ d = 7 ∨ d = 8 ∨ d = 9)%N
      as Hc by lia.
    by repeat destruct Hc as [->|Hc]; [..|subst]. }
  rewrite Hd by (apply N.mod_lt; lia). symmetry. apply N.div_mod. lia.
Qed.

Lemma decimal_pretty n : decimal (pretty n) = n.
Proof. unfold pretty, pretty_N. case_decide; [by subst|]. by rewrite decimal_go. Qed.

Definition zeros (k : nat) : string := String.concat "" (replicate k "0").

Lemma zeros_S k s : zeros (S k) +:+ s = String (Ascii.ascii_of_N 48) (zeros k +:+ s).
Proof. destruct k as [|k]; [done|]. unfold zeros. simpl. done. Qed.

Lemma decimal_zeros k s : decimal (zeros k +:+ s) = decimal s.
Proof.
  unfold decimal. induction k as [|k IH]; [done|]. rewrite zeros_S. cbn [decimal_from]. exact IH.
Qed.

Lemma zeros_digits k : all_chars is_digit (zeros k) = true.
Proof.
  induction k as [|k IH]; [done|]. pose proof (zeros_S k "") as Hz.
  assert (∀ s : string, s +:+ "" = s) as Hnil.
  { induction s as [|c s IHs]; [done|]. exact (f_equal (String c) IHs). }
  rewrite !Hnil in Hz. rewrite Hz. exact IH.
Qed.

Lemma split_digits a a' s s' :
  all_chars is_digit a = true → all_chars is_digit a' = true →
  a +:+ "-" +:+ s = a' +:+ "-" +:+ s' → a = a' ∧ s = s'.
Proof.
  revert a'. induction a as [|c a IH]; intros [|c' a'] Ha Ha' H.
  - split; [done|]. exact (inj (String.append "-") s s' H).
  - assert (String (Ascii.ascii_of_N 45) s = String c' (a' +:+ "-" +:+ s')) as He by exact H.
    injection He as <- _. discriminate Ha'.
  - assert (String c (a +:+ "-" +:+ s) = String (Ascii.ascii_of_N 45) s') as He by exact H.
    injection He as -> _. discriminate Ha.
  - cbn [all_chars] in Ha, Ha'. apply andb_true_iff in Ha as [_ Ha], Ha' as [_ Ha'].
    assert (String c (a +:+ "-" +:+ s) = String c' (a' +:+ "-" +:+ s')) as He by exact H.
    injection He as -> He. destruct (IH a' Ha Ha' He) as [-> ->]. done.
Qed.

(** Order ids are unique across the fleet: two orders have the same id
    only if they have the same bot index and the same sequence number. *)
Theorem fleet_order_ids idx idx' s s' :
  0 ≤ idx → 0 ≤ idx' → 0 ≤ s → 0 ≤ s' →
  orderID (botID idx) s = orderID (botID idx') s' → idx = idx' ∧ s = s'.
Proof.
  intros Hi Hi' Hs Hs' H. unfold orderID, botID in H. fold (zeros (4 - String.length (pretty (Z.to_N idx)))) in H.
  fold (zeros (4 - String.length (pretty (Z.to_N idx')))) in H.
  rewrite !(string_app_assoc "bot-") in H. apply (inj (String.append "bot-")) in H.
  apply split_digits in H as [Hb Hseq].
  - apply (inj _) in Hseq. apply (f_equal decimal) in Hb.
    rewrite !decimal_zeros, !decimal_pretty in Hb. lia.
  - by rewrite all_chars_app, zeros_digits, pretty_digits.
  - by rewrite all_chars_app, zeros_digits, pretty_digits.
Qed.

Lemma fleet_order_ids_witness :
  orderID (botID 7) 12 = "bot-0007-12" ∧
  (orderID (botID 7) 12 = orderID (botID 7) 12 → 7 = 7 ∧ 12 = 12).
Proof. split; [by vm_compute|]. apply (fleet_order_ids 7 7 12 12); lia. Defined.
