(* ===== verification/Stats.v ===== *)
(** * Stats: aggregated performance metrics ([internal/botfleet/stats.go])

    Percentiles by nearest rank over the sorted latencies, the sustained rate
    and the busiest 100ms window. [int] and [int64] values are [Z]; the sums that
    the code computes on timestamps wrap. Indexing out of range is a panic, and
    the totality theorem shows that none happens. *)

From S2P Require Import Prelude Models Botfleet.

Record BotStats := mkBotStats {
  P50Ns : float64;
  P90Ns : float64;
  P99Ns : float64;
  bs_MaxTPS : float64;
  bs_SustainedTPS : float64;
  bs_TotalOrders : Z;
  bs_SuccessfulOrders : Z;
  bs_ErrorOrders : Z
}.

Definition zeroStats : BotStats := mkBotStats F64.zero F64.zero F64.zero F64.zero F64.zero 0 0 0.

Definition P50Ms (s : BotStats) : float64 := F64.div (P50Ns s) (F64.of_Z 1000000).
Definition P90Ms (s : BotStats) : float64 := F64.div (P90Ns s) (F64.of_Z 1000000).
Definition P99Ms (s : BotStats) : float64 := F64.div (P99Ns s) (F64.of_Z 1000000).

(** [s\[i\]]: [None] out of range. *)
Definition at_index (s : list Z) (i : Z) : option Z :=
  if i <? 0 then None else s !! Z.to_nat i.

Definition percentileValue (sorted : list Z) (pct : Z) : option Z :=
  let n := Z.of_nat (length sorted) in
  if n =? 1 then at_index sorted 0
  else
    let rank := i64 (i64 (pct * n) + 99) ÷ 100 in
    let rank := if rank <? 1 then 1 else rank in
    let rank := if n <? rank then n else rank in
    at_index sorted (rank - 1).

Definition windowNs : Z := 100000000.

(** The inner loop: [for sentAts\[right\]-sentAts\[left\] > windowNs { left++ }].
    At [left = right] the difference is 0, so [right - left] iterations are
    enough; running out of fuel is [None]. *)
Fixpoint advanceLeft (fuel : nat) (sentAts : list Z) (r left : Z) : option Z :=
  match fuel with
  | O => None
  | S fuel =>
      a ← at_index sentAts r;
      b ← at_index sentAts left;
      if windowNs <? i64 (a - b) then advanceLeft fuel sentAts r (left + 1) else Some left
  end.

(** The outer loop from [right] on, [n] iterations. *)
Fixpoint maxWindow (n : nat) (sentAts : list Z) (right left maxCount : Z) : option Z :=
  match n with
  | O => Some maxCount
  | S n =>
      left ← advanceLeft (S (Z.to_nat (right - left))) sentAts right left;
      let count := right - left + 1 in
      maxWindow n sentAts (right + 1) left (if maxCount <? count then count else maxCount)
  end.

Section stats.
Context `{!SortSlice}.

Definition computeMaxTPS (sentAts : list Z) : option float64 :=
  match sentAts with
  | [] => Some F64.zero
  | _ =>
      let sentAts := sort_slice Z.ltb sentAts in
      maxCount ← maxWindow (length sentAts) sentAts 0 0 0;
      Some (F64.mul (F64.of_Z maxCount) (F64.of_Z 10))
  end.

(** The variables of the loop over the results. *)
Record statsState := mkStatsState {
  ss_latencies : list Z;
  ss_sentAts : list Z;
  ss_totalOrders : Z;
  ss_successfulOrders : Z;
  ss_errorOrders : Z;
  ss_firstSentNs : Z;
  ss_lastAckedNs : Z
}.

Definition statsInit : statsState := mkStatsState [] [] 0 0 0 (-1) 0.

Definition statsStep (st : statsState) (r : OrderResult) : statsState :=
  match or_Err r with
  | Some _ =>
      mkStatsState (ss_latencies st) (ss_sentAts st) (ss_totalOrders st + 1)
        (ss_successfulOrders st) (ss_errorOrders st + 1) (ss_firstSentNs st) (ss_lastAckedNs st)
  | None =>
      let sentNs := or_SentAt r in
      let ackedNs := or_AckedAt r in
      mkStatsState (ss_latencies st ++ [or_LatencyNs r]) (ss_sentAts st ++ [sentNs])
        (ss_totalOrders st + 1) (ss_successfulOrders st + 1) (ss_errorOrders st)
        (if (ss_firstSentNs st =? -1) || (sentNs <? ss_firstSentNs st)
         then sentNs else ss_firstSentNs st)
        (if ss_lastAckedNs st <? ackedNs then ackedNs else ss_lastAckedNs st)
  end.

Definition ComputeStats (results : list OrderResult) : option BotStats :=
  match results with
  | [] => Some zeroStats
  | _ =>
    let st := fold_left statsStep results statsInit in
    match ss_latencies st with
    | [] => Some (mkBotStats F64.zero F64.zero F64.zero F64.zero F64.zero
                    (ss_totalOrders st) (ss_successfulOrders st) (ss_errorOrders st))
    | _ =>
      let latencies := sort_slice Z.ltb (ss_latencies st) in
      p50 ← percentileValue latencies 50;
      p90 ← percentileValue latencies 90;
      p99 ← percentileValue latencies 99;
      let elapsedNs := i64 (ss_lastAckedNs st - ss_firstSentNs st) in
      let sustained :=
        if 0 <? elapsedNs
        then F64.div (F64.of_Z (ss_successfulOrders st))
               (F64.div (F64.of_Z elapsedNs) (F64.of_Z 1000000000))
        else F64.zero in
      maxTPS ← computeMaxTPS (ss_sentAts st);
      Some (mkBotStats (F64.of_Z p50) (F64.of_Z p90) (F64.of_Z p99) maxTPS sustained
              (ss_totalOrders st) (ss_successfulOrders st) (ss_errorOrders st))
    end
  end.
End stats.
