(* ===== verification/StatsTheorems.v ===== *)
(** * StatsTheorems: what the performance metrics are

    The percentile is the nearest rank, the window count is the largest one over
    all windows, and the summary does not depend on the order in which the bots'
    results arrive. *)

From S2P Require Import Prelude Models OrderBook Botfleet Stats Generator.

(** ** Sorted lists *)
Lemma sorted_lookup l i j a b :
  StronglySorted Z.le l → l !! i = Some a → l !! j = Some b → (i ≤ j)%nat → a ≤ b.
Proof.
  intros Hs. revert i j. induction Hs as [|x l Hs IH Hall]; intros i j Hi Hj Hij; [done|].
  destruct i as [|i], j as [|j]; simpl in *; try lia.
  - replace b with a by congruence. lia.
  - injection Hi as <-. rewrite Forall_forall in Hall. apply Hall. by eapply list_elem_of_lookup_2.
  - eapply IH; [done|done|lia].
Qed.

Lemma at_index_nat l i : at_index l (Z.of_nat i) = l !! i.
Proof. unfold at_index. rewrite (proj2 (Z.ltb_ge _ _)) by lia. by rewrite Nat2Z.id. Qed.

(** The number of elements of [l] with [P]. *)
Definition count (P : Z → Prop) `{!∀ x, Decision (P x)} (l : list Z) : Z :=
  Z.of_nat (length (filter P l)).

Section count.
Context (P : Z → Prop) `{!∀ x, Decision (P x)}.

Lemma count_app l l' : count P (l ++ l') = count P l + count P l'.
Proof. unfold count. rewrite filter_app, length_app. lia. Qed.

Lemma count_split k l : count P l = count P (take k l) + count P (drop k l).
Proof. by rewrite <- count_app, take_drop. Qed.

Lemma count_all l : Forall P l → count P l = Z.of_nat (length l).
Proof.
  unfold count. induction 1; [done|]. rewrite filter_cons_True by done. simpl. lia.
Qed.

Lemma count_none l : Forall (λ x, ¬ P x) l → count P l = 0.
Proof. unfold count. induction 1; [done|]. by rewrite filter_cons_False. Qed.

Lemma count_le l : 0 ≤ count P l ≤ Z.of_nat (length l).
Proof. unfold count. pose proof (length_filter P l). lia. Qed.

Lemma count_perm l l' : l ≡ₚ l' → count P l = count P l'.
Proof. unfold count. by intros ->. Qed.
End count.

Lemma forall_take (P : Z → Prop) l i :
  (∀ j x, l !! j = Some x → (j < i)%nat → P x) → Forall P (take i l).
Proof.
  intros H. apply Forall_lookup. intros j x Hj. apply lookup_take_Some in Hj as [Hj Hlt]. eauto.
Qed.

Lemma forall_drop (P : Z → Prop) l i :
  (∀ j x, l !! j = Some x → (i ≤ j)%nat → P x) → Forall P (drop i l).
Proof.
  intros H. apply Forall_lookup. intros j x Hj. rewrite lookup_drop in Hj.
  eapply H; [exact Hj|lia].
Qed.

(** ** Percentiles *)
(** [v] is the nearest-rank percentile of [l]: it occurs in [l], at least
    [pct] percent of the samples are at most [v], and fewer are below it. *)
Definition nearest_rank (l : list Z) (pct v : Z) : Prop :=
  v ∈ l ∧ pct * Z.of_nat (length l) ≤ 100 * count (λ x, x ≤ v) l ∧
  100 * count (λ x, x < v) l < pct * Z.of_nat (length l).

Lemma percentile_index sorted pct :
  sorted ≠ [] → 1 ≤ pct ≤ 100 → Z.of_nat (length sorted) * 100 + 99 ≤ int64_max →
  ∃ k, percentileValue sorted pct = sorted !! k ∧ (k < length sorted)%nat ∧
    Z.of_nat k = (pct * Z.of_nat (length sorted) + 99) / 100 - 1.
Proof.
  intros Hne Hp Hn. unfold percentileValue. set (n := Z.of_nat (length sorted)) in *.
  assert (1 ≤ n) as H1 by (destruct sorted; [done|simpl in n; lia]).
  assert (pct * n ≤ 100 * n) by nia. assert (0 < pct * n) by nia.
  rewrite (i64_id (pct * n)) by (solve_int64).
  rewrite (i64_id (pct * n + 99)) by (solve_int64).
  rewrite Z.quot_div_nonneg by lia.
  pose proof (Z.div_le_mono (pct * n + 99) (100 * n + 99) 100 ltac:(lia) ltac:(lia)) as Hu.
  replace (100 * n + 99) with (n * 100 + 99) in Hu by lia.
  rewrite Z.div_add_l in Hu by lia. change (99 / 100) with 0 in Hu.
  pose proof (Z.div_le_mono 100 (pct * n + 99) 100 ltac:(lia) ltac:(lia)) as Hl.
  change (100 / 100) with 1 in Hl.
  set (r := (pct * n + 99) / 100) in *.
  exists (Z.to_nat (r - 1)). split; [|split; [lia|lia]].
  destruct (Z.eqb_spec n 1).
  - replace r with 1 by lia. exact (at_index_nat sorted 0).
  - destruct (Z.ltb_spec r 1); [lia|]. destruct (Z.ltb_spec n r); [lia|].
    rewrite <- (at_index_nat sorted). by rewrite Z2Nat.id by lia.
Qed.

Lemma percentile_nearest_rank sorted pct :
  StronglySorted Z.le sorted → sorted ≠ [] → 1 ≤ pct ≤ 100 →
  Z.of_nat (length sorted) * 100 + 99 ≤ int64_max →
  ∃ v, percentileValue sorted pct = Some v ∧ nearest_rank sorted pct v.
Proof.
  intros Hs Hne Hp Hn. destruct (percentile_index sorted pct Hne Hp Hn) as (k & -> & Hk & Hkv).
  destruct (lookup_lt_is_Some_2 sorted k Hk) as [v Hv]. exists v. split; [done|].
  set (n := Z.of_nat (length sorted)) in *.
  pose proof (Z.div_mod (pct * n + 99) 100 ltac:(lia)).
  pose proof (Z.mod_pos_bound (pct * n + 99) 100 ltac:(lia)).
  split; [by eapply list_elem_of_lookup_2|]. split.
  - rewrite (count_split _ (S k)).
    pose proof (count_le (λ x, x ≤ v) (drop (S k) sorted)).
    rewrite count_all; [rewrite length_take; lia|].
    apply forall_take. intros j x Hj Hlt. eapply sorted_lookup; [done|exact Hj|exact Hv|lia].
  - rewrite (count_split _ k).
    pose proof (count_le (λ x, x < v) (take k sorted)) as Hle. rewrite length_take in Hle.
    rewrite (count_none _ (drop k sorted)); [lia|].
    apply forall_drop. intros j x Hj Hge. apply Z.nlt_ge.
    eapply sorted_lookup; [done|exact Hv|exact Hj|lia].
Qed.

Lemma nearest_rank_perm l l' pct v : l ≡ₚ l' → nearest_rank l pct v → nearest_rank l' pct v.
Proof.
  intros Hp (H1 & H2 & H3). unfold nearest_rank.
  rewrite <- (count_perm (λ x, x ≤ v) _ _ Hp), <- (count_perm (λ x, x < v) _ _ Hp), <- Hp. done.
Qed.

(** The nearest rank is unique and grows with the percentage. *)
Lemma count_mono (P Q : Z → Prop) `{!∀ x, Decision (P x), !∀ x, Decision (Q x)} l :
  (∀ x, P x → Q x) → count P l ≤ count Q l.
Proof.
  intros HPQ. induction l as [|x l IH]; [done|]. unfold count in *. rewrite !filter_cons.
  repeat case_decide; simpl; try lia. exfalso. auto.
Qed.

Lemma nearest_rank_mono l pct pct' v v' :
  pct ≤ pct' → nearest_rank l pct v → nearest_rank l pct' v' → v ≤ v'.
Proof.
  intros Hp (_ & _ & H1) (_ & H2 & _). apply Z.nlt_ge. intros Hlt.
  assert (count (λ x, x ≤ v') l ≤ count (λ x, x < v) l) by (apply count_mono; intros; lia).
  assert (pct * Z.of_nat (length l) ≤ pct' * Z.of_nat (length l)) by nia. lia.
Qed.

(** ** The busiest window *)
Definition in_window (t x : Z) : Prop := t - windowNs ≤ x ≤ t.

(** [m] is the largest number of sends in a window ending at any time. *)
Definition busiest (l : list Z) (m : Z) : Prop :=
  (∃ t, count (in_window t) l = m) ∧ ∀ t, count (in_window t) l ≤ m.

Section window.
Context (l : list Z).
Hypothesis l_sorted : StronglySorted Z.le l.
Hypothesis l_range : Forall (λ x, 0 ≤ x ≤ int64_max) l.

Lemma window_sub i j a b :
  l !! i = Some a → l !! j = Some b → is_int64 (a - b).
Proof.
  intros Ha Hb. rewrite Forall_forall in l_range.
  pose proof (l_range a ltac:(by eapply list_elem_of_lookup_2)).
  pose proof (l_range b ltac:(by eapply list_elem_of_lookup_2)).
  solve_int64.
Qed.

Lemma advanceLeft_S fuel r left :
  advanceLeft (S fuel) l r left =
  a ← at_index l r; b ← at_index l left;
  if windowNs <? i64 (a - b) then advanceLeft fuel l r (left + 1) else Some left.
Proof. done. Qed.

(** [left] is the first index inside the window that ends at index [right]. *)
Definition window_start (right left : nat) : Prop :=
  ∃ a b, l !! right = Some a ∧ l !! left = Some b ∧ a - b ≤ windowNs ∧
    ∀ j x, l !! j = Some x → (j < left)%nat → windowNs < a - x.

Lemma advanceLeft_ok right left a :
  l !! right = Some a → (left ≤ right)%nat →
  (∀ j x, l !! j = Some x → (j < left)%nat → windowNs < a - x) →
  ∃ left', advanceLeft (S (right - left)) l (Z.of_nat right) (Z.of_nat left) = Some (Z.of_nat left') ∧
    (left' ≤ right)%nat ∧ window_start right left'.
Proof.
  intros Ha. remember (right - left)%nat as k eqn:Hk. revert left Hk.
  induction k as [|k IH]; intros left Hk Hle Hout;
    destruct (lookup_lt_is_Some_2 l left) as [b Hb];
    try (apply lookup_lt_Some in Ha; lia);
    rewrite advanceLeft_S, !at_index_nat, Ha, Hb; cbn [mbind option_bind];
    rewrite i64_id by (by eapply window_sub).
  - assert (left = right) as -> by lia. replace b with a in * by congruence.
    rewrite Z.sub_diag. simpl. exists right. split; [done|]. split; [lia|].
    exists a, a. rewrite Z.sub_diag. split_and!; try done.
  - destruct (Z.ltb_spec windowNs (a - b)).
    + replace (Z.of_nat left + 1) with (Z.of_nat (S left)) by lia. apply IH; [lia|lia|].
      intros j x Hj Hlt. destruct (decide (j = left)) as [->|]; [congruence|].
      eapply Hout; [exact Hj|lia].
    + exists left. split; [done|]. split; [done|]. by exists a, b.
Qed.

(** The window count at the time of index [right]. *)
Lemma window_start_count right left a :
  window_start right left → l !! right = Some a → (left ≤ right)%nat →
  Z.of_nat right - Z.of_nat left + 1 ≤ count (in_window a) l ∧
  ∀ t, a ≤ t → (∀ j x, l !! j = Some x → (right < j)%nat → t < x) →
    count (in_window t) l ≤ Z.of_nat right - Z.of_nat left + 1.
Proof.
  intros (a' & b & Ha' & Hb & Hin & Hout) Ha Hle. replace a' with a in * by congruence.
  pose proof (lookup_lt_Some _ _ _ Ha) as Hlt.
  set (seg := take (S right - left) (drop left l)).
  assert (l = take left l ++ seg ++ drop (S right) l) as Hl.
  { unfold seg. replace (S right) with (left + (S right - left))%nat at 2 by lia.
    by rewrite <- drop_drop, !take_drop. }
  assert (length seg = (S right - left)%nat) as Hseg
    by (unfold seg; rewrite length_take, length_drop; lia).
  split.
  - rewrite Hl at 1. rewrite !count_app. pose proof (count_le (in_window a) (take left l)).
    pose proof (count_le (in_window a) (drop (S right) l)).
    rewrite (count_all _ seg); [lia|]. apply Forall_lookup. intros j x Hj. unfold seg in Hj.
    apply lookup_take_Some in Hj as [Hj Hjlt]. rewrite lookup_drop in Hj. unfold in_window.
    pose proof (sorted_lookup _ _ _ _ _ l_sorted Hb Hj). 
    pose proof (sorted_lookup _ _ _ _ _ l_sorted Hj Ha). lia.
  - intros t Hat Hafter. rewrite Hl at 1. rewrite !count_app.
    rewrite (count_none _ (take left l)).
    2: { apply forall_take. intros j x Hj Hjlt. unfold in_window.
         pose proof (Hout _ _ Hj Hjlt). lia. }
    rewrite (count_none _ (drop (S right) l)).
    2: { apply forall_drop. intros j x Hj Hge. unfold in_window.
         pose proof (Hafter _ _ Hj ltac:(lia)). lia. }
    pose proof (count_le (in_window t) seg). lia.
Qed.

(** The invariant of the outer loop before index [right]. *)
Record window_inv (right left : nat) (m : Z) : Prop := {
  wi_left : (left ≤ right)%nat;
  wi_nonneg : 0 ≤ m;
  wi_out a : l !! right = Some a → ∀ j x, l !! j = Some x → (j < left)%nat → windowNs < a - x;
  wi_max : (right = 0)%nat ∧ m = 0 ∨ ∃ t, m ≤ count (in_window t) l;
  wi_bound t i x : (i < right)%nat → l !! i = Some x → x ≤ t →
    (∀ j y, l !! j = Some y → (i < j)%nat → t < y) → count (in_window t) l ≤ m
}.

Lemma maxWindow_ok n right left m :
  (right + n = length l)%nat → window_inv right left m →
  ∃ left' m', maxWindow n l (Z.of_nat right) (Z.of_nat left) m = Some m' ∧
    window_inv (length l) left' m'.
Proof.
  revert right left m. induction n as [|n IH]; intros right left m Hn [Hle Hm0 Hout Hmax Hbound].
  { assert (right = length l) as <- by lia. by exists left, m. }
  cbn [maxWindow]. destruct (lookup_lt_is_Some_2 l right) as [a Ha]; [lia|].
  destruct (advanceLeft_ok right left a Ha Hle (Hout a Ha)) as (left' & Hadv & Hle' & Hstart).
  replace (Z.to_nat (Z.of_nat right - Z.of_nat left)) with (right - left)%nat by lia.
  rewrite Hadv. cbn [mbind option_bind].
  replace (Z.of_nat right + 1) with (Z.of_nat (S right)) by lia.
  destruct (window_start_count _ _ _ Hstart Ha Hle') as [Hc1 Hc2].
  apply IH; [lia|]. destruct Hstart as (a0 & b & Ha0 & Hb & Hin & Hout').
  replace a0 with a in * by congruence. split.
  - lia.
  - destruct (Z.ltb_spec m (Z.of_nat right - Z.of_nat left' + 1)); lia.
  - intros a1 Ha1 j x Hj Hlt. pose proof (Hout' _ _ Hj Hlt).
    pose proof (sorted_lookup _ _ _ _ _ l_sorted Ha Ha1 ltac:(lia)). lia.
  - right. destruct (Z.ltb_spec m (Z.of_nat right - Z.of_nat left' + 1)); [by exists a|].
    destruct Hmax as [[_ ->]|?]; [lia|done].
  - intros t i x Hi Hx Hxt Hafter.
    destruct (decide (i = right)) as [->|].
    + replace x with a in * by congruence. specialize (Hc2 t Hxt Hafter).
      destruct (Z.ltb_spec m (Z.of_nat right - Z.of_nat left' + 1)); lia.
    + pose proof (Hbound t i x ltac:(lia) Hx Hxt Hafter).
      destruct (Z.ltb_spec m (Z.of_nat right - Z.of_nat left' + 1)); lia.
Qed.

Lemma maxWindow_busiest :
  l ≠ [] → ∃ m, maxWindow (length l) l 0 0 0 = Some m ∧ busiest l m.
Proof.
  intros Hne. destruct (maxWindow_ok (length l) 0 0 0) as (left' & m & Hm & [_ Hm0 _ Hmax Hbound]).
  - done.
  - split; [lia|lia|lia|by left|lia].
  - exists m. split; [done|].
    assert (Hub : ∀ t, count (in_window t) l ≤ m).
    { intros t. assert (∀ k : list Z, StronglySorted Z.le k → 
        (∃ i x, k !! i = Some x ∧ x ≤ t ∧ ∀ j y, k !! j = Some y → (i < j)%nat → t < y) ∨
        Forall (λ x, t < x) k) as Hlast.
      { induction 1 as [|x k Hs IH Hall]; [by right|].
        destruct IH as [(i & y & Hi & Hy & Hj)|IH].
        - left. exists (S i), y. split; [done|]. split; [done|].
          intros [|j] z Hz Hlt; [lia|]. eapply Hj; [exact Hz|lia].
        - destruct (decide (x ≤ t)).
          + left. exists 0%nat, x. split; [done|]. split; [done|].
            intros [|j] z Hz Hlt; [lia|]. rewrite Forall_lookup in IH. by eapply IH.
          + right. constructor; [lia|done]. }
      destruct (Hlast l l_sorted) as [(i & x & Hi & Hx & Hj)|Hall].
      - eapply Hbound; [by eapply lookup_lt_Some|exact Hi|exact Hx|exact Hj].
      - rewrite count_none; [|eapply Forall_impl; [exact Hall|]; unfold in_window; simpl; lia]. done. }
    split; [|done]. destruct Hmax as [[Hz _]|[t Ht]]; [by destruct l|].
    exists t. pose proof (Hub t). lia.
Qed.
End window.

(** ** The summary *)
(** The results that have no transport error. *)
Abbreviation successes rs := (filter (λ r, or_Err r = None) rs).
Definition latencies_of (rs : list OrderResult) : list Z := or_LatencyNs <$> successes rs.
Definition sent_of (rs : list OrderResult) : list Z := or_SentAt <$> successes rs.
Definition acked_of (rs : list OrderResult) : list Z := or_AckedAt <$> successes rs.

Definition is_first (l : list Z) (f : Z) : Prop :=
  l = [] ∧ f = -1 ∨ f ∈ l ∧ ∀ x, x ∈ l → f ≤ x.
Definition is_last (l : list Z) (f : Z) : Prop :=
  (f = 0 ∨ f ∈ l) ∧ 0 ≤ f ∧ ∀ x, x ∈ l → x ≤ f.

Lemma is_first_unique l l' f f' : l ≡ₚ l' → is_first l f → is_first l' f' → f = f'.
Proof.
  intros Hp [[-> ->]|[Hf Hmin]] [[-> ->]|[Hf' Hmin']].
  - done.
  - apply Permutation_nil in Hp as ->. by inversion Hf'.
  - symmetry in Hp. apply Permutation_nil in Hp as ->. by inversion Hf.
  - rewrite Hp in Hf. rewrite <- Hp in Hf'. pose proof (Hmin _ Hf'). pose proof (Hmin' _ Hf). lia.
Qed.

Lemma is_last_unique l l' f f' : l ≡ₚ l' → is_last l f → is_last l' f' → f = f'.
Proof.
  intros Hp (Hf & H0 & Hmax) (Hf' & H0' & Hmax').
  destruct Hf as [->|Hf]; destruct Hf' as [->|Hf']; try done;
    try (rewrite Hp in Hf; pose proof (Hmax' _ Hf)); 
    try (rewrite <- Hp in Hf'; pose proof (Hmax _ Hf')); lia.
Qed.

(** Send times at or after 1970, so that the [-1] that marks "none yet" is no
    send time. *)
Definition times_ok (rs : list OrderResult) : Prop :=
  Forall (λ x, 0 ≤ x ≤ int64_max) (sent_of rs) ∧ Z.of_nat (length rs) * 100 + 99 ≤ int64_max.

Section summary.
Context `{!SortSlice}.

Record stats_state_ok (rs : list OrderResult) (st : statsState) : Prop := {
  sso_lat : ss_latencies st = latencies_of rs;
  sso_sent : ss_sentAts st = sent_of rs;
  sso_total : ss_totalOrders st = Z.of_nat (length rs);
  sso_success : ss_successfulOrders st = Z.of_nat (length (successes rs));
  sso_errors : ss_errorOrders st = Z.of_nat (length rs) - Z.of_nat (length (successes rs));
  sso_first : is_first (sent_of rs) (ss_firstSentNs st);
  sso_last : is_last (acked_of rs) (ss_lastAckedNs st)
}.

Lemma statsStep_ok rs r st :
  Forall (λ x, 0 ≤ x ≤ int64_max) (sent_of (rs ++ [r])) →
  stats_state_ok rs st → stats_state_ok (rs ++ [r]) (statsStep st r).
Proof.
  intros Hpos [Hl Hs Ht Hsu He Hf Hla]. unfold statsStep, latencies_of, sent_of, acked_of in *.
  rewrite filter_app, filter_cons, filter_nil in Hpos.
  destruct (or_Err r) as [e|] eqn:Herr.
  - split; simpl; unfold latencies_of, sent_of, acked_of;
      rewrite ?filter_app, ?filter_cons_False, ?filter_nil, ?app_nil_r, ?length_app
      by (by rewrite Herr); simpl; try done; lia.
  - rewrite decide_True in Hpos by done. rewrite fmap_app, Forall_app in Hpos.
    destruct Hpos as [Hpos Hposr]. apply Forall_singleton in Hposr.
    split; simpl; unfold latencies_of, sent_of, acked_of;
      rewrite ?filter_app, ?filter_cons_True, ?filter_nil, ?length_app, ?fmap_app
      by done; simpl; rewrite ?Hl, ?Hs; try done; try lia.
    + destruct Hf as [[Hnil ->]|[Hin Hmin]].
      * right. rewrite Hnil. simpl. split; [by left|].
        intros x Hx. apply list_elem_of_singleton in Hx as ->. lia.
      * right. rewrite Forall_forall in Hpos. pose proof (Hpos _ Hin).
        destruct (Z.eqb_spec (ss_firstSentNs st) (-1)); [lia|]. simpl.
        destruct (Z.ltb_spec (or_SentAt r) (ss_firstSentNs st)).
        -- split; [apply elem_of_app; right; by left|].
           intros x [Hx|Hx]%elem_of_app; [pose proof (Hmin _ Hx); lia|].
           apply list_elem_of_singleton in Hx as ->. lia.
        -- split; [apply elem_of_app; by left|].
           intros x [Hx|Hx]%elem_of_app; [by apply Hmin|].
           apply list_elem_of_singleton in Hx as ->. lia.
    + destruct Hla as (Hin & H0 & Hmax).
      destruct (Z.ltb_spec (ss_lastAckedNs st) (or_AckedAt r)).
      * split; [right; apply elem_of_app; right; by left|]. split; [lia|].
        intros x [Hx|Hx]%elem_of_app; [pose proof (Hmax _ Hx); lia|].
        apply list_elem_of_singleton in Hx as ->. lia.
      * split; [destruct Hin; [by left|right; apply elem_of_app; by left]|]. split; [lia|].
        intros x [Hx|Hx]%elem_of_app; [by apply Hmax|].
        apply list_elem_of_singleton in Hx as ->. lia.
Qed.

Lemma stats_loop rs :
  Forall (λ x, 0 ≤ x ≤ int64_max) (sent_of rs) →
  stats_state_ok rs (fold_left statsStep rs statsInit).
Proof.
  induction rs as [|r rs IH] using rev_ind; intros Hpos.
  - split; try done; [by left|]. split; [by left|]. split; [done|]. intros x Hx. by inversion Hx.
  - rewrite fold_left_app. apply statsStep_ok; [done|]. apply IH.
    unfold sent_of in *. by rewrite filter_app, fmap_app, Forall_app in Hpos; destruct Hpos.
Qed.

Lemma computeMaxTPS_ok l :
  l ≠ [] → Forall (λ x, 0 ≤ x ≤ int64_max) l →
  ∃ m, computeMaxTPS l = Some (F64.mul (F64.of_Z m) (F64.of_Z 10)) ∧ busiest l m.
Proof.
  intros Hne Hr. set (s := sort_slice Z.ltb l).
  assert (s ≡ₚ l) as Hp by apply sort_slice_perm.
  destruct (maxWindow_busiest s) as (m & Hm & [[t Ht] Hub]).
  - apply sorted_by_Zltb, sort_slice_sorted, _.
  - by rewrite Hp.
  - intros Hs. rewrite Hs in Hp. by apply Permutation_nil in Hp.
  - exists m. split.
    + unfold computeMaxTPS. destruct l; [done|]. fold s. by rewrite Hm.
    + split; [exists t|intros t'; specialize (Hub t')]; by rewrite <- (count_perm _ _ _ Hp).
Qed.

Lemma ComputeStats_spec rs :
  times_ok rs → successes rs ≠ [] →
  ∃ p50 p90 p99 m first last, ComputeStats rs = Some (mkBotStats
      (F64.of_Z p50) (F64.of_Z p90) (F64.of_Z p99) (F64.mul (F64.of_Z m) (F64.of_Z 10))
      (if 0 <? i64 (last - first)
       then F64.div (F64.of_Z (Z.of_nat (length (successes rs))))
              (F64.div (F64.of_Z (i64 (last - first))) (F64.of_Z 1000000000))
       else F64.zero)
      (Z.of_nat (length rs)) (Z.of_nat (length (successes rs)))
      (Z.of_nat (length rs) - Z.of_nat (length (successes rs)))) ∧
    nearest_rank (latencies_of rs) 50 p50 ∧ nearest_rank (latencies_of rs) 90 p90 ∧
    nearest_rank (latencies_of rs) 99 p99 ∧ busiest (sent_of rs) m ∧
    is_first (sent_of rs) first ∧ is_last (acked_of rs) last.
Proof.
  intros [Hr Hlen] Hne. destruct (stats_loop rs Hr) as [Hl Hs Ht Hsu He Hf Hla].
  unfold ComputeStats. destruct rs as [|r0 rs0] eqn:Hrs; [done|]. rewrite <- Hrs in *. clear Hrs r0 rs0.
  set (st := fold_left statsStep rs statsInit) in *.
  assert (latencies_of rs ≠ []) as Hlne by (unfold latencies_of; by destruct (successes rs)).
  assert (sent_of rs ≠ []) as Hsne by (unfold sent_of; by destruct (successes rs)).
  rewrite Hl. set (lats := sort_slice Z.ltb (latencies_of rs)).
  assert (lats ≡ₚ latencies_of rs) as Hp by apply sort_slice_perm.
  assert (StronglySorted Z.le lats) as Hss by (apply sorted_by_Zltb, sort_slice_sorted, _).
  assert (lats ≠ []) as Hlane by (intros Hn; rewrite Hn in Hp; by apply Permutation_nil in Hp).
  assert (Z.of_nat (length lats) * 100 + 99 ≤ int64_max) as Hll.
  { rewrite Hp. unfold latencies_of. rewrite length_fmap.
    pose proof (length_filter (λ r, or_Err r = None) rs). lia. }
  destruct (percentile_nearest_rank lats 50) as (p50 & E50 & R50); try done.
  destruct (percentile_nearest_rank lats 90) as (p90 & E90 & R90); try done.
  destruct (percentile_nearest_rank lats 99) as (p99 & E99 & R99); try done.
  destruct (computeMaxTPS_ok (sent_of rs) Hsne Hr) as (m & Em & Bm).
  exists p50, p90, p99, m, (ss_firstSentNs st), (ss_lastAckedNs st).
  split; [|split_and!; try done; by eapply nearest_rank_perm].
  destruct (latencies_of rs) eqn:Hlr; [done|].
  rewrite E50, E90, E99, Hs, Em. cbn [mbind option_bind]. by rewrite Hsu, Ht, He.
Qed.
End summary.

Lemma successes_perm (rs rs' : list OrderResult) : rs ≡ₚ rs' → successes rs ≡ₚ successes rs'.
Proof. by intros ->. Qed.

Lemma times_ok_perm rs rs' : rs ≡ₚ rs' → times_ok rs → times_ok rs'.
Proof. unfold times_ok, sent_of. intros Hp [H1 H2]. by rewrite <- Hp. Qed.

Lemma nearest_rank_unique l l' pct v v' :
  l ≡ₚ l' → nearest_rank l pct v → nearest_rank l' pct v' → v = v'.
Proof.
  intros Hp H1 H2. apply (nearest_rank_perm _ _ _ _ Hp) in H1.
  pose proof (nearest_rank_mono _ _ _ _ _ (Z.le_refl pct) H1 H2).
  pose proof (nearest_rank_mono _ _ _ _ _ (Z.le_refl pct) H2 H1). lia.
Qed.

Lemma busiest_unique l l' m m' : l ≡ₚ l' → busiest l m → busiest l' m' → m = m'.
Proof.
  intros Hp [[t <-] H1] [[t' <-] H2]. pose proof (H1 t') as Ha. pose proof (H2 t) as Hb.
  rewrite (count_perm _ _ _ Hp) in *. rewrite <- (count_perm (in_window t') _ _ Hp) in *.
  rewrite (count_perm (in_window t') _ _ Hp) in *. lia.
Qed.

Lemma ComputeStats_all_failed `{!SortSlice} rs :
  times_ok rs → successes rs = [] →
  ComputeStats rs = Some (mkBotStats F64.zero F64.zero F64.zero F64.zero F64.zero
    (Z.of_nat (length rs)) 0 (Z.of_nat (length rs))).
Proof.
  intros [Hr _] Hs. destruct (stats_loop rs Hr) as [Hl _ Ht Hsu He _ _].
  unfold ComputeStats. destruct rs as [|r0 rs0]; [done|].
  rewrite Hl, Ht, Hsu, He. unfold latencies_of. rewrite Hs. simpl. do 2 f_equal; lia.
Qed.

Lemma ComputeStats_perm `{!SortSlice} rs rs' :
  times_ok rs → rs ≡ₚ rs' → ComputeStats rs = ComputeStats rs'.
Proof.
  intros Hok Hp. pose proof (times_ok_perm _ _ Hp Hok) as Hok'.
  pose proof (successes_perm _ _ Hp) as Hsp.
  destruct (decide (length (successes rs) = 0%nat)) as [Hz|Hnz].
  - pose proof Hz as Hz'. rewrite Hsp in Hz'. apply nil_length_inv in Hz, Hz'.
    rewrite !ComputeStats_all_failed by done. by rewrite Hp.
  - assert (successes rs ≠ []) as Hne by (intros Hn; by rewrite Hn in Hnz).
    assert (successes rs' ≠ []) as Hne' by (intros Hn; rewrite Hsp, Hn in Hnz; done).
    destruct (ComputeStats_spec rs Hok Hne)
      as (p50 & p90 & p99 & m & f & la & -> & A50 & A90 & A99 & Am & Af & Ala).
    destruct (ComputeStats_spec rs' Hok' Hne')
      as (p50' & p90' & p99' & m' & f' & la' & -> & B50 & B90 & B99 & Bm & Bf & Bla).
    assert (latencies_of rs ≡ₚ latencies_of rs') as Hlp by (unfold latencies_of; by rewrite Hp).
    assert (sent_of rs ≡ₚ sent_of rs') as Hse by (unfold sent_of; by rewrite Hp).
    assert (acked_of rs ≡ₚ acked_of rs') as Hap by (unfold acked_of; by rewrite Hp).
    rewrite (nearest_rank_unique _ _ _ _ _ Hlp A50 B50), (nearest_rank_unique _ _ _ _ _ Hlp A90 B90),
      (nearest_rank_unique _ _ _ _ _ Hlp A99 B99), (busiest_unique _ _ _ _ Hse Am Bm),
      (is_first_unique _ _ _ _ Hse Af Bf), (is_last_unique _ _ _ _ Hap Ala Bla).
    by rewrite Hsp, Hp.
Qed.

Lemma fleet_run_perm `{!Rand} c now envs rs rs' :
  fleet_run c now envs rs → fleet_run c now envs rs' → rs ≡ₚ rs'.
Proof.
  intros [slices arr _ Hs Hp] [slices' arr' _ Hs' Hp'].
  assert (slices = slices') as <-.
  { clear -Hs Hs'. revert slices' Hs'.
    induction Hs as [|[i env] s l ls Hh Ht IH]; intros slices' Hs'; inversion Hs'; subst; [done|].
    f_equal; [congruence|by apply IH]. }
  unfold collect. by rewrite Hp, Hp'.
Qed.

(** ** The theorems *)
(** C17: The metrics are what their names say: the counts add up; without a
    successful order everything else is 0; otherwise P50, P90 and P99 are the
    nearest-rank percentiles of the successful latencies, in increasing order,
    and MaxTPS is ten times the largest number of sends in any 100ms window. *)
Theorem stats_meaning `{!SortSlice} rs :
  times_ok rs →
  ∃ s, ComputeStats rs = Some s ∧
    bs_TotalOrders s = Z.of_nat (length rs) ∧
    bs_SuccessfulOrders s = Z.of_nat (length (successes rs)) ∧
    bs_SuccessfulOrders s + bs_ErrorOrders s = bs_TotalOrders s ∧
    (successes rs = [] → P50Ns s = F64.zero ∧ P90Ns s = F64.zero ∧ P99Ns s = F64.zero ∧
      bs_MaxTPS s = F64.zero ∧ bs_SustainedTPS s = F64.zero) ∧
    (successes rs ≠ [] → ∃ p50 p90 p99 m,
      P50Ns s = F64.of_Z p50 ∧ P90Ns s = F64.of_Z p90 ∧ P99Ns s = F64.of_Z p99 ∧
      bs_MaxTPS s = F64.mul (F64.of_Z m) (F64.of_Z 10) ∧
      nearest_rank (latencies_of rs) 50 p50 ∧ nearest_rank (latencies_of rs) 90 p90 ∧
      nearest_rank (latencies_of rs) 99 p99 ∧ p50 ≤ p90 ≤ p99 ∧ busiest (sent_of rs) m).
Proof.
  intros Hok. destruct (decide (length (successes rs) = 0%nat)) as [Hz|Hnz].
  - apply nil_length_inv in Hz. eexists. split; [by apply ComputeStats_all_failed|].
    simpl. rewrite Hz. by split_and!.
  - assert (successes rs ≠ []) as Hne by (intros Hn; by rewrite Hn in Hnz).
    destruct (ComputeStats_spec rs Hok Hne)
      as (p50 & p90 & p99 & m & f & la & Hc & A50 & A90 & A99 & Am & _ & _).
    eexists. split; [exact Hc|]. cbn [bs_TotalOrders bs_SuccessfulOrders bs_ErrorOrders].
    split_and!; [done|done|lia|done|]. intros _. exists p50, p90, p99, m.
    split_and!; try done; by eapply nearest_rank_mono; [|eassumption..].
Qed.

Definition sample_result (sent latency : Z) : OrderResult :=
  mkOrderResult (mkBotOrder "a" KindLimit SideBuy 1 1) zeroFill sent (sent + latency) latency None.
Definition sample_results : list OrderResult :=
  [sample_result 1000 5; sample_result 50000000 7; sample_result 200000000 6].

Lemma sample_times_ok : times_ok sample_results.
Proof.
  split; [|done].
  change (sent_of sample_results) with [1000; 50000000; 200000000].
  repeat constructor; unfold int64_max; lia.
Qed.

Lemma stats_meaning_witness :
  ∃ s, ComputeStats sample_results = Some s ∧ bs_TotalOrders s = 3 ∧ P50Ns s = F64.of_Z 6 ∧
    bs_MaxTPS s = F64.of_Z 20.
Proof.
  destruct (stats_meaning sample_results sample_times_ok) as (s & Hs & Ht & _).
  exists s. split; [exact Hs|]. split; [exact Ht|].
  assert (ComputeStats sample_results = Some (mkBotStats (F64.of_Z 6) (F64.of_Z 7) (F64.of_Z 7)
    (F64.of_Z 20) (bs_SustainedTPS s) 3 3 0)) as Hc.
  { rewrite Hs. revert Hs. vm_compute. by intros [= <-]. }
  rewrite Hs in Hc. injection Hc as ->. by split.
Defined.

(** The summary of a fleet run is a function of what the bots did: it does
    not depend on the order in which their results arrive at the collector. *)
Theorem fleet_stats_arrival_order `{!Rand, !SortSlice} c now envs rs rs' :
  fleet_run c now envs rs → fleet_run c now envs rs' → times_ok rs →
  ComputeStats rs = ComputeStats rs'.
Proof. intros H1 H2 Hok. apply ComputeStats_perm; [done|]. by eapply fleet_run_perm. Qed.

Definition two_bots : FleetConfig := mkFleetConfig 2 0 Second "http://e" "rest" Second
  DefaultRandomGeneratorConfig.
Definition two_envs : list (option (list exchange)) :=
  [Some [mkExchange 10 (Ok zeroFill) 15]; Some [mkExchange 20 (Ok zeroFill) 27]].
Definition bot_slice (idx : Z) : list OrderResult :=
  default [] (runOne two_bots 7 idx (default None (two_envs !! Z.to_nat idx))).

Lemma bot_slice_ok idx :
  idx = 0 ∨ idx = 1 →
  runOne two_bots 7 idx (default None (two_envs !! Z.to_nat idx)) = Some (bot_slice idx).
Proof. by intros [-> | ->]; vm_compute. Qed.

Lemma two_bots_run slices :
  slices ≡ₚ [bot_slice 0; bot_slice 1] → fleet_run two_bots (λ _, 7) two_envs (collect slices).
Proof.
  intros Hp. apply (fleet_run_intro _ _ _ [bot_slice 0; bot_slice 1]); [done| |done].
  repeat constructor; apply (bot_slice_ok _); auto.
Qed.

Lemma fleet_stats_arrival_order_witness :
  ComputeStats (collect [bot_slice 0; bot_slice 1]) = ComputeStats (collect [bot_slice 1; bot_slice 0]).
Proof.
  apply (fleet_stats_arrival_order two_bots (λ _, 7) two_envs).
  - apply two_bots_run. reflexivity.
  - apply two_bots_run. apply Permutation_swap.
  - assert (times_ok (collect [bot_slice 0; bot_slice 1])) as Hok; [|exact Hok].
    split; [|by vm_compute].
    assert (sent_of (collect [bot_slice 0; bot_slice 1]) = [10; 20]) as -> by (by vm_compute).
    repeat constructor; unfold int64_max; lia.
Defined.
