(* ===== verification/Scenarios.v ===== *)
(** * Scenarios: the fixed smoke test of [internal/validator/scenarios.go]

    The literal of [fixedScenarios], in three parts: axes 1 to 6, axis 7, and the
    concurrent burst. An omitted field is its zero value. *)

From S2P Require Import Prelude Models OrderBook Botfleet.

Record scenario := mkScenario {
  sc_name : string;
  sc_orders : list Order;
  sc_expected : list GoldenFill;
  sc_bookContext : string;
  sc_isConcurrent : bool;
  sc_concurrentDeadline : duration
}.

(** ** Axes 1 to 6 *)
Definition scenariosAxes1to6 : list scenario :=
  [mkScenario "limit_buy_rests_on_empty_book"
     [mkBotOrder "val-0-0" KindLimit SideBuy 10000 10]
     [mkFill "val-0-0" 0 0 true]
     "book: empty" false 0;
   mkScenario "limit_sell_rests_above_best_bid"
     [mkBotOrder "val-1-0" KindLimit SideSell 10100 10]
     [mkFill "val-1-0" 0 0 true]
     "book: 1 resting buy at $100.00 qty=10 (val-0-0)" false 0;
   mkScenario "limit_sell_crosses_buy_partial_fill"
     [mkBotOrder "val-2-0" KindLimit SideSell 10000 5]
     [mkFill "val-2-0" 10000 5 true]
     "book: 1 resting buy at $100.00 qty=10 (val-0-0); 1 resting sell at $101.00 qty=10 (val-1-0)" false 0;
   mkScenario "market_buy_sweeps_resting_sell"
     [mkBotOrder "val-3-0" KindMarket SideBuy 0 20]
     [mkFill "val-3-0" 10100 10 true]
     "book: 1 resting buy at $100.00 qty=5 (val-0-0, partially filled); 1 resting sell at $101.00 qty=10 (val-1-0)" false 0;
   mkScenario "cancel_of_known_resting_order_accepted"
     [mkBotOrder "val-0-0" KindCancel "" 0 0]
     [mkFill "val-0-0" 0 0 true]
     "book: 1 resting buy at $100.00 qty=5 (val-0-0, remaining after partial fill)" false 0;
   mkScenario "cancel_of_unknown_id_rejected"
     [mkBotOrder "val-NEVER-0" KindCancel "" 0 0]
     [mkFill "val-NEVER-0" 0 0 false]
     "book: empty (val-0-0 canceled, val-1-0 swept by market buy)" false 0;
   mkScenario "cancel_of_already_canceled_order_rejected"
     [mkBotOrder "val-0-0" KindCancel "" 0 0]
     [mkFill "val-0-0" 0 0 false]
     "book: empty (val-0-0 already canceled)" false 0;
   mkScenario "zero_quantity_order_rejected"
     [mkBotOrder "val-6-0" KindLimit SideBuy 10000 0]
     [mkFill "val-6-0" 0 0 false]
     "book: empty" false 0].

(** ** Axis 7: price-time priority *)
Definition scenariosAxis7 : list scenario :=
  [mkScenario "price_time_priority_setup_buy_100_50"
     [mkBotOrder "val-7-0" KindLimit SideBuy 10050 5]
     [mkFill "val-7-0" 0 0 true]
     "book: empty" false 0;
   mkScenario "price_time_priority_setup_buy_100_50_second"
     [mkBotOrder "val-8-0" KindLimit SideBuy 10050 3]
     [mkFill "val-8-0" 0 0 true]
     "book: 1 resting buy at $100.50 qty=5 (val-7-0)" false 0;
   mkScenario "price_time_priority_setup_buy_100_00"
     [mkBotOrder "val-9-0" KindLimit SideBuy 10000 10]
     [mkFill "val-9-0" 0 0 true]
     "book: 2 resting buys at $100.50 (val-7-0 qty=5, val-8-0 qty=3); 1 resting buy at $100.00 qty=10 (val-9-0)" false 0;
   mkScenario "price_time_priority_aggressive_sell_fills_best_bid_first"
     [mkBotOrder "val-10-0" KindLimit SideSell 10000 5]
     [mkFill "val-10-0" 10050 5 true]
     "book: val-7-0 qty=5 at $100.50 (highest bid, fills first); val-8-0 qty=3 at $100.50; val-9-0 qty=10 at $100.00" false 0;
   mkScenario "price_time_priority_aggressive_sell_fills_second_bid"
     [mkBotOrder "val-11-0" KindLimit SideSell 10000 5]
     [mkFill "val-11-0" 10000 5 true]
     "book: val-8-0 qty=3 at $100.50; val-9-0 qty=10 at $100.00" false 0;
   mkScenario "cancel_remaining_resting_buy"
     [mkBotOrder "val-9-0" KindCancel "" 0 0]
     [mkFill "val-9-0" 0 0 true]
     "book: val-9-0 qty=8 remaining at $100.00 (partially filled)" false 0;
   mkScenario "resting_sell_at_ask"
     [mkBotOrder "val-13-0" KindLimit SideSell 10100 10]
     [mkFill "val-13-0" 0 0 true]
     "book: empty buy side" false 0;
   mkScenario "market_sell_rejected_on_empty_buy_side"
     [mkBotOrder "val-14-0" KindMarket SideSell 0 5]
     [mkFill "val-14-0" 0 0 false]
     "book: empty buy side; 1 resting sell at $101.00 qty=10 (val-13-0)" false 0;
   mkScenario "limit_buy_fills_resting_sell"
     [mkBotOrder "val-15-0" KindLimit SideBuy 10100 3]
     [mkFill "val-15-0" 10100 3 true]
     "book: 1 resting sell at $101.00 qty=10 (val-13-0)" false 0;
   mkScenario "cancel_partially_consumed_sell"
     [mkBotOrder "val-13-0" KindCancel "" 0 0]
     [mkFill "val-13-0" 0 0 true]
     "book: val-13-0 qty=7 remaining at $101.00 (partially filled)" false 0;
   mkScenario "multiple_unknown_cancels_all_rejected"
     [mkBotOrder "val-GHOST-1" KindCancel "" 0 0;
      mkBotOrder "val-GHOST-2" KindCancel "" 0 0;
      mkBotOrder "val-GHOST-3" KindCancel "" 0 0]
     [mkFill "val-GHOST-1" 0 0 false;
      mkFill "val-GHOST-2" 0 0 false;
      mkFill "val-GHOST-3" 0 0 false]
     "book: empty" false 0].

(** ** Axis 8: the concurrent burst *)
Definition scenariosAxis8 : list scenario :=
  [mkScenario "concurrent_burst_10"
     [mkBotOrder "val-cb-0" KindLimit SideBuy 9000 1;
      mkBotOrder "val-cb-1" KindLimit SideBuy 9100 1;
      mkBotOrder "val-cb-2" KindLimit SideBuy 9200 1;
      mkBotOrder "val-cb-3" KindLimit SideBuy 9300 1;
      mkBotOrder "val-cb-4" KindLimit SideBuy 9400 1;
      mkBotOrder "val-cb-5" KindLimit SideBuy 9500 1;
      mkBotOrder "val-cb-6" KindLimit SideBuy 9600 1;
      mkBotOrder "val-cb-7" KindLimit SideBuy 9700 1;
      mkBotOrder "val-cb-8" KindLimit SideBuy 9800 1;
      mkBotOrder "val-cb-9" KindLimit SideBuy 9900 1]
     [mkFill "val-cb-0" 0 0 true;
      mkFill "val-cb-1" 0 0 true;
      mkFill "val-cb-2" 0 0 true;
      mkFill "val-cb-3" 0 0 true;
      mkFill "val-cb-4" 0 0 true;
      mkFill "val-cb-5" 0 0 true;
      mkFill "val-cb-6" 0 0 true;
      mkFill "val-cb-7" 0 0 true;
      mkFill "val-cb-8" 0 0 true;
      mkFill "val-cb-9" 0 0 true]
     "book: empty (all previous orders canceled or consumed)" true (3 * Second)].

Definition fixedScenarios : list scenario :=
  scenariosAxes1to6 ++ scenariosAxis7 ++ scenariosAxis8.

(** Every order has an expected fill. *)
Definition scenario_wf (sc : scenario) : Prop :=
  length (sc_orders sc) = length (sc_expected sc).

Lemma fixedScenarios_wf : Forall scenario_wf fixedScenarios.
Proof. repeat constructor. Qed.

Lemma fixedScenarios_length :
  length fixedScenarios = 20%nat ∧
  length (filter (λ sc, sc_isConcurrent sc = true) fixedScenarios) = 1%nat.
Proof. by vm_compute. Qed.
