(* ===== verification/Validator.v ===== *)
(** * Validator: the pre-flight gate ([internal/validator/validator.go])

    The engine under test is a world of its own: [Send] is one round trip, which
    may fail and which changes the world; [ctxErr] tells whether the context is
    done in a world. The goroutines of a concurrent scenario reach the engine in
    some order and answer in some order: [burst] is any such schedule. The
    reasons for a failure are values that carry the data the code prints. *)

From S2P Require Import Prelude Models OrderBook Botfleet Scenarios.

(** ** Comparing fills *)
Inductive mismatch :=
| AcceptedMismatch (got want : bool)
| ExecutedPriceMismatch (got want : Z)
| ExecutedQtyMismatch (got want : Z).

Definition compareFills (actual : Fill) (expected : GoldenFill) : option mismatch :=
  if negb (bool_decide (f_Accepted actual = gf_Accepted expected))
  then Some (AcceptedMismatch (f_Accepted actual) (gf_Accepted expected))
  else if negb (f_ExecutedPrice actual =? gf_ExecutedPrice expected)
  then Some (ExecutedPriceMismatch (f_ExecutedPrice actual) (gf_ExecutedPrice expected))
  else if negb (f_ExecutedQty actual =? gf_ExecutedQty expected)
  then Some (ExecutedQtyMismatch (f_ExecutedQty actual) (gf_ExecutedQty expected))
  else None.

Inductive reason :=
| TransportError (order : Order) (err : string)
| Mismatch (order : Order) (m : mismatch) (bookContext : string)
| BurstTimeout (n : Z) (timedOutIDs : list string) (deadline : duration)
| BurstTransportError (n : Z) (order : Order) (err : string)
| BurstMismatch (n : Z) (order : Order) (m : mismatch) (bookContext : string).

Record ScenarioResult := mkScenarioResult {
  sr_Name : string;
  sr_Passed : bool;
  sr_Reason : option reason
}.

Record ValidationResult := mkValidation {
  vr_SubmissionID : string;
  vr_Scenarios : list ScenarioResult;
  vr_AllPassed : bool;
  vr_TestedAt : time
}.

(** How a run can stop early: the context is done, or an index is out of range. *)
Inductive run_error := CtxDone | IndexPanic.

Definition passed (sc : scenario) : ScenarioResult := mkScenarioResult (sc_name sc) true None.
Definition failed (sc : scenario) (r : reason) : ScenarioResult :=
  mkScenarioResult (sc_name sc) false (Some r).

(** [strings.Contains(s, sub)] *)
Definition contains (s sub : string) : bool :=
  match String.index 0 sub s with Some _ => true | None => false end.

(** ** The concurrent scenario after its goroutines have finished *)
Record concurrentResult := mkConcurrent {
  cc_idx : Z;
  cc_reply : result string Fill
}.

Definition isTimeout (r : concurrentResult) : bool :=
  match cc_reply r with
  | Err e => contains e "deadline" || contains e "context canceled"
  | Ok _ => false
  end.

(** The first collected result of index [i]. *)
Definition findResult (collected : list concurrentResult) (i : Z) : option concurrentResult :=
  snd <$> list_find (λ r, cc_idx r = i) collected.

(** The orders, with their index, that timed out or have no result. *)
Fixpoint timedOut (collected : list concurrentResult) (i : Z) (orders : list Order)
    : list string :=
  match orders with
  | [] => []
  | o :: orders =>
      let rest := timedOut collected (i + 1) orders in
      match findResult collected i with
      | None => o_ID o :: rest
      | Some r => if isTimeout r then o_ID o :: rest else rest
      end
  end.

Definition nth_order (sc : scenario) (i : Z) : option Order :=
  if i <? 0 then None else sc_orders sc !! Z.to_nat i.

(** The first result with a transport error. *)
Fixpoint firstError (collected : list concurrentResult) : option (Z * string) :=
  match collected with
  | [] => None
  | r :: rest => match cc_reply r with Err e => Some (cc_idx r, e) | Ok _ => firstError rest end
  end.

(** [sorted\[r.idx\] = r] over [n] zero values. *)
Definition sortResults (n : nat) (collected : list concurrentResult) : list Fill :=
  fold_left (λ s r, match cc_reply r with
                    | Ok f => <[Z.to_nat (cc_idx r) := f]> s
                    | Err _ => s
                    end) collected (replicate n zeroFill).

(** The loop over the sorted results. *)
Fixpoint checkSorted (sc : scenario) (n : Z) (fills : list Fill) (orders : list Order)
    (expected : list GoldenFill) : result run_error ScenarioResult :=
  match fills, orders, expected with
  | [], _, _ => Ok (passed sc)
  | f :: fills, o :: orders, e :: expected =>
      match compareFills f e with
      | Some m => Ok (failed sc (BurstMismatch n o m (sc_bookContext sc)))
      | None => checkSorted sc n fills orders expected
      end
  | _, _, _ => Err IndexPanic
  end.

Definition judgeBurst (sc : scenario) (collected : list concurrentResult)
    : result run_error ScenarioResult :=
  let n := Z.of_nat (length (sc_orders sc)) in
  match timedOut collected 0 (sc_orders sc) with
  | _ :: _ as ids => Ok (failed sc (BurstTimeout n ids (sc_concurrentDeadline sc)))
  | [] =>
      match firstError collected with
      | Some (idx, e) =>
          match nth_order sc idx with
          | Some o => Ok (failed sc (BurstTransportError n o e))
          | None => Err IndexPanic
          end
      | None =>
          checkSorted sc n (sortResults (length (sc_orders sc)) collected)
            (sc_orders sc) (sc_expected sc)
      end
  end.

Section validator.
Context {world : Type} (ctxErr : world → bool)
        (Send : world → Order → result string Fill * world)
        (burst : world → scenario → list concurrentResult * world).

(** ** A sequential scenario *)
Fixpoint runOrders (sc : scenario) (orders : list Order) (expected : list GoldenFill) (w : world)
    : result run_error ScenarioResult * world :=
  match orders with
  | [] => (Ok (passed sc), w)
  | o :: orders =>
      if ctxErr w then (Err CtxDone, w)
      else
        let '(reply, w) := Send w o in
        match reply with
        | Err e => if ctxErr w then (Err CtxDone, w) else (Ok (failed sc (TransportError o e)), w)
        | Ok fill =>
            match expected with
            | [] => (Err IndexPanic, w)
            | e :: expected =>
                match compareFills fill e with
                | Some m => (Ok (failed sc (Mismatch o m (sc_bookContext sc))), w)
                | None => runOrders sc orders expected w
                end
            end
        end
  end.

Definition runScenario (sc : scenario) (w : world) : result run_error ScenarioResult * world :=
  runOrders sc (sc_orders sc) (sc_expected sc) w.

Definition runConcurrentScenario (sc : scenario) (w : world)
    : result run_error ScenarioResult * world :=
  if ctxErr w then (Err CtxDone, w)
  else let '(collected, w) := burst w sc in (judgeBurst sc collected, w).

(** ** The whole run *)
Fixpoint runScenarios (scenarios : list scenario) (acc : list ScenarioResult) (allPassed : bool)
    (w : world) : list ScenarioResult * result run_error bool * world :=
  match scenarios with
  | [] => (acc, Ok allPassed, w)
  | sc :: scenarios =>
      let '(r, w) := if sc_isConcurrent sc then runConcurrentScenario sc w else runScenario sc w in
      match r with
      | Err e => (acc, Err e, w)
      | Ok sr => runScenarios scenarios (acc ++ [sr]) (allPassed && sr_Passed sr) w
      end
  end.

(** [Run]: on an early stop the result so far is returned with the error, and
    [AllPassed] is still false. *)
Definition Run (submissionID : string) (now : time) (w : world)
    : ValidationResult * option run_error * world :=
  match runScenarios fixedScenarios [] true w with
  | (srs, Ok b, w) => (mkValidation submissionID srs b now, None, w)
  | (srs, Err e, w) => (mkValidation submissionID srs false now, Some e, w)
  end.

(** A schedule of the burst: the goroutines reach the engine in the order
    [sigma], each gets its reply, and the replies are collected in any order. *)
Fixpoint serve (jobs : list (Z * Order)) (w : world) : list concurrentResult * world :=
  match jobs with
  | [] => ([], w)
  | (i, o) :: jobs =>
      let '(reply, w) := Send w o in
      let '(rs, w) := serve jobs w in (mkConcurrent i reply :: rs, w)
  end.

Definition jobs_of (sc : scenario) : list (Z * Order) :=
  imap (λ i o, (Z.of_nat i, o)) (sc_orders sc).

(** [burst] is a schedule of every concurrent scenario it is asked to run. *)
Definition burst_ok : Prop :=
  ∀ w sc, ∃ sigma collected, sigma ≡ₚ jobs_of sc ∧
    let '(rs, w') := serve sigma w in collected ≡ₚ rs ∧ burst w sc = (collected, w').
End validator.
