(* ===== verification/Gate.v ===== *)
(** * Gate: what passing the pre-flight gate means

    The gate passes an engine exactly when every answer it gets is the expected
    one, it fails closed, and it passes the golden order book whatever the
    schedule of the concurrent burst. *)

From S2P Require Import Prelude Models OrderBook Botfleet Scenarios Validator.

(** ** One fill *)
(** The answer agrees with the expected fill; the order id is not compared. *)
Definition agrees (f : Fill) (e : GoldenFill) : Prop :=
  f_Accepted f = gf_Accepted e ∧ f_ExecutedPrice f = gf_ExecutedPrice e ∧
  f_ExecutedQty f = gf_ExecutedQty e.

Lemma compareFills_spec f e : compareFills f e = None ↔ agrees f e.
Proof.
  unfold compareFills, agrees. case_bool_decide; simpl; [|naive_solver].
  destruct (Z.eqb_spec (f_ExecutedPrice f) (gf_ExecutedPrice e)); simpl; [|naive_solver].
  destruct (Z.eqb_spec (f_ExecutedQty f) (gf_ExecutedQty e)); simpl; naive_solver.
Qed.

(** ** Judging a burst *)
Section judge.
Context (n : nat) (collected : list concurrentResult).
Hypothesis idx_perm : cc_idx <$> collected ≡ₚ seqZ 0 (Z.of_nat n).

Lemma idx_nodup : NoDup (cc_idx <$> collected).
Proof. rewrite idx_perm. apply NoDup_seqZ. Qed.

Lemma idx_range r : r ∈ collected → 0 ≤ cc_idx r < Z.of_nat n.
Proof.
  intros Hr. assert (cc_idx r ∈ cc_idx <$> collected) as Hin by (apply list_elem_of_fmap; eauto).
  rewrite idx_perm, elem_of_seqZ in Hin. lia.
Qed.

Lemma findResult_Some i :
  0 ≤ i < Z.of_nat n → ∃ r, findResult collected i = Some r ∧ r ∈ collected ∧ cc_idx r = i.
Proof.
  intros Hi. assert (i ∈ cc_idx <$> collected) as Hin by (rewrite idx_perm, elem_of_seqZ; lia).
  apply list_elem_of_fmap in Hin as (r & -> & Hr). unfold findResult.
  destruct (list_find_elem_of (λ r', cc_idx r' = cc_idx r) collected r Hr eq_refl) as [[k r'] Hf].
  rewrite Hf. apply list_find_Some in Hf as (Hl & Hid & _). exists r'. simpl.
  split; [done|]. split; [by eapply list_elem_of_lookup_2|done].
Qed.

Lemma firstError_None : firstError collected = None ↔ ∀ r, r ∈ collected → ∃ f, cc_reply r = Ok f.
Proof.
  clear idx_perm. induction collected as [|r rs IH]; simpl; [split; [by intros _ r []%not_elem_of_nil|done]|].
  destruct (cc_reply r) as [f|e] eqn:Hr.
  - rewrite IH. split; intros H r'.
    + intros [->|?]%elem_of_cons; eauto.
    + intros ?. apply H. by right.
  - split; [done|]. intros H. destruct (H r) as [f Hf]; [by left|congruence].
Qed.

Lemma timedOut_nil off (orders : list Order) :
  0 ≤ off → off + Z.of_nat (length orders) ≤ Z.of_nat n →
  (∀ r, r ∈ collected → isTimeout r = false) → timedOut collected off orders = [].
Proof.
  intros Hoff Hlen Hno. revert off Hoff Hlen.
  induction orders as [|o orders IH]; intros off Hoff Hlen; [done|]. cbn [timedOut].
  simpl in Hlen. rewrite IH by lia.
  destruct (findResult_Some off) as (r & -> & Hr & _); [lia|]. by rewrite Hno.
Qed.

(** The replies in the order of the indices. *)
Lemma sortResults_lookup cs (s : list Fill) :
  NoDup (cc_idx <$> cs) → (∀ r, r ∈ cs → 0 ≤ cc_idx r < Z.of_nat (length s)) →
  let s' := fold_left (λ s r, match cc_reply r with
                    | Ok f => <[Z.to_nat (cc_idx r) := f]> s
                    | Err _ => s
                    end) cs s in
  length s' = length s ∧
  (∀ r f, r ∈ cs → cc_reply r = Ok f → s' !! Z.to_nat (cc_idx r) = Some f) ∧
  (∀ j, j ∉ cc_idx <$> cs → s' !! Z.to_nat j = s !! Z.to_nat j ∨ j < 0).
Proof.
  revert s. induction cs as [|c cs IH]; intros s Hnd Hrange; cbn [fold_left].
  { split; [done|]. split; [by intros r f []%not_elem_of_nil|]. intros j _. by left. }
  rewrite fmap_cons in Hnd. apply NoDup_cons in Hnd as [Hni Hnd].
  set (s1 := match cc_reply c with Ok f => <[Z.to_nat (cc_idx c) := f]> s | Err _ => s end).
  assert (length s1 = length s) as Hl1 by (unfold s1; destruct (cc_reply c); [apply length_insert|done]).
  destruct (IH s1 Hnd) as (Hl & Hin & Hout).
  { intros r Hr. rewrite Hl1. apply Hrange. by right. }
  split; [lia|]. split.
  - intros r f [->|Hr]%elem_of_cons Hf; [|by apply Hin].
    destruct (Hout _ Hni) as [->|Hneg].
    + unfold s1. rewrite Hf. apply list_lookup_insert_eq. pose proof (Hrange c ltac:(by left)). lia.
    + pose proof (Hrange c ltac:(by left)). lia.
  - intros j Hj. rewrite fmap_cons in Hj. apply not_elem_of_cons in Hj as [Hne Hj].
    destruct (decide (j < 0)); [by right|]. left.
    destruct (Hout _ Hj) as [->|]; [|lia]. unfold s1. destruct (cc_reply c); [|done].
    apply list_lookup_insert_ne. pose proof (Hrange c ltac:(by left)). lia.
Qed.
End judge.

(** Every order of the scenario got an answer that agrees. *)
Definition burst_answers (sc : scenario) (collected : list concurrentResult) : Prop :=
  ∀ i e, sc_expected sc !! i = Some e →
    ∃ f, mkConcurrent (Z.of_nat i) (Ok f) ∈ collected ∧ agrees f e.

Lemma checkSorted_spec sc n fills orders expected :
  length fills = length orders → length orders = length expected →
  ∃ sr, checkSorted sc n fills orders expected = Ok sr ∧ sr_Name sr = sc_name sc ∧
    (sr_Passed sr = true ↔ Forall2 agrees fills expected).
Proof.
  revert orders expected.
  induction fills as [|f fills IH]; intros [|o orders] [|e expected] H1 H2; try done; simpl.
  { exists (passed sc). split; [done|]. split; [done|]. split; [constructor|done]. }
  destruct (compareFills f e) as [m|] eqn:Hm.
  - eexists. split; [done|]. split; [done|]. split; [done|].
    intros Ha. inversion Ha as [|? ? ? ? Hfe _]; subst. apply compareFills_spec in Hfe. congruence.
  - simpl in H1, H2. destruct (IH orders expected ltac:(lia) ltac:(lia)) as (sr & -> & Hn & Hp).
    exists sr. split; [done|]. split; [done|]. rewrite Hp. split.
    + intros ?. constructor; [by apply compareFills_spec|done].
    + by inversion 1.
Qed.

Lemma judgeBurst_spec sc collected :
  scenario_wf sc → cc_idx <$> collected ≡ₚ seqZ 0 (Z.of_nat (length (sc_orders sc))) →
  ∃ sr, judgeBurst sc collected = Ok sr ∧ sr_Name sr = sc_name sc ∧
    (sr_Passed sr = true ↔ burst_answers sc collected).
Proof.
  intros Hwf Hidx. unfold judgeBurst. set (n := length (sc_orders sc)) in *.
  assert (Hno : (∀ r, r ∈ collected → ∃ f, cc_reply r = Ok f) ∨ ¬ burst_answers sc collected).
  { destruct (decide (firstError collected = None)) as [Hf|Hf].
    - left. by apply firstError_None.
    - right. intros Ha. apply Hf, firstError_None. intros r Hr.
      pose proof (idx_range n collected Hidx r Hr) as Hi.
      destruct (lookup_lt_is_Some_2 (sc_expected sc) (Z.to_nat (cc_idx r))) as [e He].
      { rewrite <- Hwf. fold n. lia. }
      destruct (Ha _ _ He) as (f & Hin & _). exists f.
      pose proof (idx_nodup n collected Hidx) as Hnd.
      apply list_elem_of_lookup in Hr as [a Ha'], Hin as [b Hb].
      assert (a = b) as <-.
      { eapply (NoDup_lookup _ a b (cc_idx r) Hnd); rewrite list_lookup_fmap.
        - by rewrite Ha'.
        - rewrite Hb. simpl. f_equal. lia. }
      by replace r with (mkConcurrent (Z.of_nat (Z.to_nat (cc_idx r))) (Ok f)) by congruence. }
  destruct (timedOut collected 0 (sc_orders sc)) as [|id ids] eqn:Hto.
  2: { eexists. split; [done|]. split; [done|]. split; [done|]. destruct Hno as [Hno|]; [|done].
       rewrite (timedOut_nil n) in Hto; [done|done|lia|fold n; lia|].
       intros r Hr. unfold isTimeout. by destruct (Hno r Hr) as [f ->]. }
  destruct (firstError collected) as [[i e]|] eqn:Hfe.
  { assert (∃ r, r ∈ collected ∧ cc_idx r = i) as (r & Hr & <-).
    { clear -Hfe. induction collected as [|c cs IH]; [done|]. simpl in Hfe.
      destruct (cc_reply c); [destruct (IH Hfe) as (r & ? & ?); exists r; split; [by right|done]|].
      injection Hfe as <- _. exists c. split; [by left|done]. }
    pose proof (idx_range n collected Hidx r Hr) as Hi. unfold nth_order.
    rewrite (proj2 (Z.ltb_ge _ _)) by lia.
    destruct (lookup_lt_is_Some_2 (sc_orders sc) (Z.to_nat (cc_idx r))) as [o ->]; [fold n; lia|].
    eexists. split; [done|]. split; [done|]. split; [done|]. destruct Hno as [Hno|]; [|done].
    pose proof (proj2 (firstError_None collected) Hno). congruence. }
  destruct (sortResults_lookup collected (replicate n zeroFill) (idx_nodup n _ Hidx))
    as (Hl & Hin & _).
  { intros r Hr. rewrite length_replicate. by apply (idx_range n collected Hidx). }
  fold (sortResults n collected) in Hl, Hin. rewrite length_replicate in Hl.
  destruct (checkSorted_spec sc (Z.of_nat n) (sortResults n collected) (sc_orders sc) (sc_expected sc))
    as (sr & -> & Hname & Hp); [done|done|].
  exists sr. split; [done|]. split; [done|]. rewrite Hp, Forall2_same_length_lookup.
  assert (Hok : ∀ r, r ∈ collected → ∃ f, cc_reply r = Ok f) by (by apply firstError_None).
  split.
  - intros [_ Hag] i e He. assert (i < n)%nat as Hi.
    { unfold n. rewrite Hwf. by eapply lookup_lt_Some. }
    destruct (findResult_Some n collected Hidx (Z.of_nat i)) as (r & _ & Hr & Hri); [lia|].
    destruct (Hok r Hr) as [f Hf]. exists f. split.
    + replace (mkConcurrent (Z.of_nat i) (Ok f)) with r; [done|]. destruct r. simpl in *. congruence.
    + eapply Hag; [|exact He]. pose proof (Hin r f Hr Hf) as Hs. by rewrite Hri, Nat2Z.id in Hs.
  - intros Ha. split; [by rewrite Hl|]. intros i f e Hf He.
    destruct (Ha i e He) as (f' & Hr & Hag). pose proof (Hin _ _ Hr eq_refl) as Hs. simpl in Hs.
    rewrite Nat2Z.id in Hs. by replace f with f' by congruence.
Qed.

(** ** Runs *)
Section runs.
Context {world : Type} (ctxErr : world → bool)
        (Send : world → Order → result string Fill * world)
        (burst : world → scenario → list concurrentResult * world).
Hypothesis burst_valid : burst_ok Send burst.

(** Every order of a sequence is answered as expected. *)
Inductive answers : list Order → list GoldenFill → world → world → Prop :=
| answers_nil w : answers [] [] w w
| answers_cons o os e es f w w1 w2 :
    Send w o = (Ok f, w1) → agrees f e → answers os es w1 w2 →
    answers (o :: os) (e :: es) w w2.

(** Every scenario is answered as expected, one after the other. *)
Fixpoint scenarios_pass (scs : list scenario) (w : world) : Prop :=
  match scs with
  | [] => True
  | sc :: scs =>
      if sc_isConcurrent sc
      then burst_answers sc (burst w sc).1 ∧ scenarios_pass scs (burst w sc).2
      else ∃ w', answers (sc_orders sc) (sc_expected sc) w w' ∧ scenarios_pass scs w'
  end.

Lemma serve_idx jobs w : cc_idx <$> (serve Send jobs w).1 = jobs.*1.
Proof.
  revert w. induction jobs as [|[i o] jobs IH]; intros w; cbn [serve]; [done|].
  destruct (Send w o) as [r w1]. pose proof (IH w1) as IH1.
  destruct (serve Send jobs w1) as [rs w2]. cbn [fst] in *. by rewrite !fmap_cons, IH1.
Qed.

Lemma jobs_idx sc : (jobs_of sc).*1 = seqZ 0 (Z.of_nat (length (sc_orders sc))).
Proof.
  unfold jobs_of. apply list_eq. intros i. rewrite list_lookup_fmap, list_lookup_imap.
  destruct (sc_orders sc !! i) as [o|] eqn:Ho; simpl.
  - apply lookup_lt_Some in Ho. symmetry. apply lookup_seqZ. lia.
  - apply lookup_ge_None in Ho. symmetry. apply lookup_seqZ_ge. lia.
Qed.

Lemma burst_idx w sc :
  cc_idx <$> (burst w sc).1 ≡ₚ seqZ 0 (Z.of_nat (length (sc_orders sc))).
Proof.
  destruct (burst_valid w sc) as (sigma & collected & Hs & Hb).
  pose proof (serve_idx sigma w) as Hi. destruct (serve Send sigma w) as [rs w'].
  destruct Hb as [Hc ->]. cbn [fst] in *. rewrite (fmap_Permutation cc_idx _ _ Hc).
  transitivity (sigma.*1); [by rewrite <- Hi|].
  rewrite (fmap_Permutation fst _ _ Hs). by rewrite jobs_idx.
Qed.

(** One sequential scenario. *)
Lemma runOrders_spec sc orders expected w :
  length orders = length expected →
  (∃ sr w', runOrders ctxErr Send sc orders expected w = (Ok sr, w') ∧ sr_Name sr = sc_name sc ∧
    (sr_Passed sr = true → answers orders expected w w') ∧
    (∀ w1, answers orders expected w w1 → sr_Passed sr = true ∧ w1 = w')) ∨
  ∃ w', runOrders ctxErr Send sc orders expected w = (Err CtxDone, w') ∧ ctxErr w' = true.
Proof.
  revert expected w. induction orders as [|o orders IH]; intros [|e expected] w Hl; try done; simpl.
  { left. exists (passed sc), w. split; [done|]. split; [done|]. split; [constructor|].
    intros w1 Ha. by inversion Ha. }
  destruct (ctxErr w) eqn:Hctx; [right; eauto|].
  destruct (Send w o) as [[f|err] w1] eqn:HS.
  - destruct (compareFills f e) as [m|] eqn:Hm.
    + left. eexists _, w1. split; [done|]. split; [done|]. split; [done|].
      intros w2 Ha. inversion Ha as [|? ? ? ? f' ? ? ? HS' Hag]; subst.
      rewrite HS in HS'. injection HS' as <- <-. apply compareFills_spec in Hag. congruence.
    + destruct (IH expected w1) as [(sr & w' & -> & Hn & H1 & H2)|(w' & -> & Hc)];
        [by injection Hl| |right; eauto].
      left. exists sr, w'. split; [done|]. split; [done|]. apply compareFills_spec in Hm. split.
      * intros Hp. econstructor; eauto.
      * intros w2 Ha. inversion Ha as [|? ? ? ? f' ? ? ? HS' Hag Ha']; subst.
        rewrite HS in HS'. injection HS' as <- <-. by apply H2.
  - destruct (ctxErr w1) eqn:Hctx1; [right; eauto|].
    left. eexists _, w1. split; [done|]. split; [done|]. split; [done|].
    intros w2 Ha. inversion Ha as [|? ? ? ? f' ? ? ? HS' Hag]; subst. congruence.
Qed.

Lemma runScenarios_spec scs acc b w :
  Forall scenario_wf scs →
  (∃ srs b' w', runScenarios ctxErr Send burst scs acc b w = (acc ++ srs, Ok b', w') ∧
    sr_Name <$> srs = sc_name <$> scs ∧
    (b' = true ↔ b = true ∧ Forall (λ sr, sr_Passed sr = true) srs) ∧
    (Forall (λ sr, sr_Passed sr = true) srs ↔ scenarios_pass scs w)) ∨
  ∃ srs w', runScenarios ctxErr Send burst scs acc b w = (acc ++ srs, Err CtxDone, w') ∧
    ∃ w'', ctxErr w'' = true.
Proof.
  intros Hwf. revert acc b w. induction Hwf as [|sc scs Hsc Hwf IH]; intros acc b w; cbn [runScenarios].
  { left. exists [], b, w. rewrite app_nil_r. split; [done|]. split; [done|]. split; [|done].
    split; [by split|tauto]. }
  assert (Hstep : ∀ sr w1, sr_Name sr = sc_name sc →
    (sr_Passed sr = true ∧ scenarios_pass scs w1 ↔ scenarios_pass (sc :: scs) w) →
    (∃ srs b' w', runScenarios ctxErr Send burst scs (acc ++ [sr]) (b && sr_Passed sr) w1 =
        (acc ++ srs, Ok b', w') ∧ sr_Name <$> srs = sc_name <$> sc :: scs ∧
      (b' = true ↔ b = true ∧ Forall (λ sr, sr_Passed sr = true) srs) ∧
      (Forall (λ sr, sr_Passed sr = true) srs ↔ scenarios_pass (sc :: scs) w)) ∨
    ∃ srs w', runScenarios ctxErr Send burst scs (acc ++ [sr]) (b && sr_Passed sr) w1 =
        (acc ++ srs, Err CtxDone, w') ∧ ∃ w'', ctxErr w'' = true).
  { intros sr w1 Hn Hp. destruct (IH (acc ++ [sr]) (b && sr_Passed sr) w1)
      as [(srs & b' & w' & -> & Hns & Hb & Hps)|(srs & w' & -> & Hc)].
    - left. exists (sr :: srs), b', w'. rewrite <- app_assoc. split; [done|].
      rewrite !fmap_cons, Hn, Hns. split; [done|]. rewrite Forall_cons, Hb, Hps, andb_true_iff.
      split; [tauto|done].
    - right. exists (sr :: srs), w'. by rewrite <- app_assoc. }
  destruct (sc_isConcurrent sc) eqn:Hconc.
  - unfold runConcurrentScenario. destruct (ctxErr w) eqn:Hctx.
    { right. exists [], w. rewrite app_nil_r. eauto. }
    pose proof (burst_idx w sc) as Hidx. destruct (burst w sc) as [collected w1] eqn:Hb.
    destruct (judgeBurst_spec sc collected Hsc Hidx) as (sr & Hj & Hn & Hp). rewrite Hj.
    apply Hstep; [done|]. simpl. by rewrite Hconc, Hb, Hp.
  - unfold runScenario.
    destruct (runOrders_spec sc (sc_orders sc) (sc_expected sc) w Hsc)
      as [(sr & w1 & -> & Hn & H1 & H2)|(w1 & -> & Hc)].
    + apply Hstep; [done|]. simpl. rewrite Hconc. split.
      * intros [Hp Hr]. eauto.
      * intros (w2 & Ha & Hr). destruct (H2 _ Ha) as [? ->]. done.
    + right. exists [], w1. rewrite app_nil_r. eauto.
Qed.
End runs.

(** ** The golden book as an engine *)
Definition toGolden (o : Order) : GoldenOrder :=
  mkOrder (o_ID o) (o_Kind o) (o_Side o) (o_Price o) (o_Quantity o).

Definition toFill (f : GoldenFill) : Fill :=
  mkBotFill (gf_OrderID f) (gf_ExecutedPrice f) (gf_ExecutedQty f) (gf_Accepted f).

Definition goldenEngine (g : GoldenOrderbook) (o : Order) : result string Fill * GoldenOrderbook :=
  match Apply g (toGolden o) with
  | (Ok f, g) => (Ok (toFill f), g)
  | (Err _, g) => (Err "bad order", g)
  end.

(** A limit buy that finds no ask rests. *)
Definition resting_buy (o : Order) : Prop :=
  o_ID o ≠ "" ∧ o_Kind o = KindLimit ∧ o_Side o = SideBuy ∧ 0 < o_Price o ∧ 0 < o_Quantity o.

Lemma goldenEngine_rests g o :
  sells g = [] → resting_buy o →
  ∃ g', goldenEngine g o = (Ok (mkBotFill (o_ID o) 0 0 true), g') ∧ sells g' = [].
Proof.
  intros Hs (Hid & Hk & Hside & Hp & Hq). unfold goldenEngine, Apply. simpl.
  rewrite bool_decide_eq_false_2, Hk by done. simpl. unfold applyLimit. simpl.
  destruct (Z.leb_spec (o_Quantity o) 0); [lia|]. destruct (Z.leb_spec (o_Price o) 0); [lia|].
  rewrite bool_decide_eq_true_2 by done. unfold matchSells, bumpSeq, sortSells. simpl.
  rewrite Hs. simpl. rewrite (proj2 (Z.ltb_lt _ _)) by lia.
  eexists. split; [done|]. unfold restOrder. simpl. by rewrite bool_decide_eq_true_2.
Qed.

Lemma serve_rests jobs g :
  sells g = [] → Forall (λ job, resting_buy job.2) jobs →
  (serve goldenEngine jobs g).1 =
    (λ job, mkConcurrent job.1 (Ok (mkBotFill (o_ID job.2) 0 0 true))) <$> jobs.
Proof.
  intros Hs Hjobs. revert g Hs. induction Hjobs as [|[i o] jobs Ho Hjobs IH]; intros g Hs; [done|].
  simpl. destruct (goldenEngine_rests g o Hs Ho) as (g1 & -> & Hs1).
  pose proof (IH g1 Hs1) as IH1. destruct (serve goldenEngine jobs g1). simpl in *. by rewrite IH1.
Qed.

(** What the burst expects: every order is accepted and rests. *)
Definition expects_rest (sc : scenario) : Prop :=
  Forall resting_buy (sc_orders sc) ∧
  Forall2 (λ o e, e = mkFill (o_ID o) 0 0 true) (sc_orders sc) (sc_expected sc).

Lemma golden_burst burst g sc :
  burst_ok goldenEngine burst → sells g = [] → expects_rest sc →
  burst_answers sc (burst g sc).1.
Proof.
  intros Hb Hs [Hrest Hexp] i e He. destruct (Hb g sc) as (sigma & collected & Hperm & Hserve).
  assert (Forall (λ job, resting_buy job.2) sigma) as Hjobs.
  { rewrite Hperm. unfold jobs_of. apply Forall_lookup. intros k job Hk.
    rewrite list_lookup_imap in Hk. destruct (sc_orders sc !! k) as [o|] eqn:Ho; [|done].
    injection Hk as <-. rewrite Forall_lookup in Hrest. eauto. }
  pose proof (serve_rests sigma g Hs Hjobs) as Hr. destruct (serve goldenEngine sigma g) as [rs g'].
  destruct Hserve as [Hc ->]. simpl in *. subst rs.
  destruct (Forall2_lookup_r _ _ _ _ _ Hexp He) as (o & Ho & ->).
  exists (mkBotFill (o_ID o) 0 0 true). split; [|done]. rewrite Hc, Hperm.
  apply list_elem_of_fmap. exists (Z.of_nat i, o). split; [done|].
  apply list_elem_of_lookup. exists i. unfold jobs_of. by rewrite list_lookup_imap, Ho.
Qed.

(** The sequential part, on the golden book. *)
Definition sequentialScenarios : list scenario := scenariosAxes1to6 ++ scenariosAxis7.
Definition sequentialOrders : list Order := concat (sc_orders <$> sequentialScenarios).
Definition golden_after : GoldenOrderbook :=
  (ApplyAll NewGoldenOrderbook (toGolden <$> sequentialOrders)).2.

Lemma golden_after_no_asks : sells golden_after = [].
Proof. by vm_compute. Qed.

(** The sequential scenarios pass on a new golden book. *)
Fixpoint passes_seq (scs : list scenario) (g : GoldenOrderbook) : option GoldenOrderbook :=
  match scs with
  | [] => Some g
  | sc :: scs =>
      match runOrders (λ _ : GoldenOrderbook, false) goldenEngine sc (sc_orders sc)
              (sc_expected sc) g with
      | (Ok sr, g) => if sc_isConcurrent sc || negb (sr_Passed sr) then None else passes_seq scs g
      | _ => None
      end
  end.

Lemma passes_seq_ok scs rest burst g g' :
  Forall scenario_wf scs → passes_seq scs g = Some g' →
  scenarios_pass goldenEngine burst rest g' → scenarios_pass goldenEngine burst (scs ++ rest) g.
Proof.
  intros Hwf. revert g. induction Hwf as [|sc scs Hsc Hwf IH]; intros g Hp Hrest; simpl in *.
  { by injection Hp as ->. }
  pose proof (runOrders_spec (λ _, false) goldenEngine sc (sc_orders sc) (sc_expected sc) g Hsc) as Hr.
  destruct (runOrders (λ _, false) _ _ _ _ _) as [[sr|e] g1]; [|done].
  destruct (sc_isConcurrent sc), (sr_Passed sr) eqn:Hsr; try done.
  exists g1. split; [|by apply IH].
  destruct Hr as [(sr' & w' & Heq & _ & H1 & _)|(w' & Heq & _)]; [|done].
  injection Heq as <- <-. by apply H1.
Qed.

Lemma golden_sequential : passes_seq sequentialScenarios NewGoldenOrderbook = Some golden_after.
Proof. by vm_compute. Qed.

Lemma burst_expects_rest : Forall expects_rest scenariosAxis8.
Proof. repeat constructor; done. Qed.

Lemma golden_passes burst :
  burst_ok goldenEngine burst → scenarios_pass goldenEngine burst fixedScenarios NewGoldenOrderbook.
Proof.
  intros Hb. assert (fixedScenarios = sequentialScenarios ++ scenariosAxis8) as ->
    by (unfold fixedScenarios, sequentialScenarios; by rewrite app_assoc).
  apply (passes_seq_ok _ _ _ _ golden_after); [|apply golden_sequential|].
  - pose proof fixedScenarios_wf as Hwf. unfold fixedScenarios in Hwf.
    rewrite app_assoc in Hwf. by apply Forall_app in Hwf as [? _].
  - split; [|done]. apply golden_burst; [done|apply golden_after_no_asks|].
    pose proof burst_expects_rest as He. by inversion He.
Qed.

(** ** The theorems *)
(** C4: The gate is exact: for any engine, while the context is not done, the
    run reports all twenty scenarios in order without an error, and AllPassed
    holds exactly when every answer of the engine agrees with the expected fill
    in acceptance, price and quantity, whatever the schedule of the burst. *)
Theorem gate_exact {world} (Send : world → Order → result string Fill * world) burst id now w :
  burst_ok Send burst →
  ∃ r w', Run (λ _, false) Send burst id now w = (r, None, w') ∧
    sr_Name <$> vr_Scenarios r = sc_name <$> fixedScenarios ∧
    (vr_AllPassed r = true ↔ Forall (λ sr, sr_Passed sr = true) (vr_Scenarios r)) ∧
    (vr_AllPassed r = true ↔ scenarios_pass Send burst fixedScenarios w).
Proof.
  intros Hb. unfold Run.
  destruct (runScenarios_spec (λ _, false) Send burst Hb fixedScenarios [] true w fixedScenarios_wf)
    as [(srs & b & w' & -> & Hn & Hall & Hp)|(srs & w' & _ & w'' & Hc)]; [|done].
  eexists _, w'. split; [done|]. simpl. split; [done|]. rewrite <- Hp. tauto.
Qed.

(** A schedule that serves the orders one after the other. *)
Definition in_order {world} (Send : world → Order → result string Fill * world) (w : world)
    (sc : scenario) : list concurrentResult * world :=
  serve Send (jobs_of sc) w.

Lemma in_order_ok {world} (Send : world → Order → result string Fill * world) :
  burst_ok Send (in_order Send).
Proof.
  intros w sc. unfold in_order. destruct (serve Send (jobs_of sc) w) as [rs w'] eqn:Hs.
  exists (jobs_of sc), rs. split; [done|]. by rewrite Hs.
Qed.

(** An engine that rejects everything. *)
Definition rejecting (w : unit) (o : Order) : result string Fill * unit :=
  (Ok (mkBotFill (o_ID o) 0 0 false), w).

Lemma gate_exact_witness :
  ∃ r w', Run (λ _, false) rejecting (in_order rejecting) "s" 0 () = (r, None, w') ∧
    length (vr_Scenarios r) = 20%nat ∧ vr_AllPassed r = false.
Proof.
  destruct (gate_exact rejecting (in_order rejecting) "s" 0 () (in_order_ok rejecting))
    as (r & w' & Hrun & Hn & _ & Hp).
  exists r, w'. split; [exact Hrun|]. split.
  - apply (f_equal length) in Hn. by rewrite !length_fmap in Hn.
  - destruct (vr_AllPassed r); [|done].
    destruct (proj1 Hp eq_refl) as (w1 & Ha & _). exfalso.
    inversion Ha as [|? ? ? ? f ? ? ? Hs Hag]; subst. injection Hs as <-. by destruct Hag.
Defined.

(** C7: The gate passes a correct engine: the golden order book, started
    empty, passes every scenario under every schedule of the ten concurrent
    orders and of their answers. *)
Theorem gate_passes_golden burst id now :
  burst_ok goldenEngine burst →
  ∃ r g, Run (λ _, false) goldenEngine burst id now NewGoldenOrderbook = (r, None, g) ∧
    vr_AllPassed r = true ∧ Forall (λ sr, sr_Passed sr = true) (vr_Scenarios r).
Proof.
  intros Hb. unfold Run.
  destruct (runScenarios_spec (λ _, false) goldenEngine burst Hb fixedScenarios [] true
    NewGoldenOrderbook fixedScenarios_wf) as [(srs & b & w' & -> & _ & Hall & Hp)|(srs & w' & _ & w'' & Hc)];
    [|done].
  pose proof (proj2 Hp (golden_passes burst Hb)) as Hsrs.
  eexists _, w'. split; [done|]. simpl. split; [by apply Hall|done].
Qed.

(** A schedule that serves the orders in reverse and collects the answers in
    the order in which they were made. *)
Definition in_reverse (g : GoldenOrderbook) (sc : scenario)
    : list concurrentResult * GoldenOrderbook :=
  serve goldenEngine (rev (jobs_of sc)) g.

Lemma in_reverse_ok : burst_ok goldenEngine in_reverse.
Proof.
  intros w sc. unfold in_reverse. destruct (serve goldenEngine (rev (jobs_of sc)) w) as [rs w'] eqn:Hs.
  exists (rev (jobs_of sc)), rs. split; [symmetry; apply Permutation_rev|]. by rewrite Hs.
Qed.

Lemma gate_passes_golden_witness :
  ∃ r g, Run (λ _, false) goldenEngine in_reverse "s" 0 NewGoldenOrderbook = (r, None, g) ∧
    vr_AllPassed r = true ∧ Forall (λ sr, sr_Passed sr = true) (vr_Scenarios r).
Proof. apply (gate_passes_golden in_reverse "s" 0 in_reverse_ok). Defined.

(** The gate fails closed and never panics: whatever the engine and the
    context do, a run either finishes, or stops with the context's error and
    AllPassed false. *)
Theorem gate_fails_closed {world} (ctxErr : world → bool)
    (Send : world → Order → result string Fill * world) burst id now w :
  burst_ok Send burst →
  let '(r, err, _) := Run ctxErr Send burst id now w in
  err = None ∨ err = Some CtxDone ∧ vr_AllPassed r = false ∧ ∃ w', ctxErr w' = true.
Proof.
  intros Hb. unfold Run.
  destruct (runScenarios_spec ctxErr Send burst Hb fixedScenarios [] true w fixedScenarios_wf)
    as [(srs & b & w' & -> & _)|(srs & w' & -> & Hc)]; [by left|]. by right.
Qed.

Lemma gate_fails_closed_witness :
  let '(r, err, _) := Run (λ _, true) rejecting (in_order rejecting) "s" 0 () in
  err = None ∨ err = Some CtxDone ∧ vr_AllPassed r = false ∧ ∃ w' : unit, true = true.
Proof. apply (gate_fails_closed (λ _, true) rejecting (in_order rejecting) "s" 0 ()), in_order_ok. Defined.
