(* ===== verification/Contest.v ===== *)
(** * Contest: the contest lifecycle
    ([internal/contest/defaults.go], [store.go], [service.go])

    The service is written against an interface, [ContestStore], whose laws say
    what any store promises; [MemoryContestStore] is one instance and the
    PostgreSQL store (module [Postgres]) another. UUIDs and the clock are arguments. *)

From S2P Require Import Prelude Models.

(** ** defaults.go *)
Definition DefaultLowProfile : VolatilityProfile :=
  mkProfile "low" 10 (60 * Second) ""
    (F64.lit 80 100) (F64.lit 10 100) (F64.lit 10 100) 100 10
    10000000 (F64.of_Z 5000) (F64.lit 20 100) (F64.lit 30 100) (F64.lit 50 100).

Definition DefaultMediumProfile : VolatilityProfile :=
  mkProfile "medium" 100 (120 * Second) ""
    (F64.lit 60 100) (F64.lit 30 100) (F64.lit 10 100) 500 100
    5000000 (F64.of_Z 20000) (F64.lit 35 100) (F64.lit 35 100) (F64.lit 30 100).

Definition DefaultHighProfile : VolatilityProfile :=
  mkProfile "high" 1000 (180 * Second) ""
    (F64.lit 40 100) (F64.lit 40 100) (F64.lit 20 100) 2000 1000
    1000000 (F64.of_Z 50000) (F64.lit 20 100) (F64.lit 50 100) (F64.lit 30 100).

(** ** store.go *)
Inductive cs_error :=
| ErrNotFound
| ErrDuplicateContest
| ErrNoActive
| ErrInfra (msg : string).

#[export] Instance cs_error_eq_dec : EqDecision cs_error.
Proof. solve_decision. Defined.

(** The operations of [ContestStore]. *)
Class ContestStoreOps (S : Type) : Type := {
  cs_Save : Contest → S → option cs_error * S;
  cs_Get : string → S → result cs_error Contest;
  cs_GetActive : S → result cs_error Contest;
  cs_List : S → result cs_error (list Contest);
  cs_Update : Contest → S → option cs_error * S;
  cs_SnapshotLeaderboard : string → list LeaderboardEntry → S → option cs_error * S;
  cs_GetLeaderboardSnapshot : string → S → result cs_error (list LeaderboardEntry)
}.

(** Replacing the contest with the id of [c] by what [keep] makes of both. *)
Definition replace_contest (keep : option Contest → Contest → Contest) (c : Contest)
    (cs : list Contest) : list Contest :=
  (λ c', if decide (c_ID c' = c_ID c) then keep (Some c') c else c') <$> cs.

(** What a store promises. [cs_view] is the list of its contests, in insertion
    order, in the states that its operations reach; [cs_stored] is what the store
    keeps of a contest that replaces another or is new, and [cs_archived] what it
    keeps of a snapshot: the store may round times and normalise numbers. *)
Class ContestStoreLaws (S : Type) `{ContestStoreOps S} : Type := {
  cs_ok : S → Prop;
  cs_view : S → list Contest;
  cs_stored : option Contest → Contest → Contest;
  cs_archived : list LeaderboardEntry → list LeaderboardEntry;
  cs_stored_id o c : c_ID (cs_stored o c) = c_ID c;
  cs_stored_status o c : c_Status (cs_stored o c) = c_Status c;
  cs_stored_open o c : c_SubmissionsClosedAt c = None → c_SubmissionsClosedAt (cs_stored o c) = None;
  cs_ids s : cs_ok s → NoDup (c_ID <$> cs_view s);
  cs_save_ok c s s' : cs_ok s → cs_Save c s = (None, s') →
    cs_ok s' ∧ cs_view s' = cs_view s ++ [cs_stored None c];
  cs_save_err c s s' e : cs_ok s → cs_Save c s = (Some e, s') → cs_ok s' ∧ cs_view s' = cs_view s;
  cs_get_ok id s c : cs_ok s → cs_Get id s = Ok c → c ∈ cs_view s ∧ c_ID c = id;
  cs_get_notfound id s : cs_ok s → cs_Get id s = Err ErrNotFound → id ∉ c_ID <$> cs_view s;
  cs_active_ok s c : cs_ok s → cs_GetActive s = Ok c →
    c ∈ cs_view s ∧ c_Status c = ContestStatusActive;
  cs_active_none s : cs_ok s → cs_GetActive s = Err ErrNoActive →
    ∀ c, c ∈ cs_view s → c_Status c ≠ ContestStatusActive;
  cs_list_ok s l : cs_ok s → cs_List s = Ok l → l ≡ₚ cs_view s;
  cs_update_ok c s s' : cs_ok s → cs_Update c s = (None, s') →
    cs_ok s' ∧ cs_view s' = replace_contest cs_stored c (cs_view s);
  cs_update_err c s s' e : cs_ok s → cs_Update c s = (Some e, s') →
    cs_ok s' ∧ cs_view s' = cs_view s;
  cs_snapshot_view id es s r s' : cs_ok s → cs_SnapshotLeaderboard id es s = (r, s') →
    cs_ok s' ∧ cs_view s' = cs_view s;
  cs_snapshot_get id es s s' l : cs_ok s → cs_SnapshotLeaderboard id es s = (None, s') →
    cs_GetLeaderboardSnapshot id s' = Ok l → l = cs_archived es;
  cs_snapshot_found id es s s' : cs_ok s → cs_SnapshotLeaderboard id es s = (None, s') →
    cs_GetLeaderboardSnapshot id s' ≠ Err ErrNotFound
}.

(** *** The in-memory store *)
Record MemoryContestStore := mkMemStore {
  mcs_contests : gmap string Contest;
  mcs_order : list string;
  mcs_snapshots : gmap string (list LeaderboardEntry)
}.

Definition NewMemoryContestStore : MemoryContestStore := mkMemStore ∅ [] ∅.

Definition mem_Save (c : Contest) (s : MemoryContestStore) : option cs_error * MemoryContestStore :=
  match mcs_contests s !! c_ID c with
  | Some _ => (Some ErrDuplicateContest, s)
  | None =>
      (None, mkMemStore (<[c_ID c := c]> (mcs_contests s)) (mcs_order s ++ [c_ID c]) (mcs_snapshots s))
  end.

Definition mem_Get (id : string) (s : MemoryContestStore) : result cs_error Contest :=
  match mcs_contests s !! id with Some c => Ok c | None => Err ErrNotFound end.

(** The first active contest that the range over the map meets. *)
Definition mem_GetActive `{!MapRange} (s : MemoryContestStore) : result cs_error Contest :=
  match list_find (λ kv, c_Status kv.2 = ContestStatusActive) (map_range (mcs_contests s)) with
  | Some (_, (_, c)) => Ok c
  | None => Err ErrNoActive
  end.

Definition mem_List (s : MemoryContestStore) : result cs_error (list Contest) :=
  Ok (omap (λ id, mcs_contests s !! id) (mcs_order s)).

Definition mem_Update (c : Contest) (s : MemoryContestStore)
    : option cs_error * MemoryContestStore :=
  match mcs_contests s !! c_ID c with
  | None => (Some ErrNotFound, s)
  | Some _ => (None, mkMemStore (<[c_ID c := c]> (mcs_contests s)) (mcs_order s) (mcs_snapshots s))
  end.

Definition mem_SnapshotLeaderboard (id : string) (entries : list LeaderboardEntry)
    (s : MemoryContestStore) : option cs_error * MemoryContestStore :=
  (None, mkMemStore (mcs_contests s) (mcs_order s) (<[id := entries]> (mcs_snapshots s))).

Definition mem_GetLeaderboardSnapshot (id : string) (s : MemoryContestStore)
    : result cs_error (list LeaderboardEntry) :=
  match mcs_snapshots s !! id with Some es => Ok es | None => Err ErrNotFound end.

#[export] Instance mem_ops `{!MapRange} : ContestStoreOps MemoryContestStore := {
  cs_Save := mem_Save;
  cs_Get := mem_Get;
  cs_GetActive := mem_GetActive;
  cs_List := mem_List;
  cs_Update := mem_Update;
  cs_SnapshotLeaderboard := mem_SnapshotLeaderboard;
  cs_GetLeaderboardSnapshot := mem_GetLeaderboardSnapshot
}.

(** ** service.go *)
Record LeaderboardEvent := mkEvent {
  ev_Type : string;
  ev_ContestID : string;
  ev_ContestName : string;
  ev_Entries : list LeaderboardEntry
}.

Record CreateContestRequest := mkCreate {
  cr_Name : string;
  cr_UseDefaults : bool;
  cr_LowProfile : option VolatilityProfile;
  cr_MediumProfile : option VolatilityProfile;
  cr_HighProfile : option VolatilityProfile;
  cr_LowWeight : float64;
  cr_MediumWeight : float64;
  cr_HighWeight : float64;
  cr_EndsAt : option time
}.

Inductive svc_error :=
| ErrNameRequired
| ErrProfilesRequired
| ErrAlreadyActive
| ErrWrongStatus (status : string)
| ErrStore (e : cs_error).

#[export] Instance svc_error_eq_dec : EqDecision svc_error.
Proof. solve_decision. Defined.

(** [override.F != 0] for a float, a number and a string. *)
Definition nonzero_f (x : float64) : bool := negb (F64.eqb x F64.zero).
Definition nonzero (x : Z) : bool := negb (x =? 0).
Definition nonempty (s : string) : bool := negb (bool_decide (s = "")).

Definition mergeProfile (base override : VolatilityProfile) : VolatilityProfile :=
  mkProfile
    (if nonempty (vp_Label override) then vp_Label override else vp_Label base)
    (if nonzero (vp_BotCount override) then vp_BotCount override else vp_BotCount base)
    (if nonzero (vp_TestDuration override) then vp_TestDuration override else vp_TestDuration base)
    (if nonempty (vp_MarketDataPath override) then vp_MarketDataPath override
     else vp_MarketDataPath base)
    (if nonzero_f (vp_LimitRatio override) then vp_LimitRatio override else vp_LimitRatio base)
    (if nonzero_f (vp_MarketRatio override) then vp_MarketRatio override else vp_MarketRatio base)
    (if nonzero_f (vp_CancelRatio override) then vp_CancelRatio override else vp_CancelRatio base)
    (if nonzero (vp_PriceSpreadCents override) then vp_PriceSpreadCents override
     else vp_PriceSpreadCents base)
    (if nonzero (vp_MaxQuantity override) then vp_MaxQuantity override else vp_MaxQuantity base)
    (if nonzero (vp_TargetP99Ns override) then vp_TargetP99Ns override else vp_TargetP99Ns base)
    (if nonzero_f (vp_TargetSustainTPS override) then vp_TargetSustainTPS override
     else vp_TargetSustainTPS base)
    (if nonzero_f (vp_LatencyWeight override) then vp_LatencyWeight override
     else vp_LatencyWeight base)
    (if nonzero_f (vp_ThroughputWeight override) then vp_ThroughputWeight override
     else vp_ThroughputWeight base)
    (if nonzero_f (vp_CorrectnessWeight override) then vp_CorrectnessWeight override
     else vp_CorrectnessWeight base).

Definition mergeOpt (base : VolatilityProfile) (o : option VolatilityProfile) : VolatilityProfile :=
  match o with Some p => mergeProfile base p | None => base end.

Definition set_Rank (n : Z) (e : LeaderboardEntry) : LeaderboardEntry :=
  mkEntry n (le_SubmissionID e) (le_TeamName e) (le_Language e) (le_Protocol e) (le_Status e)
    (le_CompositeScore e) (le_LowScore e) (le_MediumScore e) (le_HighScore e) (le_FinalScore e)
    (le_BestP99Ms e) (le_PeakSustainedTPS e) (le_AvgCorrectness e) (le_P99LatencyMs e)
    (le_MaxTPS e) (le_CorrectnessScore e) (le_CompletedAt e).

(** [c.Status = status; c.ContestClosedAt = closed; c.UpdatedAt = now] *)
Definition set_contest (status : string) (closed : option time) (now : time) (c : Contest) : Contest :=
  mkContest (c_ID c) (c_Name c) status (c_LowProfile c) (c_MediumProfile c) (c_HighProfile c)
    (c_LowWeight c) (c_MediumWeight c) (c_HighWeight c) (c_SubmissionsClosedAt c) closed
    (c_EndsAt c) (c_CreatedAt c) now.

Section service.
Context {S : Type} `{!ContestStoreOps S, !SortSlice}.

Definition rankEntries (entries : list LeaderboardEntry) : list LeaderboardEntry :=
  imap (λ i e, set_Rank (Z.of_nat i + 1) e)
    (sort_slice (λ a b, F64.gtb (le_FinalScore a) (le_FinalScore b)) entries).

Definition Create (uuid : string) (now : time) (req : CreateContestRequest) (s : S)
    : result svc_error Contest * S :=
  if bool_decide (cr_Name req = "") then (Err ErrNameRequired, s)
  else if negb (cr_UseDefaults req) &&
    (bool_decide (cr_LowProfile req = None) || bool_decide (cr_MediumProfile req = None) ||
     bool_decide (cr_HighProfile req = None))
  then (Err ErrProfilesRequired, s)
  else
    let unset := F64.eqb (cr_LowWeight req) F64.zero && F64.eqb (cr_MediumWeight req) F64.zero &&
                 F64.eqb (cr_HighWeight req) F64.zero in
    let c := mkContest uuid (cr_Name req) ContestStatusDraft
      (mergeOpt DefaultLowProfile (cr_LowProfile req))
      (mergeOpt DefaultMediumProfile (cr_MediumProfile req))
      (mergeOpt DefaultHighProfile (cr_HighProfile req))
      (if unset then F64.lit 20 100 else cr_LowWeight req)
      (if unset then F64.lit 35 100 else cr_MediumWeight req)
      (if unset then F64.lit 45 100 else cr_HighWeight req)
      None None (cr_EndsAt req) now now in
    match cs_Save c s with
    | (Some e, s) => (Err (ErrStore e), s)
    | (None, s) => (Ok c, s)
    end.

(** [Activate] in its two halves, which do not share a lock: the check that no
    contest is active, and the transition. *)
Definition activateGuard (s : S) : option svc_error :=
  match cs_GetActive s with
  | Ok _ => Some ErrAlreadyActive
  | Err e => if decide (e = ErrNoActive) then None else Some (ErrStore e)
  end.

Definition activateCommit (now : time) (id : string) (s : S) : result svc_error Contest * S :=
  match cs_Get id s with
  | Err e => (Err (ErrStore e), s)
  | Ok c =>
      if negb (bool_decide (c_Status c = ContestStatusDraft)) then (Err (ErrWrongStatus (c_Status c)), s)
      else
        let c := set_contest ContestStatusActive (c_ContestClosedAt c) now c in
        match cs_Update c s with
        | (Some e, s) => (Err (ErrStore e), s)
        | (None, s) => (Ok c, s)
        end
  end.

Definition Activate (now : time) (id : string) (s : S) : result svc_error Contest * S :=
  match activateGuard s with
  | Some e => (Err e, s)
  | None => activateCommit now id s
  end.

(** [Close], with the events it broadcasts. *)
Definition Close (now : time) (id : string) (entries : list LeaderboardEntry) (s : S)
    : option svc_error * list LeaderboardEvent * S :=
  match cs_Get id s with
  | Err e => (Some (ErrStore e), [], s)
  | Ok c =>
      if bool_decide (c_Status c = ContestStatusClosed) then (None, [], s)
      else if bool_decide (c_Status c = ContestStatusDraft)
      then (Some (ErrWrongStatus (c_Status c)), [], s)
      else
        let c := set_contest ContestStatusClosed (Some now) now c in
        match cs_Update c s with
        | (Some e, s) => (Some (ErrStore e), [], s)
        | (None, s) =>
            let ranked := rankEntries entries in
            let '(_, s) := cs_SnapshotLeaderboard id ranked s in
            (None, [mkEvent "frozen" id (c_Name c) ranked], s)
        end
  end.

Definition ListPast (s : S) : result cs_error (list Contest) :=
  let! all := cs_List s in
  Ok (filter (λ c, c_Status c = ContestStatusClosed) all).
End service.
