(* ===== verification/ContestTheorems.v ===== *)
(** * ContestTheorems: the contest lifecycle is sound

    The in-memory store keeps the promises of the interface; over any store that
    does, the service keeps at most one contest active and moves contests
    forward only. The two halves of [Activate] do not share a lock: interleaved,
    they break the invariant. *)

From S2P Require Import Prelude Models Botfleet Contest.

(** ** The in-memory store keeps the laws *)
Record mem_ok (s : MemoryContestStore) : Prop := {
  mo_nodup : NoDup (mcs_order s);
  mo_order id : id ∈ mcs_order s ↔ is_Some (mcs_contests s !! id);
  mo_ids id c : mcs_contests s !! id = Some c → c_ID c = id
}.

Definition mem_view (s : MemoryContestStore) : list Contest :=
  omap (λ id, mcs_contests s !! id) (mcs_order s).

Lemma mem_view_ids s : mem_ok s → c_ID <$> mem_view s = mcs_order s.
Proof.
  intros [_ Ho Hi]. unfold mem_view.
  assert (∀ l : list string, (∀ id, id ∈ l → is_Some (mcs_contests s !! id)) →
    c_ID <$> omap (λ id, mcs_contests s !! id) l = l) as Hl.
  { induction l as [|id l IH]; intros Hin; [done|]. simpl.
    destruct (Hin id) as [c Hc]; [by left|]. rewrite Hc. simpl. rewrite (Hi _ _ Hc). f_equal.
    apply IH. intros id' ?. apply Hin. by right. }
  apply Hl. intros id. apply Ho.
Qed.

Lemma elem_of_mem_view s c : mem_ok s → c ∈ mem_view s ↔ mcs_contests s !! c_ID c = Some c.
Proof.
  intros [_ Ho Hi]. unfold mem_view. rewrite list_elem_of_omap. split.
  - intros (id & _ & Hc). by rewrite (Hi _ _ Hc).
  - intros Hc. exists (c_ID c). split; [|done]. apply Ho. eauto.
Qed.

Lemma mem_insert_ok s c :
  mem_ok s → is_Some (mcs_contests s !! c_ID c) →
  mem_ok (mkMemStore (<[c_ID c := c]> (mcs_contests s)) (mcs_order s) (mcs_snapshots s)).
Proof.
  intros [Hn Ho Hi] Hc. split; simpl; [done| |].
  - intros id. rewrite Ho, lookup_insert. case_decide as He; [|done]. rewrite <- He. split; eauto.
  - intros id c'. rewrite lookup_insert. case_decide as He; [intros [= <-]; done|apply Hi].
Qed.

Lemma omap_cons_Some {A B} (f : A → option B) x y l : f x = Some y → omap f (x :: l) = y :: omap f l.
Proof. intros Hf. simpl. by rewrite Hf. Qed.

Lemma mem_update_view s c :
  mem_ok s →
  omap (λ id, <[c_ID c := c]> (mcs_contests s) !! id) (mcs_order s) =
  replace_contest (λ _ c, c) c (mem_view s).
Proof.
  intros [_ Ho Hi]. unfold mem_view, replace_contest.
  assert (∀ l : list string, (∀ id, id ∈ l → is_Some (mcs_contests s !! id)) →
    omap (λ id, <[c_ID c := c]> (mcs_contests s) !! id) l =
    (λ c', if decide (c_ID c' = c_ID c) then c else c') <$>
      omap (λ id, mcs_contests s !! id) l) as Hl.
  { induction l as [|id l IH]; intros Hin; [done|].
    destruct (Hin id) as [c' Hc']; [by left|]. pose proof (Hi _ _ Hc') as Hid.
    rewrite (omap_cons_Some (λ id, mcs_contests s !! id) id c'), fmap_cons by done.
    rewrite (omap_cons_Some _ id (if decide (c_ID c' = c_ID c) then c else c')).
    - f_equal. apply IH. intros ??. apply Hin. by right.
    - rewrite lookup_insert. destruct (decide (c_ID c = id)), (decide (c_ID c' = c_ID c)); congruence. }
  apply Hl. intros id. apply Ho.
Qed.

#[export] Program Instance mem_laws `{!MapRange} : ContestStoreLaws MemoryContestStore := {
  cs_ok := mem_ok;
  cs_view := mem_view;
  cs_stored := λ _ c, c;
  cs_archived := id
}.
Next Obligation. done. Qed.
Next Obligation. done. Qed.
Next Obligation. done. Qed.
Next Obligation. intros ? s Hok. rewrite mem_view_ids by done. apply (mo_nodup _ Hok). Qed.
Next Obligation.
  intros ? c s s' Hok. simpl. unfold mem_Save.
  destruct (mcs_contests s !! c_ID c) as [c0|] eqn:Hc; [done|]. intros [= <-].
  assert (c_ID c ∉ mcs_order s) as Hni by (rewrite (mo_order _ Hok), Hc; by intros [? ?]).
  split.
  - destruct Hok as [Hn Ho Hi]. split; simpl.
    + apply NoDup_app. split; [done|]. split; [|apply NoDup_singleton].
      by intros id Hid ->%list_elem_of_singleton.
    + intros id. rewrite elem_of_app, Ho, list_elem_of_singleton, lookup_insert.
      case_decide as He; [split; eauto|]. split; [intros [?|?]; [done|congruence]|tauto].
    + intros id c'. rewrite lookup_insert. case_decide as He; [intros [= <-]; done|apply Hi].
  - unfold mem_view. simpl. rewrite omap_app. simpl. rewrite lookup_insert_eq. f_equal.
    apply list_omap_ext, Forall_Forall2_diag, Forall_forall. intros id Hid.
    rewrite lookup_insert_ne; [done|]. intros He. by rewrite <- He in Hid.
Qed.
Next Obligation.
  intros ? c s s' e Hok. simpl. unfold mem_Save. destruct (mcs_contests s !! c_ID c); [|done].
  by intros [= _ <-].
Qed.
Next Obligation.
  intros ? id s c Hok. simpl. unfold mem_Get. destruct (mcs_contests s !! id) as [c'|] eqn:Hc; [|done].
  intros [= ->]. pose proof (mo_ids _ Hok _ _ Hc) as Hid. split; [|done].
  apply elem_of_mem_view; [done|]. by rewrite Hid.
Qed.
Next Obligation.
  intros ? id s Hok. simpl. unfold mem_Get. destruct (mcs_contests s !! id) as [c'|] eqn:Hc; [done|].
  intros _. rewrite mem_view_ids, (mo_order _ Hok), Hc by done. by intros [? ?].
Qed.
Next Obligation.
  intros ? s c Hok. simpl. unfold mem_GetActive.
  destruct (list_find _ _) as [[i [k c']]|] eqn:Hf; [|done]. intros [= ->].
  apply list_find_Some in Hf as (Hl & Ha & _). split; [|done].
  apply list_elem_of_lookup_2, elem_of_map_range in Hl. apply elem_of_mem_view; [done|].
  by rewrite (mo_ids _ Hok _ _ Hl).
Qed.
Next Obligation.
  intros ? s Hok. simpl. unfold mem_GetActive.
  destruct (list_find _ _) as [[i [k c']]|] eqn:Hf; [done|]. intros _ c Hc Ha.
  apply list_find_None in Hf. rewrite Forall_forall in Hf. apply (Hf (c_ID c, c)); [|done].
  apply elem_of_map_range. by apply elem_of_mem_view.
Qed.
Next Obligation. intros ? s l Hok. simpl. unfold mem_List. intros [= <-]. done. Qed.
Next Obligation.
  intros ? c s s' Hok. simpl. unfold mem_Update.
  destruct (mcs_contests s !! c_ID c) as [c0|] eqn:Hc; [|done]. intros [= <-].
  split; [apply mem_insert_ok; eauto|]. unfold mem_view at 1. simpl. by apply mem_update_view.
Qed.
Next Obligation.
  intros ? c s s' e Hok. simpl. unfold mem_Update. destruct (mcs_contests s !! c_ID c); [done|].
  by intros [= _ <-].
Qed.
Next Obligation.
  intros ? id es s r s' [Hn Ho Hi]. simpl. unfold mem_SnapshotLeaderboard. intros [= _ <-]. by split.
Qed.
Next Obligation.
  intros ? id es s s' l Hok. simpl. unfold mem_SnapshotLeaderboard, mem_GetLeaderboardSnapshot.
  intros [= <-]. simpl. rewrite lookup_insert_eq. by intros [= <-].
Qed.
Next Obligation.
  intros ? id es s s' Hok. simpl. unfold mem_SnapshotLeaderboard, mem_GetLeaderboardSnapshot.
  intros [= <-]. simpl. by rewrite lookup_insert_eq.
Qed.

(** ** The lifecycle *)
(** The transitions a contest may make in one step. *)
Inductive status_step : string → string → Prop :=
| st_stay s : status_step s s
| st_activate : status_step ContestStatusDraft ContestStatusActive
| st_close : status_step ContestStatusActive ContestStatusClosed.

Definition valid_status (c : Contest) : Prop :=
  c_Status c = ContestStatusDraft ∨ c_Status c = ContestStatusActive ∨
  c_Status c = ContestStatusClosed.

(** Two active contests are the same contest. *)
Definition single_active (cs : list Contest) : Prop :=
  ∀ c c', c ∈ cs → c' ∈ cs → c_Status c = ContestStatusActive → c_Status c' = ContestStatusActive →
  c_ID c = c_ID c'.

(** No contest is lost, and each makes at most one transition. *)
Definition evolves (cs cs' : list Contest) : Prop :=
  ∀ c, c ∈ cs → ∃ c', c' ∈ cs' ∧ c_ID c' = c_ID c ∧ status_step (c_Status c) (c_Status c') ∧
    (c_Status c = ContestStatusClosed → c' = c).

Lemma evolves_refl cs : evolves cs cs.
Proof. intros c Hc. exists c. split; [done|]. split; [done|]. split; [constructor|done]. Qed.

(** Replacing one contest by its successor. *)
Lemma replace_evolves keep cs c0 c1 :
  (∀ o c, c_ID (keep o c) = c_ID c) → (∀ o c, c_Status (keep o c) = c_Status c) →
  NoDup (c_ID <$> cs) → c0 ∈ cs → c_ID c1 = c_ID c0 → status_step (c_Status c0) (c_Status c1) →
  c_Status c0 ≠ ContestStatusClosed → evolves cs (replace_contest keep c1 cs).
Proof.
  intros Hki Hks Hnd Hc0 Hid Hst Hncl c Hc.
  exists (if decide (c_ID c = c_ID c1) then keep (Some c) c1 else c).
  split; [apply list_elem_of_fmap; eauto|]. case_decide as He.
  - assert (c = c0) as ->.
    { eapply (NoDup_image_inj c_ID cs); [done|done|done|congruence]. }
    rewrite Hki, Hks. split; [done|]. split; [done|]. intros ?. done.
  - split; [done|]. split; [constructor|done].
Qed.

Section lifecycle.
Context {S : Type} `{!ContestStoreOps S, !ContestStoreLaws S, !SortSlice}.

Record contest_inv (s : S) : Prop := {
  ci_ok : cs_ok s;
  ci_valid : Forall valid_status (cs_view s);
  ci_single : single_active (cs_view s)
}.

(** A call of the service. *)
Inductive svc_op :=
| OpCreate (uuid : string) (now : time) (req : CreateContestRequest)
| OpActivate (now : time) (id : string)
| OpClose (now : time) (id : string) (entries : list LeaderboardEntry).

Definition run_op (op : svc_op) (s : S) : S :=
  match op with
  | OpCreate uuid now req => (Create uuid now req s).2
  | OpActivate now id => (Activate now id s).2
  | OpClose now id entries => (Close now id entries s).2
  end.

(** What every operation keeps. *)
Definition keeps_inv (s s' : S) : Prop := contest_inv s' ∧ evolves (cs_view s) (cs_view s').

Lemma same_view_keeps s s' : contest_inv s → cs_ok s' → cs_view s' = cs_view s → keeps_inv s s'.
Proof.
  intros [Hok Hv Hs] Hok' He. split; [split; [done|by rewrite He|by rewrite He]|].
  rewrite He. apply evolves_refl.
Qed.

Lemma replace_elem (c1 : Contest) cs x :
  x ∈ replace_contest cs_stored c1 cs →
  (c_ID x = c_ID c1 ∧ c_Status x = c_Status c1) ∨ x ∈ cs ∧ c_ID x ≠ c_ID c1.
Proof.
  unfold replace_contest. intros (y & -> & Hy)%list_elem_of_fmap.
  case_decide; [left; by rewrite cs_stored_id, cs_stored_status|by right].
Qed.

Lemma valid_status_eq (c c' : Contest) : c_Status c' = c_Status c → valid_status c → valid_status c'.
Proof. unfold valid_status. by intros ->. Qed.

(** Updating [c0] to [c1], which may become active only when no contest is. *)
Lemma update_keeps s s' c0 c1 :
  contest_inv s → c0 ∈ cs_view s → cs_Update c1 s = (None, s') →
  c_ID c1 = c_ID c0 → status_step (c_Status c0) (c_Status c1) →
  c_Status c0 ≠ ContestStatusClosed → valid_status c1 →
  (c_Status c1 = ContestStatusActive → ∀ c, c ∈ cs_view s → c_Status c ≠ ContestStatusActive) →
  keeps_inv s s'.
Proof.
  intros [Hok Hv Hs] Hc0 Hup Hid Hst Hncl Hv1 Hact.
  destruct (cs_update_ok _ _ _ Hok Hup) as [Hok' Hview]. split.
  - split; [done| |]; rewrite Hview.
    + apply Forall_forall. rewrite Forall_forall in Hv.
      intros x [[_ Hx]|[Hx _]]%replace_elem; [by eapply valid_status_eq|by apply Hv].
    + intros x y [[Hxi Hx]|[Hx Hxi]]%replace_elem [[Hyi Hy]|[Hy Hyi]]%replace_elem Hax Hay;
        [congruence|rewrite Hx in Hax; by destruct (Hact Hax y Hy)
        |rewrite Hy in Hay; by destruct (Hact Hay x Hx)|by apply Hs].
  - rewrite Hview. apply (replace_evolves _ _ c0);
      [apply cs_stored_id|apply cs_stored_status|by apply cs_ids|done..].
Qed.

Lemma Create_keeps uuid now req s : contest_inv s → keeps_inv s (Create uuid now req s).2.
Proof.
  intros Hinv. assert (keeps_inv s s) as Hrefl by (apply same_view_keeps; [done|apply Hinv|done]).
  unfold Create. case_bool_decide; [done|]. case_match; [done|].
  destruct (cs_Save _ s) as [[e|] s'] eqn:Hsave; simpl.
  - destruct (cs_save_err _ _ _ _ (ci_ok _ Hinv) Hsave). by apply same_view_keeps.
  - destruct (cs_save_ok _ _ _ (ci_ok _ Hinv) Hsave) as [Hok' Hview].
    destruct Hinv as [Hok Hv Hs]. split.
    + split; [done| |]; rewrite Hview.
      * apply Forall_app. split; [done|]. constructor; [|constructor].
        left. by rewrite cs_stored_status.
      * intros x y [Hx|Hx]%elem_of_app [Hy|Hy]%elem_of_app Hax Hay; [by apply Hs|..];
          try (apply list_elem_of_singleton in Hx as ->; by rewrite cs_stored_status in Hax);
          try (apply list_elem_of_singleton in Hy as ->; by rewrite cs_stored_status in Hay).
    + rewrite Hview. intros c Hc. exists c. split; [apply elem_of_app; by left|].
      split; [done|]. split; [constructor|done].
Qed.

Lemma activateGuard_None s :
  cs_ok s → activateGuard s = None → ∀ c, c ∈ cs_view s → c_Status c ≠ ContestStatusActive.
Proof.
  intros Hok. unfold activateGuard. destruct (cs_GetActive s) as [?|e] eqn:Hg; [done|].
  case_decide; [subst|done]. intros _. by apply cs_active_none.
Qed.

Lemma Activate_keeps now id s : contest_inv s → keeps_inv s (Activate now id s).2.
Proof.
  intros Hinv. assert (keeps_inv s s) as Hrefl by (apply same_view_keeps; [done|apply Hinv|done]).
  unfold Activate. destruct (activateGuard s) eqn:Hg; [done|].
  pose proof (activateGuard_None s (ci_ok _ Hinv) Hg) as Hnone.
  unfold activateCommit. destruct (cs_Get id s) as [c|e] eqn:Hget; [|done].
  destruct (cs_get_ok _ _ _ (ci_ok _ Hinv) Hget) as [Hc Hid].
  case_bool_decide as Hd; [|done]. simpl.
  destruct (cs_Update _ s) as [[e|] s'] eqn:Hup; simpl.
  - destruct (cs_update_err _ _ _ _ (ci_ok _ Hinv) Hup). by apply same_view_keeps.
  - apply (update_keeps s s' c _ Hinv Hc Hup); simpl; [done|rewrite Hd; constructor|by rewrite Hd| |done].
    right. by left.
Qed.

Lemma Close_keeps now id entries s : contest_inv s → keeps_inv s (Close now id entries s).2.
Proof.
  intros Hinv. assert (keeps_inv s s) as Hrefl by (apply same_view_keeps; [done|apply Hinv|done]).
  unfold Close. destruct (cs_Get id s) as [c|e] eqn:Hget; [|done].
  destruct (cs_get_ok _ _ _ (ci_ok _ Hinv) Hget) as [Hc Hid].
  case_bool_decide as Hcl; [done|]. case_bool_decide as Hd; [done|].
  assert (c_Status c = ContestStatusActive) as Ha.
  { pose proof (ci_valid _ Hinv) as Hv. rewrite Forall_forall in Hv.
    destruct (Hv c Hc) as [?|[?|?]]; done. }
  destruct (cs_Update _ s) as [[e|] s'] eqn:Hup; simpl.
  - destruct (cs_update_err _ _ _ _ (ci_ok _ Hinv) Hup). by apply same_view_keeps.
  - assert (keeps_inv s s') as [Hinv' Hev].
    { apply (update_keeps s s' c _ Hinv Hc Hup); simpl; [done|rewrite Ha; constructor|done| |done].
      right. by right. }
    destruct (cs_SnapshotLeaderboard _ _ s') as [r s''] eqn:Hsn. simpl.
    destruct (cs_snapshot_view _ _ _ _ _ (ci_ok _ Hinv') Hsn) as [Hok'' Hview''].
    destruct (same_view_keeps s' s'' Hinv' Hok'' Hview'') as [Hi _].
    split; [done|]. by rewrite Hview''.
Qed.

Lemma run_op_keeps op s : contest_inv s → keeps_inv s (run_op op s).
Proof. destruct op; [apply Create_keeps|apply Activate_keeps|apply Close_keeps]. Qed.

Lemma run_ops_inv ops s : contest_inv s → contest_inv (fold_left (λ s op, run_op op s) ops s).
Proof.
  revert s. induction ops as [|op ops IH]; intros s Hinv; [done|]. apply IH. by apply run_op_keeps.
Qed.
End lifecycle.

Lemma new_mem_inv `{!MapRange} : contest_inv NewMemoryContestStore.
Proof.
  split; [|constructor|by intros ??[]%not_elem_of_nil].
  split; simpl; [constructor| |done]. intros id. split; [by intros []%not_elem_of_nil|by intros [? ?]].
Qed.

(** ** Ranking *)
Lemma rankEntries_spec `{!SortSlice} entries :
  Forall (λ e, le_FinalScore e ≠ S754_nan) entries →
  ∃ sorted, sorted ≡ₚ entries ∧ rankEntries entries = imap (λ i e, set_Rank (Z.of_nat i + 1) e) sorted ∧
    StronglySorted (λ a b, F64.gtb (le_FinalScore b) (le_FinalScore a) = false) sorted.
Proof.
  intros Hn. exists (sort_slice (λ a b, F64.gtb (le_FinalScore a) (le_FinalScore b)) entries).
  split; [apply sort_slice_perm|]. split; [done|].
  apply (sort_slice_sorted_on (λ a b, F64.gtb (le_FinalScore a) (le_FinalScore b))).
  by apply (F64_gtb_swo_on le_FinalScore).
Qed.

(** ** The theorems *)
(** C11: The lifecycle is sound over any store that keeps its promises: however
    the calls of Create, Activate and Close follow each other, at most one
    contest is active, every contest is draft, active or closed, and a call
    loses no contest, moves it at most one step forward along draft, active,
    closed, and never touches a closed one. *)
Theorem contest_lifecycle {S} `{!ContestStoreOps S, !ContestStoreLaws S, !SortSlice} ops op (s : S) :
  contest_inv s →
  let s1 := fold_left (λ s op, run_op op s) ops s in
  single_active (cs_view s1) ∧ Forall valid_status (cs_view s1) ∧ NoDup (c_ID <$> cs_view s1) ∧
  evolves (cs_view s1) (cs_view (run_op op s1)).
Proof.
  intros Hinv s1. pose proof (run_ops_inv ops s Hinv) as Hinv1. fold s1 in Hinv1.
  destruct (run_op_keeps op s1 Hinv1) as [_ Hev]. destruct Hinv1 as [Hok Hv Hs].
  split_and!; try done. by apply cs_ids.
Qed.

Definition default_request (name : string) : CreateContestRequest :=
  mkCreate name true None None None F64.zero F64.zero F64.zero None.
Definition sample_ops : list svc_op :=
  [OpCreate "c1" 1 (default_request "first"); OpCreate "c2" 2 (default_request "second");
   OpActivate 3 "c1"; OpActivate 4 "c2"; OpClose 5 "c1" []; OpActivate 6 "c2"].

Definition sample_store : MemoryContestStore :=
  fold_left (λ s op, run_op op s) sample_ops NewMemoryContestStore.

Lemma contest_lifecycle_witness :
  single_active (mem_view sample_store) ∧
  c_Status <$> mem_view sample_store = [ContestStatusClosed; ContestStatusActive].
Proof.
  split; [|by vm_compute].
  apply (contest_lifecycle sample_ops (OpActivate 7 "c1") NewMemoryContestStore new_mem_inv).
Defined.

(** What a successful close of an active contest does. *)
Lemma close_spec {S} `{!ContestStoreOps S, !ContestStoreLaws S, !SortSlice}
    now now' id entries entries' (s s' : S) evs c :
  contest_inv s → cs_Get id s = Ok c → c_Status c = ContestStatusActive →
  Close now id entries s = (None, evs, s') →
  evs = [mkEvent "frozen" id (c_Name c) (rankEntries entries)] ∧
  cs_stored (Some c) (set_contest ContestStatusClosed (Some now) now c) ∈ cs_view s' ∧
  ((∀ l, cs_GetLeaderboardSnapshot id s' = Ok l → l = cs_archived (rankEntries entries)) ∧
     cs_GetLeaderboardSnapshot id s' ≠ Err ErrNotFound ∨
   ∃ e s1, cs_SnapshotLeaderboard id (rankEntries entries) s1 = (Some e, s')) ∧
  (∀ c', cs_Get id s' = Ok c' → Close now' id entries' s' = (None, [], s')).
Proof.
  intros Hinv Hget Ha Hclose.
  destruct (cs_get_ok _ _ _ (ci_ok _ Hinv) Hget) as [Hc Hid].
  pose proof (Close_keeps now id entries s Hinv) as [Hinv' _].
  rewrite Hclose in Hinv'. simpl in Hinv'.
  unfold Close in Hclose. rewrite Hget in Hclose.
  rewrite bool_decide_eq_false_2 in Hclose by (by rewrite Ha).
  rewrite bool_decide_eq_false_2 in Hclose by (by rewrite Ha).
  set (c1 := set_contest ContestStatusClosed (Some now) now c) in *.
  destruct (cs_Update c1 s) as [[e|] s1] eqn:Hup; [done|].
  destruct (cs_SnapshotLeaderboard id (rankEntries entries) s1) as [r s2] eqn:Hsn.
  injection Hclose as <- <-. split; [done|].
  destruct (cs_update_ok _ _ _ (ci_ok _ Hinv) Hup) as [Hok1 Hview1].
  destruct (cs_snapshot_view _ _ _ _ _ Hok1 Hsn) as [Hok2 Hview2].
  assert (cs_stored (Some c) c1 ∈ cs_view s2) as Hc1.
  { rewrite Hview2, Hview1. unfold replace_contest. apply list_elem_of_fmap. exists c.
    split; [|done]. by rewrite decide_True. }
  split; [done|]. split.
  { destruct r as [e|]; [right; by exists e, s1|left]. split.
    - intros l. by apply (cs_snapshot_get id _ s1 s2).
    - by apply (cs_snapshot_found id (rankEntries entries) s1 s2). }
  intros c' Hget'.
  destruct (cs_get_ok _ _ _ Hok2 Hget') as [Hc' Hid'].
  assert (c' = cs_stored (Some c) c1) as ->.
  { eapply (NoDup_image_inj c_ID); [by apply (cs_ids s2)|done|done|]. by rewrite Hid', cs_stored_id. }
  unfold Close. rewrite Hget'. by rewrite bool_decide_eq_true_2 by (by rewrite cs_stored_status).
Qed.

(** Closing is idempotent: a successful close of an active contest ends in
    the closed state with the ranked entries as its snapshot, as far as the store
    can be read and unless it refused the snapshot, and broadcasts exactly one frozen event; from then on
    any Close of that contest changes nothing and broadcasts nothing. *)
Theorem contest_close {S} `{!ContestStoreOps S, !ContestStoreLaws S, !SortSlice}
    now now' id entries entries' (s s' : S) evs c :
  contest_inv s → cs_Get id s = Ok c → c_Status c = ContestStatusActive →
  Close now id entries s = (None, evs, s') →
  evs = [mkEvent "frozen" id (c_Name c) (rankEntries entries)] ∧
  cs_stored (Some c) (set_contest ContestStatusClosed (Some now) now c) ∈ cs_view s' ∧
  ((∀ l, cs_GetLeaderboardSnapshot id s' = Ok l → l = cs_archived (rankEntries entries)) ∧
     cs_GetLeaderboardSnapshot id s' ≠ Err ErrNotFound ∨
   ∃ e s1, cs_SnapshotLeaderboard id (rankEntries entries) s1 = (Some e, s')) ∧
  (∀ c', cs_Get id s' = Ok c' → Close now' id entries' s' = (None, [], s')).
Proof. apply close_spec. Qed.

Definition active_store : MemoryContestStore :=
  fold_left (λ s op, run_op op s)
    [OpCreate "c1" 1 (default_request "first"); OpActivate 3 "c1"] NewMemoryContestStore.

Lemma contest_close_witness :
  ∃ evs s', Close 5 "c1" [] active_store = (None, evs, s') ∧ length evs = 1%nat ∧
    Close 6 "c1" [] s' = (None, [], s').
Proof.
  destruct (Close 5 "c1" [] active_store) as [[[e|] evs] s'] eqn:Hc; [by vm_compute in Hc|].
  destruct (cs_Get "c1" active_store) as [c|e] eqn:Hg; [|by vm_compute in Hg].
  assert (contest_inv active_store) as Hinv by apply run_ops_inv, new_mem_inv.
  assert (c_Status c = ContestStatusActive) as Ha by (vm_compute in Hg; by injection Hg as <-).
  assert (∃ c', cs_Get "c1" s' = Ok c') as [c' Hg'].
  { vm_compute in Hc. injection Hc as _ <-. eexists. by vm_compute. }
  destruct (contest_close 5 6 "c1" [] [] active_store s' evs c Hinv Hg Ha Hc) as (He & _ & _ & Hcl).
  exists evs, s'. split; [done|]. split; [by rewrite He|]. exact (Hcl c' Hg').
Defined.

(** Ranking: the ranked list has the same entries apart from their rank,
    numbered from 1, and unless a score is NaN a better final score never has a
    worse rank. *)
Theorem rank_entries `{!SortSlice} entries :
  (set_Rank 0 <$> rankEntries entries) ≡ₚ (set_Rank 0 <$> entries) ∧
  le_Rank <$> rankEntries entries = seqZ 1 (Z.of_nat (length entries)) ∧
  (Forall (λ e, le_FinalScore e ≠ S754_nan) entries →
    ∀ a b, a ∈ rankEntries entries → b ∈ rankEntries entries →
      F64.gtb (le_FinalScore a) (le_FinalScore b) = true → le_Rank a < le_Rank b).
Proof.
  set (sorted := sort_slice (λ a b, F64.gtb (le_FinalScore a) (le_FinalScore b)) entries).
  assert (sorted ≡ₚ entries) as Hp by apply sort_slice_perm.
  assert (rankEntries entries = imap (λ i e, set_Rank (Z.of_nat i + 1) e) sorted) as -> by done.
  split_and!.
  - rewrite <- Hp.
    assert (set_Rank 0 <$> imap (λ i e, set_Rank (Z.of_nat i + 1) e) sorted = set_Rank 0 <$> sorted)
      as ->; [|done].
    apply list_eq. intros i. rewrite !list_lookup_fmap, list_lookup_imap. by destruct (sorted !! i).
  - rewrite <- Hp. apply list_eq. intros i. rewrite list_lookup_fmap, list_lookup_imap.
    destruct (sorted !! i) as [e|] eqn:He; simpl.
    + symmetry. apply lookup_lt_Some in He. apply lookup_seqZ. lia.
    + symmetry. apply lookup_ge_None in He. apply lookup_seqZ_ge. lia.
  - intros Hn a b Ha Hb Hgt. destruct (rankEntries_spec entries Hn) as (sorted' & _ & Heq & Hs).
    apply list_elem_of_lookup in Ha as [i Hi], Hb as [j Hj].
    rewrite list_lookup_imap in Hi, Hj.
    destruct (sorted !! i) as [x|] eqn:Hx; [|done]. destruct (sorted !! j) as [y|] eqn:Hy; [|done].
    injection Hi as <-. injection Hj as <-. simpl in *.
    apply Z.nle_gt. intros Hle. assert (j ≤ i)%nat as Hji by lia.
    assert (sorted_by (λ a b, F64.gtb (le_FinalScore a) (le_FinalScore b)) sorted) as Hsort.
    { apply sort_slice_sorted_on. by apply (F64_gtb_swo_on le_FinalScore). }
    destruct (decide (i = j)) as [->|Hne].
    + replace y with x in Hgt by congruence. by rewrite F64_gtb_irrefl in Hgt.
    + pose proof (sorted_lookup_lt _ _ _ _ _ _ Hsort Hy Hx ltac:(lia)) as Hyx. simpl in Hyx. congruence.
Qed.

Definition scored (id : string) (score : float64) : LeaderboardEntry :=
  mkEntry 0 id "t" "go" "rest" "completed" F64.zero F64.zero F64.zero F64.zero score F64.zero
    F64.zero F64.zero F64.zero F64.zero F64.zero None.
Definition two_entries : list LeaderboardEntry := [scored "x" F64.zero; scored "y" F64.one].

Lemma rank_entries_witness :
  le_Rank (set_Rank 1 (scored "y" F64.one)) < le_Rank (set_Rank 2 (scored "x" F64.zero)).
Proof.
  assert (rankEntries two_entries =
    [set_Rank 1 (scored "y" F64.one); set_Rank 2 (scored "x" F64.zero)]) as He by (by vm_compute).
  apply (rank_entries two_entries).
  - repeat constructor; done.
  - rewrite He. by left.
  - rewrite He. right. by left.
  - by vm_compute.
Defined.

Lemma mergeProfile_assoc base o1 o2 :
  mergeProfile base (mergeProfile o1 o2) = mergeProfile (mergeProfile base o1) o2.
Proof.
  assert (∀ A (nz : A → bool) (a b c : A),
    (if nz (if nz c then c else b) then (if nz c then c else b) else a) =
    (if nz c then c else if nz b then b else a)) as Hpick.
  { intros A nz a b c. destruct (nz c) eqn:Hc; [by rewrite Hc|]. by destruct (nz b). }
  unfold mergeProfile. simpl. by rewrite !Hpick.
Qed.

Lemma mergeProfile_self p : mergeProfile p p = p.
Proof. destruct p. unfold mergeProfile. simpl. f_equal; by case_match. Qed.

(** Merging a merged profile with its base again changes nothing. *)
Lemma mergeOpt_idem base o : mergeProfile base (mergeOpt base o) = mergeOpt base o.
Proof.
  destruct o as [o|]; simpl; [|apply mergeProfile_self].
  by rewrite mergeProfile_assoc, mergeProfile_self.
Qed.

(** Overriding a profile is associative with the zero profile as its right
    identity, so applying an override twice is applying it once; in particular
    a field that is explicitly zero never overrides anything. *)
Theorem mergeProfile_monoid base o1 o2 :
  mergeProfile base (mergeProfile o1 o2) = mergeProfile (mergeProfile base o1) o2 ∧
  mergeProfile base zeroProfile = base ∧
  mergeProfile (mergeProfile base o1) o1 = mergeProfile base o1.
Proof.
  split; [apply mergeProfile_assoc|]. split; [by destruct base|].
  unfold mergeProfile. simpl. f_equal; case_match; done.
Qed.

(** Two concurrent activations: both guards run before either transition. *)
Definition two_drafts : MemoryContestStore :=
  fold_left (λ s op, run_op op s)
    [OpCreate "c1" 1 (default_request "first"); OpCreate "c2" 2 (default_request "second")]
    NewMemoryContestStore.

(** The check and the transition of [Activate] are not atomic: when the guards
    of two calls both run before either transition, both calls succeed and two
    contests are active. *)
Lemma activate_race :
  activateGuard two_drafts = None ∧ (* call 1 *)
  activateGuard two_drafts = None ∧ (* call 2 *)
  let '(r1, s1) := activateCommit 3 "c1" two_drafts in
  let '(r2, s2) := activateCommit 4 "c2" s1 in
  is_ok r1 = true ∧ is_ok r2 = true ∧
  c_Status <$> mem_view s2 = [ContestStatusActive; ContestStatusActive].
Proof. by vm_compute. Qed.

(** A request that sets the low profile's ratios to 0.9, 0.1 and an explicit 0
    is accepted, and the stored ratios are 0.9, 0.1 and the default 0.1: no
    fleet accepts them. *)
Definition no_cancels : VolatilityProfile :=
  mkProfile "" 0 0 "" (F64.lit 90 100) (F64.lit 10 100) F64.zero 0 0 0 F64.zero F64.zero F64.zero
    F64.zero.

Lemma explicit_zero_lost :
  ratiosValidate (mkRatios (vp_LimitRatio no_cancels) (vp_MarketRatio no_cancels)
    (vp_CancelRatio no_cancels)) = None ∧
  let p := mergeProfile DefaultLowProfile no_cancels in
  ratiosValidate (mkRatios (vp_LimitRatio p) (vp_MarketRatio p) (vp_CancelRatio p))
    = Some ErrRatiosSum.
Proof. by vm_compute. Qed.
