(* ===== verification/Postgres.v ===== *)
(** * Postgres: the contest store on a database ([internal/contest/postgres.go])

    The tables are lists of rows, and a statement is a function on them. What is
    not the program's is in [PgEnv]: the JSON codec and the JSONB column, the
    precision of a timestamp, the order of unordered results, and which
    statements fail for reasons of their own. A failed statement has no effect. *)

From S2P Require Import Prelude Models Botfleet Contest.

(** ** The database *)
(** [plain_profile]: a profile that survives JSON and JSONB: its numbers have no
    negative zero, and its texts are ASCII. *)
Definition plain_float (x : float64) : Prop := x = F64.zero ∨ F64.eqb x F64.zero = false.

Fixpoint is_ascii (s : string) : bool :=
  match s with EmptyString => true | String c s => (Ascii.N_of_ascii c <? 128)%N && is_ascii s end.

Definition plain_profile (p : VolatilityProfile) : Prop :=
  is_ascii (vp_Label p) = true ∧ is_ascii (vp_MarketDataPath p) = true ∧
  Forall plain_float [vp_LimitRatio p; vp_MarketRatio p; vp_CancelRatio p; vp_TargetSustainTPS p;
                      vp_LatencyWeight p; vp_ThroughputWeight p; vp_CorrectnessWeight p].

(** The statements. A write moves the database on by a tick, whether it fails or not;
    a read sees the database of its tick. *)
Inductive statement := InsertContest | UpdateContest | UpsertSnapshot | SelectContest | SelectContests | SelectSnapshot.

Class PgEnv : Type := {
  json : Type;
  (** [json.Marshal] and the column, and [json.Unmarshal]. *)
  pg_marshalProfile : VolatilityProfile → result string json;
  pg_unmarshalProfile : json → result string VolatilityProfile;
  pg_keptProfile : VolatilityProfile → VolatilityProfile;
  pg_profile_codec p t : pg_marshalProfile p = Ok t → pg_unmarshalProfile t = Ok (pg_keptProfile p);
  pg_profile_plain p : plain_profile p → pg_keptProfile p = p;
  pg_marshalEntries : list LeaderboardEntry → result string json;
  pg_unmarshalEntries : json → result string (list LeaderboardEntry);
  pg_keptEntries : list LeaderboardEntry → list LeaderboardEntry;
  pg_entries_codec es t : pg_marshalEntries es = Ok t → pg_unmarshalEntries t = Ok (pg_keptEntries es);
  pg_timestamp : time → time;
  pg_scan : ∀ A : Type, list A → list A;
  pg_scan_perm A (l : list A) : pg_scan A l ≡ₚ l;
  pg_fault : nat → statement → option string
}.
Arguments pg_scan {_ A}.

Section store.
Context `{!PgEnv, !SortSlice}.

(** A row of [contests] and one of [contest_leaderboard_snapshots]. *)
Record contest_row := mkRow {
  r_id : string;
  r_name : string;
  r_status : string;
  r_low_profile : json;
  r_medium_profile : json;
  r_high_profile : json;
  r_low_weight : float64;
  r_medium_weight : float64;
  r_high_weight : float64;
  r_submissions_closed_at : option time;
  r_contest_closed_at : option time;
  r_ends_at : option time;
  r_created_at : time;
  r_updated_at : time
}.

Record PostgresContestStore := mkPgStore {
  pg_contests : list contest_row;
  pg_snapshots : gmap string json;
  pg_tick : nat
}.

(** After [migrate] on an empty database. *)
Definition NewPostgresContestStore : PostgresContestStore := mkPgStore [] ∅ 0.

(** *** Statements *)
Inductive sql_error := SQLState23505 | SQLState23503 | SQLError (msg : string).

Definition set_contests (rows : list contest_row) (s : PostgresContestStore) : PostgresContestStore :=
  mkPgStore rows (pg_snapshots s) (S (pg_tick s)).

(** [INSERT INTO contests]: the primary key is checked. *)
Definition exec_insert (r : contest_row) (s : PostgresContestStore) : option sql_error * PostgresContestStore :=
  match pg_fault (pg_tick s) InsertContest with
  | Some e => (Some (SQLError e), set_contests (pg_contests s) s)
  | None =>
      if bool_decide (r_id r ∈ r_id <$> pg_contests s)
      then (Some SQLState23505, set_contests (pg_contests s) s)
      else (None, set_contests (pg_contests s ++ [r]) s)
  end.

(** [UPDATE contests SET ... WHERE id = $1], which does not write [created_at]; the
    number of rows affected. *)
Definition updated_row (r old : contest_row) : contest_row :=
  mkRow (r_id old) (r_name r) (r_status r) (r_low_profile r) (r_medium_profile r) (r_high_profile r)
    (r_low_weight r) (r_medium_weight r) (r_high_weight r) (r_submissions_closed_at r)
    (r_contest_closed_at r) (r_ends_at r) (r_created_at old) (r_updated_at r).

Definition exec_update (r : contest_row) (s : PostgresContestStore)
    : result sql_error nat * PostgresContestStore :=
  match pg_fault (pg_tick s) UpdateContest with
  | Some e => (Err (SQLError e), set_contests (pg_contests s) s)
  | None =>
      (Ok (length (filter (λ old, r_id old = r_id r) (pg_contests s))),
       set_contests ((λ old, if decide (r_id old = r_id r) then updated_row r old else old)
                       <$> pg_contests s) s)
  end.

(** [INSERT INTO contest_leaderboard_snapshots ... ON CONFLICT DO UPDATE]: the contest
    must exist. *)
Definition exec_snapshot (id : string) (data : json) (s : PostgresContestStore)
    : option sql_error * PostgresContestStore :=
  match pg_fault (pg_tick s) UpsertSnapshot with
  | Some e => (Some (SQLError e), set_contests (pg_contests s) s)
  | None =>
      if bool_decide (id ∈ r_id <$> pg_contests s)
      then (None, mkPgStore (pg_contests s) (<[id := data]> (pg_snapshots s)) (S (pg_tick s)))
      else (Some SQLState23503, set_contests (pg_contests s) s)
  end.

Inductive query_error := NoRows | QueryFailed (msg : string).

(** [SELECT ... FROM contests WHERE ... LIMIT 1] and [ORDER BY created_at ASC]. *)
Definition query_row (where_ : contest_row → bool) (s : PostgresContestStore) : result query_error contest_row :=
  match pg_fault (pg_tick s) SelectContest with
  | Some e => Err (QueryFailed e)
  | None => match filter (λ r, where_ r = true) (pg_scan (pg_contests s)) with
            | r :: _ => Ok r
            | [] => Err NoRows
            end
  end.

Definition query_all (s : PostgresContestStore) : result string (list contest_row) :=
  match pg_fault (pg_tick s) SelectContests with
  | Some e => Err e
  | None => Ok (sort_slice (λ a b, r_created_at a <? r_created_at b) (pg_scan (pg_contests s)))
  end.

(** ** Rows and contests *)
(** [fmt.Errorf("<what> <column>: %w", err)]. *)
Definition columnErr {A} (what column : string) (r : result string A) : result string A :=
  match r with Ok a => Ok a | Err e => Err (what +:+ column +:+ ": " +:+ e) end.

Definition marshalProfile (column : string) (p : VolatilityProfile) : result string json :=
  columnErr "contest/postgres: marshal " column (pg_marshalProfile p).

Definition unmarshalProfile (column : string) (raw : json) (base : VolatilityProfile)
    : result string VolatilityProfile :=
  let! p := columnErr "unmarshal " column (pg_unmarshalProfile raw) in
  Ok (mergeProfile base p).

(** The parameters of [INSERT] and [UPDATE]. *)
Definition contestParams (c : Contest) : result string contest_row :=
  let! low := marshalProfile "low_profile" (c_LowProfile c) in
  let! med := marshalProfile "medium_profile" (c_MediumProfile c) in
  let! high := marshalProfile "high_profile" (c_HighProfile c) in
  Ok (mkRow (c_ID c) (c_Name c) (c_Status c) low med high (c_LowWeight c) (c_MediumWeight c)
    (c_HighWeight c) (pg_timestamp <$> c_SubmissionsClosedAt c) (pg_timestamp <$> c_ContestClosedAt c)
    (pg_timestamp <$> c_EndsAt c) (pg_timestamp (c_CreatedAt c)) (pg_timestamp (c_UpdatedAt c))).

Definition scanContest (row : contest_row) : result string Contest :=
  let! low := unmarshalProfile "low_profile" (r_low_profile row) DefaultLowProfile in
  let! med := unmarshalProfile "medium_profile" (r_medium_profile row) DefaultMediumProfile in
  let! high := unmarshalProfile "high_profile" (r_high_profile row) DefaultHighProfile in
  Ok (mkContest (r_id row) (r_name row) (r_status row) low med high (r_low_weight row) (r_medium_weight row) (r_high_weight row)
    (r_submissions_closed_at row) (r_contest_closed_at row) (r_ends_at row) (r_created_at row)
    (r_updated_at row)).

(** ** The operations *)
Definition isDuplicateKey (e : sql_error) : bool :=
  match e with SQLState23505 => true | _ => false end.

Definition sqlText (e : sql_error) : string :=
  match e with SQLState23505 => "23505" | SQLState23503 => "23503" | SQLError msg => msg end.

Definition pg_Save (c : Contest) (s : PostgresContestStore) : option cs_error * PostgresContestStore :=
  match contestParams c with
  | Err e => (Some (ErrInfra e), s)
  | Ok row =>
      match exec_insert row s with
      | (Some e, s) =>
          (Some (if isDuplicateKey e then ErrDuplicateContest
                 else ErrInfra ("contest/postgres: save " +:+ c_ID c +:+ ": " +:+ sqlText e)), s)
      | (None, s) => (None, s)
      end
  end.

Definition scanned (none : cs_error) (prefix : string) (r : result query_error contest_row)
    : result cs_error Contest :=
  match r with
  | Err NoRows => Err none
  | Err (QueryFailed e) => Err (ErrInfra (prefix +:+ e))
  | Ok row => match scanContest row with
              | Err e => Err (ErrInfra (prefix +:+ e))
              | Ok c => Ok c
              end
  end.

Definition pg_Get (id : string) (s : PostgresContestStore) : result cs_error Contest :=
  scanned ErrNotFound ("contest/postgres: get " +:+ id +:+ ": ")
    (query_row (λ r, bool_decide (r_id r = id)) s).

Definition pg_GetActive (s : PostgresContestStore) : result cs_error Contest :=
  scanned ErrNoActive "contest/postgres: get active: "
    (query_row (λ r, bool_decide (r_status r = "active")) s).

(** The rows up to the first that cannot be read. *)
Fixpoint scanRows (rows : list contest_row) : result string (list Contest) :=
  match rows with
  | [] => Ok []
  | r :: rows =>
      let! c := scanContest r in
      let! cs := scanRows rows in
      Ok (c :: cs)
  end.

Definition pg_List (s : PostgresContestStore) : result cs_error (list Contest) :=
  match query_all s with
  | Err e => Err (ErrInfra ("contest/postgres: list: " +:+ e))
  | Ok rows => match scanRows rows with
               | Err e => Err (ErrInfra ("contest/postgres: list scan: " +:+ e))
               | Ok out => Ok out
               end
  end.

Definition pg_Update (c : Contest) (s : PostgresContestStore) : option cs_error * PostgresContestStore :=
  match contestParams c with
  | Err e => (Some (ErrInfra e), s)
  | Ok row =>
      match exec_update row s with
      | (Err e, s) => (Some (ErrInfra ("contest/postgres: update " +:+ c_ID c +:+ ": " +:+ sqlText e)), s)
      | (Ok O, s) => (Some ErrNotFound, s)
      | (Ok (S _), s) => (None, s)
      end
  end.

Definition pg_SnapshotLeaderboard (id : string) (entries : list LeaderboardEntry)
    (s : PostgresContestStore) : option cs_error * PostgresContestStore :=
  match pg_marshalEntries entries with
  | Err e => (Some (ErrInfra ("contest/postgres: marshal snapshot: " +:+ e)), s)
  | Ok data =>
      match exec_snapshot id data s with
      | (Some e, s) => (Some (ErrInfra ("contest/postgres: snapshot " +:+ id +:+ ": " +:+ sqlText e)), s)
      | (None, s) => (None, s)
      end
  end.

Definition pg_GetLeaderboardSnapshot (id : string) (s : PostgresContestStore)
    : result cs_error (list LeaderboardEntry) :=
  match pg_fault (pg_tick s) SelectSnapshot with
  | Some e => Err (ErrInfra ("contest/postgres: get snapshot " +:+ id +:+ ": " +:+ e))
  | None =>
      match pg_snapshots s !! id with
      | None => Err ErrNotFound
      | Some raw =>
          match pg_unmarshalEntries raw with
          | Err e => Err (ErrInfra ("contest/postgres: unmarshal snapshot: " +:+ e))
          | Ok entries => Ok entries
          end
      end
  end.

#[export] Instance pg_ops : ContestStoreOps PostgresContestStore := {
  cs_Save := pg_Save;
  cs_Get := pg_Get;
  cs_GetActive := pg_GetActive;
  cs_List := pg_List;
  cs_Update := pg_Update;
  cs_SnapshotLeaderboard := pg_SnapshotLeaderboard;
  cs_GetLeaderboardSnapshot := pg_GetLeaderboardSnapshot
}.
End store.
