(* ===== verification/PostgresTheorems.v ===== *)
(** * PostgresTheorems: the database keeps the promises of the contest store

    The PostgreSQL store is an instance of the laws of [ContestStoreLaws], so the
    lifecycle theorems hold for it; and a contest that the service creates comes
    back from the database with its times at the precision of the column. *)

From S2P Require Import Prelude Models Botfleet Contest ContestTheorems Postgres.

Section laws.
Context `{!PgEnv, !SortSlice}.

(** What a row keeps of a contest: profiles through JSON and merged with the defaults,
    times at the precision of the column, and the creation time of the row before. *)
Definition pg_stored (o : option Contest) (c : Contest) : Contest :=
  mkContest (c_ID c) (c_Name c) (c_Status c)
    (mergeProfile DefaultLowProfile (pg_keptProfile (c_LowProfile c)))
    (mergeProfile DefaultMediumProfile (pg_keptProfile (c_MediumProfile c)))
    (mergeProfile DefaultHighProfile (pg_keptProfile (c_HighProfile c)))
    (c_LowWeight c) (c_MediumWeight c) (c_HighWeight c)
    (pg_timestamp <$> c_SubmissionsClosedAt c) (pg_timestamp <$> c_ContestClosedAt c)
    (pg_timestamp <$> c_EndsAt c)
    (match o with Some old => c_CreatedAt old | None => pg_timestamp (c_CreatedAt c) end)
    (pg_timestamp (c_UpdatedAt c)).

(** The columns that a scan copies. *)
Lemma scan_fields r c : scanContest r = Ok c →
  c_ID c = r_id r ∧ c_Status c = r_status r ∧ c_CreatedAt c = r_created_at r.
Proof.
  unfold scanContest. destruct (unmarshalProfile _ _ DefaultLowProfile); [|done].
  destruct (unmarshalProfile _ _ DefaultMediumProfile); [|done].
  destruct (unmarshalProfile _ _ DefaultHighProfile); [|done]. simpl. by intros [= <-].
Qed.

Lemma scan_row r low med high :
  pg_unmarshalProfile (r_low_profile r) = Ok low → pg_unmarshalProfile (r_medium_profile r) = Ok med →
  pg_unmarshalProfile (r_high_profile r) = Ok high →
  scanContest r = Ok (mkContest (r_id r) (r_name r) (r_status r)
    (mergeProfile DefaultLowProfile low) (mergeProfile DefaultMediumProfile med)
    (mergeProfile DefaultHighProfile high) (r_low_weight r) (r_medium_weight r) (r_high_weight r)
    (r_submissions_closed_at r) (r_contest_closed_at r) (r_ends_at r) (r_created_at r) (r_updated_at r)).
Proof. intros Hl Hm Hh. unfold scanContest, unmarshalProfile. by rewrite Hl, Hm, Hh. Qed.

(** The row that a contest is written as reads back as what is stored of it. *)
Lemma scan_params c row :
  contestParams c = Ok row →
  r_id row = c_ID c ∧ scanContest row = Ok (pg_stored None c) ∧
  ∀ o old, scanContest old = Ok o → r_id old = c_ID c →
    scanContest (updated_row row old) = Ok (pg_stored (Some o) c).
Proof.
  unfold contestParams, marshalProfile, columnErr.
  destruct (pg_marshalProfile (c_LowProfile c)) as [low|] eqn:Hl; [|done].
  destruct (pg_marshalProfile (c_MediumProfile c)) as [med|] eqn:Hm; [|done].
  destruct (pg_marshalProfile (c_HighProfile c)) as [high|] eqn:Hh; [|done].
  apply pg_profile_codec in Hl, Hm, Hh. simpl. intros [= <-]. split; [done|]. split.
  - by erewrite scan_row.
  - intros o old Ho Hid. erewrite scan_row by done. unfold pg_stored. simpl. rewrite Hid.
    by destruct (scan_fields _ _ Ho) as (_ & _ & ->).
Qed.

Definition row_ok (r : contest_row) : Prop := ∃ c, scanContest r = Ok c.

Record pg_ok (s : PostgresContestStore) : Prop := {
  po_nodup : NoDup (r_id <$> pg_contests s);
  po_rows : Forall row_ok (pg_contests s)
}.

(** The contest in a row that can be read. *)
Definition row_contest (r : contest_row) : Contest :=
  match scanContest r with
  | Ok c => c
  | Err _ => mkContest "" "" "" DefaultLowProfile DefaultMediumProfile DefaultHighProfile F64.zero
               F64.zero F64.zero None None None zero_time zero_time
  end.

Definition pg_view (s : PostgresContestStore) : list Contest := row_contest <$> pg_contests s.

Lemma row_contest_ok r : row_ok r → scanContest r = Ok (row_contest r).
Proof. intros [c Hc]. unfold row_contest. by rewrite Hc. Qed.

Lemma row_contest_id rows : Forall row_ok rows → c_ID <$> (row_contest <$> rows) = r_id <$> rows.
Proof.
  induction 1 as [|r rows Hr Hrows IH]; [done|]. rewrite !fmap_cons. f_equal; [|done].
  by destruct (scan_fields _ _ (row_contest_ok r Hr)).
Qed.

Lemma query_row_Ok w s r :
  query_row w s = Ok r → r ∈ pg_contests s ∧ w r = true.
Proof.
  unfold query_row. destruct (pg_fault _ _); [done|].
  destruct (filter _ (pg_scan (pg_contests s))) as [|r' l] eqn:E; [done|]. intros [= ->].
  assert (r ∈ filter (λ r, w r = true) (pg_scan (pg_contests s))) as Hr by (rewrite E; by left).
  apply list_elem_of_filter in Hr as [Hw Hr]. split; [|done]. by rewrite pg_scan_perm in Hr.
Qed.

Lemma query_row_NoRows w s : query_row w s = Err NoRows → ∀ r, r ∈ pg_contests s → w r = false.
Proof.
  unfold query_row. destruct (pg_fault _ _); [done|].
  destruct (filter _ (pg_scan (pg_contests s))) as [|r' l] eqn:E; [|done]. intros _ r Hr.
  apply not_true_is_false. intros Hw. apply (not_elem_of_nil r). rewrite <- E.
  apply list_elem_of_filter. split; [done|]. by rewrite pg_scan_perm.
Qed.

(** A row found by a query is a contest of the view. *)
Lemma scanned_Ok none prefix w s c : pg_ok s →
  scanned none prefix (query_row w s) = Ok c →
  ∃ r, r ∈ pg_contests s ∧ w r = true ∧ scanContest r = Ok c ∧ c ∈ pg_view s.
Proof.
  intros Hok. unfold scanned. destruct (query_row w s) as [r|[|]] eqn:Hq; [|done..].
  apply query_row_Ok in Hq as [Hr Hw]. destruct (scanContest r) as [c'|] eqn:Hs; [|done].
  intros [= ->]. exists r. split_and!; try done. apply list_elem_of_fmap. exists r.
  unfold row_contest. by rewrite Hs.
Qed.

Lemma scanned_none none prefix w s : (∀ m, none ≠ ErrInfra m) →
  scanned none prefix (query_row w s) = Err none → ∀ r, r ∈ pg_contests s → w r = false.
Proof.
  intros Hn. unfold scanned. destruct (query_row w s) as [r|[|]] eqn:Hq.
  - destruct (scanContest r); [done|]. intros [= He]. by destruct (Hn _ (eq_sym He)).
  - intros _. by apply query_row_NoRows.
  - intros [= He]. by destruct (Hn _ (eq_sym He)).
Qed.

Lemma view_row s c : pg_ok s → c ∈ pg_view s →
  ∃ r, r ∈ pg_contests s ∧ c_ID c = r_id r ∧ c_Status c = r_status r.
Proof.
  intros [_ Hrows] (r & -> & Hr)%list_elem_of_fmap. exists r. split; [done|].
  rewrite Forall_forall in Hrows.
  by destruct (scan_fields _ _ (row_contest_ok r (Hrows r Hr))) as (? & ? & _).
Qed.

(** The rows that a statement leaves alone, at the next tick. *)
Lemma same_rows s s' : pg_ok s → pg_contests s' = pg_contests s → pg_ok s' ∧ pg_view s' = pg_view s.
Proof. intros [Hn Hr] He. unfold pg_view. rewrite He. split; [split; by rewrite He|done]. Qed.

(** *** Each operation *)
Lemma pg_Save_spec c s r s' : pg_ok s → pg_Save c s = (r, s') →
  pg_ok s' ∧ pg_view s' = pg_view s ++ (if r is Some _ then [] else [pg_stored None c]).
Proof.
  intros Hok. unfold pg_Save. destruct (contestParams c) as [row|e] eqn:Hp.
  2: { intros [= <- <-]. by rewrite app_nil_r. }
  destruct (scan_params c row Hp) as (Hid & Hscan & _).
  assert (∀ s', pg_contests s' = pg_contests s → pg_ok s' ∧ pg_view s' = pg_view s ++ []) as Hsame.
  { intros s1. rewrite app_nil_r. by apply same_rows. }
  unfold exec_insert. destruct (pg_fault _ _); [intros [= <- <-]; by apply Hsame|].
  case_bool_decide as Hin; [intros [= <- <-]; by apply Hsame|]. intros [= <- <-].
  destruct Hok as [Hn Hr]. split.
  - split; simpl.
    + rewrite fmap_app. apply NoDup_app. split; [done|]. split; [|apply NoDup_singleton].
      by intros x Hx ->%list_elem_of_singleton.
    + apply Forall_app. split; [done|]. repeat constructor. by eexists.
  - unfold pg_view. simpl. rewrite fmap_app. simpl. unfold row_contest at 2. by rewrite Hscan.
Qed.

Lemma pg_Update_spec c s r s' : pg_ok s → pg_Update c s = (r, s') →
  pg_ok s' ∧ pg_view s' = if r is Some _ then pg_view s else replace_contest pg_stored c (pg_view s).
Proof.
  intros Hok. unfold pg_Update. destruct (contestParams c) as [row|e] eqn:Hp; [|by intros [= <- <-]].
  destruct (scan_params c row Hp) as (Hid & _ & Hscan).
  unfold exec_update. destruct (pg_fault _ _); [intros [= <- <-]; by apply same_rows|].
  assert (Hupd : ∀ old, row_ok old →
    scanContest (if decide (r_id old = r_id row) then updated_row row old else old) =
    Ok (if decide (c_ID (row_contest old) = c_ID c) then pg_stored (Some (row_contest old)) c
        else row_contest old)).
  { intros old Hold%row_contest_ok. destruct (scan_fields _ _ Hold) as (Hoid & _). rewrite Hoid, Hid.
    case_decide as He; [by apply Hscan|done]. }
  destruct Hok as [Hn Hr].
  assert (Hview : pg_ok (set_contests ((λ old, if decide (r_id old = r_id row) then updated_row row old else old)
            <$> pg_contests s) s)
    ∧ pg_view (set_contests ((λ old, if decide (r_id old = r_id row) then updated_row row old else old)
            <$> pg_contests s) s) = replace_contest pg_stored c (pg_view s)).
  { split; [split|]; simpl.
    - rewrite <- list_fmap_compose. erewrite list_fmap_ext; [exact Hn|]. intros i old _. simpl. by case_decide.
    - apply Forall_fmap. eapply Forall_impl; [exact Hr|]. intros old Hold. simpl.
      eexists. by apply Hupd.
    - unfold pg_view, replace_contest. simpl. rewrite <- !list_fmap_compose. apply list_fmap_ext.
      intros i old Hold%list_elem_of_lookup_2. rewrite Forall_forall in Hr. simpl.
      unfold row_contest at 1. by rewrite (Hupd old (Hr old Hold)). }
  destruct (length (filter _ (pg_contests s))) as [|n] eqn:Hlen; intros [= <- <-]; [|exact Hview].
  destruct Hview as [Hok' ->]. split; [done|].
  assert (∀ l, (∀ o, o ∈ l → c_ID o ≠ c_ID c) → replace_contest pg_stored c l = l) as Hnone.
  { induction l as [|o l IH]; intros Hl; [done|]. unfold replace_contest in *. rewrite fmap_cons.
    rewrite decide_False by (apply Hl; by left). f_equal. apply IH. intros o' Ho'. apply Hl. by right. }
  apply Hnone. intros o Ho Hoc. destruct (view_row s o) as (r & Hrin & Hrid & _); [by split|done|].
  apply length_zero_iff_nil in Hlen. apply (not_elem_of_nil r). rewrite <- Hlen.
  apply list_elem_of_filter. split; [|done]. congruence.
Qed.

Lemma pg_Snapshot_rows id es s r s' :
  pg_SnapshotLeaderboard id es s = (r, s') → pg_contests s' = pg_contests s.
Proof.
  unfold pg_SnapshotLeaderboard, exec_snapshot. destruct (pg_marshalEntries es); [|by intros [= _ <-]].
  destruct (pg_fault _ _); [by intros [= _ <-]|]. case_bool_decide; by intros [= _ <-].
Qed.

Lemma pg_Snapshot_kept id es s s' : pg_SnapshotLeaderboard id es s = (None, s') →
  ∃ data, pg_snapshots s' !! id = Some data ∧ pg_unmarshalEntries data = Ok (pg_keptEntries es).
Proof.
  unfold pg_SnapshotLeaderboard, exec_snapshot. destruct (pg_marshalEntries es) as [data|] eqn:Hm; [|done].
  destruct (pg_fault _ _); [done|]. case_bool_decide; [|done]. intros [= <-]. exists data.
  split; [apply lookup_insert_eq|by apply pg_entries_codec].
Qed.

Lemma scanRows_ok rows l : scanRows rows = Ok l → l = row_contest <$> rows.
Proof.
  revert l. induction rows as [|r rows IH]; intros l; simpl; [by intros [= <-]|].
  unfold row_contest at 1. destruct (scanContest r); [|done]. simpl.
  destruct (scanRows rows); [|done]. simpl. intros [= <-]. by rewrite (IH _ eq_refl).
Qed.

#[export] Program Instance pg_laws : ContestStoreLaws PostgresContestStore := {
  cs_ok := pg_ok;
  cs_view := pg_view;
  cs_stored := pg_stored;
  cs_archived := pg_keptEntries
}.
Next Obligation. done. Qed.
Next Obligation. done. Qed.
Next Obligation. intros o c Hc. simpl. by rewrite Hc. Qed.
Next Obligation. intros s [Hn Hr]. unfold pg_view. by rewrite row_contest_id. Qed.
Next Obligation. intros c s s' Hok Hs. by apply (pg_Save_spec c s None). Qed.
Next Obligation.
  intros c s s' e Hok Hs. destruct (pg_Save_spec c s (Some e) s' Hok Hs) as [? Hv].
  by rewrite app_nil_r in Hv.
Qed.
Next Obligation.
  intros id s c Hok Hg. apply scanned_Ok in Hg as (r & _ & Hid & Hs & Hv); [|done].
  split; [done|]. apply bool_decide_eq_true in Hid as <-. by destruct (scan_fields _ _ Hs).
Qed.
Next Obligation.
  intros id s Hok Hg (c & -> & Hc)%list_elem_of_fmap.
  destruct (view_row s c Hok Hc) as (r & Hr & Hid & _).
  apply scanned_none with (r := r) in Hg; [|done..]. by apply bool_decide_eq_false in Hg.
Qed.
Next Obligation.
  intros s c Hok Hg. apply scanned_Ok in Hg as (r & _ & Hst & Hs & Hv); [|done].
  split; [done|]. apply bool_decide_eq_true in Hst as Hst'.
  destruct (scan_fields _ _ Hs) as (_ & -> & _). by rewrite Hst'.
Qed.
Next Obligation.
  intros s Hok Hg c Hc Ha. destruct (view_row s c Hok Hc) as (r & Hr & _ & Hst).
  apply scanned_none with (r := r) in Hg; [|done..]. apply bool_decide_eq_false in Hg.
  apply Hg. by rewrite <- Hst.
Qed.
Next Obligation.
  intros s l Hok. simpl. unfold pg_List, query_all. destruct (pg_fault _ _); [done|].
  destruct (scanRows _) as [l'|] eqn:Hl; [|done]. intros [= ->]. apply scanRows_ok in Hl as ->.
  unfold pg_view. by rewrite sort_slice_perm, pg_scan_perm.
Qed.
Next Obligation. intros c s s' Hok Hu. by apply (pg_Update_spec c s None). Qed.
Next Obligation. intros c s s' e Hok Hu. by apply (pg_Update_spec c s (Some e)). Qed.
Next Obligation.
  intros id es s r s' Hok Hs. apply same_rows; [done|]. by apply (pg_Snapshot_rows id es s r).
Qed.
Next Obligation.
  intros id es s s' l Hok Hs. apply pg_Snapshot_kept in Hs as (data & Hd & Hk). simpl.
  unfold pg_GetLeaderboardSnapshot. destruct (pg_fault _ _); [done|]. rewrite Hd, Hk. by intros [= <-].
Qed.
Next Obligation.
  intros id es s s' Hok Hs. apply pg_Snapshot_kept in Hs as (data & Hd & Hk). simpl.
  unfold pg_GetLeaderboardSnapshot. destruct (pg_fault _ _); [done|]. by rewrite Hd, Hk.
Qed.

Lemma new_pg_inv : contest_inv NewPostgresContestStore.
Proof.
  split; [|constructor|by intros ??[]%not_elem_of_nil].
  split; simpl; constructor.
Qed.

(** ** A contest comes back *)
(** A contest with its times at the precision of the database. *)
Definition at_precision (c : Contest) : Contest :=
  mkContest (c_ID c) (c_Name c) (c_Status c) (c_LowProfile c) (c_MediumProfile c) (c_HighProfile c)
    (c_LowWeight c) (c_MediumWeight c) (c_HighWeight c) (pg_timestamp <$> c_SubmissionsClosedAt c)
    (pg_timestamp <$> c_ContestClosedAt c) (pg_timestamp <$> c_EndsAt c)
    (pg_timestamp (c_CreatedAt c)) (pg_timestamp (c_UpdatedAt c)).

Definition plain_override (o : option VolatilityProfile) : Prop := from_option plain_profile True o.

Lemma plain_floats l : forallb (λ x, negb (F64.eqb x F64.zero)) l = true → Forall plain_float l.
Proof.
  rewrite forallb_forall, Forall_forall. intros Hl x Hx. right. apply negb_true_iff, Hl.
  by apply list_elem_of_In.
Qed.

Lemma plain_default_profiles :
  plain_profile DefaultLowProfile ∧ plain_profile DefaultMediumProfile ∧ plain_profile DefaultHighProfile.
Proof.
  unfold plain_profile. split_and!;
    first [apply plain_floats; vm_compute; reflexivity | vm_compute; reflexivity].
Qed.

Lemma plain_merge base o : plain_profile base → plain_override o → plain_profile (mergeOpt base o).
Proof.
  destruct o as [o|]; simpl; [|done]. intros (Hl & Hm & Hf) (Hl' & Hm' & Hf').
  rewrite !Forall_cons in Hf, Hf'. destruct_and! Hf. destruct_and! Hf'.
  unfold plain_profile, mergeProfile. simpl. split; [by case_match|]. split; [by case_match|].
  repeat (constructor; [by case_match|]). constructor.
Qed.

Lemma kept_merge base o : plain_profile base → plain_override o →
  mergeProfile base (pg_keptProfile (mergeOpt base o)) = mergeOpt base o.
Proof. intros Hb Ho. rewrite pg_profile_plain by by apply plain_merge. apply mergeOpt_idem. Qed.

Lemma query_row_found w s r :
  pg_fault (pg_tick s) SelectContest = None → r ∈ pg_contests s → w r = true →
  (∀ r', r' ∈ pg_contests s → w r' = true → r' = r) → query_row w s = Ok r.
Proof.
  intros Hf Hr Hw Hu. destruct (query_row w s) as [r'|[|e]] eqn:Hq.
  - apply query_row_Ok in Hq as [Hr' Hw']. by rewrite (Hu r').
  - by rewrite (query_row_NoRows w s Hq r Hr) in Hw.
  - unfold query_row in Hq. rewrite Hf in Hq. by destruct (filter _ _).
Qed.

Lemma pg_Save_row c s s' : pg_Save c s = (None, s') →
  ∃ row, contestParams c = Ok row ∧ pg_contests s' = pg_contests s ++ [row].
Proof.
  unfold pg_Save. destruct (contestParams c) as [row|]; [|done]. unfold exec_insert.
  destruct (pg_fault _ _); [done|]. case_bool_decide; [done|]. intros [= <-]. by exists row.
Qed.

(** C30: What the service creates comes back from the database: a contest that [Create]
    has stored is read again as the same contest, its times at the precision of the
    column, for profiles whose numbers and texts survive JSON, as long as the
    database answers. *)
Theorem postgres_create_get uuid now req (s s' : PostgresContestStore) c :
  pg_ok s →
  plain_override (cr_LowProfile req) → plain_override (cr_MediumProfile req) →
  plain_override (cr_HighProfile req) →
  Create uuid now req s = (Ok c, s') → pg_fault (pg_tick s') SelectContest = None →
  pg_Get uuid s' = Ok (at_precision c).
Proof.
  intros Hok Hpl Hpm Hph. unfold Create. case_bool_decide; [done|]. case_match; [done|].
  set (c0 := mkContest _ _ _ _ _ _ _ _ _ _ _ _ _ _).
  destruct (cs_Save c0 s) as [[e|] s1] eqn:Hs; [done|]. intros [= <- <-] Hf.
  destruct (pg_Save_spec _ s None s1 Hok Hs) as [Hok1 _].
  destruct (pg_Save_row _ _ _ Hs) as (row & Hp & Hrows).
  destruct (scan_params _ _ Hp) as (Hid & Hscan & _).
  assert (row ∈ pg_contests s1) as Hin by (rewrite Hrows; apply elem_of_app; right; by left).
  unfold pg_Get. rewrite (query_row_found _ s1 row Hf Hin).
  - simpl. rewrite Hscan. unfold pg_stored, at_precision. subst c0. simpl.
    destruct plain_default_profiles as (Hl & Hm & Hh). by rewrite !kept_merge.
  - by apply bool_decide_eq_true.
  - intros r' Hr' Hw. apply bool_decide_eq_true in Hw.
    apply (NoDup_image_inj r_id (pg_contests s1)); [by destruct Hok1|done|done|by rewrite Hw, Hid].
Qed.

(** C22: On PostgreSQL too, whatever statements fail and in whatever order unordered
    results come, every sequence of calls of Create, Activate and Close from an empty
    database keeps at most one contest active, and no call loses a contest, takes it
    back or changes a closed one. *)
Theorem postgres_lifecycle ops op :
  let s : PostgresContestStore := fold_left (λ s op, run_op op s) ops NewPostgresContestStore in
  single_active (pg_view s) ∧ NoDup (c_ID <$> pg_view s) ∧ evolves (pg_view s) (pg_view (run_op op s)).
Proof.
  intros s. pose proof (run_ops_inv ops NewPostgresContestStore new_pg_inv) as Hinv. fold s in Hinv.
  destruct (run_op_keeps op s Hinv) as [_ Hev].
  split; [exact (ci_single _ Hinv)|]. split; [exact (cs_ids _ (ci_ok _ Hinv))|exact Hev].
Qed.
End laws.

(** ** The properties at a concrete database *)
(** A codec that refuses what JSON cannot hold, microseconds, and a database whose
    sixth statement fails when it is an update. *)
Definition ex_marshal (p : VolatilityProfile) : result string VolatilityProfile :=
  if bool_decide (vp_LimitRatio p = S754_nan) then Err "json: unsupported value: NaN" else Ok p.

#[local] Instance ex_pg : PgEnv.
Proof.
  refine {| json := VolatilityProfile + list LeaderboardEntry;
            pg_marshalProfile := λ p, match ex_marshal p with Ok p => Ok (inl p) | Err e => Err e end;
            pg_unmarshalProfile := λ t, match t with inl p => Ok p | inr _ => Err "json: not an object" end;
            pg_keptProfile := λ p, p;
            pg_marshalEntries := λ es, Ok (inr es);
            pg_unmarshalEntries := λ t, match t with inr es => Ok es | inl _ => Err "json: not an array" end;
            pg_keptEntries := λ es, es;
            pg_timestamp := λ t, t / 1000 * 1000;
            pg_scan := λ A l, reverse l;
            pg_fault := λ t q, if bool_decide (t = 5%nat) then match q with UpdateContest => Some "connection reset" | _ => None end else None |}.
  - intros p t. unfold ex_marshal. case_bool_decide; [done|]. by intros [= <-].
  - done.
  - by intros es t [= <-].
  - intros A l. apply reverse_Permutation.
Defined.

Definition pg_after (ops : list svc_op) : PostgresContestStore :=
  fold_left (λ s op, run_op op s) ops NewPostgresContestStore.

Definition pg_one : PostgresContestStore := pg_after [OpCreate "c1" 1001 (default_request "first")].

Lemma postgres_create_get_witness :
  match Create "c2" 2500 (default_request "second") pg_one with
  | (Ok c, s') => pg_Get "c2" s' = Ok (at_precision c) ∧ c_CreatedAt (at_precision c) = 2000
  | _ => False
  end.
Proof.
  destruct (Create "c2" 2500 (default_request "second") pg_one) as [[c|e] s'] eqn:Hc;
    [|by vm_compute in Hc].
  assert (pg_fault (pg_tick s') SelectContest = None ∧ c_CreatedAt c = 2500) as [Hf Ht].
  { vm_compute in Hc. injection Hc as <- <-. by vm_compute. }
  split; [|unfold at_precision; simpl; by rewrite Ht].
  apply (postgres_create_get "c2" 2500 (default_request "second") pg_one s' c); try exact I; [|exact Hc|exact Hf].
  exact (ci_ok _ (run_ops_inv [OpCreate "c1" 1001 (default_request "first")] _ new_pg_inv)).
Defined.

(** The failing statement is the second activation: the contest stays a draft, and the
    next call succeeds. *)
Lemma postgres_lifecycle_witness :
  single_active (pg_view (pg_after (sample_ops ++ [OpActivate 7 "c2"]))) ∧
  c_Status <$> pg_view (pg_after sample_ops) = [ContestStatusClosed; ContestStatusDraft] ∧
  c_Status <$> pg_view (pg_after (sample_ops ++ [OpActivate 7 "c2"])) =
    [ContestStatusClosed; ContestStatusActive].
Proof.
  split; [|by vm_compute].
  apply (postgres_lifecycle (sample_ops ++ [OpActivate 7 "c2"]) (OpClose 8 "c2" [])).
Defined.
