(* ===== verification/Queue.v ===== *)
(** * Queue: jobs and their queues
    ([internal/queue/job.go], [memory.go], [redpanda.go])

    The in-memory queue is a buffered channel. Of the Redpanda queue the parts
    with logic of their own are modelled, over the records that the client
    library returns: dequeuing, committing and the lag. *)

From S2P Require Import Prelude Models.

(** ** job.go *)
Record Job := mkJob {
  j_ID : string;
  j_SubmissionID : string;
  j_TeamName : string;
  j_Language : string;
  j_Protocol : string;
  j_ArchivePath : string;
  j_EnqueuedAt : time;
  j_ContestID : string;
  j_VolatilityLabel : string;
  j_RemainingProfiles : list string
}.

#[export] Instance job_eq_dec : EqDecision Job.
Proof. solve_decision. Defined.

Definition NewJob (now : time) (sub : Submission) : Job :=
  mkJob (s_ID sub) (s_ID sub) (s_TeamName sub) (s_Language sub) (s_Protocol sub)
    (s_ArchivePath sub) now "" "" [].

Definition NewProfileJob (now : time) (sub : Submission) (contestID label : string)
    (remaining : list string) : Job :=
  mkJob (s_ID sub +:+ "/" +:+ label) (s_ID sub) (s_TeamName sub) (s_Language sub)
    (s_Protocol sub) (s_ArchivePath sub) now contestID label remaining.

Definition IsLastProfile (j : Job) : bool := bool_decide (j_RemainingProfiles j = []).

(** ** memory.go *)
(** [mq_ch] is the content of the channel, oldest first. *)
Record MemoryQueue := mkMemoryQueue { mq_ch : list Job; mq_cap : Z; mq_closed : bool }.

Definition NewMemoryQueue (bufSize : Z) : MemoryQueue := mkMemoryQueue [] bufSize false.

(** How a channel operation ends: with a value, an error, by blocking, or by a
    panic (sending on a closed channel). *)
Inductive outcome (A : Type) :=
| Done (a : A)
| Failed (e : string)
| Blocks
| Panics.
Arguments Done {A} a.
Arguments Failed {A} e.
Arguments Blocks {A}.
Arguments Panics {A}.

(** [Enqueue] checks [closed] under the mutex and sends without it. *)
Definition enqueueCheck (m : MemoryQueue) : option string :=
  if mq_closed m then Some "queue: MemoryQueue is closed" else None.

(** The send. An unbuffered channel hands over to a waiting receiver, which is
    the case [receiver]; [ctxDone] is the state of the context. *)
Definition enqueueSend (receiver ctxDone : bool) (j : Job) (m : MemoryQueue)
    : outcome unit * MemoryQueue :=
  if mq_closed m then (Panics, m)
  else if mq_cap m =? 0 then
    if ctxDone then (Failed "context", m)
    else if receiver then (Done (), mkMemoryQueue (mq_ch m ++ [j]) (mq_cap m) false)
    else (Blocks, m)
  else if Z.of_nat (length (mq_ch m)) <? mq_cap m
  then (Done (), mkMemoryQueue (mq_ch m ++ [j]) (mq_cap m) false)
  else (Failed "queue: MemoryQueue buffer full", m).

Definition Enqueue (receiver ctxDone : bool) (j : Job) (m : MemoryQueue)
    : outcome unit * MemoryQueue :=
  match enqueueCheck m with
  | Some e => (Failed e, m)
  | None => enqueueSend receiver ctxDone j m
  end.

(** [Dequeue]. When both cases of the select are ready either may be taken:
    [pickCtx] says which. *)
Definition Dequeue (ctxDone pickCtx : bool) (m : MemoryQueue) : outcome Job * MemoryQueue :=
  if ctxDone && pickCtx then (Failed "context", m)
  else match mq_ch m with
  | j :: ch => (Done j, mkMemoryQueue ch (mq_cap m) (mq_closed m))
  | [] =>
      if mq_closed m then (Failed "queue: MemoryQueue is closed", m)
      else if ctxDone then (Failed "context", m)
      else (Blocks, m)
  end.

Definition QueueDepth (m : MemoryQueue) : Z := Z.of_nat (length (mq_ch m)).

Definition CloseQueue (m : MemoryQueue) : MemoryQueue := mkMemoryQueue (mq_ch m) (mq_cap m) true.

(** ** redpanda.go *)
(** A record of the jobs topic, as the client library returns it. *)
Record kgo_record := mkRecord { r_Partition : Z; r_Offset : Z; r_Value : string }.

Record RedpandaQueue := mkRedpanda {
  rq_pending : option kgo_record;
  rq_marked : list kgo_record;
  rq_committed : list kgo_record
}.

Definition NewRedpandaQueue : RedpandaQueue := mkRedpanda None [] [].

Section redpanda.
(** [json.Unmarshal] of a record's value. *)
Context (unmarshal : string → option Job).

(** [MarkCommitRecords] and [CommitMarkedOffsets]; [fails] when the commit does. *)
Definition markCommit (fails : bool) (r : kgo_record) (q : RedpandaQueue) : RedpandaQueue :=
  let marked := rq_marked q ++ [r] in
  if fails then mkRedpanda (rq_pending q) marked (rq_committed q)
  else mkRedpanda (rq_pending q) [] (rq_committed q ++ marked).

(** [Dequeue]: each element of [polls] is what one [PollFetches] returns, with
    whether a commit made in that round fails. The result is [None] when the
    polls are used up; otherwise the job and the polls that are left. *)
Fixpoint rpDequeue (polls : list (list kgo_record * bool)) (q : RedpandaQueue)
    : option (Job * list (list kgo_record * bool)) * RedpandaQueue :=
  match polls with
  | [] => (None, q)
  | (batch, fails) :: polls =>
      match head batch with
      | None => rpDequeue polls q
      | Some found =>
          match unmarshal (r_Value found) with
          | None => rpDequeue polls (markCommit fails found q)
          | Some j => (Some (j, polls), mkRedpanda (Some found) (rq_marked q) (rq_committed q))
          end
      end
  end.

(** [CommitJob]: the pending record is forgotten even if the commit fails. *)
Definition rpCommitJob (fails : bool) (q : RedpandaQueue) : option string * RedpandaQueue :=
  match rq_pending q with
  | None => (None, q)
  | Some r =>
      let q := markCommit fails r (mkRedpanda None (rq_marked q) (rq_committed q)) in
      (if fails then Some "queue: commit job offset" else None, q)
  end.
End redpanda.

(** The listed end offset of one partition, and the group's committed offsets. *)
Record listed_offset := mkListed { lo_Partition : Z; lo_Offset : Z; lo_Err : bool }.

Definition addLag (committed : Z → option Z) (totalLag : Z) (o : listed_offset) : Z :=
  if lo_Err o then totalLag
  else match committed (lo_Partition o) with
  | None => i64 (totalLag + lo_Offset o)
  | Some at_ =>
      if at_ <? 0 then i64 (totalLag + lo_Offset o)
      else
        let lag := i64 (lo_Offset o - at_) in
        let lag := if lag <? 0 then 0 else lag in
        i64 (totalLag + lag)
  end.

Definition rpQueueDepth (endOffsets : result string (list listed_offset))
    (committedOffsets : result string (Z → option Z)) : result string Z :=
  let! ends := endOffsets in
  let! committed := committedOffsets in
  Ok (fold_left (addLag committed) ends 0).

(** ** Properties *)
(** A use of the queue by producers and consumers. *)
Inductive queue_op :=
| QEnqueue (receiver ctxDone : bool) (j : Job)
| QDequeue (ctxDone pickCtx : bool)
| QClose.

(** The jobs accepted and delivered by a sequence of operations. *)
Fixpoint run_queue (ops : list queue_op) (m : MemoryQueue) : list Job * list Job * MemoryQueue :=
  match ops with
  | [] => ([], [], m)
  | op :: ops =>
      let '(acc, del, m1) :=
        match op with
        | QEnqueue receiver ctxDone j =>
            match Enqueue receiver ctxDone j m with
            | (Done _, m1) => ([j], [], m1)
            | (_, m1) => ([], [], m1)
            end
        | QDequeue ctxDone pickCtx =>
            match Dequeue ctxDone pickCtx m with
            | (Done j, m1) => ([], [j], m1)
            | (_, m1) => ([], [], m1)
            end
        | QClose => ([], [], CloseQueue m)
        end in
      let '(acc', del', m2) := run_queue ops m1 in
      (acc ++ acc', del ++ del', m2)
  end.

Lemma Enqueue_cases receiver ctxDone j m :
  Enqueue receiver ctxDone j m = (Done (), mkMemoryQueue (mq_ch m ++ [j]) (mq_cap m) (mq_closed m)) ∧
    mq_closed m = false ∧ (mq_cap m = 0 ∨ Z.of_nat (length (mq_ch m)) < mq_cap m) ∨
  ∃ o, Enqueue receiver ctxDone j m = (o, m) ∧ o ≠ Done () ∧ o ≠ Panics.
Proof.
  unfold Enqueue, enqueueCheck, enqueueSend. destruct (mq_closed m); [right; by eexists|].
  destruct (Z.eqb_spec (mq_cap m) 0).
  - destruct ctxDone, receiver; try (right; by eexists). left. by auto.
  - destruct (Z.ltb_spec (Z.of_nat (length (mq_ch m))) (mq_cap m)); [left; by auto|right; by eexists].
Qed.

Lemma Dequeue_cases ctxDone pickCtx m :
  (∃ j ch, mq_ch m = j :: ch ∧ Dequeue ctxDone pickCtx m = (Done j, mkMemoryQueue ch (mq_cap m) (mq_closed m))) ∨
  ∃ o, Dequeue ctxDone pickCtx m = (o, m) ∧ ∀ j, o ≠ Done j.
Proof.
  unfold Dequeue. destruct (ctxDone && pickCtx); [right; by eexists|].
  destruct (mq_ch m) as [|j ch]; [|left; by exists j, ch].
  right. destruct (mq_closed m), ctxDone; by eexists.
Qed.

(** The in-memory queue is first-in first-out, loses nothing and invents
    nothing: whatever the interleaving of enqueues, dequeues and closes, the
    jobs delivered followed by those still buffered are exactly the jobs
    accepted, in order, and a buffered queue never holds more than its
    capacity. *)
Theorem memory_queue_fifo ops cap :
  0 < cap →
  let '(accepted, delivered, m) := run_queue ops (NewMemoryQueue cap) in
  delivered ++ mq_ch m = accepted ∧ QueueDepth m ≤ cap.
Proof.
  intros Hcap.
  assert (∀ ops m, mq_cap m = cap → QueueDepth m ≤ cap →
    let '(accepted, delivered, m') := run_queue ops m in
    delivered ++ mq_ch m' = mq_ch m ++ accepted ∧ QueueDepth m' ≤ cap) as Hgen.
  { clear ops. induction ops as [|op ops IH]; intros m Hc Hd; cbn [run_queue].
    { by rewrite app_nil_r. }
    assert (Hskip : ∀ m1, mq_ch m1 = mq_ch m → mq_cap m1 = mq_cap m →
      let '(acc', del', m2) := run_queue ops m1 in
      (del' ++ mq_ch m2 = mq_ch m ++ acc') ∧ QueueDepth m2 ≤ cap).
    { intros m1 Hch Hcp. pose proof (IH m1) as IH1. rewrite Hcp, Hch in IH1.
      apply IH1; [done|]. unfold QueueDepth in *. by rewrite Hch. }
    destruct op as [receiver ctxDone j|ctxDone pickCtx|].
    - destruct (Enqueue_cases receiver ctxDone j m) as [(-> & Hcl & Hroom)|(o & -> & Ho & _)].
      + specialize (IH (mkMemoryQueue (mq_ch m ++ [j]) (mq_cap m) (mq_closed m))).
        destruct (run_queue ops _) as [[acc' del'] m2]. simpl in IH.
        destruct IH as [He Hb]; [done|unfold QueueDepth; simpl; rewrite length_app; simpl; lia|].
        split; [|done]. cbn [app]. by rewrite He, <- app_assoc.
      + specialize (Hskip m eq_refl eq_refl).
        destruct o as [[]| | |]; [done|..]; destruct (run_queue ops m) as [[acc' del'] m2]; exact Hskip.
    - destruct (Dequeue_cases ctxDone pickCtx m) as [(j & ch & Hm & ->)|(o & -> & Ho)].
      + specialize (IH (mkMemoryQueue ch (mq_cap m) (mq_closed m))).
        destruct (run_queue ops _) as [[acc' del'] m2]. simpl in IH. unfold QueueDepth in *.
        rewrite Hm in Hd. simpl in *. destruct IH as [He Hb]; [done|lia|].
        split; [|done]. rewrite Hm. simpl. by rewrite He.
      + specialize (Hskip m eq_refl eq_refl).
        destruct o as [j| | |]; [by destruct (Ho j)|..];
          destruct (run_queue ops m) as [[acc' del'] m2]; exact Hskip.
    - specialize (Hskip (CloseQueue m) eq_refl eq_refl).
      by destruct (run_queue ops (CloseQueue m)) as [[acc' del'] m2]. }
  apply (Hgen ops (NewMemoryQueue cap)); [done|unfold QueueDepth; simpl; lia].
Qed.

Definition sample_job (id : string) : Job := mkJob id id "team" "go" "rest" "/a" 0 "" "" [].

Lemma memory_queue_fifo_witness :
  let '(accepted, delivered, m) :=
    run_queue [QEnqueue false false (sample_job "a"); QEnqueue false false (sample_job "b");
      QEnqueue false false (sample_job "c"); QDequeue false false; QClose; QDequeue false false]
      (NewMemoryQueue 2) in
  delivered ++ mq_ch m = accepted ∧ QueueDepth m ≤ 2.
Proof. by apply memory_queue_fifo. Defined.

(** A closed queue still delivers the jobs it holds. *)
Lemma closed_queue_delivers :
  (Dequeue false false (CloseQueue (mkMemoryQueue [sample_job "a"] 2 false))).1 = Done (sample_job "a").
Proof. done. Qed.

(** A close between the check and the send of an enqueue panics the sender. *)
Lemma enqueue_close_race m j :
  mq_closed m = false → enqueueCheck m = None ∧ (enqueueSend false false j (CloseQueue m)).1 = Panics.
Proof. unfold enqueueCheck. by intros ->. Qed.

(** The lag is exact and never negative: when both admin calls succeed it
    is the sum, over the partitions that could be listed, of the records after
    the committed offset, or of all records where nothing is committed. *)
Theorem queue_depth_lag ends committed :
  Forall (λ o, 0 ≤ lo_Offset o) ends →
  (∀ p a, committed p = Some a → is_int64 a) →
  foldr (λ o n, lo_Offset o + n) 0 ends ≤ int64_max →
  let lag o := if lo_Err o then 0 else Z.max 0 (lo_Offset o - Z.max 0 (default 0 (committed (lo_Partition o)))) in
  rpQueueDepth (Ok ends) (Ok committed) = Ok (foldr (λ o n, lag o + n) 0 ends) ∧
  0 ≤ foldr (λ o n, lag o + n) 0 ends.
Proof.
  intros Hends Hcom Hsum lag. simpl.
  assert (∀ n, 0 ≤ n → n + foldr (λ o n, lo_Offset o + n) 0 ends ≤ int64_max →
    fold_left (addLag committed) ends n = n + foldr (λ o n, lag o + n) 0 ends ∧
    0 ≤ foldr (λ o n, lag o + n) 0 ends) as Hgen.
  { clear Hsum. induction Hends as [|o ends Ho Hends IH]; intros n Hn Hsum; simpl; [lia|].
    simpl in Hsum.
    assert (0 ≤ foldr (λ o n, lo_Offset o + n) 0 ends) by (clear -Hends; induction Hends; simpl; lia).
    assert (addLag committed n o = n + lag o ∧ 0 ≤ lag o ≤ lo_Offset o) as [-> Hlag].
    { unfold addLag, lag. destruct (lo_Err o); [lia|].
      destruct (committed (lo_Partition o)) as [a|] eqn:Hc; simpl.
      - pose proof (Hcom _ _ Hc) as [??]. destruct (Z.ltb_spec a 0).
        + rewrite i64_id by (solve_int64). lia.
        + rewrite (i64_id (lo_Offset o - a)) by (solve_int64).
          destruct (Z.ltb_spec (lo_Offset o - a) 0);
            rewrite i64_id by (solve_int64); lia.
      - rewrite i64_id by (solve_int64). lia. }
    destruct (IH (n + lag o)) as [-> ?]; lia. }
  destruct (Hgen 0) as [-> ?]; [lia|lia|done].
Qed.

Definition sample_ends : list listed_offset :=
  [mkListed 0 10 false; mkListed 1 7 false; mkListed 2 5 true].
Definition sample_committed (p : Z) : option Z := if p =? 0 then Some 4 else None.

Lemma queue_depth_lag_witness :
  rpQueueDepth (Ok sample_ends) (Ok sample_committed) = Ok 13 ∧ 0 ≤ 13.
Proof.
  apply (queue_depth_lag sample_ends sample_committed).
  - repeat constructor; simpl; lia.
  - intros p a. unfold sample_committed. destruct (p =? 0); [|done]. intros [= <-].
    by split; vm_compute.
  - by vm_compute.
Defined.

(** One job per poll: dequeuing delivers, in order, the first record of
    each poll that decodes, commits past a first record that does not, and
    remembers the delivered record for the next commit; the other records of a
    poll are neither delivered nor kept. *)
Theorem dequeue_first_of_batch unmarshal polls q :
  match rpDequeue unmarshal polls q with
  | (Some (j, rest), q') =>
      ∃ skipped r tail fails, polls = skipped ++ (r :: tail, fails) :: rest ∧
        unmarshal (r_Value r) = Some j ∧ rq_pending q' = Some r ∧
        Forall (λ p, ∀ r', head p.1 = Some r' → unmarshal (r_Value r') = None) skipped
  | (None, q') =>
      rq_pending q' = rq_pending q ∧
      Forall (λ p, ∀ r', head p.1 = Some r' → unmarshal (r_Value r') = None) polls
  end.
Proof.
  revert q. induction polls as [|[batch fails] polls IH]; intros q; cbn [rpDequeue]; [by split|].
  assert (∀ q1, rq_pending q1 = rq_pending q →
    (∀ r', head batch = Some r' → unmarshal (r_Value r') = None) →
    match rpDequeue unmarshal polls q1 with
    | (Some (j, rest), q') =>
        ∃ skipped r tail fails', (batch, fails) :: polls = skipped ++ (r :: tail, fails') :: rest ∧
          unmarshal (r_Value r) = Some j ∧ rq_pending q' = Some r ∧
          Forall (λ p, ∀ r', head p.1 = Some r' → unmarshal (r_Value r') = None) skipped
    | (None, q') =>
        rq_pending q' = rq_pending q ∧
        Forall (λ p, ∀ r', head p.1 = Some r' → unmarshal (r_Value r') = None) ((batch, fails) :: polls)
    end) as Hskip.
  { intros q1 Hq1 Hb. specialize (IH q1). destruct (rpDequeue unmarshal polls q1) as [[[j rest]|] q'].
    - destruct IH as (skipped & r & tail & f & -> & Hu & Hp & Hs).
      exists ((batch, fails) :: skipped), r, tail, f. split; [done|]. split; [done|]. split; [done|].
      by constructor.
    - destruct IH as [Hp Hs]. split; [congruence|]. by constructor. }
  destruct batch as [|r tail]; simpl; [by apply Hskip|].
  destruct (unmarshal (r_Value r)) as [j|] eqn:Hu.
  - exists [], r, tail, fails. by repeat split.
  - apply Hskip; [unfold markCommit; by destruct fails|]. simpl. by intros r' [= <-].
Qed.
