(* ===== verification/Redpanda.v ===== *)
(** * Redpanda: the jobs topic from end to end ([internal/queue/redpanda.go])

    Clients, topic creation, producing and closing, over what the broker answers,
    and the life of a job on the topic: a worker that dequeues and commits against
    a consumer group. [Queue] has the dequeue and the commit themselves. *)

From S2P Require Import Prelude Models GoStrings Queue.

Definition TopicJobs : string := "jobs.benchmark".

Record RedpandaConfig := mkRedpandaConfig {
  rc_Brokers : list string;
  rc_Partitions : Z;
  rc_ReplicationFactor : Z;
  rc_DisableConsumer : bool
}.

Definition defaultJobPartitions : Z := 4.
Definition defaultJobReplFactor : Z := 1.

Definition DefaultRedpandaQueueConfig : RedpandaConfig :=
  mkRedpandaConfig ["127.0.0.1:19092"] defaultJobPartitions defaultJobReplFactor false.

(** The clients a queue holds: whether each is open. *)
Record clients := mkClients { cl_producer : bool; cl_consumer : option bool; cl_closed : bool }.

(** [NewRedpandaQueue]: the clients, or the error. [producer] and [consumer] are the
    errors of the two constructors. *)
Definition newClients (cfg : RedpandaConfig) (producer consumer : option string) : result string clients :=
  if bool_decide (rc_Brokers cfg = []) then Err "queue: RedpandaConfig.Brokers must not be empty"
  else match producer with
  | Some e => Err ("queue: create producer client: " +:+ e)
  | None =>
      if rc_DisableConsumer cfg then Ok (mkClients true None false)
      else match consumer with
           | Some e => Err ("queue: create consumer client: " +:+ e)
           | None => Ok (mkClients true (Some true) false)
           end
  end.

(** [Bootstrap]: the topic of an answer of the broker, and how its creation ended. *)
Inductive create_result := Created | AlreadyExists | CreateError (e : string).

Fixpoint checkTopics (results : list (string * create_result)) : option string :=
  match results with
  | [] => None
  | (topic, CreateError e) :: _ => Some ("queue: create topic " +:+ quoted topic +:+ ": " +:+ e)
  | (_, Created) :: results | (_, AlreadyExists) :: results => checkTopics results
  end.

(** What is asked for: partitions, replicas, topic. *)
Definition rpBootstrap (cfg : RedpandaConfig) (ping : option string)
    (create : Z → Z → string → result string (list (string * create_result))) : option string :=
  match ping with
  | Some e => Some ("queue: broker unreachable at " +:+ slice_text (rc_Brokers cfg) +:+ ": " +:+ e)
  | None =>
      match create (rc_Partitions cfg) (rc_ReplicationFactor cfg) TopicJobs with
      | Err e => Some ("queue: CreateTopics RPC: " +:+ e)
      | Ok results => checkTopics results
      end
  end.

(** What is produced: topic, key and value. *)
Record produced := mkProduced { pr_Topic : string; pr_Key : string; pr_Value : string }.

Definition rpEnqueue (marshal : Job → result string string) (ack : option string) (j : Job)
    : option string * list produced :=
  match marshal j with
  | Err e => (Some ("queue: marshal job " +:+ j_ID j +:+ ": " +:+ e), [])
  | Ok payload =>
      let record := mkProduced TopicJobs (j_SubmissionID j) payload in
      match ack with
      | Some e => (Some ("queue: produce job " +:+ j_ID j +:+ ": " +:+ e), [record])
      | None => (None, [record])
      end
  end.

(** [Close]: once. *)
Definition rpClose (flush : option string) (c : clients) : option string * clients :=
  if cl_closed c then (None, c)
  else (flush, mkClients false ((λ _, false) <$> cl_consumer c) true).

Section session.
Context (unmarshal : string → option Job).

(** [Dequeue] and [CommitJob] of a queue that may have no consumer. *)
Definition clientDequeue (c : clients) (polls : list (list kgo_record * bool)) (q : RedpandaQueue)
    : result string (option (Job * list (list kgo_record * bool))) * RedpandaQueue :=
  match cl_consumer c with
  | None => (Err "queue: consumer disabled", q)
  | Some _ => let '(r, q) := rpDequeue unmarshal polls q in (Ok r, q)
  end.

Definition clientCommit (c : clients) (fails : bool) (q : RedpandaQueue) : option string * RedpandaQueue :=
  match cl_consumer c with
  | None => (Some "queue: consumer disabled", q)
  | Some _ => rpCommitJob fails q
  end.

(** ** A worker on the topic *)
(** A worker that takes jobs and commits each, until the polls are used up: the jobs
    it was given. A dequeue uses up at least one poll. *)
Fixpoint session (fuel : nat) (polls : list (list kgo_record * bool)) (q : RedpandaQueue)
    : list Job * RedpandaQueue :=
  match fuel with
  | O => ([], q)
  | S fuel =>
      match rpDequeue unmarshal polls q with
      | (None, q) => ([], q)
      | (Some (j, polls), q) =>
          let '(jobs, q) := session fuel polls (rpCommitJob false q).2 in (j :: jobs, q)
      end
  end.

(** The offset from which the group resumes a partition: behind the last of the
    records committed in it. *)
Definition committedAt (p : Z) (l : list kgo_record) : Z :=
  foldr (λ r o, if bool_decide (r_Partition r = p) then Z.max (r_Offset r + 1) o else o) 0 l.

Lemma committedAt_lt p l o :
  0 ≤ o → o < committedAt p l ↔ ∃ r, r ∈ l ∧ r_Partition r = p ∧ o ≤ r_Offset r.
Proof.
  intros Ho. induction l as [|r l IH]; simpl.
  - split; [lia|]. by intros (r & []%not_elem_of_nil & _).
  - case_bool_decide as Hp.
    + split.
      * intros H. destruct (decide (o ≤ r_Offset r)); [exists r; split; [by left|done]|].
        destruct IH as [(r' & Hr' & Hp' & Ho') _]; [lia|]. exists r'. split; [by right|done].
      * intros (r' & [->|Hr']%elem_of_cons & Hp' & Ho'); [lia|].
        enough (o < committedAt p l) by lia. apply IH. eauto.
    + rewrite IH. split.
      * intros (r' & Hr' & ?). exists r'. split; [by right|done].
      * intros (r' & [->|Hr']%elem_of_cons & Hp' & ?); [done|]. eauto.
Qed.

(** The jobs and the commits of a session in which no commit fails. *)
Lemma session_spec fuel polls q :
  (length polls < fuel)%nat → Forall (λ p, p.2 = false) polls → rq_marked q = [] →
  let '(jobs, q') := session fuel polls q in
  jobs = omap (λ b, head b ≫= λ r, unmarshal (r_Value r)) polls.*1 ∧
  rq_committed q' = rq_committed q ++ omap head polls.*1.
Proof.
  revert fuel q. induction polls as [|[batch fails] polls IH]; intros fuel q Hf Hok Hm;
    (destruct fuel as [|fuel]; [simpl in Hf; lia|]); [by rewrite app_nil_r|].
  apply Forall_cons in Hok as [Hfl Hok]. simpl in Hfl. subst fails. simpl in Hf.
  destruct batch as [|r batch]; [by apply (IH (S fuel)); [lia|..]|].
  cbn [session rpDequeue head fmap list_fmap omap list_omap fst mbind option_bind].
  destruct (unmarshal (r_Value r)) as [j|].
  - specialize (IH fuel (rpCommitJob false (mkRedpanda (Some r) (rq_marked q) (rq_committed q))).2
      ltac:(lia) Hok eq_refl).
    destruct (session fuel polls _) as [jobs q']. destruct IH as [-> ->]. split; [done|].
    simpl. rewrite Hm. simpl. by rewrite <- app_assoc.
  - specialize (IH (S fuel) (markCommit false r q) ltac:(lia) Hok eq_refl). cbn [session] in IH.
    destruct (rpDequeue unmarshal polls (markCommit false r q)) as [[[j polls']|] q1].
    + destruct (session fuel polls' _) as [jobs q']. destruct IH as [-> ->]. split; [done|].
      simpl. rewrite Hm. simpl. by rewrite <- app_assoc.
    + destruct IH as [-> ->]. split; [done|]. simpl. rewrite Hm. simpl. by rewrite <- app_assoc.
Qed.
End session.


(** Two jobs in one poll and a third in the next: the second is never run. *)
Definition ex_unmarshal (v : string) : option Job := if bool_decide (v = "") then None else Some (sample_job v).
Definition ex_polls : list (list kgo_record * bool) :=
  [([mkRecord 0 0 "a"; mkRecord 0 1 "b"], false); ([], false); ([mkRecord 0 2 "c"], false)].


(** A queue without a consumer gives out no job, and closing twice closes once. *)
Lemma producer_only cfg e polls unmarshal q c :
  rc_DisableConsumer cfg = true → newClients cfg None e = Ok c →
  clientDequeue unmarshal c polls q = (Err "queue: consumer disabled", q).
Proof.
  unfold newClients. intros ->. case_bool_decide; [done|]. by intros [= <-].
Qed.

Lemma rpClose_once flush flush' c :
  let '(_, c1) := rpClose flush c in rpClose flush' c1 = (None, c1).
Proof. unfold rpClose. destruct (cl_closed c) eqn:E; [by rewrite E|done]. Qed.
