(* ===== verification/Submission.v ===== *)
(** * Submission: accepting and storing submissions
    ([internal/submission/service.go], [writejson.go], and
    [ImageForLanguage] of [internal/config/config.go])

    The disk store is a directory of metadata files, each written through a
    temporary file and a rename. What can fail outside the program (the file
    system, the queue, the contest service) is an argument of each operation. *)

From S2P Require Import Prelude Models JsonString Queue.

(** ** writejson.go *)
(** A directory: file names and contents. *)
Abbreviation directory := (gmap string string) (only parsing).

(** The steps of [writeJSON], in order. *)
Inductive write_step := CreateTemp | Encode | Sync | CloseTemp | Rename.

#[export] Instance write_step_eq_dec : EqDecision write_step.
Proof. solve_decision. Defined.

(** The effect of a step that succeeds. Encoding fills the temporary file. *)
Definition write_effect (tmp path v : string) (st : write_step) (d : directory) : directory :=
  match st with
  | CreateTemp => <[tmp := ""]> d
  | Encode => <[tmp := v]> d
  | Sync | CloseTemp => d
  | Rename => match d !! tmp with Some c => <[path := c]> (delete tmp d) | None => d end
  end.

Definition write_steps : list write_step := [CreateTemp; Encode; Sync; CloseTemp; Rename].

(** [writeJSON] with the steps that fail: at the first of them it stops and the
    deferred call removes the temporary file. [None] is success. *)
Fixpoint writeSteps (fails : write_step → bool) (tmp path v : string) (steps : list write_step)
    (d : directory) : option write_step * directory :=
  match steps with
  | [] => (None, d)
  | st :: steps =>
      if fails st
      then (Some st, match st with CreateTemp => d | _ => delete tmp d end)
      else writeSteps fails tmp path v steps (write_effect tmp path v st d)
  end.

Definition writeJSON (fails : write_step → bool) (tmp path v : string) (d : directory)
    : option write_step * directory :=
  writeSteps fails tmp path v write_steps d.

(** The directory after the first [n] steps, if the process dies there. *)
Definition crash_after (n : nat) (tmp path v : string) (d : directory) : directory :=
  fold_left (λ d st, write_effect tmp path v st d) (take n write_steps) d.

(** ** The disk store *)
(** The metadata files that can be read and decoded, by submission id. *)
Abbreviation store := (gmap string Submission) (only parsing).

(** What is read back of a submission that was saved: the file is JSON, so its texts are
    UTF-8 with U+FFFD for every byte that is not. The id, which is the text of a UUID,
    is ASCII. *)
Definition storedResults (r : BenchmarkResults) : BenchmarkResults :=
  mkResults (asUTF8 (br_VolatilityLabel r)) (br_P50LatencyMs r) (br_P90LatencyMs r) (br_P99LatencyMs r)
    (br_MaxTPS r) (br_SustainedTPS r) (br_CorrectnessScore r) (br_TotalOrders r) (br_CorrectFills r)
    (br_IncorrectFills r) (br_RunScore r) (br_CompositeScore r) (asUTF8 (br_BenchmarkDuration r))
    (br_CompletedAt r).

Definition storedScenario (s : DryRunScenarioResult) : DryRunScenarioResult :=
  mkDryRunScenario (asUTF8 (ds_Name s)) (ds_Passed s) (asUTF8 (ds_Reason s)).

Definition storedDryRun (d : DryRunResult) : DryRunResult :=
  mkDryRun (dr_AllPassed d) (storedScenario <$> dr_Scenarios d) (dr_RanAt d) (asUTF8 (dr_FailSummary d)).

Definition stored (s : Submission) : Submission :=
  mkSubmission (s_ID s) (asUTF8 (s_TeamName s)) (asUTF8 (s_Language s)) (asUTF8 (s_Protocol s))
    (asUTF8 (s_Status s)) (asUTF8 (s_StatusMsg s)) (asUTF8 (s_ContestID s)) (asUTF8 (s_ArchivePath s))
    (s_ArchiveSize s) (asUTF8 (s_ContainerID s)) (asUTF8 (s_ContainerName s)) (s_ExposedPort s)
    (s_CreatedAt s) (s_UpdatedAt s) (s_CompletedAt s) (storedResults <$> s_Results s)
    (storedResults <$> s_AllResults s) (s_FinalScore s) (storedDryRun <$> s_DryRunResult s).

(** [DiskStore.Save]. A value without a text, such as a score that is no number, is a save
    that [fails]. *)
Definition Save (fails : bool) (sub : Submission) (s : store) : option string * store :=
  if fails then (Some "save", s) else (None, <[s_ID sub := stored sub]> s).

Definition Get (id : string) (s : store) : result string Submission :=
  match s !! id with Some sub => Ok sub | None => Err ("submission " +:+ id +:+ " not found") end.

(** [Update] stamps the submission it is given, and returns it stamped. *)
Definition Update (fails : bool) (now : time) (sub : Submission) (s : store)
    : option string * Submission * store :=
  let sub := set_UpdatedAt now sub in
  let '(e, s) := Save fails sub s in (e, sub, s).

Section list.
Context `{!SortSlice, !MapRange}.

Definition List (readDirFails : bool) (s : store) : result string (list Submission) :=
  if readDirFails then Err "readdir"
  else Ok (sort_slice (λ a b, s_CreatedAt b <? s_CreatedAt a) (snd <$> map_range s)).
End list.

(** ** config.go *)
Record Images := mkImages {
  ImageGo : string; ImageRust : string; ImageCpp : string; ImagePython : string;
  ImageBinary : string
}.

Definition ImageForLanguage (c : Images) (lang : string) : string * bool :=
  if bool_decide (lang = "go") then (ImageGo c, true)
  else if bool_decide (lang = "rust") then (ImageRust c, true)
  else if bool_decide (lang = "cpp") then (ImageCpp c, true)
  else if bool_decide (lang = "python") then (ImagePython c, true)
  else if bool_decide (lang = "binary") then (ImageBinary c, true)
  else ("", false).

(** ** service.go *)
Inductive ingest_error :=
| ErrLanguage (l : string)
| ErrProtocol (p : string)
| ErrTeamName
| ErrNoImage (l : string)
| ErrModels (e : models_error)
| ErrGuardList (e : string)
| ErrArchive (e : string)
| ErrSave (e : string)
| ErrEnqueue (e : string).

Definition validateLanguage (l : string) : option ingest_error :=
  if bool_decide (l ∈ [LangGo; LangRust; LangCpp; LangPython; LangBinary]) then None
  else Some (ErrLanguage l).

Definition validateProtocol (p : string) : option ingest_error :=
  if bool_decide (p ∈ [ProtocolREST; ProtocolWebSocket; ProtocolFIX]) then None
  else Some (ErrProtocol p).

(** [checkNoActiveSubmission] over the listed submissions. *)
Fixpoint findActive (teamName contestID : string) (all : list Submission) : option models_error :=
  match all with
  | [] => None
  | sub :: all =>
      if negb (bool_decide (s_TeamName sub = teamName)) then findActive teamName contestID all
      else if negb (bool_decide (s_ContestID sub = contestID)) then findActive teamName contestID all
      else if negb (IsTerminal (s_Status sub)) then Some ErrSubmissionInProgress
      else findActive teamName contestID all
  end.

Definition checkNoActiveSubmission `{!SortSlice, !MapRange} (listFails : bool)
    (teamName contestID : string) (s : store) : option ingest_error :=
  match List listFails s with
  | Err e => Some (ErrGuardList e)
  | Ok all => ErrModels <$> findActive teamName contestID all
  end.

(** What happens around one call of [Ingest]. [ev_contest] is [None] without a
    contest getter; [ev_queue] is [None] in local mode, otherwise whether the
    enqueue fails. *)
Record ingest_env := mkIngestEnv {
  ev_contest : option (result string Contest);
  ev_uuid : string;
  ev_now : time;
  ev_listFails : bool;
  ev_archive : result string string;
  ev_saveFails : bool;
  ev_queue : option bool;
  ev_updateFails : bool
}.

(** The contest checks of [Ingest]: the contest's id, empty without a getter. *)
Definition contestChecks `{!SortSlice, !MapRange} (ev : ingest_env) (req : SubmitRequest) (s : store)
    : result ingest_error string :=
  match ev_contest ev with
  | None => Ok ""
  | Some (Err _) => Err (ErrModels ErrContestNotActive)
  | Some (Ok contest) =>
      if match c_SubmissionsClosedAt contest with Some t => t <? ev_now ev | None => false end
      then Err (ErrModels ErrContestNotActive)
      else match checkNoActiveSubmission (ev_listFails ev) (sr_TeamName req) (c_ID contest) s with
      | Some e => Err e
      | None => Ok (c_ID contest)
      end
  end.

Definition newSubmission (ev : ingest_env) (req : SubmitRequest) (size : Z) (contestID : string)
    : Submission :=
  mkSubmission (ev_uuid ev) (sr_TeamName req) (sr_Language req) (sr_Protocol req) StatusPending ""
    contestID "" size "" "" 0 (ev_now ev) (ev_now ev) None None [] F64.zero None.

Definition firstJob (now : time) (sub : Submission) (contestID : string) : Job :=
  if bool_decide (contestID = "") then NewJob now sub
  else NewProfileJob now sub contestID "low" ["medium"; "high"].

(** [setStatus]. *)
Definition setStatus (fails : bool) (now : time) (sub : Submission) (status msg : string) (s : store)
    : Submission * store :=
  let '(_, sub, s) := Update fails now (set_Status status msg sub) s in (sub, s).

(** [Ingest], from the guard's answer on: the new store and what was enqueued. *)
Definition acceptSubmission (ev : ingest_env) (req : SubmitRequest) (size : Z) (contestID : string)
    (s : store) : result ingest_error Submission * store * list Job :=
  let sub := newSubmission ev req size contestID in
  match ev_archive ev with
  | Err e => (Err (ErrArchive e), s, [])
  | Ok path =>
      let sub := set_ArchivePath path sub in
      match Save (ev_saveFails ev) sub s with
      | (Some e, s) => (Err (ErrSave e), s, [])
      | (None, s) =>
          match ev_queue ev with
          | None => (Ok sub, s, [])
          | Some false => (Ok sub, s, [firstJob (ev_now ev) sub contestID])
          | Some true =>
              let '(_, s) := setStatus (ev_updateFails ev) (ev_now ev) sub StatusFailed
                               "enqueue error" s in
              (Err (ErrEnqueue "enqueue"), s, [])
          end
      end
  end.

(** [Ingest] up to the guard's answer: it only reads the store. *)
Definition ingestChecks `{!SortSlice, !MapRange} (images : Images) (ev : ingest_env) (req : SubmitRequest)
    (s : store) : result ingest_error string :=
  match validateLanguage (sr_Language req) with
  | Some e => Err e
  | None =>
    match validateProtocol (sr_Protocol req) with
    | Some e => Err e
    | None =>
      if bool_decide (sr_TeamName req = "") then Err ErrTeamName
      else if negb (ImageForLanguage images (sr_Language req)).2 then Err (ErrNoImage (sr_Language req))
      else contestChecks ev req s
    end
  end.

(** [Ingest] holds no lock from the checks to the save: the two are steps of their own,
    and those of other uploads may come between them, as in [ingest_race] of
    [SubmissionTheorems]. [Ingest] is an upload with none in between. *)
Definition Ingest `{!SortSlice, !MapRange} (images : Images) (ev : ingest_env) (req : SubmitRequest)
    (size : Z) (s : store) : result ingest_error Submission * store * list Job :=
  match ingestChecks images ev req s with
  | Err e => (Err e, s, [])
  | Ok contestID => acceptSubmission ev req size contestID s
  end.

(** [deployAsync], the local mode, with the answer of [Deploy]; [fails] gives
    the failure of each of the two status updates. *)
Definition deployAsync (deploy : result string (string * Z)) (fails1 fails2 : bool) (now : time)
    (sub : Submission) (s : store) : store :=
  let '(sub, s) := setStatus fails1 now sub StatusDeploying "starting container" s in
  match deploy with
  | Err e => (setStatus fails2 now sub StatusFailed ("deploy error: " +:+ e) s).2
  | Ok (containerID, exposedPort) =>
      let sub := set_Container containerID ("nexusbench-" +:+ String.substring 0 8 (s_ID sub))
                   exposedPort sub in
      (setStatus fails2 now sub StatusRunning "container live" s).2
  end.

(** [StopContainer]. *)
Definition StopContainer (stop : option string) (fails : bool) (now : time) (id : string) (s : store)
    : option string * store :=
  match Get id s with
  | Err e => (Some e, s)
  | Ok sub =>
      if bool_decide (s_ContainerID sub = "") then (Some "no container running", s)
      else match stop with
      | Some e => (Some e, s)
      | None => (None, (setStatus fails now sub StatusCompleted "manually stopped" s).2)
      end
  end.

(** ** archiveExt *)
Definition to_lower_char (c : Ascii.ascii) : Ascii.ascii :=
  let n := Ascii.N_of_ascii c in
  if (65 <=? n)%N && (n <=? 90)%N then Ascii.ascii_of_N (n + 32) else c.

(** [strings.ToLower], whose results the program compares with ASCII texts: U+0130 and the
    Kelvin sign become letters of ASCII, the other runes beyond it stay, for they become
    none. *)
Fixpoint ToLower (s : string) : string :=
  match s with
  | EmptyString => EmptyString
  | String c s1 =>
      match Ascii.N_of_ascii c, s1 with
      | 196%N, String d s2 =>
          if (Ascii.N_of_ascii d =? 176)%N then String (Ascii.ascii_of_N 105) (ToLower s2)
          else String c (ToLower s1)
      | 226%N, String d (String e s3) =>
          if ((Ascii.N_of_ascii d =? 132) && (Ascii.N_of_ascii e =? 170))%N
          then String (Ascii.ascii_of_N 107) (ToLower s3)
          else String c (ToLower s1)
      | _, _ => String (to_lower_char c) (ToLower s1)
      end
  end.

Definition HasSuffix (s suffix : string) : bool :=
  let n := (String.length s - String.length suffix)%nat in
  Nat.leb (String.length suffix) (String.length s) &&
  bool_decide (String.substring n (String.length suffix) s = suffix).

(** [filepath.Ext]: from the last dot of the last path element on. *)
Fixpoint ExtFrom (s : string) (best : string) : string :=
  match s with
  | EmptyString => best
  | String c rest =>
      if bool_decide (c = Ascii.ascii_of_N 46) then ExtFrom rest s
      else if bool_decide (c = Ascii.ascii_of_N 47) then ExtFrom rest ""
      else ExtFrom rest best
  end.
Definition Ext (s : string) : string := ExtFrom s "".

Definition archiveExt (filename : string) : string :=
  match list_find (λ ext, HasSuffix (ToLower filename) ext = true)
          [".tar.gz"; ".tar.bz2"; ".tar.xz"; ".tar.zst"] with
  | Some (_, ext) => ext
  | None => Ext filename
  end.

Example archiveExt_examples :
  archiveExt "engine.TAR.GZ" = ".tar.gz" ∧ archiveExt "a/b.c/engine.zip" = ".zip" ∧
  archiveExt "a.d/engine" = "" ∧
  ToLower ("B" +:+ String (Ascii.ascii_of_N 196) (String (Ascii.ascii_of_N 176) "NARY")) = "binary".
Proof. by vm_compute. Qed.
