(* ===== verification/SubmissionTheorems.v ===== *)
(** * SubmissionTheorems: what ingestion and the disk store guarantee
    ([internal/submission]) *)

From S2P Require Import Prelude Models JsonString Queue Submission.

(** ** The disk store *)
Lemma writeSteps_target fails tmp path v steps d :
  tmp ≠ path → Rename ∉ steps → (writeSteps fails tmp path v steps d).2 !! path = d !! path.
Proof.
  intros Hne. revert d. induction steps as [|st steps IH]; intros d Hin; cbn [writeSteps]; [done|].
  apply not_elem_of_cons in Hin as [Hst Hin]. destruct (fails st).
  - destruct st; cbn [snd]; [done|by rewrite lookup_delete_ne..].
  - rewrite IH by done. destruct st; simpl; [by rewrite lookup_insert_ne..|done|done|done].
Qed.

(** The directory when the process dies after [n] steps. *)
Lemma crash_after_path n tmp path v d :
  tmp ≠ path → (n < 5)%nat → crash_after n tmp path v d !! path = d !! path.
Proof.
  intros Hne Hn. unfold crash_after, write_steps.
  do 5 (destruct n as [|n]; [cbn; by rewrite ?lookup_insert_ne by done|]). lia.
Qed.

Lemma crash_after_done n tmp path v d :
  tmp ≠ path → d !! tmp = None → (5 ≤ n)%nat → crash_after n tmp path v d = <[path := v]> d.
Proof.
  intros Hne Htmp Hn. do 5 (destruct n as [|n]; [lia|]). unfold crash_after, write_steps. cbn.
  rewrite !insert_insert_eq, lookup_insert, decide_True by done. 
  rewrite delete_insert_id by done. by destruct n.
Qed.

Lemma writeJSON_result fails tmp path v d :
  d !! tmp = None →
  match writeJSON fails tmp path v d with
  | (None, d') => d' = <[path := v]> d ∧ ∀ st, st ∈ write_steps → fails st = false
  | (Some st, d') => d' = d ∧ fails st = true
  end.
Proof.
  intros Htmp. unfold writeJSON, write_steps. cbn [writeSteps].
  destruct (fails CreateTemp) eqn:H1; [done|]. cbn [write_effect].
  destruct (fails Encode) eqn:H2; [by rewrite delete_insert_id|].
  destruct (fails Sync) eqn:H3; [by rewrite insert_insert_eq, delete_insert_id|].
  destruct (fails CloseTemp) eqn:H4; [by rewrite insert_insert_eq, delete_insert_id|].
  destruct (fails Rename) eqn:H5; [by rewrite insert_insert_eq, delete_insert_id|].
  rewrite insert_insert_eq, lookup_insert, decide_True, delete_insert_id by done.
  split; [done|]. intros st Hst. by destruct st.
Qed.

(** Writing a metadata file is atomic. Whatever step fails, and wherever
    the process dies, a reader of the file sees the old content or the whole
    new one; on success the directory changes at that file only, and after an
    error it is as it was, the temporary file included. *)
Theorem writeJSON_atomic fails n tmp path v d :
  tmp ≠ path → d !! tmp = None →
  (crash_after n tmp path v d !! path = d !! path ∨ crash_after n tmp path v d !! path = Some v) ∧
  match writeJSON fails tmp path v d with
  | (None, d') => d' = <[path := v]> d ∧ ∀ st, st ∈ write_steps → fails st = false
  | (Some st, d') => d' = d ∧ fails st = true
  end.
Proof.
  intros Hne Htmp. split.
  - destruct (decide (n < 5)%nat); [left; by apply crash_after_path|right].
    rewrite crash_after_done by (done || lia). by rewrite lookup_insert, decide_True.
  - by apply writeJSON_result.
Qed.

Lemma writeJSON_atomic_witness :
  (crash_after 3 "t" "meta.json" "new" {["meta.json" := "old"]} !! "meta.json" =
     ({["meta.json" := "old"]} : gmap string string) !! "meta.json" ∨
   crash_after 3 "t" "meta.json" "new" {["meta.json" := "old"]} !! "meta.json" = Some "new") ∧
  match writeJSON (λ st, bool_decide (st = Sync)) "t" "meta.json" "new" {["meta.json" := "old"]} with
  | (None, d') => d' = <["meta.json" := "new"]> {["meta.json" := "old"]} ∧
      ∀ st, st ∈ write_steps → bool_decide (st = Sync) = false
  | (Some st, d') => d' = {["meta.json" := "old"]} ∧ bool_decide (st = Sync) = true
  end.
Proof. by apply (writeJSON_atomic (λ st, bool_decide (st = Sync)) 3). Defined.

(** ** What is stored *)
Lemma storedResults_idemp r : storedResults (storedResults r) = storedResults r.
Proof. unfold storedResults. simpl. by rewrite !asUTF8_idemp. Qed.

Lemma storedDryRun_idemp d : storedDryRun (storedDryRun d) = storedDryRun d.
Proof.
  unfold storedDryRun. simpl. rewrite asUTF8_idemp, <- list_fmap_compose. f_equal. apply list_fmap_ext.
  intros i [n p r] _. unfold storedScenario. simpl. by rewrite !asUTF8_idemp.
Qed.

(** What was read back is read back as it is. *)
Lemma stored_idemp sub : stored (stored sub) = stored sub.
Proof.
  unfold stored. simpl. rewrite !asUTF8_idemp, <- option_fmap_compose, <- option_fmap_compose, <- list_fmap_compose.
  f_equal.
  - destruct (s_Results sub); [|done]. simpl. by rewrite storedResults_idemp.
  - apply list_fmap_ext. intros i r _. apply storedResults_idemp.
  - destruct (s_DryRunResult sub); [|done]. simpl. by rewrite storedDryRun_idemp.
Qed.

(** ** Ingestion *)
(** A language that passes the check has an image: the later test of [Ingest]
    never fails. *)
Lemma validateLanguage_image images l :
  validateLanguage l = None ↔ (ImageForLanguage images l).2 = true.
Proof.
  unfold validateLanguage, ImageForLanguage, LangGo, LangRust, LangCpp, LangPython, LangBinary.
  case_bool_decide as Hl; repeat case_bool_decide; subst; split; try done;
    intros; exfalso; try (apply Hl; set_solver); set_solver.
Qed.

Definition sample_images : Images := mkImages "go" "rust" "cpp" "python" "binary".
Definition sample_contest : Contest :=
  mkContest "c1" "Contest" ContestStatusActive zeroProfile zeroProfile zeroProfile
    F64.zero F64.zero F64.zero None None None 0 0.
Definition sample_env : ingest_env :=
  mkIngestEnv (Some (Ok sample_contest)) "u1" 7 false (Ok "/data/u1/archive.zip") false (Some false) false.
Definition sample_req : SubmitRequest := mkSubmitRequest "team" "go" "rest".

Definition sample_active : Submission :=
  mkSubmission "u0" "team" "go" "rest" StatusRunning "" "c1" "" 1 "" "" 0 0 0 None None [] F64.zero None.

Section ingest.
Context `{!SortSlice, !MapRange}.

Lemma findActive_None team contest all :
  findActive team contest all = None ↔
  ∀ sub, sub ∈ all → s_TeamName sub = team → s_ContestID sub = contest →
    IsTerminal (s_Status sub) = true.
Proof.
  induction all as [|sub all IH]; cbn [findActive]; [split; [by intros _ sub []%not_elem_of_nil|done]|].
  assert (Hcons : ∀ P : Submission → Prop,
    (∀ x, x ∈ sub :: all → P x) ↔ P sub ∧ ∀ x, x ∈ all → P x) by set_solver.
  rewrite (Hcons (λ x, s_TeamName x = team → s_ContestID x = contest → IsTerminal (s_Status x) = true)).
  repeat case_bool_decide; simpl; [|rewrite IH; naive_solver..].
  destruct (IsTerminal (s_Status sub)); simpl; [rewrite IH; naive_solver|].
  split; [done|]. intros [Ht _]. by specialize (Ht ltac:(done) ltac:(done)).
Qed.

Lemma List_elem s all sub : List false s = Ok all → sub ∈ all ↔ ∃ id, s !! id = Some sub.
Proof.
  unfold List. intros [= <-]. rewrite sort_slice_perm, list_elem_of_fmap. split.
  - intros ([id x] & -> & Hx). exists id. by apply elem_of_map_range.
  - intros [id Hid]. exists (id, sub). split; [done|]. by apply elem_of_map_range.
Qed.

Lemma checkNoActive_spec fails team contest s :
  checkNoActiveSubmission fails team contest s = None ↔
  fails = false ∧ ∀ id sub, s !! id = Some sub → s_TeamName sub = team →
    s_ContestID sub = contest → IsTerminal (s_Status sub) = true.
Proof.
  unfold checkNoActiveSubmission. destruct fails; [by split; [|intros []]|].
  destruct (List false s) as [all|] eqn:Hl; [|done].
  split.
  - intros Hf. split; [done|]. intros id sub Hs.
    destruct (findActive team contest all) as [|] eqn:Hfa; [done|].
    apply (proj1 (findActive_None team contest all) Hfa). apply (List_elem s all); eauto.
  - intros [_ Hall]. destruct (findActive team contest all) as [|] eqn:Hfa; [|done].
    rewrite (proj2 (findActive_None team contest all)) in Hfa; [done|].
    intros sub Hs. apply (List_elem s all) in Hs as [id Hid]; eauto.
Qed.

(** At most one submission of a team in a contest is under way. *)
Definition one_active (s : gmap string Submission) : Prop :=
  ∀ id1 id2 a b, s !! id1 = Some a → s !! id2 = Some b →
    s_TeamName a = s_TeamName b → s_ContestID a = s_ContestID b → s_ContestID a ≠ "" →
    IsTerminal (s_Status a) = false → IsTerminal (s_Status b) = false → id1 = id2.

Lemma one_active_insert id sub s :
  one_active s →
  (IsTerminal (s_Status sub) = false → s_ContestID sub ≠ "" →
   ∀ id' b, s !! id' = Some b → s_TeamName b = s_TeamName sub → s_ContestID b = s_ContestID sub →
     id' ≠ id → IsTerminal (s_Status b) = true) →
  one_active (<[id := sub]> s).
Proof.
  intros Hone Hnew id1 id2 a b. rewrite !lookup_insert.
  case_decide as H1; case_decide as H2; subst; intros Ha Hb Ht Hc Hne Hta Htb; simplify_eq; [done|..].
  - assert (IsTerminal (s_Status b) = true) as He; [|by rewrite He in Htb].
    apply (Hnew ltac:(done) ltac:(done) id2 b); auto.
  - assert (IsTerminal (s_Status a) = true) as He; [|by rewrite He in Hta].
    apply (Hnew ltac:(done) ltac:(congruence) id1 a); auto.
  - by apply (Hone id1 id2 a b).
Qed.

(** The submission that [acceptSubmission] stores. *)
Lemma acceptSubmission_cases ev req size cid s :
  let sub path := set_ArchivePath path (newSubmission ev req size cid) in
  let '(r, s', jobs) := acceptSubmission ev req size cid s in
  match r with
  | Ok x => ∃ path, ev_archive ev = Ok path ∧ x = sub path ∧ s' = <[ev_uuid ev := stored x]> s ∧
      ev_saveFails ev = false ∧ ev_queue ev ≠ Some true ∧
      jobs = match ev_queue ev with None => [] | Some _ => [firstJob (ev_now ev) x cid] end
  | Err e => jobs = [] ∧ (ev_saveFails ev = true ∨ ev_queue ev = Some true ∨ is_ok (ev_archive ev) = false) ∧
     (s' = s ∧ (∀ e', e ≠ ErrModels e') ∨
      ∃ path x, ev_archive ev = Ok path ∧ e = ErrEnqueue "enqueue" ∧ s' = <[ev_uuid ev := stored x]> s ∧
        s_ID x = ev_uuid ev ∧ s_TeamName x = sr_TeamName req ∧ s_ContestID x = cid ∧
        s_Status x = if ev_updateFails ev then StatusPending else StatusFailed)
  end.
Proof.
  intros sub. unfold acceptSubmission. destruct (ev_archive ev) as [path|e]; [|split_and!; auto].
  unfold Save. destruct (ev_saveFails ev); [split_and!; auto|].
  destruct (ev_queue ev) as [[]|]; [|exists path; by split_and!..].
  unfold setStatus, Update, Save. destruct (ev_updateFails ev); (split; [done|]); (split; [auto|]); right.
  - by exists path, (sub path).
  - eexists path, _. do 2 (split; [done|]). split; [apply insert_insert_eq|]. done.
Qed.

Lemma ingestChecks_Ok images ev req s cid :
  ingestChecks images ev req s = Ok cid ↔
  validateLanguage (sr_Language req) = None ∧ validateProtocol (sr_Protocol req) = None ∧
  sr_TeamName req ≠ "" ∧ contestChecks ev req s = Ok cid.
Proof.
  unfold ingestChecks. pose proof (validateLanguage_image images (sr_Language req)) as Hi.
  destruct (validateLanguage _); [naive_solver|]. destruct (validateProtocol _); [naive_solver|].
  rewrite (proj1 Hi eq_refl). case_bool_decide; naive_solver.
Qed.

(** The checks of an upload that another one is in the way of, and of which nothing
    else is wrong. *)
Lemma ingestChecks_busy images ev req c s id sub :
  ev_contest ev = Some (Ok c) → s !! id = Some sub → s_TeamName sub = sr_TeamName req →
  s_ContestID sub = c_ID c → IsTerminal (s_Status sub) = false →
  ∃ e, ingestChecks images ev req s = Err e ∧
    (validateLanguage (sr_Language req) = None → validateProtocol (sr_Protocol req) = None →
     sr_TeamName req ≠ "" → (∀ t, c_SubmissionsClosedAt c = Some t → ev_now ev ≤ t) → ev_listFails ev = false →
     e = ErrModels ErrSubmissionInProgress).
Proof.
  intros Hev Hs Ht Hc Hterm. unfold ingestChecks.
  pose proof (validateLanguage_image images (sr_Language req)) as Hi.
  destruct (validateLanguage _); [by eexists|]. destruct (validateProtocol _); [by eexists|].
  rewrite (proj1 Hi eq_refl). case_bool_decide; [by eexists|]. cbn [negb]. unfold contestChecks. rewrite Hev.
  destruct (match c_SubmissionsClosedAt c with Some t => t <? ev_now ev | None => false end) eqn:Hcl.
  { eexists. split; [done|]. intros _ _ _ Hopen _. destruct (c_SubmissionsClosedAt c) as [t|]; [|done].
    specialize (Hopen t eq_refl). lia. }
  destruct (checkNoActiveSubmission _ _ _ s) as [e|] eqn:Hg.
  - exists e. split; [done|]. intros _ _ _ _ Hl. unfold checkNoActiveSubmission in Hg. rewrite Hl in Hg.
    destruct (List false s) as [all|] eqn:Hall; [|done]. clear -Hg.
    assert (∀ e, findActive (sr_TeamName req) (c_ID c) all = Some e → e = ErrSubmissionInProgress) as Hf.
    { clear Hg. intros e'. induction all as [|x all IH]; [done|]. cbn [findActive].
      do 2 (destruct (negb _); [exact IH|]). destruct (negb _); [by intros [= <-]|exact IH]. }
    destruct (findActive _ _ all) as [e'|]; [|done]. injection Hg as <-. by rewrite (Hf e').
  - apply checkNoActive_spec in Hg as [_ Hg]. specialize (Hg id sub Hs Ht Hc). congruence.
Qed.

Lemma contestChecks_Ok ev req s cid :
  contestChecks ev req s = Ok cid →
  (ev_contest ev = None ∧ cid = "") ∨
  ∃ c, ev_contest ev = Some (Ok c) ∧ cid = c_ID c ∧
    (∀ t, c_SubmissionsClosedAt c = Some t → ev_now ev ≤ t) ∧
    ∀ id sub, s !! id = Some sub → s_TeamName sub = sr_TeamName req → s_ContestID sub = cid →
      IsTerminal (s_Status sub) = true.
Proof.
  unfold contestChecks. destruct (ev_contest ev) as [[c|]|]; [|done|by intros [= <-]; left].
  destruct (c_SubmissionsClosedAt c) as [t|] eqn:Ht; simpl;
    [destruct (Z.ltb_spec t (ev_now ev)); [done|]|];
    (destruct (checkNoActiveSubmission _ _ _ s) eqn:Hg; [done|]); intros [= <-]; right; exists c;
    (split; [done|]); (split; [done|]); apply checkNoActive_spec in Hg as [_ Hg]; split; try done;
    intros t' Ht'; simplify_eq; lia.
Qed.

(** The second half of an upload, on a store where its checks pass: also when others have
    written since, as long as the checks would still pass. *)
Lemma accept_one_active ev req size cid s :
  utf8 (sr_TeamName req) = true → utf8 cid = true → one_active s →
  (cid ≠ "" → ∀ id sub, s !! id = Some sub → s_TeamName sub = sr_TeamName req → s_ContestID sub = cid →
     IsTerminal (s_Status sub) = true) →
  one_active (acceptSubmission ev req size cid s).1.2.
Proof.
  intros Hteam Hcid Hone Hfree. pose proof (acceptSubmission_cases ev req size cid s) as Hacc. cbn zeta in Hacc.
  destruct (acceptSubmission ev req size cid s) as [[r s'] jobs]. cbn [fst snd].
  assert (Hnew : ∀ x, s_TeamName x = sr_TeamName req → s_ContestID x = cid →
    one_active (<[ev_uuid ev := stored x]> s)).
  { intros x Ht Hcx. apply one_active_insert; [done|]. cbn [s_TeamName s_ContestID stored].
    rewrite Ht, Hcx, !asUTF8_id by done. intros _ Hne id' b Hb Htb Hcb _. by apply (Hfree Hne id'). }
  destruct r as [x|e].
  - destruct Hacc as (path & _ & -> & -> & _). by apply Hnew.
  - destruct Hacc as (_ & _ & [[-> _]|(path & x & _ & _ & -> & _ & Ht & Hcx & _)]); [done|by apply Hnew].
Qed.

(** C12: One submission at a time, for uploads that are taken one after the other and
    names that are UTF-8. If no team has two submissions under way in one contest, this
    is still so after an upload, whatever its outcome and whatever fails on the way; and
    an upload of a team that has one under way is refused, leaves the store as it was
    and queues nothing, with [ErrSubmissionInProgress] unless something else about it
    is wrong. Two uploads at the same time can both pass the checks, see [ingest_race],
    and a name that is not UTF-8 is stored as another, see [raw_team_name_evades]. *)
Theorem ingest_one_active images ev req size s :
  utf8 (sr_TeamName req) = true → (∀ c, ev_contest ev = Some (Ok c) → utf8 (c_ID c) = true) → one_active s →
  one_active (Ingest images ev req size s).1.2 ∧
  ∀ c id sub, ev_contest ev = Some (Ok c) → s !! id = Some sub →
    s_TeamName sub = sr_TeamName req → s_ContestID sub = c_ID c → IsTerminal (s_Status sub) = false →
    ∃ e, Ingest images ev req size s = (Err e, s, []) ∧
      (validateLanguage (sr_Language req) = None → validateProtocol (sr_Protocol req) = None →
       sr_TeamName req ≠ "" → (∀ t, c_SubmissionsClosedAt c = Some t → ev_now ev ≤ t) → ev_listFails ev = false →
       e = ErrModels ErrSubmissionInProgress).
Proof.
  intros Hteam Hcid Hone. split.
  - unfold Ingest. destruct (ingestChecks images ev req s) as [cid|e] eqn:Hc; [|done].
    apply ingestChecks_Ok in Hc as (_ & _ & _ & Hc). apply contestChecks_Ok in Hc.
    apply accept_one_active; [done| |done|].
    + destruct Hc as [[_ ->]|(c & Hev & -> & _)]; [done|by apply Hcid].
    + intros Hne id sub Hs Ht Hcs. destruct Hc as [[_ ->]|(c & _ & -> & _ & Hall)]; [done|by apply (Hall id)].
  - intros c id sub Hev Hs Ht Hcs Hterm.
    destruct (ingestChecks_busy images ev req c s id sub Hev Hs Ht Hcs Hterm) as (e & He & Hbusy).
    exists e. unfold Ingest. by rewrite He.
Qed.

(** Two uploads of one team that both make their checks before either is saved are both
    accepted: the rule is not kept. *)
Lemma ingest_race images ev ev' req size cid path path' s :
  ingestChecks images ev req s = Ok cid → ingestChecks images ev' req s = Ok cid → cid ≠ "" → utf8 cid = true →
  ev_archive ev = Ok path → ev_archive ev' = Ok path' → ev_saveFails ev = false → ev_saveFails ev' = false →
  ev_queue ev = Some false → ev_queue ev' = Some false → ev_uuid ev ≠ ev_uuid ev' →
  let '(r, s1, _) := acceptSubmission ev req size cid s in
  let '(r', s2, _) := acceptSubmission ev' req size cid s1 in
  is_ok r = true ∧ is_ok r' = true ∧ ¬ one_active s2.
Proof.
  intros _ _ Hne Hu Ha Ha' Hs Hs' Hq Hq' Hid. unfold acceptSubmission. rewrite Ha, Ha', Hs, Hs', Hq, Hq'. simpl.
  split; [done|]. split; [done|]. intros Hone. apply Hid.
  eapply Hone; [by rewrite lookup_insert_ne, lookup_insert, decide_True|by rewrite lookup_insert, decide_True|..];
    try done. simpl. by rewrite asUTF8_id.
Qed.

End ingest.

(** It happens: two uploads to an empty store. *)
Example ingest_race_happens :
  let ev' := mkIngestEnv (Some (Ok sample_contest)) "u2" 7 false (Ok "/data/u2/archive.zip") false (Some false) false in
  ingestChecks sample_images sample_env sample_req ∅ = Ok "c1" ∧
  ingestChecks sample_images ev' sample_req ∅ = Ok "c1" ∧
  let s := (acceptSubmission ev' sample_req 10 "c1" (acceptSubmission sample_env sample_req 10 "c1" ∅).1.2).1.2 in
  ¬ one_active s.
Proof.
  intros ev'. split; [by vm_compute|]. split; [by vm_compute|].
  by apply (ingest_race sample_images sample_env ev' sample_req 10 "c1" "/data/u1/archive.zip" "/data/u2/archive.zip" ∅).
Qed.

Lemma ingest_one_active_witness :
  one_active (Ingest sample_images sample_env sample_req 10 {["u0" := sample_active]}).1.2 ∧
  Ingest sample_images sample_env sample_req 10 {["u0" := sample_active]} =
    (Err (ErrModels ErrSubmissionInProgress), {["u0" := sample_active]}, []).
Proof.
  destruct (ingest_one_active sample_images sample_env sample_req 10 {["u0" := sample_active]}) as [Hone Hbusy].
  - reflexivity.
  - by intros c [= <-].
  - intros id1 id2 a b [<- _]%lookup_singleton_Some [<- _]%lookup_singleton_Some. done.
  - split; [exact Hone|]. destruct (Hbusy sample_contest "u0" sample_active) as (e & -> & ->); done.
Defined.

(** C37: Every way an upload can end. It is accepted exactly when language,
    protocol and team are valid, the contest takes submissions, the archive and
    the metadata are stored and the queue takes the job; then one new submission
    is stored, pending, and exactly one job is queued, the first of the chain
    low, medium, high in a contest. Otherwise no job is queued, and the store
    is unchanged, unless it was the queue that failed: then the submission is
    marked as failed. *)
Theorem ingest_outcome `{!SortSlice, !MapRange} images ev req size s :
  let '(r, s', jobs) := Ingest images ev req size s in
  (is_ok r = true ↔ validateLanguage (sr_Language req) = None ∧ validateProtocol (sr_Protocol req) = None ∧
     sr_TeamName req ≠ "" ∧ is_ok (contestChecks ev req s) = true ∧ is_ok (ev_archive ev) = true ∧
     ev_saveFails ev = false ∧ ev_queue ev ≠ Some true) ∧
  match r with
  | Ok sub =>
      validateLanguage (sr_Language req) = None ∧ validateProtocol (sr_Protocol req) = None ∧
      sr_TeamName req ≠ "" ∧ contestChecks ev req s = Ok (s_ContestID sub) ∧
      s_Status sub = StatusPending ∧ s_TeamName sub = sr_TeamName req ∧ s_ID sub = ev_uuid ev ∧
      ev_archive ev = Ok (s_ArchivePath sub) ∧ s' = <[ev_uuid ev := stored sub]> s ∧
      match ev_queue ev with
      | None => jobs = []
      | Some _ => ∃ j, jobs = [j] ∧ j_SubmissionID j = s_ID sub ∧ j_ContestID j = s_ContestID sub ∧
          (if decide (s_ContestID sub = "")
           then j_VolatilityLabel j = "" ∧ IsLastProfile j = true
           else j_VolatilityLabel j = "low" ∧ j_RemainingProfiles j = ["medium"; "high"])
      end
  | Err e =>
      jobs = [] ∧
      (s' = s ∨ e = ErrEnqueue "enqueue" ∧ ∃ sub, s' = <[ev_uuid ev := sub]> s ∧
        (ev_updateFails ev = false → s_Status sub = StatusFailed))
  end.
Proof.
  unfold Ingest. destruct (ingestChecks images ev req s) as [cid|e] eqn:Hc.
  - apply ingestChecks_Ok in Hc as (Hl & Hp & Ht & Hcc).
    pose proof (acceptSubmission_cases ev req size cid s) as Hacc. cbn zeta in Hacc.
    destruct (acceptSubmission ev req size cid s) as [[[x|e] s'] jobs].
    + destruct Hacc as (path & Hpath & -> & -> & Hsave & Hq & ->). rewrite Hcc, Hpath. split; [by split|].
      cbn. do 9 (split; [done|]).
      destruct (ev_queue ev); [|done]. eexists. split; [done|]. unfold firstJob.
      case_bool_decide; subst; simpl; repeat case_decide; done.
    + destruct Hacc as (-> & Hwhy & Hacc).
      split; [split; [done|]; intros (_ & _ & _ & _ & Ha & Hs & Hq); destruct Hwhy as [?|[?|?]]; congruence|].
      split; [done|]. destruct Hacc as [[-> _]|(path & x & _ & -> & -> & _ & _ & _ & Hst)]; [by left|].
      right. split; [done|]. exists (stored x). split; [done|]. intros Hf. cbn [s_Status stored]. by rewrite Hst, Hf.
  - split; [|by split; [|left]]. split; [done|]. intros (Hl & Hp & Ht & Hcc & _).
    destruct (contestChecks ev req s) as [cid|] eqn:Hcid; [|done].
    rewrite (proj2 (ingestChecks_Ok images ev req s cid)) in Hc; done.
Qed.

(** ** File names *)
Fixpoint no_slash (s : string) : Prop :=
  match s with
  | EmptyString => True
  | String c s => c ≠ Ascii.ascii_of_N 47 ∧ no_slash s
  end.

Definition dot_or_empty (e : string) : Prop := e = "" ∨ ∃ t, e = String (Ascii.ascii_of_N 46) t.

Lemma ExtFrom_cases s best :
  (ExtFrom s best = best ∧ no_slash s) ∨ (no_slash (ExtFrom s best) ∧ dot_or_empty (ExtFrom s best)).
Proof.
  unfold dot_or_empty. revert best. induction s as [|c s IH]; intros best; cbn [ExtFrom no_slash]; [by left|].
  case_bool_decide as Hdot; [|case_bool_decide as Hslash].
  - subst. right. destruct (IH (String (Ascii.ascii_of_N 46) s)) as [[-> Hs]|]; [|done].
    split; [|eauto]. split; [|done]. discriminate.
  - right. destruct (IH "") as [[-> _]|]; [by split; [|left]|done].
  - destruct (IH best) as [[-> Hs]|]; [by left|by right].
Qed.

Definition compoundExts : list string := [".tar.gz"; ".tar.bz2"; ".tar.xz"; ".tar.zst"].

(** The name an archive is stored under stays in the submission's
    directory, whatever name the client sends: the extension kept from it is
    empty or begins with a dot, and contains no path separator; it is one of
    the compound extensions when the name ends with one in any letter case. *)
Theorem archive_name_safe filename :
  no_slash (archiveExt filename) ∧ dot_or_empty (archiveExt filename) ∧
  ((∃ ext, ext ∈ compoundExts ∧ HasSuffix (ToLower filename) ext = true ∧ archiveExt filename = ext) ∨
   (∀ ext, ext ∈ compoundExts → HasSuffix (ToLower filename) ext = false) ∧
    archiveExt filename = Ext filename).
Proof.
  unfold archiveExt. fold compoundExts.
  destruct (list_find _ compoundExts) as [[i ext]|] eqn:Hf.
  - apply list_find_Some in Hf as (Hl & Hs & _). apply list_elem_of_lookup_2 in Hl as Hin.
    split; [|split]; [..|left; by exists ext]; clear Hl Hs;
      cases_in Hin; try (by apply not_elem_of_nil in Hin);
      try (right; by eexists); by repeat split.
  - apply list_find_None in Hf. rewrite Forall_forall in Hf.
    assert (no_slash (Ext filename) ∧ dot_or_empty (Ext filename)) as [??].
    { unfold Ext. destruct (ExtFrom_cases filename "") as [[-> _]|]; [|done]. by split; [|left]. }
    split; [done|]. split; [done|]. right. split; [|done]. intros ext Hin.
    apply not_true_iff_false. by apply Hf.
Qed.
