(* ===== verification/Disk.v ===== *)
(** * Disk: the submission store on the file system
    ([internal/submission/service.go])

    [Submission] has the store as a map from ids to submissions. Here is the tree of
    directories behind it, with every operation of the file system that may fail, and
    the uploaded archive beside the metadata; the map is what can be read of the
    tree. The JSON coder is an argument here, and that of [Wire] in [Pipeline]. *)

From S2P Require Import Prelude Models Submission SubmissionTheorems.

(** An entry of the base directory, and the base directory. *)
Inductive entry := EDir (files : gmap string string) | EFile.
Abbreviation tree := (gmap string entry) (only parsing).

Definition metaName : string := "meta.json".

(** [filepath.Join] of clean elements. *)
Definition joinPath (base id file : string) : string := base +:+ "/" +:+ id +:+ "/" +:+ file.

Definition metaPath (baseDir id : string) : string := joinPath baseDir id metaName.

(** [os.MkdirAll] of one directory in the base directory. *)
Definition MkdirAll (fails : bool) (name : string) (t : tree) : option string * tree :=
  if fails then (Some "mkdir", t)
  else match t !! name with
       | None => (None, <[name := EDir ∅]> t)
       | Some (EDir _) => (None, t)
       | Some EFile => (Some "not a directory", t)
       end.

Definition filesOf (e : entry) : gmap string string := match e with EDir d => d | EFile => ∅ end.
Definition files (name : string) (t : tree) : gmap string string := default ∅ (filesOf <$> t !! name).

(** The failures around one save, with the name of the temporary file. *)
Record save_env := mkSaveEnv {
  sv_mkdirFails : bool;
  sv_fails : write_step → bool;
  sv_tmp : string
}.

Section disk.
Context (encode : Submission → string) (decode : string → option Submission).

(** [DiskStore.Save]. *)
Definition disk_Save (ev : save_env) (sub : Submission) (t : tree) : option string * tree :=
  match MkdirAll (sv_mkdirFails ev) (s_ID sub) t with
  | (Some e, t) => (Some ("mkdir: " +:+ e), t)
  | (None, t) =>
      let '(e, d) := writeJSON (sv_fails ev) (sv_tmp ev) metaName (encode sub) (files (s_ID sub) t) in
      ((λ _, "writeJSON") <$> e, <[s_ID sub := EDir d]> t)
  end.

Definition disk_Update (ev : save_env) (now : time) (sub : Submission) (t : tree)
    : option string * Submission * tree :=
  let sub := set_UpdatedAt now sub in
  let '(e, t) := disk_Save ev sub t in (e, sub, t).

(** [readJSON] of a metadata file; [fails]: it cannot be opened. *)
Definition readJSON (fails : bool) (d : gmap string string) : option Submission :=
  if fails then None else d !! metaName ≫= decode.

(** [DiskStore.Get]. *)
Definition disk_Get (fails : bool) (id : string) (t : tree) : result string Submission :=
  match readJSON fails (files id t) with
  | Some sub => Ok sub
  | None => Err ("submission " +:+ id +:+ " not found")
  end.

(** The loop of [DiskStore.List] over the entries, in the order of [os.ReadDir]. *)
Fixpoint readEntries (fails : string → bool) (entries : list (string * entry)) : list Submission :=
  match entries with
  | [] => []
  | (_, EFile) :: entries => readEntries fails entries
  | (name, EDir d) :: entries =>
      match readJSON (fails name) d with
      | None => readEntries fails entries
      | Some sub => sub :: readEntries fails entries
      end
  end.

Definition disk_List `{!SortSlice, !MapRange} (readDirFails : bool) (fails : string → bool) (t : tree)
    : result string (list Submission) :=
  if readDirFails then Err "readdir"
  else Ok (sort_slice (λ a b, s_CreatedAt b <? s_CreatedAt a) (readEntries fails (map_range t))).

(** ** The archive *)
Inductive archive_step := AMkdir | AOpen | ACreate | ACopy.

(** [storeArchive] of an upload; a copy that fails has written [written] bytes. *)
Definition archiveName (filename : string) : string := "archive" +:+ archiveExt filename.

Definition writeFile (id name content : string) (t : tree) : tree :=
  <[id := EDir (<[name := content]> (files id t))]> t.

Definition storeArchive (fails : archive_step → bool) (written : nat) (baseDir id filename content : string)
    (t : tree) : result string string * tree :=
  match MkdirAll (fails AMkdir) id t with
  | (Some e, t) => (Err e, t)
  | (None, t) =>
      let name := archiveName filename in
      if fails AOpen then (Err "open", t)
      else if fails ACreate then (Err "create", t)
      else if fails ACopy then (Err "copy", writeFile id name (String.substring 0 written content) t)
      else (Ok (joinPath baseDir id name), writeFile id name content t)
  end.

(** What [Ingest] does on the disk: the archive, then the metadata. *)
Definition upload (afails : archive_step → bool) (written : nat) (ev : save_env)
    (baseDir filename content : string) (sub : Submission) (t : tree)
    : result ingest_error Submission * tree :=
  match storeArchive afails written baseDir (s_ID sub) filename content t with
  | (Err e, t) => (Err (ErrArchive e), t)
  | (Ok path, t) =>
      let sub := set_ArchivePath path sub in
      match disk_Save ev sub t with
      | (Some e, t) => (Err (ErrSave e), t)
      | (None, t) => (Ok sub, t)
      end
  end.

(** Where the process may die: at a step of the archive, or after some steps of
    writing the metadata. *)
Inductive crash_point := InArchive (st : archive_step) (written : nat) | InSave (steps : nat).

Definition upload_crash (p : crash_point) (tmp baseDir filename content : string) (sub : Submission)
    (t : tree) : tree :=
  match p with
  | InArchive st written =>
      (storeArchive (λ st', match st, st' with
                            | AMkdir, AMkdir | AOpen, AOpen | ACreate, ACreate | ACopy, ACopy => true
                            | _, _ => false
                            end) written baseDir (s_ID sub) filename content t).2
  | InSave steps =>
      let '(r, t) := storeArchive (λ _, false) 0 baseDir (s_ID sub) filename content t in
      match r with
      | Err _ => t
      | Ok path =>
          <[s_ID sub := EDir (crash_after steps tmp metaName (encode (set_ArchivePath path sub))
                                (files (s_ID sub) t))]> t
      end
  end.

(** ** What can be read *)
(** The submission in a directory, and those of the tree. *)
Definition readEntry (e : entry) : option Submission :=
  match e with EDir d => readJSON false d | EFile => None end.

Definition readable (t : tree) : gmap string Submission := omap readEntry t.

Lemma readable_lookup t id : readable t !! id = t !! id ≫= readEntry.
Proof. apply lookup_omap. Qed.

Lemma readable_files t id : readable t !! id = readJSON false (files id t).
Proof.
  rewrite readable_lookup. unfold files. destruct (t !! id) as [[d|]|]; simpl; [done|..];
    unfold readJSON; by rewrite lookup_empty.
Qed.

Lemma readable_insert t id d :
  readable (<[id := EDir d]> t) =
    match readJSON false d with Some sub => <[id := sub]> (readable t) | None => delete id (readable t) end.
Proof.
  apply map_eq. intros i. rewrite readable_lookup.
  destruct (decide (id = i)) as [<-|Hi].
  - rewrite lookup_insert, decide_True by done. cbn [mbind option_bind readEntry].
    destruct (readJSON false d).
    + by rewrite lookup_insert, decide_True.
    + by rewrite lookup_delete, decide_True.
  - rewrite lookup_insert_ne by done. rewrite <- readable_lookup.
    destruct (readJSON false d); [by rewrite lookup_insert_ne|by rewrite lookup_delete_ne].
Qed.

(** A directory whose metadata is as before. *)
Lemma readable_same t id d :
  d !! metaName = files id t !! metaName → readable (<[id := EDir d]> t) = readable t.
Proof.
  intros Hd. rewrite readable_insert. pose proof (readable_files t id) as Hr. unfold readJSON in *. rewrite Hd.
  destruct (files id t !! metaName ≫= decode) as [sub|].
  - by rewrite insert_id.
  - by rewrite delete_id.
Qed.
End disk.
