(* ===== verification/DiskTheorems.v ===== *)
(** * DiskTheorems: the disk store and uploads, whatever fails
    ([internal/submission/service.go]) *)

From S2P Require Import Prelude Models Submission SubmissionTheorems Disk.

Section disk.
Context (encode : Submission → string) (decode : string → option Submission).
(** The submissions that have a text, and what is read back of one. *)
Context (representable : Submission → Prop) (back : Submission → Submission)
        (decode_encode : ∀ sub, representable sub → decode (encode sub) = Some (back sub)).

#[local] Abbreviation readable := (readable decode).

Lemma files_insert id d t : files id (<[id := EDir d]> t) = d.
Proof. unfold files. by rewrite lookup_insert, decide_True. Qed.

Lemma MkdirAll_readable fails id t : readable (MkdirAll fails id t).2 = readable t.
Proof.
  unfold MkdirAll. destruct fails; [done|]. destruct (t !! id) as [[d|]|] eqn:Hid; [done..|].
  apply readable_same. unfold files. by rewrite Hid.
Qed.

Lemma MkdirAll_files fails id id' t : files id' (MkdirAll fails id t).2 = files id' t.
Proof.
  unfold MkdirAll. destruct fails; [done|]. destruct (t !! id) as [[d|]|] eqn:Hid; [done..|].
  unfold files. simpl. destruct (decide (id = id')) as [<-|?].
  - by rewrite lookup_insert, decide_True, Hid.
  - by rewrite lookup_insert_ne.
Qed.

Lemma archiveName_meta filename : archiveName filename ≠ metaName.
Proof. done. Qed.

(** One save: nothing that can be read changes, or the submission does. *)
Lemma disk_Save_spec ev sub t :
  files (s_ID sub) t !! sv_tmp ev = None → representable sub →
  match disk_Save encode ev sub t with
  | (Some _, t') => readable t' = readable t
  | (None, t') => readable t' = <[s_ID sub := back sub]> (readable t) ∧
      files (s_ID sub) t' = <[metaName := encode sub]> (files (s_ID sub) t)
  end.
Proof using decode_encode.
  intros Htmp Hrep. unfold disk_Save.
  pose proof (MkdirAll_readable (sv_mkdirFails ev) (s_ID sub) t) as Hr.
  pose proof (MkdirAll_files (sv_mkdirFails ev) (s_ID sub) (s_ID sub) t) as Hf.
  destruct (MkdirAll _ _ t) as [[e|] t1]; simpl in Hr, Hf; [done|]. rewrite Hf.
  pose proof (writeJSON_result (sv_fails ev) (sv_tmp ev) metaName (encode sub) _ Htmp) as Hw.
  destruct (writeJSON _ _ _ _ _) as [[st|] d]; simpl; destruct Hw as [-> _].
  - rewrite readable_same; [done|]. by rewrite Hf.
  - rewrite files_insert. split; [|done]. rewrite readable_insert. unfold readJSON.
    rewrite lookup_insert, decide_True by done. simpl. by rewrite decode_encode, Hr.
Qed.

(** A save that must fail: nothing that can be read changes. *)
Lemma disk_Save_fails ev sub t st :
  files (s_ID sub) t !! sv_tmp ev = None → st ∈ write_steps → sv_fails ev st = true →
  let '(e, t') := disk_Save encode ev sub t in e ≠ None ∧ readable t' = readable t.
Proof.
  intros Htmp Hst Hfail. unfold disk_Save.
  pose proof (MkdirAll_readable (sv_mkdirFails ev) (s_ID sub) t) as Hr.
  pose proof (MkdirAll_files (sv_mkdirFails ev) (s_ID sub) (s_ID sub) t) as Hf.
  destruct (MkdirAll _ _ t) as [[e|] t1]; simpl in Hr, Hf; [done|]. rewrite Hf.
  pose proof (writeJSON_result (sv_fails ev) (sv_tmp ev) metaName (encode sub) _ Htmp) as Hw.
  destruct (writeJSON _ _ _ _ _) as [[st'|] d]; simpl; destruct Hw as [-> Hok].
  - split; [done|]. rewrite readable_same; [done|]. by rewrite Hf.
  - by rewrite Hok in Hfail.
Qed.

Lemma readEntries_elem fails l sub :
  sub ∈ readEntries decode fails l ↔ ∃ name d, (name, EDir d) ∈ l ∧ readJSON decode (fails name) d = Some sub.
Proof.
  induction l as [|[name [d|]] l IH]; cbn [readEntries].
  - split; [by intros ?%not_elem_of_nil|]. by intros (? & ? & []%not_elem_of_nil & _).
  - destruct (readJSON decode (fails name) d) as [s|] eqn:Hd.
    + rewrite elem_of_cons, IH. setoid_rewrite elem_of_cons. naive_solver.
    + rewrite IH. setoid_rewrite elem_of_cons. naive_solver.
  - rewrite IH. setoid_rewrite elem_of_cons. naive_solver.
Qed.

(** All entries can be opened: the values of what can be read, each once. *)
Lemma readEntries_values (l : list (string * entry)) :
  readEntries decode (λ _, false) l = omap (λ p, readEntry decode p.2) l.
Proof.
  induction l as [|[name [d|]] l IH]; simpl; [done|..|done]. by destruct (readJSON decode false d); rewrite IH.
Qed.

Lemma readable_values t : (map_to_list (readable t)).*2 ≡ₚ omap (λ p, readEntry decode p.2) (map_to_list t).
Proof.
  induction t as [|id e t Hid IH] using map_ind; [done|].
  rewrite (map_to_list_insert t) by done. cbn [omap list_omap snd].
  assert (readable t !! id = None) as Hr by (by rewrite readable_lookup, Hid).
  destruct (readEntry decode e) as [sub|] eqn:He.
  - rewrite <- IH. unfold Disk.readable. rewrite (omap_insert_Some _ _ _ _ _ He).
    by rewrite map_to_list_insert.
  - rewrite <- IH. unfold Disk.readable. rewrite (omap_insert_None _ _ _ _ He).
    by rewrite delete_id.
Qed.

(** ** Uploads *)
Lemma writeFile_readable id name content t :
  name ≠ metaName → readable (writeFile id name content t) = readable t.
Proof. intros Hn. apply readable_same. by rewrite lookup_insert_ne. Qed.

Lemma storeArchive_spec fails written baseDir id filename content t :
  let '(r, t') := storeArchive fails written baseDir id filename content t in
  readable t' = readable t ∧
  (∀ path, r = Ok path → path = joinPath baseDir id (archiveName filename) ∧
     files id t' = <[archiveName filename := content]> (files id t)).
Proof.
  unfold storeArchive. pose proof (MkdirAll_readable (fails AMkdir) id t) as Hr.
  pose proof (MkdirAll_files (fails AMkdir) id id t) as Hf.
  destruct (MkdirAll _ _ t) as [[e|] t1]; simpl in Hr, Hf; [done|].
  destruct (fails AOpen); [done|]. destruct (fails ACreate); [done|].
  destruct (fails ACopy); (split; [by rewrite writeFile_readable|]); intros path; [done|].
  intros [= <-]. split; [done|]. unfold writeFile. by rewrite files_insert, Hf.
Qed.

(** The submission can be read, and its archive is complete. *)
Definition uploaded (sub : Submission) (filename content : string) (t t' : gmap string entry) : Prop :=
  readable t' = <[s_ID sub := sub]> (readable t) ∧
  files (s_ID sub) t' !! archiveName filename = Some content.

(** The directory after some steps of writing the metadata, in the tree. *)
Lemma crash_readable n tmp sub t t1 filename content :
  tmp ≠ metaName → tmp ≠ archiveName filename → representable sub → back sub = sub →
  readable t1 = readable t → files (s_ID sub) t1 !! tmp = None →
  files (s_ID sub) t1 !! archiveName filename = Some content →
  let t' := <[s_ID sub := EDir (crash_after n tmp metaName (encode sub) (files (s_ID sub) t1))]> t1 in
  readable t' = readable t ∨ uploaded sub filename content t t'.
Proof using decode_encode.
  intros Hne Hna Hrep Hback Hr Htmp Ha t'. destruct (decide (n < 5)%nat) as [Hn|Hn].
  - left. subst t'. rewrite readable_same; [done|]. by apply crash_after_path.
  - right. subst t'. rewrite crash_after_done by (done || lia). split.
    + rewrite readable_insert. unfold readJSON. rewrite lookup_insert, decide_True by done. simpl.
      by rewrite decode_encode, Hback, Hr.
    + rewrite files_insert, lookup_insert_ne by done. done.
Qed.
End disk.

(** The directory tree implements the map of the submission store. Reading one
    submission is looking it up among those that can be read; a listing is a listing
    of them, newest first; a save that succeeds inserts one, and a save that fails at
    any step changes nothing that can be read. *)
Lemma disk_refines `{!SortSlice, !MapRange} encode decode (representable : Submission → Prop) t :
  (∀ sub, representable sub → decode (encode sub) = Some (stored sub)) →
  (∀ id, disk_Get decode false id t = Get id (readable decode t)) ∧
  (∃ l l', disk_List decode false (λ _, false) t = Ok l ∧ List false (readable decode t) = Ok l' ∧ l ≡ₚ l' ∧
     sorted_by (λ a b, s_CreatedAt b <? s_CreatedAt a) l) ∧
  (∀ ev sub, representable sub → files (s_ID sub) t !! sv_tmp ev = None →
     let '(e, t') := disk_Save encode ev sub t in
     let '(e', s') := Save (bool_decide (e ≠ None)) sub (readable decode t) in
     (e = None ↔ e' = None) ∧ readable decode t' = s').
Proof.
  intros Hcoder. split; [|split].
  - intros id. unfold disk_Get, Get. by rewrite readable_files.
  - do 2 eexists. split; [done|]. split; [done|]. split.
    + rewrite !sort_slice_perm, readEntries_values.
      etransitivity; [apply omap_Permutation, map_range_perm|].
      rewrite <- readable_values. apply fmap_Permutation. symmetry. apply map_range_perm.
    + apply sort_slice_sorted_on. split; intros; lia.
  - intros ev sub Hrep Htmp. pose proof (disk_Save_spec encode decode representable stored Hcoder ev sub t Htmp Hrep) as Hs.
    destruct (disk_Save encode ev sub t) as [[e|] t']; unfold Save; simpl; [done|]. by destruct Hs.
Qed.


(** A coder for one submission, and an upload over a directory that a crash left. *)
Definition ex_sub : Submission :=
  mkSubmission "s1" "team" LangGo ProtocolREST StatusPending "" "" "/data/s1/archive.tar.gz" 3 "" "" 0 0 0
    None None [] F64.zero None.
Definition ex_encode (sub : Submission) : string := s_ID sub.
Definition ex_decode (s : string) : option Submission := if bool_decide (s = "s1") then Some ex_sub else None.
Definition ex_tree : gmap string entry := {["s0" := EDir {["archive" := "x"]}; "lost+found" := EFile]}.

Lemma disk_refines_witness :
  (∀ id, disk_Get ex_decode false id ex_tree = Get id (readable ex_decode ex_tree)) ∧
  (∃ l l', disk_List ex_decode false (λ _, false) ex_tree = Ok l ∧
     List false (readable ex_decode ex_tree) = Ok l' ∧ l ≡ₚ l' ∧
     sorted_by (λ a b, s_CreatedAt b <? s_CreatedAt a) l) ∧
  (∀ ev sub, sub = ex_sub → files (s_ID sub) ex_tree !! sv_tmp ev = None →
     let '(e, t') := disk_Save ex_encode ev sub ex_tree in
     let '(e', s') := Save (bool_decide (e ≠ None)) sub (readable ex_decode ex_tree) in
     (e = None ↔ e' = None) ∧ readable ex_decode t' = s').
Proof. apply (disk_refines ex_encode ex_decode (λ sub, sub = ex_sub)). by intros sub ->. Defined.

