(* ===== verification/Telemetry.v ===== *)
(** * Telemetry: events and their emitters
    ([internal/telemetry/event.go], [topics.go], [emitter.go], [redpanda.go])

    An emitter is the state that its calls change: the recorded events, the
    lines written, or the records handed to the client library. The marshaller, which is
    that of [Wire] in [Pipeline], and the broker are arguments. *)

From S2P Require Import Prelude Models.

(** ** event.go *)
Definition KindOrderAck : string := "order_ack".
Definition KindFill : string := "fill".
Definition KindCancelAck : string := "cancel_ack".
Definition KindReject : string := "reject".
Definition KindHeartbeat : string := "heartbeat".

Record Event := mkTelemetryEvent {
  e_Kind : string;
  e_SubmissionID : string;
  e_Timestamp : time;
  e_OrderID : string;
  e_LatencyNs : Z;
  e_Meta : gmap string string
}.

#[export] Instance event_eq_dec : EqDecision Event.
Proof. solve_decision. Defined.

Inductive event_error :=
| EmptyKind
| UnknownKind (k : string)
| EmptySubmissionID
| ZeroTimestamp
| NegativeLatency (n : Z)
| EmptyOrderID (k : string)
| MarshalError (orderID : string)
| EncodeError.

#[export] Instance event_error_eq_dec : EqDecision event_error.
Proof. solve_decision. Defined.

Definition isKnownKind (k : string) : bool :=
  bool_decide (k ∈ [KindOrderAck; KindFill; KindCancelAck; KindReject; KindHeartbeat]).

Definition Validate (e : Event) : option event_error :=
  if bool_decide (e_Kind e = "") then Some EmptyKind
  else if negb (isKnownKind (e_Kind e)) then Some (UnknownKind (e_Kind e))
  else if bool_decide (e_SubmissionID e = "") then Some EmptySubmissionID
  else if e_Timestamp e =? zero_time then Some ZeroTimestamp
  else if e_LatencyNs e <? 0 then Some (NegativeLatency (e_LatencyNs e))
  else if negb (bool_decide (e_Kind e = KindHeartbeat)) && bool_decide (e_OrderID e = "")
  then Some (EmptyOrderID (e_Kind e))
  else None.

(** ** topics.go *)
Definition TopicLatency : string := "metrics.latency".
Definition TopicHeartbeat : string := "metrics.heartbeat".
Definition TopicDLQ : string := "metrics.dlq".

Definition TopicForKind (k : string) : string :=
  if bool_decide (k ∈ [KindOrderAck; KindFill; KindCancelAck; KindReject]) then TopicLatency
  else if bool_decide (k = KindHeartbeat) then TopicHeartbeat
  else TopicDLQ.

Definition AllTopics : list string := [TopicLatency; TopicHeartbeat; TopicDLQ].

(** ** emitter.go *)
(** The error of a batch: how many events failed, and the first error. *)
Definition joinErrors (errs : list event_error) : option (nat * event_error) :=
  match errs with [] => None | e :: _ => Some (length errs, e) end.

(** The loop that validates a batch: the errors and the valid events. *)
Fixpoint validateBatch (events : list Event) : list event_error * list Event :=
  match events with
  | [] => ([], [])
  | e :: events =>
      let '(errs, valid) := validateBatch events in
      match Validate e with
      | Some err => (err :: errs, valid)
      | None => (errs, e :: valid)
      end
  end.

(** [RecordingEmitter]: its state is the slice of events. *)
Definition rec_Emit (e : Event) (events : list Event) : option event_error * list Event :=
  match Validate e with
  | Some err => (Some err, events)
  | None => (None, events ++ [e])
  end.

Definition rec_BatchEmit (batch events : list Event) : option (nat * event_error) * list Event :=
  match batch with
  | [] => (None, events)
  | _ => let '(errs, valid) := validateBatch batch in (joinErrors errs, events ++ valid)
  end.

Definition EventsOfKind (k : string) (events : list Event) : list Event :=
  filter (λ e, e_Kind e = k) events.

Definition rec_Reset (events : list Event) : list Event := [].
Definition rec_Len (events : list Event) : nat := length events.

Definition rec_Events (events : list Event) : list Event := events.

(** [NoopEmitter]. *)
Definition noop_Emit (e : Event) : option event_error := None.
Definition noop_BatchEmit (events : list Event) : option event_error := None.

(** [StdoutEmitter]: the lines written; [Encode] is the JSON encoder on its
    writer, which can fail. *)
Section stdout.
Context (Encode : Event → option string).

Definition out_Emit (e : Event) (lines : list string) : option event_error * list string :=
  match Validate e with
  | Some err => (Some err, lines)
  | None => match Encode e with Some l => (None, lines ++ [l]) | None => (Some EncodeError, lines) end
  end.

Definition out_BatchEmit (batch : list Event) (lines : list string)
    : option (nat * event_error) * list string :=
  match batch with
  | [] => (None, lines)
  | _ =>
      let '(errs, valid) := validateBatch batch in
      let '(encErrs, written) :=
        foldr (λ e '(errs, ls), match Encode e with
                                | Some l => (errs, l :: ls)
                                | None => (EncodeError :: errs, ls)
                                end) ([], []) valid in
      (joinErrors (errs ++ encErrs), lines ++ written)
  end.
End stdout.

(** ** redpanda.go *)
Record produced := mkProduced { p_Topic : string; p_Key : string; p_Value : string }.

(** [re_kinds] are the kinds reported to the metrics registry. *)
Record RedpandaEmitter := mkEmitter {
  re_closed : bool;
  re_produced : list produced;
  re_kinds : list string
}.

Inductive emit_error :=
| EmitterClosed
| EmitInvalid (e : event_error)
| EmitBatch (n : nat) (e : event_error).

Section redpanda.
(** [json.Marshal], and whether a metrics registry is configured. *)
Context (marshal : Event → option string) (withMetrics : bool).

Definition record_of (e : Event) (payload : string) : produced :=
  mkProduced (TopicForKind (e_Kind e)) (e_SubmissionID e) payload.

Definition Emit (e : Event) (r : RedpandaEmitter) : option emit_error * RedpandaEmitter :=
  if re_closed r then (Some EmitterClosed, r)
  else match Validate e with
  | Some err => (Some (EmitInvalid err), r)
  | None =>
      match marshal e with
      | None => (Some (EmitInvalid (MarshalError (e_OrderID e))), r)
      | Some payload =>
          (None, mkEmitter (re_closed r) (re_produced r ++ [record_of e payload])
                   (re_kinds r ++ if withMetrics then [e_Kind e] else []))
      end
  end.

(** The first loop of [BatchEmit]: the errors and the records. *)
Fixpoint buildRecords (events : list Event) : list event_error * list produced :=
  match events with
  | [] => ([], [])
  | e :: events =>
      let '(errs, records) := buildRecords events in
      match Validate e with
      | Some err => (err :: errs, records)
      | None =>
          match marshal e with
          | None => (MarshalError (e_OrderID e) :: errs, records)
          | Some payload => (errs, record_of e payload :: records)
          end
      end
  end.

(** [BatchEmit]. The metrics loop reads [events\[i\]] for the [i]-th record. *)
Definition BatchEmit (events : list Event) (r : RedpandaEmitter) : option emit_error * RedpandaEmitter :=
  match events with
  | [] => (None, r)
  | _ =>
      if re_closed r then (Some EmitterClosed, r)
      else
        let '(errs, records) := buildRecords events in
        let kinds := if withMetrics then e_Kind <$> take (length records) events else [] in
        ((λ '(n, e), EmitBatch n e) <$> joinErrors errs,
         mkEmitter (re_closed r) (re_produced r ++ records) (re_kinds r ++ kinds))
  end.

(** [Close]: the flush may fail; a second call does nothing. *)
Definition emitter_Close (flushFails : bool) (r : RedpandaEmitter) : option string * RedpandaEmitter :=
  if re_closed r then (None, r)
  else (if flushFails then Some "flush" else None, mkEmitter true (re_produced r) (re_kinds r)).
End redpanda.

(** [RedpandaConfig], with the linger in nanoseconds. *)
Record RedpandaConfig := mkRedpandaConfig {
  tc_Brokers : list string;
  tc_TopicPartitions : Z;
  tc_TopicReplicationFactor : Z;
  tc_ProducerBatchMaxBytes : Z;
  tc_ProducerLingerDuration : duration
}.

Definition DefaultRedpandaConfig : RedpandaConfig :=
  mkRedpandaConfig ["127.0.0.1:19092"] 3 1 (Z.shiftl 1 20) (5 * Millisecond).

(** [NewRedpandaEmitter]; [client] is the error of [kgo.NewClient]. *)
Definition NewRedpandaEmitter (cfg : RedpandaConfig) (client : option string)
    : result string RedpandaEmitter :=
  if bool_decide (tc_Brokers cfg = []) then Err "telemetry: RedpandaConfig.Brokers must not be empty"
  else match client with
       | Some e => Err ("telemetry: create franz-go client: " +:+ e)
       | None => Ok (mkEmitter false [] [])
       end.

(** [deliveryHook.OnProduceRecordUnbuffered]: the count of emit errors, if there is
    a registry. *)
Definition OnProduceRecordUnbuffered (withMetrics : bool) (err : option string) (errors : Z) : Z :=
  match err with Some _ => if withMetrics then errors + 1 else errors | None => errors end.

(** [Bootstrap], with the answers of the broker: the ping, the topics it lists,
    and for each topic asked for how its creation ends. *)
Inductive create_result := Created | AlreadyExists | CreateFailed (e : string).

Fixpoint checkCreated (results : list (string * create_result)) : option string :=
  match results with
  | [] => None
  | (_, CreateFailed e) :: _ => Some e
  | _ :: results => checkCreated results
  end.

Definition toCreate (existing : gset string) : list string :=
  filter (λ t, t ∉ existing) AllTopics.

Definition emitter_Bootstrap (ping : option string) (list_ : result string (gset string))
    (create : list string → result string (list (string * create_result))) : option string :=
  match ping with
  | Some e => Some e
  | None =>
      match list_ with
      | Err e => Some e
      | Ok existing =>
          match toCreate existing with
          | [] => None
          | missing => match create missing with Err e => Some e | Ok results => checkCreated results end
          end
      end
  end.

(** ** Properties *)
Lemma validateBatch_filter events :
  validateBatch events =
    (omap Validate events, filter (λ e, Validate e = None) events).
Proof.
  induction events as [|e events IH]; [done|]. cbn [validateBatch]. rewrite IH, filter_cons. simpl.
  by destruct (Validate e) eqn:He; case_decide.
Qed.

Lemma Validate_kind e : Validate e = None → isKnownKind (e_Kind e) = true.
Proof. unfold Validate. case_bool_decide; [done|]. by destruct (isKnownKind (e_Kind e)). Qed.

Lemma known_topic k : isKnownKind k = true → TopicForKind k ∈ [TopicLatency; TopicHeartbeat].
Proof.
  unfold isKnownKind, TopicForKind. intros Hk%bool_decide_eq_true.
  repeat case_bool_decide; [set_solver..|]. exfalso. set_solver.
Qed.

Lemma buildRecords_spec marshal events :
  (∀ e, is_Some (marshal e)) →
  buildRecords marshal events =
    (omap Validate events,
     (λ e, record_of e (default "" (marshal e))) <$> filter (λ e, Validate e = None) events).
Proof.
  intros Hm. induction events as [|e events IH]; [done|]. cbn [buildRecords]. rewrite IH, filter_cons.
  simpl. destruct (Validate e) eqn:He; case_decide; try done.
  by destruct (Hm e) as [p Hp]; rewrite fmap_cons, Hp.
Qed.

Lemma joinErrors_None errs : joinErrors errs = None ↔ errs = [].
Proof. by destruct errs. Qed.

Lemma omap_nil_iff {A B} (f : A → option B) l : omap f l = [] ↔ Forall (λ x, f x = None) l.
Proof.
  induction l as [|x l IH]; [done|]. rewrite Forall_cons, <- IH. simpl.
  destruct (f x); split; try done; [by intros [? _]|by intros [_ ?]].
Qed.

(** A batch is never lost for one bad event: an open emitter hands over
    exactly the valid events, in their order, each under its submission's key
    and on the topic of its kind, which is never the dead-letter topic; it
    reports an error exactly when some event is invalid. A closed emitter hands
    over nothing and says so. *)
Theorem batch_emit_valid marshal m events r :
  (∀ e, is_Some (marshal e)) → events ≠ [] →
  let '(err, r') := BatchEmit marshal m events r in
  if re_closed r then err = Some EmitterClosed ∧ r' = r
  else
    re_produced r' = re_produced r ++
      ((λ e, record_of e (default "" (marshal e))) <$> filter (λ e, Validate e = None) events) ∧
    (err = None ↔ Forall (λ e, Validate e = None) events) ∧
    (∀ p, p ∈ re_produced r' → p ∈ re_produced r ∨
       p_Topic p ∈ [TopicLatency; TopicHeartbeat] ∧ ∃ e, e ∈ events ∧ p_Key p = e_SubmissionID e).
Proof.
  intros Hm Hne. unfold BatchEmit. destruct events as [|e0 events0]; [done|].
  set (events := e0 :: events0) in *. clearbody events.
  destruct (re_closed r); [done|]. rewrite buildRecords_spec by done. simpl.
  split; [done|]. split.
  - by rewrite fmap_None, joinErrors_None, omap_nil_iff.
  - intros p. rewrite elem_of_app, list_elem_of_fmap. intros [?|(e & -> & He)]; [by left|right].
    apply list_elem_of_filter in He as [Hv He]. split; [|by exists e].
    by apply known_topic, Validate_kind.
Qed.

Definition sample_event (kind order : string) : Event :=
  mkTelemetryEvent kind "s1" 1000 order 5 ∅.

Lemma batch_emit_valid_witness :
  let '(err, r') := BatchEmit (λ e, Some (e_OrderID e)) true
      [sample_event KindFill "a"; sample_event "bogus" "b"; sample_event KindReject "c"]
      (mkEmitter false [] []) in
  if false then err = Some EmitterClosed ∧ r' = mkEmitter false [] []
  else
    re_produced r' = [] ++ [mkProduced TopicLatency "s1" "a"; mkProduced TopicLatency "s1" "c"] ∧
    (err = None ↔ Forall (λ e, Validate e = None)
      [sample_event KindFill "a"; sample_event "bogus" "b"; sample_event KindReject "c"]) ∧
    (∀ p, p ∈ re_produced r' → p ∈ [] ∨
       p_Topic p ∈ [TopicLatency; TopicHeartbeat] ∧ ∃ e,
         e ∈ [sample_event KindFill "a"; sample_event "bogus" "b"; sample_event KindReject "c"] ∧
         p_Key p = e_SubmissionID e).
Proof.
  apply (batch_emit_valid (λ e, Some (e_OrderID e)) true
    [sample_event KindFill "a"; sample_event "bogus" "b"; sample_event KindReject "c"]
    (mkEmitter false [] [])); [by eexists|done].
Defined.

(** When an invalid event is skipped the metrics count the wrong kinds. *)
Lemma batch_metrics_misaligned :
  re_kinds (BatchEmit (λ e, Some (e_OrderID e)) true
    [sample_event "bogus" "b"; sample_event KindReject "c"] (mkEmitter false [] [])).2 = ["bogus"].
Proof. by vm_compute. Qed.

Lemma checkCreated_None results :
  checkCreated results = None ↔ ∀ t r, (t, r) ∈ results → r = Created ∨ r = AlreadyExists.
Proof.
  induction results as [|[t r] results IH]; cbn [checkCreated].
  { split; [by intros _ t r []%not_elem_of_nil|done]. }
  assert (Hcons : (∀ t' r', (t', r') ∈ (t, r) :: results → r' = Created ∨ r' = AlreadyExists) ↔
    (r = Created ∨ r = AlreadyExists) ∧
    ∀ t' r', (t', r') ∈ results → r' = Created ∨ r' = AlreadyExists).
  { split.
    - intros H. split; [apply (H t r); by left|]. intros t' r' Hr. apply (H t' r'). by right.
    - intros [H1 H2] t' r' [[= -> ->]|Hr]%elem_of_cons; [done|by apply (H2 t')]. }
  rewrite Hcons. destruct r; [rewrite IH; naive_solver..|]. split; [done|]. by intros [[] _].
Qed.

(** A bootstrap that reports success leaves every topic in place: those
    the broker had, and all the missing ones, of which each was created here or
    by a concurrent instance. It asks for nothing when nothing is missing. *)
Theorem bootstrap_complete ping existing create :
  (∀ ts rs, create ts = Ok rs → rs.*1 = ts) →
  emitter_Bootstrap ping (Ok existing) create = None →
  ping = None ∧ ∀ t, t ∈ AllTopics → t ∈ existing ∨
    ∃ rs r, create (toCreate existing) = Ok rs ∧ (t, r) ∈ rs ∧ (r = Created ∨ r = AlreadyExists).
Proof.
  intros Hc. unfold emitter_Bootstrap. destruct ping; [done|]. intros Hb. split; [done|].
  intros t Ht. destruct (decide (t ∈ existing)) as [|Hnew]; [by left|right].
  assert (Hin : t ∈ toCreate existing) by (by apply list_elem_of_filter).
  destruct (toCreate existing) as [|t0 ts] eqn:Hts; [by apply not_elem_of_nil in Hin|].
  destruct (create (t0 :: ts)) as [rs|] eqn:Hcr; [|done].
  rewrite <- (Hc _ _ Hcr) in Hin. apply list_elem_of_fmap in Hin as ([t' r] & -> & Hr).
  exists rs, r. split; [done|]. split; [done|]. by apply (proj1 (checkCreated_None rs) Hb t').
Qed.

Definition sample_create (ts : list string) : result string (list (string * create_result)) :=
  Ok ((λ t, (t, Created)) <$> ts).

Lemma bootstrap_complete_witness :
  (None : option string) = None ∧ ∀ t, t ∈ AllTopics → t ∈ ({[TopicDLQ]} : gset string) ∨
    ∃ rs r, sample_create (toCreate {[TopicDLQ]}) = Ok rs ∧ (t, r) ∈ rs ∧ (r = Created ∨ r = AlreadyExists).
Proof.
  apply (bootstrap_complete None {[TopicDLQ]} sample_create).
  - intros ts rs [= <-]. by rewrite <- list_fmap_compose, list_fmap_id.
  - by vm_compute.
Defined.
