(* ===== verification/Consumer.v ===== *)
(** * Consumer: latency windows
    ([internal/consumer/percentile.go], [consumer.go], and [WriteWindow] of
    [store.go])

    Events are grouped by submission and 5-second bucket; a window is written
    when an event of another bucket arrives, or at the end. The consumer is
    written over any window store; [TimescaleTable] is the table of [store.go].
    Decoding a record is an argument here, and JSON in [Pipeline]. *)

From S2P Require Import Prelude Models Telemetry Stats.

(** ** percentile.go *)
Record LatencyWindow := mkWindow {
  w_WindowStart : time;
  w_SubmissionID : string;
  w_P50Ns : Z;
  w_P90Ns : Z;
  w_P99Ns : Z;
  w_MinNs : Z;
  w_MaxNs : Z;
  w_MeanNs : Z;
  w_TPS : float64;
  w_SampleN : Z
}.

Definition WindowDuration : duration := 5 * Second.

Record Accumulator := mkAcc { a_submissionID : string; a_windowStart : time; a_samples : list Z }.

Definition NewAccumulator (submissionID : string) (windowStart : time) : Accumulator :=
  mkAcc submissionID windowStart [].

Definition Add (latencyNs : Z) (a : Accumulator) : Accumulator :=
  mkAcc (a_submissionID a) (a_windowStart a) (a_samples a ++ [latencyNs]).

Definition Len (a : Accumulator) : Z := Z.of_nat (length (a_samples a)).

(** [percentile]: [None] would be an index out of range. *)
Definition percentile (sorted : list Z) (p : float64) : option Z :=
  let n := Z.of_nat (length sorted) in
  if n =? 0 then Some 0
  else
    let rank := F64.ceil_Z (F64.mul p (F64.of_Z n)) in
    let idx := rank - 1 in
    let idx := if idx <? 0 then 0 else idx in
    let idx := if n <=? idx then n - 1 else idx in
    at_index sorted idx.

Definition mean (samples : list Z) : Z :=
  match samples with
  | [] => 0
  | _ => fold_left (λ sum v, i64 (sum + v)) samples 0 ÷ Z.of_nat (length samples)
  end.

(** [Compute] sorts the samples in place: the accumulator changes too. *)
Definition Compute_window `{!SortSlice} (a : Accumulator) : option LatencyWindow * Accumulator :=
  let n := Len a in
  match a_samples a with
  | [] => (Some (mkWindow (a_windowStart a) (a_submissionID a) 0 0 0 0 0 0 F64.zero n), a)
  | _ =>
      let sorted := sort_slice Z.ltb (a_samples a) in
      ((p50 ← percentile sorted (F64.lit 50 100);
        p90 ← percentile sorted (F64.lit 90 100);
        p99 ← percentile sorted (F64.lit 99 100);
        lo ← at_index sorted 0;
        hi ← at_index sorted (n - 1);
        Some (mkWindow (a_windowStart a) (a_submissionID a) p50 p90 p99 lo hi (mean sorted)
                (F64.div (F64.of_Z n) (F64.of_Z 5)) n)),
       mkAcc (a_submissionID a) (a_windowStart a) sorted)
  end.

(** ** store.go: the table of windows, keyed by time and submission *)
Abbreviation TimescaleTable := (gmap (Z * string) LatencyWindow) (only parsing).

(** [WriteWindow]: [INSERT ... ON CONFLICT (time, submission_id) DO NOTHING]. *)
Definition WriteWindow (fails : bool) (w : LatencyWindow) (t : TimescaleTable)
    : option string * TimescaleTable :=
  if w_SampleN w =? 0 then (None, t)
  else if fails then (Some "consumer: insert latency_window", t)
  else (None, match t !! (w_WindowStart w, w_SubmissionID w) with
              | Some _ => t
              | None => <[(w_WindowStart w, w_SubmissionID w) := w]> t
              end).

(** ** consumer.go *)
Record windowState := mkWindowState { ws_acc : Accumulator; ws_bucketStart : time }.

Section consumer.
Context `{!SortSlice, !MapRange}.
(** The store and [json.Unmarshal]. *)
Context {St : Type} (write : LatencyWindow → St → option string * St)
        (unmarshal : string → option Event).

Record Consumer := mkConsumer { cn_windows : gmap string windowState; cn_marked : Z }.

Definition NewConsumer : Consumer := mkConsumer ∅ 0.

Inductive consume_error := UnmarshalError | FlushError (e : string) | WindowPanic.

(** [flushWindow]: on a failed write the window stays, its samples sorted. *)
Definition flushWindow (submissionID : string) (state : windowState) (c : Consumer) (s : St)
    : option consume_error * Consumer * St :=
  let '(w, acc) := Compute_window (ws_acc state) in
  let kept := mkConsumer (<[submissionID := mkWindowState acc (ws_bucketStart state)]> (cn_windows c))
                (cn_marked c) in
  match w with
  | None => (Some WindowPanic, c, s)
  | Some w =>
      match write w s with
      | (Some e, s) => (Some (FlushError e), kept, s)
      | (None, s) => (None, mkConsumer (delete submissionID (cn_windows c)) (cn_marked c), s)
      end
  end.

Definition bucketOf (e : Event) : time := Truncate (e_Timestamp e) WindowDuration.

Definition addTo (id : string) (state : windowState) (latency : Z) (c : Consumer) : Consumer :=
  mkConsumer (<[id := mkWindowState (Add latency (ws_acc state)) (ws_bucketStart state)]> (cn_windows c))
    (cn_marked c).

Definition freshWindow (id : string) (bucket : time) : windowState :=
  mkWindowState (NewAccumulator id bucket) bucket.

(** [handleRecord], on the value of the record. *)
Definition handleRecord (value : string) (c : Consumer) (s : St)
    : option consume_error * Consumer * St :=
  match unmarshal value with
  | None => (Some UnmarshalError, c, s)
  | Some e =>
      if bool_decide (e_Kind e = KindHeartbeat) then (None, c, s)
      else
        let bucket := bucketOf e in
        let id := e_SubmissionID e in
        let state := default (freshWindow id bucket) (cn_windows c !! id) in
        if bucket =? ws_bucketStart state then (None, addTo id state (e_LatencyNs e) c, s)
        else
          match flushWindow id state c s with
          | (Some err, c, s) => (Some err, c, s)
          | (None, c, s) => (None, addTo id (freshWindow id bucket) (e_LatencyNs e) c, s)
          end
  end.

(** One record of a fetch: whatever happens, its offset is marked. *)
Definition consumeRecord (value : string) (cs : Consumer * St) : Consumer * St :=
  let '(_, c, s) := handleRecord value cs.1 cs.2 in
  (mkConsumer (cn_windows c) (cn_marked c + 1), s).

Definition consume (values : list string) (cs : Consumer * St) : Consumer * St :=
  fold_left (λ cs v, consumeRecord v cs) values cs.

(** [flushAll] ranges over the map of windows while deleting from it. *)
Definition flushAll (cs : Consumer * St) : Consumer * St :=
  fold_left (λ cs '(id, state), let '(_, c, s) := flushWindow id state cs.1 cs.2 in (c, s))
    (map_range (cn_windows cs.1)) cs.

(** [Run] over the records of its fetches, until the context is done. *)
Definition Consumer_Run (values : list string) (s : St) : Consumer * St :=
  flushAll (consume values (NewConsumer, s)).
End consumer.
