(* ===== verification/ConsumerTheorems.v ===== *)
(** * ConsumerTheorems: what the metrics pipeline stores
    ([internal/consumer]) *)

From S2P Require Import Prelude Rounding Models Telemetry Stats StatsTheorems Consumer.

(** ** Percentiles *)
Lemma pct_bounds pct : pct ∈ [50; 90; 99] → 0 < pct ≤ 100.
Proof. rewrite !elem_of_cons, elem_of_nil. lia. Qed.

Lemma percentile_agrees l pct :
  pct ∈ [50; 90; 99] → l ≠ [] → Z.of_nat (length l) < 2 ^ 40 →
  percentile l (F64.lit pct 100) = percentileValue l pct.
Proof.
  intros Hp Hne Hlen. apply pct_bounds in Hp as Hb. unfold percentile, percentileValue.
  set (n := Z.of_nat (length l)) in *.
  assert (1 ≤ n) by (subst n; destruct l; simpl; lia || done).
  destruct (Z.eqb_spec n 0); [lia|]. rewrite rank_exact by (done || lia).
  rewrite (i64_id (pct * n)) by (solve_int64).
  rewrite (i64_id (pct * n + 99)) by (solve_int64).
  rewrite Z.quot_div_nonneg by nia.
  assert (1 ≤ (pct * n + 99) / 100 ≤ n).
  { split; [apply Z.div_le_lower_bound; nia|]. apply Z.lt_succ_r, Z.div_lt_upper_bound; nia. }
  destruct (Z.ltb_spec ((pct * n + 99) / 100) 1); [lia|].
  destruct (Z.ltb_spec n ((pct * n + 99) / 100)); [lia|].
  destruct (Z.ltb_spec ((pct * n + 99) / 100 - 1) 0); [lia|].
  destruct (Z.leb_spec n ((pct * n + 99) / 100 - 1)); [lia|].
  destruct (Z.eqb_spec n 1) as [Hn|]; [|done]. f_equal. lia.
Qed.

Lemma at_index_in l i : 0 ≤ i < Z.of_nat (length l) → is_Some (at_index l i).
Proof.
  intros Hi. unfold at_index. destruct (Z.ltb_spec i 0); [lia|]. apply lookup_lt_is_Some. lia.
Qed.

Lemma at_index_lookup l i x : at_index l i = Some x → 0 ≤ i ∧ l !! Z.to_nat i = Some x.
Proof. unfold at_index. destruct (Z.ltb_spec i 0); [done|]. by split. Qed.

Lemma percentile_total l p : is_Some (percentile l p).
Proof.
  unfold percentile. destruct (Z.eqb_spec (Z.of_nat (length l)) 0); [done|].
  set (r := F64.ceil_Z _ - 1). apply at_index_in.
  destruct (Z.ltb_spec r 0);
    [destruct (Z.leb_spec (Z.of_nat (length l)) 0)|destruct (Z.leb_spec (Z.of_nat (length l)) r)]; lia.
Qed.

(** ** Runs of a list *)
Section runs.
Context {A : Type} (f : A → Z).

(** The elements at [b] at the head of a list, and the first run of them anywhere. *)
Fixpoint head_run (b : Z) (l : list A) : list A :=
  match l with
  | [] => []
  | x :: l => if decide (f x = b) then x :: head_run b l else []
  end.

Fixpoint first_run (b : Z) (l : list A) : list A :=
  match l with
  | [] => []
  | x :: l' => if decide (f x = b) then head_run b l else first_run b l'
  end.

(** [cur] is the last run of [pre ++ cur]. *)
Definition run_end (b : Z) (pre cur : list A) : Prop :=
  cur ≠ [] ∧ Forall (λ x, f x = b) cur ∧ ∀ x, last pre = Some x → f x ≠ b.

Lemma run_end_first b x : f x = b → run_end b [] [x].
Proof. by repeat constructor. Qed.

Lemma run_end_snoc b pre cur x : run_end b pre cur → f x = b → run_end b pre (cur ++ [x]).
Proof.
  intros (Hne & Hc & Hl) Hx. split; [by destruct cur|]. split; [|done]. apply Forall_app. by repeat constructor.
Qed.

Lemma run_end_next b0 b pre cur x : run_end b0 pre cur → f x = b → b ≠ b0 → run_end b (pre ++ cur) [x].
Proof.
  intros (Hne & Hc & _) Hx Hb. split; [done|]. split; [by repeat constructor|]. intros y Hy.
  rewrite last_app in Hy. destruct (last cur) as [z|] eqn:Hz; [|by apply last_None in Hz].
  injection Hy as ->. assert (f y = b0) as Hfy; [|congruence]. rewrite Forall_forall in Hc.
  apply Hc. apply last_Some in Hz as [l ->]. set_solver.
Qed.

Lemma head_run_all b l : Forall (λ x, f x = b) l → head_run b l = l.
Proof. induction 1 as [|x l Hx _ IH]; [done|]. simpl. by rewrite decide_True, IH. Qed.

Lemma first_run_all b b' l : Forall (λ x, f x = b) l → first_run b' l = if decide (b' = b) then l else [].
Proof.
  intros Hl. case_decide as Hb.
  - subst b'. destruct Hl as [|x l Hx Hl]; [done|]. cbn [first_run]. rewrite decide_True by done.
    apply head_run_all. by constructor.
  - induction Hl as [|x l Hx _ IH]; [done|]. simpl. by rewrite decide_False by congruence.
Qed.

Lemma head_run_app b' b pre cur :
  run_end b pre cur → pre ≠ [] → head_run b' (pre ++ cur) = head_run b' pre.
Proof.
  intros (Hne & Hc & Hl). induction pre as [|x [|y pre] IH]; intros Hpre; [done| |].
  - simpl. case_decide as Hx; [|done]. f_equal. destruct Hc as [|z cur Hz Hc]; [done|]. simpl.
    rewrite decide_False; [done|]. cbv beta in Hz. intros Hz'. apply (Hl x); [done|congruence].
  - cbn [head_run app]. case_decide; [|done]. f_equal. by apply IH.
Qed.

(** A later run of a value that has one already changes nothing. *)
Lemma first_run_app b' b pre cur :
  run_end b pre cur →
  first_run b' (pre ++ cur) =
    if decide (b' = b) then match first_run b' pre with [] => cur | l => l end else first_run b' pre.
Proof.
  induction pre as [|x pre IH]; intros Hrun.
  - simpl. rewrite (first_run_all b) by apply Hrun. done.
  - cbn [app first_run]. destruct (decide (f x = b')) as [Hx|Hx].
    + rewrite app_comm_cons, (head_run_app b' b) by done. cbn [head_run]. rewrite decide_True by done.
      by case_decide.
    + apply IH. destruct Hrun as (? & ? & Hl). split_and!; [done..|]. intros y Hy. apply Hl.
      destruct pre; [done|]. exact Hy.
Qed.

Lemma first_run_sorted b l :
  StronglySorted (λ x y, f x ≤ f y) l → first_run b l = filter (λ x, f x = b) l.
Proof.
  induction 1 as [|x l Hs IH Hx]; [done|]. rewrite filter_cons. cbn [first_run]. case_decide as Hb; [|done].
  cbn [head_run]. rewrite decide_True by done. f_equal. clear IH.
  induction Hs as [|y l Hs IH Hy]; [done|]. apply Forall_cons in Hx as [Hxy Hx]. rewrite filter_cons. simpl.
  case_decide as Hyb; [by rewrite IH|].
  symmetry. apply elem_of_nil_inv. rewrite Forall_forall in Hy. intros z [Hzb Hz]%list_elem_of_filter.
  specialize (Hy z Hz). lia.
Qed.
End runs.

Lemma first_run_fmap {A B} (g : A → B) (f : B → Z) b l :
  first_run f b (g <$> l) = g <$> first_run (λ x, f (g x)) b l.
Proof.
  assert (∀ l, head_run f b (g <$> l) = g <$> head_run (λ x, f (g x)) b l) as Hh.
  { intros l'. induction l' as [|x l' IH]; [done|]. rewrite fmap_cons. cbn [head_run]. case_decide; [|done]. by rewrite IH. }
  induction l as [|x l IH]; [done|]. cbn [fmap list_fmap first_run]. case_decide; [|done].
  exact (Hh (x :: l)).
Qed.

(** ** Windows *)
Section windows.
Context `{!SortSlice}.

(** The window of the latencies of one submission and bucket. *)
Definition window_of (id : string) (bucket : time) (lats : list Z) : option LatencyWindow :=
  match lats with
  | [] => None
  | _ => (Compute_window (mkAcc id bucket lats)).1
  end.

Lemma Compute_some a :
  ∃ w a', Compute_window a = (Some w, a') ∧ w_WindowStart w = a_windowStart a ∧
    w_SubmissionID w = a_submissionID a ∧ w_SampleN w = Len a.
Proof.
  unfold Compute_window, Len. destruct (a_samples a) as [|x l] eqn:Ha; [by do 2 eexists|].
  set (sorted := sort_slice Z.ltb (x :: l)).
  assert (length sorted = length (x :: l)) as Hlen by (unfold sorted; by rewrite sort_slice_perm).
  destruct (percentile_total sorted (F64.lit 50 100)) as [p50 ->].
  destruct (percentile_total sorted (F64.lit 90 100)) as [p90 ->].
  destruct (percentile_total sorted (F64.lit 99 100)) as [p99 ->].
  destruct (at_index_in sorted 0) as [lo Hlo]; [rewrite Hlen; simpl; lia|].
  destruct (at_index_in sorted (Z.of_nat (length (x :: l)) - 1)) as [hi Hhi]; [rewrite Hlen; simpl; lia|].
  do 2 eexists. simpl in *. rewrite Hlo. simpl. rewrite Hhi. done.
Qed.

Lemma window_of_some id b lats w :
  window_of id b lats = Some w → w_WindowStart w = b ∧ w_SubmissionID w = id ∧
    w_SampleN w = Z.of_nat (length lats) ∧ lats ≠ [].
Proof.
  destruct lats as [|x l]; [done|]. unfold window_of.
  destruct (Compute_some (mkAcc id b (x :: l))) as (w' & a' & -> & H1 & H2 & H3).
  by intros [= <-].
Qed.

Lemma window_of_cons id b lats : lats ≠ [] → is_Some (window_of id b lats).
Proof.
  destruct lats as [|x l]; [done|]. intros _. unfold window_of.
  by destruct (Compute_some (mkAcc id b (x :: l))) as (w' & a' & -> & _).
Qed.

(** C32: A stored window means what its columns say: its percentiles are the
    same nearest ranks that the fleet reports, computed there in integers and here
    in floating point, whose rounding never reaches the next rank below [2 ^ 40]
    samples (five seconds at 200 events a nanosecond); minimum and maximum are the
    extremes, and the sample count is the number of latencies. *)
Theorem window_statistics id b lats w :
  window_of id b lats = Some w → Z.of_nat (length lats) < 2 ^ 40 →
  nearest_rank lats 50 (w_P50Ns w) ∧ nearest_rank lats 90 (w_P90Ns w) ∧
  nearest_rank lats 99 (w_P99Ns w) ∧ w_P50Ns w ≤ w_P90Ns w ≤ w_P99Ns w ∧
  w_MinNs w ∈ lats ∧ w_MaxNs w ∈ lats ∧ (∀ x, x ∈ lats → w_MinNs w ≤ x ≤ w_MaxNs w) ∧
  w_SampleN w = Z.of_nat (length lats).
Proof.
  intros Hw Hlen. pose proof (window_of_some _ _ _ _ Hw) as (_ & _ & Hn & Hne).
  destruct lats as [|x l]; [done|]. unfold window_of, Compute_window, Len in Hw. cbn [a_samples] in Hw.
  set (lats := x :: l) in *. set (sorted := sort_slice Z.ltb lats) in *.
  assert (Hp : sorted ≡ₚ lats) by apply sort_slice_perm.
  assert (Hs : StronglySorted Z.le sorted) by (by apply sorted_by_Zltb, sort_slice_sorted, _).
  assert (Hl : length sorted = length lats) by (by rewrite Hp).
  assert (Hnes : sorted ≠ []) by (intros He; rewrite He in Hl; done).
  assert (Hlens : Z.of_nat (length sorted) < 2 ^ 40) by lia.
  assert (Hrank : ∀ pct v, pct ∈ [50; 90; 99] → percentile sorted (F64.lit pct 100) = Some v →
    nearest_rank lats pct v).
  { intros pct v Hpct. rewrite percentile_agrees by done. apply pct_bounds in Hpct.
    destruct (percentile_nearest_rank sorted pct) as (v' & -> & Hv'); try done; [lia|unfold int64_max; lia|].
    intros [= <-]. by apply (nearest_rank_perm sorted lats). }
  cbn [fst] in Hw.
  destruct (percentile sorted (F64.lit 50 100)) as [p50|] eqn:E50; [|done].
  destruct (percentile sorted (F64.lit 90 100)) as [p90|] eqn:E90; [|done].
  destruct (percentile sorted (F64.lit 99 100)) as [p99|] eqn:E99; [|done].
  cbn [mbind option_bind] in Hw.
  destruct (at_index sorted 0) as [lo|] eqn:Elo; [|done]. cbn [mbind option_bind] in Hw.
  destruct (at_index sorted (Z.of_nat (length lats) - 1)) as [hi|] eqn:Ehi; [|done].
  injection Hw as <-. cbn [w_P50Ns w_P90Ns w_P99Ns w_MinNs w_MaxNs w_SampleN].
  apply Hrank in E50 as R50; [|set_solver]. apply Hrank in E90 as R90; [|set_solver].
  apply Hrank in E99 as R99; [|set_solver].
  do 3 (split; [done|]).
  split; [split; [apply (nearest_rank_mono lats 50 90)|apply (nearest_rank_mono lats 90 99)]; done || lia|].
  apply at_index_lookup in Elo as [Hi0 Elo], Ehi as [Hi1 Ehi].
  split; [rewrite <- Hp; by eapply list_elem_of_lookup_2|].
  split; [rewrite <- Hp; by eapply list_elem_of_lookup_2|]. split; [|done].
  intros y Hy. rewrite <- Hp in Hy. apply list_elem_of_lookup in Hy as [j Hj].
  apply lookup_lt_Some in Hj as Hjl. split.
  - eapply (sorted_lookup sorted _ j); [done|exact Elo|exact Hj|lia].
  - eapply (sorted_lookup sorted j); [done|exact Hj|exact Ehi|]. lia.
Qed.

(** The latencies of the events of one submission and bucket, in order. *)
Definition lats (id : string) (b : time) (es : list Event) : list Z :=
  e_LatencyNs <$> filter (λ e, e_SubmissionID e = id ∧ bucketOf e = b) es.

(** Events come in order: within a submission the buckets do not decrease. *)
Definition in_order (es : list Event) : Prop :=
  StronglySorted (λ e e', e_SubmissionID e = e_SubmissionID e' → bucketOf e ≤ bucketOf e') es.

(** The first stretch of events of one submission that lie in bucket [b]: in whatever
    order the events come, this is what the row of the bucket is made of. *)
Definition stretch (id : string) (b : time) (es : list Event) : list Z :=
  e_LatencyNs <$> first_run bucketOf b (filter (λ e, e_SubmissionID e = id) es).

Lemma lats_first_run id b es :
  lats id b es = e_LatencyNs <$> filter (λ e, bucketOf e = b) (filter (λ e, e_SubmissionID e = id) es).
Proof.
  unfold lats. f_equal. rewrite list_filter_filter. apply list_filter_iff. naive_solver.
Qed.

(** In order, the first stretch is all of the bucket. *)
Lemma stretch_in_order id b es : in_order es → stretch id b es = lats id b es.
Proof.
  intros Hord. rewrite lats_first_run. unfold stretch. f_equal. apply first_run_sorted.
  induction Hord as [|e es _ IH He]; [constructor|]. rewrite filter_cons. case_decide as Hid; [|done].
  constructor; [done|]. apply Forall_forall. intros e' [Hid' Hin]%list_elem_of_filter.
  rewrite Forall_forall in He. apply He; [done|congruence].
Qed.

(** The rows of a submission are the windows of the first stretches of its events [es]. *)
Definition rows (id : string) (es : list Event) (t : TimescaleTable) : Prop :=
  ∀ b, t !! (b, id) = window_of id b (e_LatencyNs <$> first_run bucketOf b es).

(** What is stored for a submission, and its open window: the events [cur] since the
    bucket last changed. *)
Definition inv_at (es : list Event) (id : string) (w : option windowState) (t : TimescaleTable) : Prop :=
  let own := filter (λ e, e_SubmissionID e = id) es in
  match w with
  | None => own = [] ∧ rows id [] t
  | Some ws => ∃ b pre cur, own = pre ++ cur ∧ run_end bucketOf b pre cur ∧
      ws = mkWindowState (mkAcc id b (e_LatencyNs <$> cur)) b ∧ rows id pre t
  end.

Definition inv (es : list Event) (cs : Consumer * TimescaleTable) : Prop :=
  ∀ id, inv_at es id (cn_windows cs.1 !! id) cs.2.

(** Closing a window: the row is written unless the bucket has one. *)
Lemma flush_open id b pre cur c t :
  run_end bucketOf b pre cur → rows id pre t →
  ∃ t', flushWindow (WriteWindow false) id (mkWindowState (mkAcc id b (e_LatencyNs <$> cur)) b) c t =
      (None, mkConsumer (delete id (cn_windows c)) (cn_marked c), t') ∧ rows id (pre ++ cur) t' ∧
    ∀ id' b', id' ≠ id → t' !! (b', id') = t !! (b', id').
Proof.
  intros Hrun Ht. set (ls := e_LatencyNs <$> cur).
  assert (ls ≠ []) as Hne by (intros Hnil%fmap_nil_inv; by apply (proj1 Hrun)).
  destruct (window_of_cons id b ls Hne) as [w Hw]. pose proof (window_of_some _ _ _ _ Hw) as (Hb & Hid & Hn & _).
  exists (match t !! (b, id) with Some _ => t | None => <[(b, id) := w]> t end). split; [|split].
  - unfold flushWindow. cbn [ws_acc]. assert ((Compute_window (mkAcc id b ls)).1 = Some w) as Hc by (by destruct ls).
    destruct (Compute_window (mkAcc id b ls)) as [w' a']. simpl in Hc. subst w'. unfold WriteWindow.
    destruct (Z.eqb_spec (w_SampleN w) 0) as [H0|]; [destruct ls; simpl in *; [done|lia]|]. by rewrite Hb, Hid.
  - intros b'. rewrite (first_run_app _ b' b pre cur) by done. case_decide as Hbb.
    + subst b'. pose proof (Ht b) as Htb. destruct (first_run bucketOf b pre) as [|e l] eqn:Hf; rewrite ?Hf in Htb.
      * change (t !! (b, id) = None) in Htb. rewrite Htb, lookup_insert, decide_True by done. by rewrite <- Hw.
      * destruct (window_of_cons id b (e_LatencyNs <$> e :: l)) as [w' Hw']; [done|]. by rewrite Htb, Hw', Htb, Hw'.
    + destruct (t !! (b, id)); [apply Ht|]. rewrite lookup_insert_ne by congruence. apply Ht.
  - intros id' b' Hid'. destruct (t !! (b, id)); [done|]. rewrite lookup_insert_ne; [done|congruence].
Qed.
End windows.

Section pipeline.
Context `{!SortSlice, !MapRange} (unmarshal : string → option Event).

Lemma inv_other es e id w t t' :
  e_SubmissionID e ≠ id → inv_at es id w t → (∀ b, t' !! (b, id) = t !! (b, id)) →
  inv_at (es ++ [e]) id w t'.
Proof.
  intros Hne Hi Ht. unfold inv_at, rows in *. rewrite filter_app, filter_cons, decide_False, filter_nil, app_nil_r by done.
  by destruct w as [ws|]; repeat setoid_rewrite Ht.
Qed.

Lemma own_snoc es e :
  filter (λ x, e_SubmissionID x = e_SubmissionID e) (es ++ [e]) = filter (λ x, e_SubmissionID x = e_SubmissionID e) es ++ [e].
Proof. by rewrite filter_app, filter_cons, decide_True, filter_nil. Qed.

Lemma consume_event es e v c t :
  unmarshal v = Some e → e_Kind e ≠ KindHeartbeat →
  inv es (c, t) → inv (es ++ [e]) (consumeRecord (WriteWindow false) unmarshal v (c, t)).
Proof.
  intros Hu Hk Hinv. unfold consumeRecord, handleRecord. rewrite Hu, bool_decide_eq_false_2 by done.
  set (id := e_SubmissionID e). set (b := bucketOf e). cbn [fst snd]. pose proof (Hinv id) as Hid.
  simpl in Hid. destruct (cn_windows c !! id) as [ws|] eqn:Hw; simpl.
  - destruct Hid as (b0 & pre & cur & Hown & Hrun & -> & Ht).
    cbn [ws_bucketStart]. destruct (Z.eqb_spec b b0) as [<-|Hbne].
    + intros id'. simpl. rewrite lookup_insert. case_decide; [subst id'|by apply (inv_other es e id' _ t); [|apply Hinv|]].
      exists b, pre, (cur ++ [e]). unfold id. rewrite own_snoc. fold id. rewrite Hown, app_assoc, fmap_app.
      split_and!; [done|by apply run_end_snoc|done|done].
    + destruct (flush_open id b0 pre cur c t Hrun Ht) as (t' & -> & Ht' & Hother).
      intros id'. simpl. rewrite lookup_insert. case_decide as Hid.
      * subst id'. exists b, (pre ++ cur), [e]. unfold id. rewrite own_snoc. fold id. rewrite Hown.
        split_and!; [done|by apply (run_end_next _ b0)|done|done].
      * rewrite lookup_delete_ne by done. apply (inv_other _ _ _ _ t); [done|apply Hinv|].
        intros b'. by apply Hother.
  - rewrite Z.eqb_refl. intros id'. simpl. rewrite lookup_insert.
    case_decide; [subst id'|by apply (inv_other es e id' _ t); [|apply Hinv|]].
    exists b, [], [e]. unfold id. rewrite own_snoc. fold id. rewrite (proj1 Hid).
    split_and!; [done|by apply run_end_first|done|apply Hid].
Qed.

(** The events that count: decoded, and not heartbeats. *)
Definition counted (values : list string) : list Event :=
  filter (λ e, e_Kind e ≠ KindHeartbeat) (omap unmarshal values).

Lemma counted_snoc values v :
  counted (values ++ [v]) = counted values ++
    match unmarshal v with
    | Some e => if decide (e_Kind e ≠ KindHeartbeat) then [e] else []
    | None => []
    end.
Proof.
  unfold counted. rewrite omap_app, filter_app. f_equal. simpl.
  destruct (unmarshal v); [|done]. by rewrite filter_cons, filter_nil.
Qed.

Lemma consume_marked values cs :
  cn_marked (consume (WriteWindow false) unmarshal values cs).1 = cn_marked cs.1 + Z.of_nat (length values).
Proof.
  revert cs. induction values as [|v values IH]; intros [c t]; simpl; [lia|].
  rewrite IH. unfold consumeRecord. cbn [fst snd].
  assert (∀ id st c0 t0, cn_marked (flushWindow (WriteWindow false) id st c0 t0).1.2 = cn_marked c0) as Hf.
  { intros id st c0 t0. unfold flushWindow. destruct (Compute_window (ws_acc st)) as [[w|] a]; [|done].
    by destruct (WriteWindow false w t0) as [[|] ?]. }
  unfold handleRecord. destruct (unmarshal v) as [e|]; [|simpl; lia].
  case_bool_decide; [simpl; lia|]. destruct (_ =? _); [simpl; lia|].
  specialize (Hf (e_SubmissionID e)
    (default (freshWindow (e_SubmissionID e) (bucketOf e)) (cn_windows c !! e_SubmissionID e)) c t).
  destruct (flushWindow _ _ _ c t) as [[[err|] c'] t']; simpl in *; lia.
Qed.

Lemma consume_inv values :
  inv (counted values) (consume (WriteWindow false) unmarshal values (NewConsumer, ∅)).
Proof.
  induction values as [|v values IH] using rev_ind.
  { intros id. simpl. rewrite lookup_empty. split; [done|]. intros b. by rewrite lookup_empty. }
  unfold consume. rewrite fold_left_app. simpl. fold (consume (WriteWindow false) unmarshal values (NewConsumer, ∅)).
  rewrite counted_snoc. destruct (consume (WriteWindow false) unmarshal values (NewConsumer, ∅)) as [c t].
  destruct (unmarshal v) as [e|] eqn:Hu.
  - case_decide as Hk; [by apply consume_event|]. rewrite app_nil_r. unfold consumeRecord, handleRecord. rewrite Hu.
    rewrite bool_decide_eq_true_2; [exact IH|]. by destruct (decide (e_Kind e = KindHeartbeat)).
  - rewrite app_nil_r. unfold consumeRecord, handleRecord. rewrite Hu. exact IH.
Qed.

Definition flush_step (cs : Consumer * TimescaleTable) (kv : string * windowState) : Consumer * TimescaleTable :=
  let '(id, state) := kv in
  let '(_, c, s) := flushWindow (WriteWindow false) id state cs.1 cs.2 in (c, s).

Lemma flushAll_fold cs :
  flushAll (WriteWindow false) cs = fold_left flush_step (map_range (cn_windows cs.1)) cs.
Proof. done. Qed.

Lemma flush_fold es l c t :
  NoDup l.*1 →
  (∀ id ws, (id, ws) ∈ l → inv_at es id (Some ws) t) →
  let cs' := fold_left flush_step l (c, t) in
  (∀ id, id ∈ l.*1 → cn_windows cs'.1 !! id = None ∧ ∀ b, cs'.2 !! (b, id) = window_of id b (stretch id b es)) ∧
  (∀ id, id ∉ l.*1 → cn_windows cs'.1 !! id = cn_windows c !! id ∧ ∀ b, cs'.2 !! (b, id) = t !! (b, id)) ∧
  cn_marked cs'.1 = cn_marked c.
Proof.
  revert c t. induction l as [|[id ws] l IH]; intros c t Hnd Hl; cbn zeta.
  { split; [by intros id ?%not_elem_of_nil|done]. }
  apply NoDup_cons in Hnd as [Hid Hnd]. cbn [fold_left].
  destruct (Hl id ws) as (b & pre & cur & Hown & Hrun & -> & Ht); [by left|].
  destruct (flush_open id b pre cur c t Hrun Ht) as (t' & Hf & Ht' & Hother).
  unfold flush_step at 2 4 6 8 10. cbn [fst snd]. rewrite Hf.
  destruct (IH (mkConsumer (delete id (cn_windows c)) (cn_marked c)) t') as (H1 & H2 & H3); [done| |].
  { intros id' ws' Hin. assert (id' ≠ id) as Hne'.
    { intros ->. apply Hid, list_elem_of_fmap. by exists (id, ws'). }
    destruct (Hl id' ws') as (b' & pre' & cur' & ? & ? & ? & Ht2); [by right|]. exists b', pre', cur'.
    split_and!; [done..|]. intros b''. by rewrite Hother. }
  split; [|split; [|done]].
  - intros id' [->|Hin]%elem_of_cons; [|by apply H1].
    change (id, _).1 with id. destruct (H2 id) as [-> Hb]; [done|]. simpl.
    rewrite lookup_delete, decide_True by done. split; [done|]. intros b'. rewrite Hb, Ht'. unfold stretch.
    by rewrite Hown.
  - intros id' [Hne' Hin]%not_elem_of_cons. cbn [fst] in Hne'. destruct (H2 id') as [-> Hb]; [done|]. simpl.
    rewrite lookup_delete_ne by done. split; [done|]. intros b'. by rewrite Hb, Hother.
Qed.
End pipeline.

(** In whatever order the events come, the row of a bucket is the window of the first
    stretch of it. *)
Lemma consumer_run_stretches `{!SortSlice, !MapRange} unmarshal values :
  let run := Consumer_Run (WriteWindow false) unmarshal values ∅ in
  cn_windows run.1 = ∅ ∧ cn_marked run.1 = Z.of_nat (length values) ∧
  ∀ id b, run.2 !! (b, id) = window_of id b (stretch id b (counted unmarshal values)).
Proof.
  cbn zeta. unfold Consumer_Run. rewrite flushAll_fold.
  pose proof (consume_inv unmarshal values) as Hinv.
  pose proof (consume_marked unmarshal values (NewConsumer, ∅)) as Hmark.
  destruct (consume (WriteWindow false) unmarshal values (NewConsumer, ∅)) as [c t]. cbn [fst] in *.
  assert (Hids : ∀ id, id ∈ (map_range (cn_windows c)).*1 ↔ is_Some (cn_windows c !! id)).
  { intros id. rewrite list_elem_of_fmap. split.
    - intros ([id' ws] & -> & Hin). apply elem_of_map_range in Hin. by exists ws.
    - intros [ws Hws]. exists (id, ws). split; [done|]. by apply elem_of_map_range. }
  destruct (flush_fold (counted unmarshal values) (map_range (cn_windows c)) c t) as (H1 & H2 & H3).
  - rewrite map_range_perm. apply NoDup_fst_map_to_list.
  - intros id ws Hin. apply elem_of_map_range in Hin. specialize (Hinv id). simpl in Hinv.
    by rewrite Hin in Hinv.
  - destruct (fold_left flush_step _ (c, t)) as [c' t']. cbn [fst snd] in *.
    split; [|split; [rewrite H3, Hmark; simpl; lia|]].
    + apply map_eq. intros id. rewrite lookup_empty.
      destruct (decide (id ∈ (map_range (cn_windows c)).*1)) as [Hin|Hin]; [by apply H1|].
      destruct (H2 id Hin) as [-> _]. rewrite Hids in Hin. by apply eq_None_not_Some.
    + intros id b. destruct (decide (id ∈ (map_range (cn_windows c)).*1)) as [Hin|Hin]; [by apply H1|].
      destruct (H2 id Hin) as [_ ->]. rewrite Hids in Hin. apply eq_None_not_Some in Hin.
      specialize (Hinv id). simpl in Hinv. rewrite Hin in Hinv. destruct Hinv as [Hnil Hr].
      rewrite Hr. unfold stretch. by rewrite Hnil.
Qed.


(** An event in the 5-second bucket [b] of submission [id]. *)
Definition sample_latency (id : string) (b lat : Z) : Event :=
  mkTelemetryEvent KindFill id (zero_time + b * WindowDuration + 17) "o" lat ∅.

Definition sample_unmarshal (v : string) : option Event :=
  if bool_decide (v = "e1") then Some (sample_latency "s" 10 5)
  else if bool_decide (v = "e2") then Some (sample_latency "s" 10 9)
  else if bool_decide (v = "e3") then Some (sample_latency "s" 11 2)
  else if bool_decide (v = "h") then Some (mkTelemetryEvent KindHeartbeat "s" 0 "" 0 ∅)
  else None.

Definition sample_values : list string := ["e1"; "bad"; "e2"; "h"; "e3"].
Definition sample_run : Consumer * TimescaleTable :=
  Consumer_Run (WriteWindow false) sample_unmarshal sample_values ∅.


Lemma window_statistics_witness :
  ∃ w, window_of "s" 7 [5; 3; 9] = Some w ∧ nearest_rank [5; 3; 9] 50 (w_P50Ns w) ∧ w_MaxNs w = 9.
Proof.
  destruct (window_of "s" 7 [5; 3; 9]) as [w|] eqn:Hw; [|by vm_compute in Hw].
  exists w. split; [done|].
  destruct (window_statistics "s" 7 [5; 3; 9] w Hw) as (H50 & _); [by vm_compute|].
  split; [exact H50|]. vm_compute in Hw. by injection Hw as <-.
Defined.

(** Out of order, a second window of a bucket is dropped by the table. *)
Lemma late_window_dropped :
  option_map w_SampleN ((Consumer_Run (WriteWindow false) sample_unmarshal ["e1"; "e3"; "e2"] ∅).2
    !! (bucketOf (sample_latency "s" 10 5), "s")) = Some 1.
Proof. by vm_compute. Qed.
