(* ===== verification/Timescale.v ===== *)
(** * Timescale: the window table in its database ([internal/consumer/store.go])

    [Consumer] has the rows of the table. Here is the schema around them: connecting,
    the transaction of [Bootstrap], and inserts into a table that may not be there.
    The database answers each call; it may fail to report a commit that it made. *)

From S2P Require Import Prelude Models Telemetry Stats Consumer.

(** The schema and the rows. *)
Record database := mkDatabase {
  db_table : bool;
  db_hypertable : bool;
  db_index : bool;
  db_rows : gmap (Z * string) LatencyWindow
}.

(** [NewTimescaleStore]: the error, and whether a pool is left open. *)
Definition NewTimescaleStore (parse open_ ping : option string) : option string * bool :=
  match parse with
  | Some e => (Some ("consumer: parse DSN: " +:+ e), false)
  | None =>
      match open_ with
      | Some e => (Some ("consumer: open pool: " +:+ e), false)
      | None =>
          match ping with
          | Some e => (Some ("consumer: ping TimescaleDB: " +:+ e), false)
          | None => (None, true)
          end
      end
  end.

(** The statements of [Bootstrap]; each may be repeated. *)
Inductive statement := CreateTable | CreateHypertable | CreateIndex.

Definition run_statement (st : statement) (d : database) : database :=
  match st with
  | CreateTable => mkDatabase true (db_hypertable d) (db_index d) (db_rows d)
  | CreateHypertable => mkDatabase (db_table d) true (db_index d) (db_rows d)
  | CreateIndex => mkDatabase (db_table d) (db_hypertable d) true (db_rows d)
  end.

Definition statement_text (st : statement) : string :=
  match st with
  | CreateTable => "create latency_windows: "
  | CreateHypertable => "create_hypertable: "
  | CreateIndex => "create submission index: "
  end.

(** The function that [Bootstrap] runs in a transaction: the database as the
    transaction sees it. *)
Fixpoint run_statements (fails : statement → option string) (sts : list statement) (d : database)
    : option string * database :=
  match sts with
  | [] => (None, d)
  | st :: sts =>
      match fails st with
      | Some e => (Some (statement_text st +:+ e), d)
      | None => run_statements fails sts (run_statement st d)
      end
  end.

(** How a commit ends: made, not made, or made without saying so. *)
Inductive commit_result := Committed | NotCommitted (e : string) | CommittedUnheard (e : string).

Definition withTx (begin_ : option string) (fn : database → option string * database)
    (commit : commit_result) (d : database) : option string * database :=
  match begin_ with
  | Some e => (Some ("consumer: begin tx: " +:+ e), d)
  | None =>
      match fn d with
      | (Some e, _) => (Some e, d)
      | (None, d') =>
          match commit with
          | Committed => (None, d')
          | NotCommitted e => (Some ("consumer: commit tx: " +:+ e), d)
          | CommittedUnheard e => (Some ("consumer: commit tx: " +:+ e), d')
          end
      end
  end.

Definition Bootstrap (begin_ : option string) (fails : statement → option string) (commit : commit_result)
    (d : database) : option string * database :=
  withTx begin_ (run_statements fails [CreateTable; CreateHypertable; CreateIndex]) commit d.

(** [WriteWindow] on the database: without the table the insert fails. *)
Definition db_WriteWindow (fails : bool) (w : LatencyWindow) (d : database) : option string * database :=
  let '(e, rows) := WriteWindow (fails || negb (db_table d)) w (db_rows d) in
  (e, mkDatabase (db_table d) (db_hypertable d) (db_index d) rows).

(** ** Properties *)
(** The schema is there, with the rows of before. *)
Definition migrated (d d' : database) : Prop := d' = mkDatabase true true true (db_rows d).

(** The migration is all or nothing, keeps every row and may be repeated. After it
    reported success the whole schema is there; after an error the database is as it
    was, or migrated when it was the answer to the commit that got lost; a second
    migration changes nothing; and from then on a window is refused only by the
    database itself. *)
Theorem timescale_bootstrap begin_ fails commit d :
  let '(e, d') := Bootstrap begin_ fails commit d in
  (e = None → migrated d d') ∧ (d' = d ∨ migrated d d') ∧ db_rows d' = db_rows d ∧
  (migrated d d' → ∀ begin2 fails2 commit2, (Bootstrap begin2 fails2 commit2 d').2 = d') ∧
  (e = None → ∀ w, (db_WriteWindow false w d').1 = None).
Proof.
  assert (Hagain : ∀ d', migrated d d' → ∀ b f c, (Bootstrap b f c d').2 = d').
  { intros d' -> b f c. unfold Bootstrap, withTx. destruct b; [done|]. cbn [run_statements run_statement].
    destruct (f CreateTable), (f CreateHypertable), (f CreateIndex), c; done. }
  assert (Hwrite : ∀ d' w, migrated d d' → (db_WriteWindow false w d').1 = None).
  { intros d' w ->. unfold db_WriteWindow, WriteWindow. simpl. by destruct (_ =? _). }
  unfold Bootstrap at 1, withTx. destruct begin_ as [e|]; [naive_solver|]. cbn [run_statements].
  destruct (fails CreateTable); [naive_solver|]. destruct (fails CreateHypertable); [naive_solver|].
  destruct (fails CreateIndex); [naive_solver|]. cbn [run_statement].
  assert (migrated d (run_statement CreateIndex (run_statement CreateHypertable (run_statement CreateTable d)))) by done.
  destruct commit; simpl in *; naive_solver.
Qed.
