(* ===== verification/World.v ===== *)
(** * World: the surroundings of a worker

    The executor and the worker act on shared state: the submission store, the
    job queue and a sandbox. [world] is that state with a trace of the actions
    taken; [Env] decides what the outside answers, each answer a function of
    the number of actions before it, so that any schedule of failures and of
    the clock is an [Env]. [M] is the state monad over [world], and every
    operation below is one action. Time passes between actions by what [Env]
    says, and by the waiting of the code itself. *)

From S2P Require Import Prelude Models Botfleet Scenarios Validator Queue Submission Telemetry.

(** ** The outside *)
Class Env : Type := {
  env_delay : nat → N;
  env_getFails : nat → bool;
  env_updateFails : nat → bool;
  env_deploy : nat → Submission → result string (string * Z);
  env_stopFails : nat → bool;
  env_containerHealthy : nat → string → result string bool;
  (** A GET of the URL answers with status 200. *)
  env_httpOK : nat → string → bool;
  env_ctxDone : nat → bool;
  env_activeContest : nat → result string Contest;
  env_enqueueFails : nat → bool;
  env_commitFails : nat → bool;
  env_batchFails : nat → bool;
  (** A run of the validator built for a URL. *)
  env_validate : nat → string → string → ValidationResult * option run_error;
  (** The results of a fleet run, its start and its end. *)
  env_fleet : nat → FleetConfig → list OrderResult * time * time
}.

(** ** The state and the trace *)
Inductive action :=
| AOnStart (submissionID : string)
| AOnFinish
| ADeploy (submissionID : string)
| AStop (containerID : string)
| AHealth (containerID : string)
| AProbe (url : string)
| APreflight (url : string)
| AFleet (cfg : FleetConfig)
| AEmit (batch : list Event)
| AEnqueue (j : Job)
| ACommit
| AUpdate (sub : Submission).

Record world := mkWorld {
  w_tick : nat;
  w_now : time;
  w_store : gmap string Submission;
  w_queue : list Job;
  w_trace : list action
}.

Definition M (A : Type) : Type := world → A * world.

#[export] Instance M_ret : MRet M := λ A a w, (a, w).
#[export] Instance M_bind : MBind M := λ A B k m w, let '(a, w) := m w in k a w.

(** The next moment, and the record of an action. *)
Definition tick `{!Env} : M nat :=
  λ w, (w_tick w, mkWorld (S (w_tick w)) (w_now w + Z.of_N (env_delay (w_tick w))) (w_store w)
                    (w_queue w) (w_trace w)).

(** [time.Now()], and waiting for [d]. *)
Definition now : M time := λ w, (w_now w, w).

Definition sleep (d : duration) : M unit :=
  λ w, ((), mkWorld (w_tick w) (w_now w + Z.max 0 d) (w_store w) (w_queue w) (w_trace w)).

Definition note (a : action) : M unit :=
  λ w, ((), mkWorld (w_tick w) (w_now w) (w_store w) (w_queue w) (w_trace w ++ [a])).

Definition readStore : M (gmap string Submission) := λ w, (w_store w, w).

Definition writeStore (s : gmap string Submission) : M unit :=
  λ w, ((), mkWorld (w_tick w) (w_now w) s (w_queue w) (w_trace w)).

Definition pushJob (j : Job) : M unit :=
  λ w, ((), mkWorld (w_tick w) (w_now w) (w_store w) (w_queue w ++ [j]) (w_trace w)).

Section operations.
Context `{!Env}.

Definition ctxDone : M bool := t ← tick; mret (env_ctxDone t).

(** *** The submission store, [submission.Store] *)
Definition store_Get (id : string) : M (result string Submission) :=
  t ← tick;
  s ← readStore;
  mret (if env_getFails t then Err "store" else Submission.Get id s).

(** The error, and the submission with its new time stamp. *)
Definition store_Update (sub : Submission) : M (option string * Submission) :=
  t ← tick;
  s ← readStore;
  stamp ← now;
  let '(e, sub, s) := Submission.Update (env_updateFails t) stamp sub s in
  _ ← writeStore s;
  _ ← note (AUpdate sub);
  mret (e, sub).

(** *** The sandbox, [sandboxDeployer], and a probe of its HTTP port *)
Definition docker_Deploy (sub : Submission) : M (result string (string * Z)) :=
  t ← tick; _ ← note (ADeploy (s_ID sub)); mret (env_deploy t sub).

Definition docker_Stop (containerID : string) : M (option string) :=
  t ← tick; _ ← note (AStop containerID); mret (if env_stopFails t then Some "stop" else None).

Definition docker_ContainerHealthy (containerID : string) : M (result string bool) :=
  t ← tick; _ ← note (AHealth containerID); mret (env_containerHealthy t containerID).

Definition http_OK (url : string) : M bool :=
  t ← tick; _ ← note (AProbe url); mret (env_httpOK t url).

(** *** The contest service, the queue, the emitter *)
Definition contest_GetActive : M (result string Contest) := t ← tick; mret (env_activeContest t).

Definition queue_Enqueue (j : Job) : M (option string) :=
  t ← tick;
  if env_enqueueFails t then mret (Some "enqueue")
  else _ ← pushJob j; _ ← note (AEnqueue j); mret None.

Definition queue_CommitJob : M (option string) :=
  t ← tick; _ ← note ACommit; mret (if env_commitFails t then Some "commit" else None).

Definition emitter_BatchEmit (batch : list Event) : M (option string) :=
  t ← tick; _ ← note (AEmit batch); mret (if env_batchFails t then Some "emit" else None).

(** *** The validator and the fleet *)
Definition validator_Run (url id : string) : M (ValidationResult * option run_error) :=
  t ← tick; _ ← note (APreflight url); mret (env_validate t url id).

Definition fleet_Run (cfg : FleetConfig) : M (list OrderResult * time * time) :=
  t ← tick; _ ← note (AFleet cfg); mret (env_fleet t cfg).
End operations.

(** An outside in which nothing fails. *)
Definition calmEnv : Env := {|
  env_delay := λ _, 1%N;
  env_getFails := λ _, false;
  env_updateFails := λ _, false;
  env_deploy := λ _ _, Ok ("0123456789abcdef", 9000);
  env_stopFails := λ _, false;
  env_containerHealthy := λ _ _, Ok true;
  env_httpOK := λ _ _, true;
  env_ctxDone := λ _, false;
  env_activeContest := λ _, Err "no active contest";
  env_enqueueFails := λ _, false;
  env_commitFails := λ _, false;
  env_batchFails := λ _, false;
  env_validate := λ _ _ id, (mkValidation id [] true 0, None);
  env_fleet := λ _ _, ([], 0, 1)
|}.
