(* ===== verification/Logic.v ===== *)
(** * Logic: reasoning about the programs of [World]

    Three judgements on a program: [traced m Q], the actions it adds to the
    trace and its result satisfy [Q]; [only P m], every action it adds satisfies
    [P]; and [wp m Q w], started in [w] it ends with [Q]. Each has a rule for
    sequencing and one for every operation; the hint database [world] and the
    tactics [only_tac] and [wp_step] apply them. *)

From S2P Require Import Prelude Models Botfleet Scenarios Validator Queue Submission Telemetry World.

(** ** Traces *)
Definition traced {A} (m : M A) (Q : A → list action → Prop) : Prop :=
  ∀ w, ∃ l, w_trace (m w).2 = w_trace w ++ l ∧ Q (m w).1 l.

Lemma traced_ret {A} (a : A) Q : Q a [] → traced (mret a) Q.
Proof. intros HQ w. exists []. by rewrite app_nil_r. Qed.

Lemma traced_bind {A B} (m : M A) (k : A → M B) Q R :
  traced m Q →
  (∀ a l, Q a l → traced (k a) (λ b l', R b (l ++ l'))) →
  traced (m ≫= k) R.
Proof.
  intros Hm Hk w. destruct (Hm w) as (l & Hl & HQ). unfold mbind, M_bind.
  destruct (m w) as [a w1]. simpl in *. destruct (Hk a l HQ w1) as (l' & Hl' & HR).
  exists (l ++ l'). by rewrite Hl', Hl, app_assoc.
Qed.

Lemma traced_mono {A} (m : M A) (Q R : A → list action → Prop) :
  traced m Q → (∀ a l, Q a l → R a l) → traced m R.
Proof. intros Hm HQ w. destruct (Hm w) as (l & Hl & H). exists l. auto. Qed.

(** What every result satisfies, whatever the world. *)
Definition returns {A} (m : M A) (R : A → Prop) : Prop := ∀ w, R (m w).1.

Lemma returns_ret {A} (a : A) (R : A → Prop) : R a → returns (mret a) R.
Proof. by intros HR w. Qed.

Lemma returns_bind {A B} (m : M A) (k : A → M B) (R : B → Prop) :
  (∀ a, returns (k a) R) → returns (m ≫= k) R.
Proof. intros Hk w. unfold mbind, M_bind. destruct (m w) as [a w1]. apply Hk. Qed.

Lemma traced_returns {A} (m : M A) Q (R : A → Prop) :
  traced m Q → returns m R → traced m (λ a l, Q a l ∧ R a).
Proof. intros Hm HR w. destruct (Hm w) as (l & Hl & HQ). exists l. auto. Qed.

(** ** Actions of one kind *)
Definition only (P : action → Prop) {A} (m : M A) : Prop := traced m (λ _ l, Forall P l).

Lemma only_ret P {A} (a : A) : only P (mret a).
Proof. by apply traced_ret. Qed.

Lemma only_bind P {A B} (m : M A) (k : A → M B) :
  only P m → (∀ a, only P (k a)) → only P (m ≫= k).
Proof.
  intros Hm Hk. eapply traced_bind; [exact Hm|]. intros a l Hl.
  eapply traced_mono; [apply Hk|]. intros b l' Hl'. by apply Forall_app.
Qed.

Lemma only_weaken (P P' : action → Prop) {A} (m : M A) :
  (∀ a, P a → P' a) → only P m → only P' m.
Proof. intros HP Hm. eapply traced_mono; [exact Hm|]. intros a l Hl.
  by apply (Forall_impl P). Qed.

Create HintDb world.
#[export] Hint Resolve only_ret : world.

Section only_operations.
Context `{!Env} (P : action → Prop).

Lemma only_quiet {A} (m : M A) : (∀ w, w_trace (m w).2 = w_trace w) → only P m.
Proof. intros Hm w. exists []. by rewrite Hm, app_nil_r. Qed.

Lemma only_note a : P a → only P (note a).
Proof. intros HP w. exists [a]. split; [done|]. by repeat constructor. Qed.

Lemma only_tick : only P tick.
Proof. by apply only_quiet. Qed.
Lemma only_now : only P now.
Proof. by apply only_quiet. Qed.
Lemma only_sleep d : only P (sleep d).
Proof. by apply only_quiet. Qed.
Lemma only_ctxDone : only P ctxDone.
Proof. by apply only_quiet. Qed.
Lemma only_readStore : only P readStore.
Proof. by apply only_quiet. Qed.
Lemma only_writeStore s : only P (writeStore s).
Proof. by apply only_quiet. Qed.
Lemma only_pushJob j : only P (pushJob j).
Proof. by apply only_quiet. Qed.
Lemma only_store_Get id : only P (store_Get id).
Proof. by apply only_quiet. Qed.
Lemma only_GetActive : only P contest_GetActive.
Proof. by apply only_quiet. Qed.

(** An operation that is one action. *)
Lemma only_noted {A} a (f : nat → A) : P a → only P (t ← tick; _ ← note a; mret (f t)).
Proof.
  intros HP. apply only_bind; [apply only_tick|]. intros t.
  apply only_bind; [by apply only_note|]. auto with world.
Qed.

Lemma only_store_Update sub : (∀ s, P (AUpdate s)) → only P (store_Update sub).
Proof.
  intros HP. unfold store_Update. apply only_bind; [apply only_tick|]. intros t.
  apply only_bind; [apply only_readStore|]. intros s. apply only_bind; [apply only_now|]. intros st.
  destruct (Update _ _ _ _) as [[e sub'] s']. apply only_bind; [apply only_writeStore|]. intros _.
  apply only_bind; [by apply only_note|]. auto with world.
Qed.

Lemma only_Enqueue j : P (AEnqueue j) → only P (queue_Enqueue j).
Proof.
  intros HP. apply only_bind; [apply only_tick|]. intros t. destruct (env_enqueueFails t); [apply only_ret|].
  apply only_bind; [apply only_pushJob|]. intros _. apply only_bind; [by apply only_note|]. auto with world.
Qed.
End only_operations.

#[export] Hint Resolve only_tick only_now only_sleep only_ctxDone only_store_Get only_GetActive
  only_store_Update only_Enqueue only_noted : world.

(** Proves [only P m] by following the program. *)
Ltac only_tac :=
  repeat first
    [ progress intros
    | solve [auto with world]
    | apply only_bind
    | match goal with |- context [match ?x with _ => _ end] => destruct x end ].

(** ** Weakest preconditions *)
(** Computes the basic programs. *)
Ltac run_simpl :=
  unfold mbind, M_bind, mret, M_ret, tick, now, sleep, note, readStore, writeStore, pushJob; simpl.

Definition wp {A} (m : M A) (Q : A → world → Prop) (w : world) : Prop := Q (m w).1 (m w).2.

Lemma bind_run {A B} (m : M A) (k : A → M B) w a w' : m w = (a, w') → (m ≫= k) w = k a w'.
Proof. unfold mbind, M_bind. by intros ->. Qed.

Lemma wp_ret {A} (a : A) (Q : A → world → Prop) w : Q a w → wp (mret a) Q w.
Proof. done. Qed.

Lemma wp_bind {A B} (m : M A) (k : A → M B) Q w :
  wp m (λ a w, wp (k a) Q w) w → wp (m ≫= k) Q w.
Proof. unfold wp, mbind, M_bind. by destruct (m w). Qed.

Lemma wp_mono {A} (m : M A) (Q R : A → world → Prop) w :
  wp m Q w → (∀ a w, Q a w → R a w) → wp m R w.
Proof. unfold wp. auto. Qed.

(** The part of the world that programs compute with: time, ticks and traces
    advance in every operation. *)
Definition state (w : world) : gmap string Submission * list Job := (w_store w, w_queue w).

Section wp_operations.
Context `{!Env}.

Lemma store_Get_good id sub w :
  env_getFails (w_tick w) = false → w_store w !! id = Some sub →
  ∃ w', store_Get id w = (Ok sub, w') ∧ w_store w' = w_store w ∧ w_queue w' = w_queue w.
Proof. intros Hf Hs. unfold store_Get, Get. run_simpl. rewrite Hf, Hs. by eexists. Qed.

(** A program that leaves store and queue alone. *)
Definition pure_effect {A} (m : M A) : Prop := ∀ w, state (m w).2 = state w.

Lemma wp_effect {A} (m : M A) (Q : A → world → Prop) w :
  pure_effect m → (∀ a w', state w' = state w → Q a w') → wp m Q w.
Proof. intros Hm HQ. apply HQ, Hm. Qed.

Lemma effect_ret {A} (a : A) : pure_effect (mret a).
Proof. done. Qed.

Lemma effect_bind {A B} (m : M A) (k : A → M B) :
  pure_effect m → (∀ a, pure_effect (k a)) → pure_effect (m ≫= k).
Proof.
  intros Hm Hk w. unfold mbind, M_bind. specialize (Hm w). destruct (m w) as [a w1]. simpl in *.
  by rewrite (Hk a w1).
Qed.

Lemma effect_tick : pure_effect tick.
Proof. done. Qed.
Lemma effect_note a : pure_effect (note a).
Proof. done. Qed.
Lemma effect_now : pure_effect now.
Proof. done. Qed.
Lemma effect_sleep d : pure_effect (sleep d).
Proof. done. Qed.
Lemma effect_store_Get id : pure_effect (store_Get id).
Proof. done. Qed.
Lemma effect_noted {A} a (f : nat → A) : pure_effect (t ← tick; _ ← note a; mret (f t)).
Proof. done. Qed.

(** The store operations, for a submission that is there. *)
Lemma wp_store_Get id (Q : result string Submission → world → Prop) w :
  (∀ w', state w' = state w →
     (∀ e, Q (Err e) w') ∧ ∀ sub, w_store w !! id = Some sub → Q (Ok sub) w') →
  wp (store_Get id) Q w.
Proof.
  intros HQ. unfold wp, store_Get. simpl. destruct (env_getFails (w_tick w)); [by apply HQ|].
  unfold Get. destruct (w_store w !! id) eqn:Hid; by apply HQ.
Qed.

Lemma wp_store_Get_ok id sub (Q : result string Submission → world → Prop) w :
  (∀ t, env_getFails t = false) → w_store w !! id = Some sub →
  (∀ w', state w' = state w → Q (Ok sub) w') → wp (store_Get id) Q w.
Proof.
  intros Hf Hid HQ. unfold wp, store_Get. simpl. rewrite Hf. unfold Get. rewrite Hid. by apply HQ.
Qed.

Lemma wp_store_Update sub (Q : option string * Submission → world → Prop) w :
  (∀ e t w', (e = None ∧ w_store w' = <[s_ID sub := stored (set_UpdatedAt t sub)]> (w_store w) ∨
              e ≠ None ∧ w_store w' = w_store w) →
     w_queue w' = w_queue w → Q (e, set_UpdatedAt t sub) w') →
  wp (store_Update sub) Q w.
Proof.
  intros HQ. unfold wp, store_Update, Update, Save. run_simpl.
  destruct (env_updateFails (w_tick w)); simpl; apply HQ; try done; [by right|by left].
Qed.

Lemma wp_store_Update_ok sub (Q : option string * Submission → world → Prop) w :
  (∀ t, env_updateFails t = false) →
  (∀ t w', w_store w' = <[s_ID sub := stored (set_UpdatedAt t sub)]> (w_store w) → w_queue w' = w_queue w →
     Q (None, set_UpdatedAt t sub) w') →
  wp (store_Update sub) Q w.
Proof.
  intros Hf HQ. unfold wp, store_Update, Update, Save. run_simpl. rewrite Hf. simpl. by apply HQ.
Qed.
End wp_operations.

#[export] Hint Resolve effect_ret effect_tick effect_note effect_now effect_sleep effect_store_Get
  effect_noted : world.

(** Proves [pure_effect m] by following the program. *)
Ltac effect_tac :=
  repeat first
    [ progress intros
    | solve [auto with world]
    | apply effect_bind
    | match goal with |- context [match ?x with _ => _ end] => destruct x end ].
