(* ===== verification/Executor.v ===== *)
(** * Executor: one benchmark run ([internal/worker/executor.go])

    Every method of [SandboxExecutor] in the monad of [World]. A method that
    changes the submission it is given returns it. Results of the fleet run are
    numbers of the environment; what is computed from them is modelled. The
    texts of errors and reasons are arguments. *)

From S2P Require Import Prelude Models OrderBook Checker Botfleet Stats Scenarios Validator Contest.
From S2P Require Import Queue Submission Telemetry World GoStrings GoTime.

(** The state of a fleet run that the executor reads. *)
Record FleetResult := mkFleetResult {
  fr_Results : list OrderResult;
  fr_Stats : BotStats;
  fr_StartedAt : time;
  fr_FinishedAt : time
}.

(** The fields of [SandboxExecutor] that steer it. *)
Record SandboxExecutor := mkExecutor {
  x_hasQueue : bool;
  x_hasContest : bool;
  x_hasValidator : bool;
  x_healthPollInterval : duration;
  x_healthTimeout : duration;
  x_fleetCfgOverride : option FleetConfig;
  x_sandboxHost : string;
  x_warmupDelay : duration;
  x_telemetryBatchSize : Z
}.

Definition NewSandboxExecutor : SandboxExecutor :=
  mkExecutor false false false (2 * Second) (2 * Minute) None "localhost" (2 * Second) 100.

Inductive exec_error :=
| ExLoad (e : string)
| ExDeploy (e : string)
| ExUnhealthy (e : string)
| ExHealthTimeout
| ExOutOfFuel
| ExHealthCtx
| ExPreflightRun (e : run_error)
| ExPreflightFailed (summary : string)
| ExFleet (e : fleet_error)
| ExStatsPanic
| ExPersist (e : string)
| ExNoQueue (label : string)
| ExEnqueue (label : string).

#[export] Instance run_error_eq_dec : EqDecision run_error.
Proof. solve_decision. Defined.

(** ** Pure parts *)
(** [fmt.Sprintf("%d", n)] for the port. *)
Definition portText (port : Z) : string :=
  if port <? 0 then "-" +:+ pretty (Z.to_N (- port)) else pretty (Z.to_N port).

Definition targetURLForProtocol (protocol host : string) (port : Z) : string :=
  if bool_decide (protocol = ProtocolWebSocket)
  then "ws://" +:+ host +:+ ":" +:+ portText port +:+ "/orders"
  else "http://" +:+ host +:+ ":" +:+ portText port.

Definition buildFleetConfig (x : SandboxExecutor) (targetURL : string) : FleetConfig :=
  match x_fleetCfgOverride x with
  | Some c => mkFleetConfig (fc_BotCount c) (fc_RampUpDuration c) (fc_TestDuration c) targetURL
                (fc_Protocol c) (fc_PerBotHTTPTimeout c) (fc_GeneratorConfig c)
  | None => DefaultFleetConfig targetURL
  end.

Definition buildFleetConfigFromProfile (targetURL : string) (p : VolatilityProfile) : FleetConfig :=
  mkFleetConfig (vp_BotCount p) (5 * Second) (vp_TestDuration p) targetURL "" (2 * Second)
    (mkGeneratorConfig (mkRatios (vp_LimitRatio p) (vp_MarketRatio p) (vp_CancelRatio p))
       (mkPriceConfig 10000 (vp_PriceSpreadCents p)) (mkQuantityConfig 1 (vp_MaxQuantity p)) 0).

Definition set_Protocol (protocol : string) (c : FleetConfig) : FleetConfig :=
  mkFleetConfig (fc_BotCount c) (fc_RampUpDuration c) (fc_TestDuration c) (fc_TargetURL c) protocol
    (fc_PerBotHTTPTimeout c) (fc_GeneratorConfig c).

(** [buildResults] in its two ways of scoring. *)
Definition legacyComposite (stats : BotStats) (correctnessScore : float64) : float64 :=
  let targetP99 := F64.of_Z 1000000 in
  let worstP99 := F64.of_Z 100000000 in
  let p99 := P99Ns stats in
  let normP99 :=
    if F64.leb p99 targetP99 then F64.one
    else if F64.ltb p99 worstP99
    then F64.sub F64.one (F64.div (F64.sub p99 targetP99) (F64.sub worstP99 targetP99))
    else F64.zero in
  let normTPS := F64.div (bs_MaxTPS stats) (F64.of_Z 50000) in
  let normTPS := if F64.gtb normTPS F64.one then F64.one else normTPS in
  F64.mul (F64.add (F64.add (F64.mul (F64.lit 5 10) normP99) (F64.mul (F64.lit 3 10) normTPS))
             (F64.mul (F64.lit 2 10) correctnessScore)) (F64.of_Z 100).

Definition normalizedP99 (target p99 : float64) : float64 :=
  let worst := F64.mul target (F64.of_Z 10) in
  if F64.leb p99 target then F64.one
  else if F64.ltb p99 worst
  then F64.sub F64.one (F64.div (F64.sub p99 target) (F64.sub worst target))
  else F64.zero.

Definition normalizedTPS (target sustained : float64) : float64 :=
  if F64.gtb target F64.zero
  then let norm := F64.div sustained target in if F64.gtb norm F64.one then F64.one else norm
  else F64.zero.

Definition profileRunScore (p : VolatilityProfile) (stats : BotStats) (correctnessScore : float64)
    : float64 :=
  let normP99 := normalizedP99 (F64.of_Z (vp_TargetP99Ns p)) (P99Ns stats) in
  let normTPS := normalizedTPS (vp_TargetSustainTPS p) (bs_SustainedTPS stats) in
  F64.add
    (F64.mul correctnessScore
       (F64.add (F64.mul (vp_LatencyWeight p) normP99) (F64.mul (vp_ThroughputWeight p) normTPS)))
    (F64.mul (vp_CorrectnessWeight p) correctnessScore).

Definition buildResults (fr : FleetResult) (cr : option CorrectnessResult)
    (profile : VolatilityProfile) (label : string) : BenchmarkResults :=
  let stats := fr_Stats fr in
  let score := match cr with Some c => cr_Score c | None => F64.zero end in
  let totalOrders := match cr with Some _ => bs_TotalOrders stats | None => 0 end in
  let correctFills := match cr with Some c => cr_CorrectFills c | None => 0 end in
  let incorrectFills := match cr with Some c => cr_IncorrectFills c | None => 0 end in
  let runScore := if bool_decide (label = "") then F64.zero else profileRunScore profile stats score in
  let composite := if bool_decide (label = "") then legacyComposite stats score
                   else F64.mul runScore (F64.of_Z 100) in
  mkResults label (P50Ms stats) (P90Ms stats) (P99Ms stats) (bs_MaxTPS stats) (bs_SustainedTPS stats)
    score totalOrders correctFills incorrectFills runScore composite
    (DurationString (Sub (fr_FinishedAt fr) (fr_StartedAt fr))) (fr_FinishedAt fr).

(** [checkCorrectness]: the golden fills and the contestant's. *)
Definition orderOf (o : Order) : GoldenOrder :=
  mkOrder (o_ID o) (o_Kind o) (o_Side o) (o_Price o) (o_Quantity o).

Fixpoint replay (book : GoldenOrderbook) (results : list OrderResult)
    : list ContestantFill * list GoldenFill :=
  match results with
  | [] => ([], [])
  | r :: results =>
      match Apply book (orderOf (or_Order r)) with
      | (Err _, book) => replay book results
      | (Ok gf, book) =>
          let '(cs, gs) := replay book results in
          match or_Err r with
          | Some _ => (cs, gf :: gs)
          | None =>
              let f := or_Fill r in
              (mkContestantFill (f_OrderID f) (f_ExecutedPrice f) (f_ExecutedQty f) (f_Accepted f) :: cs,
               gf :: gs)
          end
      end
  end.

Definition checkCorrectness (results : list OrderResult) : CorrectnessResult :=
  let '(cs, gs) := replay NewGoldenOrderbook results in Check_fills cs gs.

(** The event of one successful result. *)
Definition eventKind (r : OrderResult) : string :=
  if negb (f_Accepted (or_Fill r)) then KindReject
  else if 0 <? f_ExecutedQty (or_Fill r) then KindFill
  else if bool_decide (o_Kind (or_Order r) = KindCancel) then KindCancelAck
  else KindOrderAck.

Definition eventOf (submissionID : string) (r : OrderResult) : Event :=
  mkTelemetryEvent (eventKind r) submissionID (or_SentAt r) (o_ID (or_Order r)) (or_LatencyNs r)
    {["order_kind" := o_Kind (or_Order r); "side" := o_Side (or_Order r);
      "accepted" := if f_Accepted (or_Fill r) then "true" else "false"]}.

(** [strings.Join(names, ", ")], and the summary of a failed validation. *)
Definition failSummary (v : ValidationResult) : string :=
  let failedNames := sr_Name <$> filter (λ s, sr_Passed s = false) (vr_Scenarios v) in
  pretty (N.of_nat (length failedNames)) +:+ "/" +:+ pretty (N.of_nat (length (vr_Scenarios v))) +:+
  " scenarios failed: [" +:+ String.concat ", " failedNames +:+ "]".

Definition defaultProfile (label : string) : VolatilityProfile :=
  if bool_decide (label = "low") then DefaultLowProfile
  else if bool_decide (label = "medium") then DefaultMediumProfile
  else if bool_decide (label = "high") then DefaultHighProfile
  else zeroProfile.

(** [strings.Replace(s, old, new, 1)]. *)
Definition replaceFirst (s old new : string) : string :=
  match String.index 0 old s with
  | Some n => String.substring 0 n s +:+ new +:+
      String.substring (n + String.length old) (String.length s - (n + String.length old)) s
  | None => s
  end.

Definition healthURL (targetURL : string) : string :=
  replaceFirst targetURL "ws://" "http://" +:+ "/health".

(** The weights of the final score, and the score of one label. *)
Definition safeScore (sub : Submission) (label : string) : float64 :=
  match ResultByLabel sub label with Some r => br_RunScore r | None => F64.zero end.

Definition finalScore (weights : float64 * float64 * float64) (sub : Submission) : float64 :=
  let '(lowW, medW, highW) := weights in
  F64.mul (F64.add (F64.add (F64.mul lowW (safeScore sub "low")) (F64.mul medW (safeScore sub "medium")))
             (F64.mul highW (safeScore sub "high"))) (F64.of_Z 100).

Definition defaultWeights : float64 * float64 * float64 :=
  (F64.lit 20 100, F64.lit 35 100, F64.lit 45 100).

Section executor.
Context `{!Env, !SortSlice} (x : SandboxExecutor).
(** The texts of a validator error and of the reason of a failed scenario. *)
Context (runErrText : run_error → string) (reasonText : option reason → string).
(** A bound on the polls of [waitHealthy]. *)
Context (fuel : nat).

(** ** Persisting *)
Definition markFailed (sub : Submission) (msg : string) : M Submission :=
  r ← store_Update (set_Status StatusFailed msg sub); mret r.2.

Definition writeDryRunResult (sub : Submission) (dryRun : DryRunResult) : M Submission :=
  g ← store_Get (s_ID sub);
  let fresh := match g with Ok fresh => fresh | Err _ => sub end in
  r ← store_Update (set_DryRunResult (Some dryRun) fresh);
  mret r.2.

Definition appendProfileResult (sub : Submission) (results : BenchmarkResults)
    : M (option exec_error * Submission) :=
  g ← store_Get (s_ID sub);
  let fresh := match g with Ok fresh => fresh | Err _ => sub end in
  r ← store_Update (set_AllResults (s_AllResults fresh ++ [results]) fresh);
  mret (match r.1 with
        | Some e => (Some (ExPersist e), sub)
        | None => (None, r.2)
        end).

(** ** Health *)
Fixpoint pollHealthy (fuel : nat) (deadline : time) (containerID targetURL : string)
    : M (option exec_error) :=
  match fuel with
  | O => mret (Some ExOutOfFuel)
  | S fuel =>
      t ← now;
      if deadline <? t then mret (Some ExHealthTimeout)
      else
        h ← docker_ContainerHealthy containerID;
        match h with
        | Err e => mret (Some (ExUnhealthy e))
        | Ok healthy =>
            ok ← (if (healthy : bool) then http_OK (healthURL targetURL) else mret false);
            if (ok : bool) then _ ← sleep (x_warmupDelay x); mret None
            else
              done ← ctxDone;
              if (done : bool) then mret (Some ExHealthCtx)
              else _ ← sleep (x_healthPollInterval x); pollHealthy fuel deadline containerID targetURL
        end
  end.

Definition waitHealthy (containerID targetURL : string) : M (option exec_error) :=
  t ← now;
  pollHealthy fuel (t + x_healthTimeout x) containerID targetURL.

(** ** The pre-flight gate *)
Definition dryRunOf (v : ValidationResult) (summary : string) : DryRunResult :=
  mkDryRun (vr_AllPassed v)
    ((λ s, mkDryRunScenario (sr_Name s) (sr_Passed s) (reasonText (sr_Reason s))) <$> vr_Scenarios v)
    (vr_TestedAt v) summary.

Definition runPreflightValidator (sub : Submission) (targetURL : string) (j : Job)
    : M (option exec_error * Submission) :=
  if negb (x_hasValidator x) then mret (None, sub)
  else if bool_decide (j_VolatilityLabel j = "") then mret (None, sub)
  else if negb (bool_decide (j_VolatilityLabel j = "low")) then mret (None, sub)
  else
    '(v, err) ← validator_Run targetURL (s_ID sub);
    match err with
    | Some e =>
        t ← now;
        let dryRun := mkDryRun false [] t ("validator did not complete: " +:+ runErrText e) in
        sub ← writeDryRunResult sub dryRun;
        sub ← markFailed sub ("pre-flight validator did not complete: " +:+ runErrText e);
        mret (Some (ExPreflightRun e), sub)
    | None =>
        if negb (vr_AllPassed v) then
          sub ← writeDryRunResult sub (dryRunOf v (failSummary v));
          sub ← markFailed sub ("pre-flight validation failed — " +:+ failSummary v);
          mret (Some (ExPreflightFailed (failSummary v)), sub)
        else
          sub ← writeDryRunResult sub (dryRunOf v "");
          mret (None, sub)
    end.

(** ** The fleet *)
Definition resolveProfile (label : string) : M VolatilityProfile :=
  let profile := defaultProfile label in
  if negb (bool_decide (label = "")) && x_hasContest x then
    active ← contest_GetActive;
    mret (match active with
          | Ok c => let '(p, ok) := ProfileByLabel c label in if ok then p else profile
          | Err _ => profile
          end)
  else mret profile.

(** [flush], and the loop of [emitFleetTelemetry] from a batch on. *)
Definition flushBatch (batch : list Event) : M unit :=
  match batch with
  | [] => mret ()
  | _ => _ ← emitter_BatchEmit batch; mret ()
  end.

Fixpoint emitFrom (submissionID : string) (batch : list Event) (results : list OrderResult) : M unit :=
  match results with
  | [] => flushBatch batch
  | r :: results =>
      match or_Err r with
      | Some _ => emitFrom submissionID batch results
      | None =>
          let batch := batch ++ [eventOf submissionID r] in
          if x_telemetryBatchSize x <=? Z.of_nat (length batch)
          then _ ← flushBatch batch; emitFrom submissionID [] results
          else emitFrom submissionID batch results
      end
  end.

Definition emitFleetTelemetry (submissionID : string) (results : list OrderResult) : M unit :=
  match results with [] => mret () | _ => emitFrom submissionID [] results end.

Definition fleetConfigFor (j : Job) (targetURL protocol : string) (profile : VolatilityProfile)
    : FleetConfig :=
  set_Protocol protocol
    (if negb (bool_decide (j_VolatilityLabel j = "")) && (0 <? vp_BotCount profile)
     then buildFleetConfigFromProfile targetURL profile
     else buildFleetConfig x targetURL).

Definition runFleet (j : Job) (targetURL protocol : string) (profile : VolatilityProfile)
    : M (result exec_error (FleetResult * CorrectnessResult)) :=
  match NewFleet (fleetConfigFor j targetURL protocol profile) with
  | Err e => mret (Err (ExFleet e))
  | Ok cfg =>
      '(results, startedAt, finishedAt) ← fleet_Run cfg;
      match ComputeStats results with
      | None => mret (Err ExStatsPanic)
      | Some stats =>
          let correctnessResult := checkCorrectness results in
          _ ← emitFleetTelemetry (j_SubmissionID j) results;
          mret (Ok (mkFleetResult results stats startedAt finishedAt, correctnessResult))
      end
  end.

(** ** The chain of profiles *)
Definition enqueueNextProfile (sub : Submission) (j : Job) (nextLabel : string)
    (remaining : list string) : M (option exec_error * Submission) :=
  t ← now;
  let nextJob := NewProfileJob t sub (j_ContestID j) nextLabel remaining in
  if negb (x_hasQueue x) then
    sub ← markFailed sub ("cannot enqueue next profile " +:+ quoted nextLabel +:+ ": worker has no job queue");
    mret (Some (ExNoQueue nextLabel), sub)
  else
    e ← queue_Enqueue nextJob;
    match e with
    | Some e =>
        sub ← markFailed sub ("failed to enqueue next profile " +:+ quoted nextLabel +:+ ": " +:+ e);
        mret (Some (ExEnqueue nextLabel), sub)
    | None => mret (None, sub)
    end.

Definition finalWeights : M (float64 * float64 * float64) :=
  if x_hasContest x then
    c ← contest_GetActive;
    mret (match c with
          | Ok c => (c_LowWeight c, c_MediumWeight c, c_HighWeight c)
          | Err _ => defaultWeights
          end)
  else mret defaultWeights.

Definition computeAndWriteFinalScore (sub : Submission) : M unit :=
  g ← store_Get (s_ID sub);
  match g with
  | Err _ => mret ()
  | Ok fresh =>
      weights ← finalWeights;
      _ ← store_Update (set_FinalScore (finalScore weights fresh) fresh);
      mret ()
  end.

(** ** Execute *)
(** Steps 8 and 9: persisting the results and what comes next. *)
Definition finishProfile (sub : Submission) (j : Job) (results : BenchmarkResults)
    : M (result exec_error BenchmarkResults) :=
  '(e, sub) ← appendProfileResult sub results;
  match e with
  | Some e => mret (Err e)
  | None =>
      match j_RemainingProfiles j with
      | nextLabel :: remaining =>
          '(e, sub) ← enqueueNextProfile sub j nextLabel remaining;
          mret (match e with Some e => Err e | None => Ok results end)
      | [] => _ ← computeAndWriteFinalScore sub; mret (Ok results)
      end
  end.

(** Steps 5 to 9. *)
Definition benchmark (sub : Submission) (j : Job) (targetURL : string)
    : M (result exec_error BenchmarkResults) :=
  '(_, sub) ← store_Update (set_Status StatusBenchmarking "bot fleet running" sub);
  profile ← resolveProfile (j_VolatilityLabel j);
  r ← runFleet j targetURL (s_Protocol sub) profile;
  match r with
  | Err e => mret (Err e)
  | Ok (fr, cr) =>
      let results := buildResults fr (Some cr) profile (j_VolatilityLabel j) in
      if bool_decide (j_VolatilityLabel j = "") then mret (Ok results)
      else finishProfile sub j results
  end.

(** Steps 3 to 9, with a container running. *)
Definition executeDeployed (sub : Submission) (j : Job) (containerID : string) (hostPort : Z)
    : M (result exec_error BenchmarkResults) :=
  let sub := set_Container containerID ("nexusbench-" +:+ String.substring 0 8 (s_ID sub)) hostPort sub in
  '(_, sub) ← store_Update sub;
  let targetURL := targetURLForProtocol (s_Protocol sub) (x_sandboxHost x) hostPort in
  unhealthy ← waitHealthy containerID targetURL;
  match unhealthy with
  | Some e => mret (Err e)
  | None =>
      '(failed, sub) ← runPreflightValidator sub targetURL j;
      match failed with
      | Some e => mret (Err e)
      | None => benchmark sub j targetURL
      end
  end.

(** Steps 1 and 2, and the deferred stop of the container. *)
Definition executeJob (j : Job) : M (result exec_error BenchmarkResults) :=
  g ← store_Get (j_SubmissionID j);
  match g with
  | Err e => mret (Err (ExLoad e))
  | Ok sub =>
      d ← docker_Deploy sub;
      match d with
      | Err e => mret (Err (ExDeploy e))
      | Ok (containerID, hostPort) =>
          r ← executeDeployed sub j containerID hostPort;
          _ ← docker_Stop containerID;
          mret r
      end
  end.

Definition Execute (j : Job) : M (result exec_error BenchmarkResults) :=
  _ ← note (AOnStart (j_SubmissionID j));
  r ← executeJob j;
  _ ← note AOnFinish;
  mret r.
End executor.

(** ** The validator of production *)
Section preflight.
(** An engine behind HTTP: one request to it, the decoder of its answers, the
    text of a transport error, and the schedule of concurrent requests. *)
Context {engine : Type}
        (Do : engine → string → string → restOrderRequest → option (Z * string) * engine)
        (Unmarshal : string → option restOrderResponse) (sendErrText : send_error → string)
        (burst : (engine → Order → result string Fill * engine) →
                 engine → scenario → list concurrentResult * engine).

(** [RESTTransport.Send] against the engine. *)
Definition restTransport (baseURL : string) (g : engine) (o : Order) : result string Fill * engine :=
  let body := mkRestRequest (o_ID o) (o_Kind o) (o_Side o) (o_Price o) (o_Quantity o) in
  let method := if bool_decide (o_Kind o = KindCancel) then "DELETE" else "POST" in
  (match restSend (λ m u b, (Do g m u b).1) Unmarshal baseURL o with
   | Ok f => Ok f
   | Err e => Err (sendErrText e)
   end, (Do g method (baseURL +:+ "/orders") body).2).

(** [PreflightValidatorFactory], run for one submission. *)
Definition PreflightValidatorFactory (ctxErr : engine → bool) (targetURL id : string) (testedAt : time)
    (g : engine) : ValidationResult * option run_error :=
  let '(v, e, _) := Validator.Run ctxErr (restTransport targetURL) (burst (restTransport targetURL)) id
                      testedAt g in
  (v, e).
End preflight.
