(* ===== verification/ExecutorTheorems.v ===== *)
(** * ExecutorTheorems: what one benchmark run guarantees
    ([internal/worker/executor.go]) *)

From S2P Require Import Prelude Models OrderBook Checker Botfleet Stats StatsTheorems Scenarios Validator.
From S2P Require Import Contest Queue Submission Telemetry World Logic Executor.

(** ** Classes of actions *)
(** Neither a deployment nor a stop, nor a callback or a commit. *)
Definition inner (a : action) : Prop :=
  match a with ADeploy _ | AStop _ | AOnStart _ | AOnFinish | ACommit => False | _ => True end.

(** Not a run of the fleet. *)
Definition no_fleet (a : action) : Prop := match a with AFleet _ => False | _ => True end.

(** Before the fleet: no fleet run, no telemetry, no next job. *)
Definition before_fleet (a : action) : Prop :=
  match a with AFleet _ | AEmit _ | AEnqueue _ => False | _ => inner a end.

#[local] Hint Extern 1 (inner _) => exact I : world.
#[local] Hint Extern 1 (no_fleet _) => exact I : world.
#[local] Hint Extern 1 (before_fleet _) => exact I : world.

Lemma before_inner a : before_fleet a → inner a.
Proof. by destruct a. Qed.

Lemma before_no_fleet a : before_fleet a → no_fleet a.
Proof. by destruct a. Qed.

Section executor.
Context `{!Env, !SortSlice} (x : SandboxExecutor).
Context (runErrText : run_error → string) (reasonText : option reason → string) (fuel : nat).

(** ** What each method does *)
Lemma only_markFailed P sub msg : (∀ s, P (AUpdate s)) → only P (markFailed sub msg).
Proof. intros HP. unfold markFailed. only_tac. Qed.
Hint Resolve only_markFailed : world.

Lemma only_writeDryRun P sub d : (∀ s, P (AUpdate s)) → only P (writeDryRunResult sub d).
Proof. intros HP. unfold writeDryRunResult. only_tac. Qed.
Hint Resolve only_writeDryRun : world.

Lemma only_append P sub r : (∀ s, P (AUpdate s)) → only P (appendProfileResult sub r).
Proof. intros HP. unfold appendProfileResult. only_tac. Qed.
Hint Resolve only_append : world.

Lemma only_poll P n deadline cid url :
  P (AHealth cid) → P (AProbe (healthURL url)) → only P (pollHealthy x n deadline cid url).
Proof.
  intros H1 H2. induction n as [|n IH]; cbn [pollHealthy]; [by auto with world|].
  apply only_bind; [auto with world|]. intros t. destruct (deadline <? t); [auto with world|].
  apply only_bind; [by apply only_noted|]. intros [healthy|]; [|auto with world].
  apply only_bind; [destruct healthy; [by apply only_noted|auto with world]|].
  intros [|]; [only_tac|]. apply only_bind; [auto with world|]. intros [|]; [auto with world|].
  apply only_bind; [auto with world|done].
Qed.

Lemma only_waitHealthy P cid url :
  P (AHealth cid) → P (AProbe (healthURL url)) → only P (waitHealthy x fuel cid url).
Proof. intros. apply only_bind; [auto with world|]. intros t. by apply only_poll. Qed.
Hint Resolve only_waitHealthy : world.

Lemma only_resolveProfile P label : only P (resolveProfile x label).
Proof. unfold resolveProfile. only_tac. Qed.
Hint Resolve only_resolveProfile : world.

Lemma only_flush P batch : (∀ b, P (AEmit b)) → only P (flushBatch batch).
Proof.
  intros HP. destruct batch; [by apply only_ret|]. apply only_bind; [by apply only_noted|].
  auto with world.
Qed.

Lemma only_emitFrom P id batch rs : (∀ b, P (AEmit b)) → only P (emitFrom x id batch rs).
Proof.
  intros HP. revert batch. induction rs as [|r rs IH]; intros batch; cbn [emitFrom]; [by apply only_flush|].
  destruct (or_Err r); [done|]. destruct (_ <=? _); [|done].
  apply only_bind; [by apply only_flush|done].
Qed.

Lemma only_emit P id rs : (∀ b, P (AEmit b)) → only P (emitFleetTelemetry x id rs).
Proof. intros HP. destruct rs; [by apply only_ret|by apply only_emitFrom]. Qed.
Hint Resolve only_emit : world.

Lemma only_runFleet P j url protocol p :
  (∀ c, P (AFleet c)) → (∀ b, P (AEmit b)) → only P (runFleet x j url protocol p).
Proof.
  intros HF HE. unfold runFleet. destruct (NewFleet _) as [cfg|]; [|auto with world].
  apply only_bind; [by apply only_noted|]. intros [[rs t1] t2].
  destruct (ComputeStats rs); [|auto with world]. apply only_bind; auto with world.
Qed.
Hint Resolve only_runFleet : world.

Lemma only_enqueueNext P sub j label rest :
  (∀ s, P (AUpdate s)) → (∀ j, P (AEnqueue j)) → only P (enqueueNextProfile x sub j label rest).
Proof.
  intros HU HE. unfold enqueueNextProfile. apply only_bind; [auto with world|]. intros t.
  destruct (negb _); [apply only_bind; auto with world|].
  apply only_bind; [by apply only_Enqueue|]. intros [e|]; [apply only_bind|]; auto with world.
Qed.
Hint Resolve only_enqueueNext : world.

Lemma only_finalScore P sub : (∀ s, P (AUpdate s)) → only P (computeAndWriteFinalScore x sub).
Proof. intros HP. unfold computeAndWriteFinalScore, finalWeights. only_tac. Qed.
Hint Resolve only_finalScore : world.

Lemma only_finishProfile P sub j r :
  (∀ s, P (AUpdate s)) → (∀ j, P (AEnqueue j)) → only P (finishProfile x sub j r).
Proof.
  intros HU HE. unfold finishProfile. apply only_bind; [auto with world|]. intros [[e|] sub'].
  { auto with world. }
  destruct (j_RemainingProfiles j) as [|label rest]; (apply only_bind; [auto with world|]).
  - auto with world.
  - intros [[e|] s]; auto with world.
Qed.
Hint Resolve only_finishProfile : world.

Lemma only_benchmark P sub j url :
  (∀ s, P (AUpdate s)) → (∀ j, P (AEnqueue j)) → (∀ c, P (AFleet c)) → (∀ b, P (AEmit b)) →
  only P (benchmark x sub j url).
Proof.
  intros HU HE HF HB. unfold benchmark. apply only_bind; [auto with world|]. intros [e sub'].
  apply only_bind; [auto with world|]. intros p. apply only_bind; [auto with world|].
  intros [[fr cr]|]; [|auto with world]. case_bool_decide; auto with world.
Qed.

Lemma only_preflight P sub url j :
  (∀ s, P (AUpdate s)) → P (APreflight url) →
  only P (runPreflightValidator x runErrText reasonText sub url j).
Proof.
  intros HU HP. unfold runPreflightValidator. destruct (negb _); [auto with world|].
  case_bool_decide; [auto with world|]. destruct (negb _); [auto with world|].
  apply only_bind; [by apply only_noted|]. intros [v [e|]].
  - apply only_bind; [auto with world|]. intros t. only_tac.
  - destruct (negb _); only_tac.
Qed.

Lemma only_executeDeployed sub j cid port :
  only inner (executeDeployed x runErrText reasonText fuel sub j cid port).
Proof.
  unfold executeDeployed. apply only_bind; [auto with world|]. intros [e sub'].
  apply only_bind; [auto with world|]. intros [e'|]; [auto with world|].
  apply only_bind; [by apply only_preflight|]. intros [[e'|] sub'']; [auto with world|].
  by apply only_benchmark.
Qed.
(** ** The life of the container *)
(** C10: A container that was started is stopped, once, whatever happens in
    between: if the submission can be read and deployed, the run deploys once,
    does its work, and stops exactly that container at the end, also on errors;
    if not, it starts and stops nothing and reports why. *)
Theorem container_always_stopped j w :
  let '(r, w') := Execute x runErrText reasonText fuel j w in
  ∃ steps, w_trace w' = w_trace w ++ AOnStart (j_SubmissionID j) :: steps ++ [AOnFinish] ∧
  ((steps = [] ∧ ∃ e, r = Err (ExLoad e)) ∨
   ∃ sub, w_store w !! j_SubmissionID j = Some sub ∧
     match env_deploy (S (w_tick w)) sub with
     | Err e => steps = [ADeploy (s_ID sub)] ∧ r = Err (ExDeploy e)
     | Ok (cid, _) => ∃ work, steps = ADeploy (s_ID sub) :: work ++ [AStop cid] ∧ Forall inner work
     end).
Proof.
  unfold Execute, executeJob, store_Get, docker_Deploy, docker_Stop. run_simpl.
  unfold Get. destruct (env_getFails (w_tick w)).
  { run_simpl. exists []. rewrite <- app_assoc. split; [done|]. left. eauto. }
  destruct (w_store w !! j_SubmissionID j) as [sub|] eqn:Hsub.
  2: { run_simpl. exists []. rewrite <- app_assoc. split; [done|]. left. eauto. }
  run_simpl. destruct (env_deploy (S (w_tick w)) sub) as [[cid port]|e] eqn:Hd.
  2: { run_simpl. exists [ADeploy (s_ID sub)]. rewrite <- !app_assoc. split; [done|]. right. exists sub.
    by rewrite Hd. }
  set (w1 := mkWorld _ _ _ _ _) at 1.
  destruct (only_executeDeployed sub j cid port w1) as (work & Hwork & Hinner).
  destruct (executeDeployed _ _ _ _ sub j cid port w1) as [r w2]. run_simpl. simpl in Hwork.
  exists (ADeploy (s_ID sub) :: work ++ [AStop cid]). rewrite Hwork, <- !app_assoc. simpl.
  rewrite <- !app_assoc. split; [done|]. right. exists sub. split; [done|]. rewrite Hd. by exists work.
Qed.

(** ** The gate before the fleet *)
(** The fleet runs in a trace. *)
Definition fleet_runs (l : list action) : list FleetConfig :=
  omap (λ a, match a with AFleet c => Some c | _ => None end) l.

Lemma fleet_runs_app l l' : fleet_runs (l ++ l') = fleet_runs l ++ fleet_runs l'.
Proof. apply omap_app. Qed.

Lemma no_fleet_runs l : Forall no_fleet l → fleet_runs l = [].
Proof. induction 1 as [|a l Ha _ IH]; [done|]. destruct a; simpl; [exact IH..|done|exact IH|exact IH|exact IH|exact IH]. Qed.

Lemma traced_quiet {A} (m : M A) : only no_fleet m → traced m (λ _ l, fleet_runs l = []).
Proof. intros Hm. eapply traced_mono; [exact Hm|]. intros a l. apply no_fleet_runs. Qed.

(** A program that runs the fleet at most once, and once if it succeeds. *)
Definition one_run {A} (ok : A → bool) (m : M A) : Prop :=
  traced m (λ a l, (length (fleet_runs l) ≤ 1)%nat ∧ (ok a = true → length (fleet_runs l) = 1%nat)).

Lemma one_run_before {A B} (ok : B → bool) (m : M A) (k : A → M B) :
  only no_fleet m → (∀ a, one_run ok (k a)) → one_run ok (m ≫= k).
Proof.
  intros Hm Hk. eapply traced_bind; [by apply traced_quiet|]. intros a l Hl.
  eapply traced_mono; [apply Hk|]. intros b l' [H1 H2]. by rewrite fleet_runs_app, Hl.
Qed.

Lemma one_run_after {A B} (ok : A → bool) (ok' : B → bool) (m : M A) (k : A → M B) :
  one_run ok m → (∀ a, traced (k a) (λ b l, fleet_runs l = [] ∧ (ok' b = true → ok a = true))) →
  one_run ok' (m ≫= k).
Proof.
  intros Hm Hk. eapply traced_bind; [exact Hm|]. intros a l [H1 H2].
  eapply traced_mono; [apply Hk|]. intros b l' [Hl Hok].
  rewrite fleet_runs_app, Hl, app_nil_r. auto.
Qed.

Lemma one_run_not {A} (ok : A → bool) (a : A) : ok a = false → one_run ok (mret a).
Proof. intros Hok. apply traced_ret. split; [simpl; lia|congruence]. Qed.

Lemma one_run_runFleet j url protocol p : one_run is_ok (runFleet x j url protocol p).
Proof.
  unfold runFleet. destruct (NewFleet _) as [cfg|]; [|by apply one_run_not].
  apply (one_run_after (λ _, true)).
  - intros w. exists [AFleet cfg]. split; [done|]. simpl. lia.
  - intros [[rs t1] t2]. apply (traced_mono _ (λ _ l, fleet_runs l = [])); [|done].
    apply traced_quiet. destruct (ComputeStats rs); [|auto with world].
    apply only_bind; [by apply only_emit|]. auto with world.
Qed.

Lemma one_run_benchmark sub j url : one_run is_ok (benchmark x sub j url).
Proof.
  unfold benchmark. apply one_run_before; [auto with world|]. intros [e sub'].
  apply one_run_before; [auto with world|]. intros p.
  apply (one_run_after is_ok); [apply one_run_runFleet|]. intros [[fr cr]|e'].
  - apply (traced_mono _ (λ _ l, fleet_runs l = [])); [|done]. apply traced_quiet.
    case_bool_decide; auto with world.
  - by apply traced_ret.
Qed.

(** The gate's own actions, and what its success means. *)
Definition gate_passed (url id : string) (l : list action) : Prop :=
  ∃ t v, APreflight url ∈ l ∧ env_validate t url id = (v, None) ∧ vr_AllPassed v = true.

Lemma traced_preflight sub url j :
  x_hasValidator x = true → j_VolatilityLabel j = "low" →
  traced (runPreflightValidator x runErrText reasonText sub url j)
    (λ r l, fleet_runs l = [] ∧ (r.1 = None → gate_passed url (s_ID sub) l)).
Proof.
  intros Hv Hl. unfold runPreflightValidator. rewrite Hv, Hl. simpl.
  eapply traced_bind with (Q := λ r l, l = [APreflight url] ∧ ∃ t, env_validate t url (s_ID sub) = r).
  { intros w. exists [APreflight url]. split; [done|]. split; [done|]. by eexists. }
  intros [v err] l [-> [t Ht]].
  set (k := match err with Some _ => _ | None => _ end).
  assert (Hk : only no_fleet k) by (subst k; destruct err; [|destruct (negb _)]; only_tac).
  assert (Hr : returns k (λ r, r.1 = None → err = None ∧ vr_AllPassed v = true)).
  { subst k. destruct err as [e|].
    - do 3 (apply returns_bind; intros). by apply returns_ret.
    - destruct (vr_AllPassed v); simpl; [by apply returns_bind; intros; apply returns_ret|].
      do 2 (apply returns_bind; intros). by apply returns_ret. }
  eapply traced_mono; [apply (traced_returns _ _ _ (traced_quiet _ Hk) Hr)|].
  intros r l [Hl' Hr']. split; [by rewrite fleet_runs_app, Hl'|]. intros Hnone.
  destruct (Hr' Hnone) as [-> Hpass]. exists t, v. split; [apply elem_of_app; left; by left|done].
Qed.

Lemma traced_executeDeployed sub j cid port :
  x_hasValidator x = true → j_VolatilityLabel j = "low" →
  traced (executeDeployed x runErrText reasonText fuel sub j cid port)
    (λ r l, (length (fleet_runs l) ≤ 1)%nat ∧ (is_ok r = true → length (fleet_runs l) = 1%nat) ∧
       (fleet_runs l ≠ [] → ∃ l1 l2, l = l1 ++ l2 ∧ fleet_runs l1 = [] ∧
          gate_passed (targetURLForProtocol (s_Protocol sub) (x_sandboxHost x) port) (s_ID sub) l1)).
Proof.
  intros Hv Hl. unfold executeDeployed. cbn zeta.
  set (sub1 := set_Container _ _ _ sub).
  eapply traced_bind with (Q := λ r l, fleet_runs l = [] ∧ s_ID r.2 = s_ID sub ∧ s_Protocol r.2 = s_Protocol sub).
  { apply traced_returns; [apply traced_quiet; auto with world|]. intros w.
    by destruct (env_updateFails (w_tick w)) eqn:E; unfold store_Update, Update, Save; run_simpl; rewrite E. }
  intros [e sub2] l0 [Hl0 [Hid Hpr]]. cbn [snd] in Hid, Hpr. rewrite Hpr.
  eapply traced_bind; [apply traced_quiet, only_waitHealthy; exact I|]. intros [e'|] l1 Hl1.
  { apply traced_ret. rewrite !fleet_runs_app, Hl0, Hl1. simpl. split; [lia|]. by split. }
  eapply traced_bind; [by apply traced_preflight|]. intros [[e'|] sub3] l2 [Hl2 Hgate].
  { apply traced_ret. rewrite !fleet_runs_app, Hl0, Hl1, Hl2. simpl. split; [lia|]. by split. }
  eapply traced_mono; [apply one_run_benchmark|]. intros r l3 [H1 H2].
  rewrite !fleet_runs_app, Hl0, Hl1, Hl2. split; [done|]. split; [done|]. intros _.
  exists (l0 ++ l1 ++ l2), l3. rewrite !fleet_runs_app, Hl0, Hl1, Hl2, <- !app_assoc.
  split; [done|]. split; [done|].
  destruct (Hgate eq_refl) as (t & v & Hin & Hval & Hpass). rewrite Hid in Hval.
  exists t, v. split; [|done]. rewrite !elem_of_app. auto.
Qed.

Lemma Execute_gated j w :
  x_hasValidator x = true → j_VolatilityLabel j = "low" →
  let '(r, w') := Execute x runErrText reasonText fuel j w in
  ∃ l, w_trace w' = w_trace w ++ l ∧ (length (fleet_runs l) ≤ 1)%nat ∧
    (is_ok r = true → length (fleet_runs l) = 1%nat) ∧
    (fleet_runs l ≠ [] → ∃ sub port l1 l2, w_store w !! j_SubmissionID j = Some sub ∧
       l = l1 ++ l2 ∧ fleet_runs l1 = [] ∧
       gate_passed (targetURLForProtocol (s_Protocol sub) (x_sandboxHost x) port) (s_ID sub) l1).
Proof.
  intros Hv Hl. unfold Execute, executeJob, store_Get, docker_Deploy, docker_Stop. run_simpl.
  unfold Get. destruct (env_getFails (w_tick w)).
  { run_simpl. eexists. rewrite <- app_assoc. split; [done|]. simpl. split; [lia|]. by split. }
  destruct (w_store w !! j_SubmissionID j) as [sub|] eqn:Hsub.
  2: { run_simpl. eexists. rewrite <- app_assoc. split; [done|]. simpl. split; [lia|]. by split. }
  run_simpl. destruct (env_deploy (S (w_tick w)) sub) as [[cid port]|e].
  2: { run_simpl. eexists. rewrite <- !app_assoc. split; [done|]. simpl. split; [lia|]. by split. }
  set (w1 := mkWorld _ _ _ _ _) at 1.
  destruct (traced_executeDeployed sub j cid port Hv Hl w1) as (l & Htr & H1 & H2 & H3).
  destruct (executeDeployed _ _ _ _ sub j cid port w1) as [r w2]. run_simpl. simpl in Htr.
  exists (AOnStart (j_SubmissionID j) :: ADeploy (s_ID sub) :: l ++ [AStop cid; AOnFinish]).
  rewrite Htr, <- !app_assoc. split; [done|]. simpl.
  rewrite fleet_runs_app, app_nil_r. split; [done|]. split; [done|]. intros Hne.
  destruct (H3 Hne) as (l1 & l2 & -> & Hl1 & t & v & Hin & Hgate).
  exists sub, port, (AOnStart (j_SubmissionID j) :: ADeploy (s_ID sub) :: l1), (l2 ++ [AStop cid; AOnFinish]).
  simpl. rewrite <- app_assoc. do 3 (split; [done|]). exists t, v. split; [|done].
  do 2 right. done.
Qed.

(** C9: No benchmark without the gate. In a run of the low profile with a
    validator, the fleet runs at most once, and only after a validation of this
    submission at its own URL that ended without an error and with every scenario passed; a run
    that succeeds has run the fleet exactly once. *)
Theorem preflight_gate j w :
  x_hasValidator x = true → j_VolatilityLabel j = "low" →
  let '(r, w') := Execute x runErrText reasonText fuel j w in
  ∃ l, w_trace w' = w_trace w ++ l ∧ (length (fleet_runs l) ≤ 1)%nat ∧
    (is_ok r = true → length (fleet_runs l) = 1%nat) ∧
    (fleet_runs l ≠ [] → ∃ sub port l1 l2, w_store w !! j_SubmissionID j = Some sub ∧
       l = l1 ++ l2 ∧ fleet_runs l1 = [] ∧
       gate_passed (targetURLForProtocol (s_Protocol sub) (x_sandboxHost x) port) (s_ID sub) l1).
Proof. apply Execute_gated. Qed.

(** ** Waiting for health *)
(** The polls of the container in a trace. *)
Definition is_poll (a : action) : bool := match a with AHealth _ => true | _ => false end.
Definition polls (l : list action) : nat := length (filter (λ a, is_poll a = true) l).

Lemma polls_app l l' : polls (l ++ l') = (polls l + polls l')%nat.
Proof. unfold polls. by rewrite filter_app, length_app. Qed.

Definition found_healthy (cid url : string) : Prop :=
  ∃ t t', env_containerHealthy t cid = Ok true ∧ env_httpOK t' (healthURL url) = true.

Lemma pollHealthy_bound n k deadline cid url w :
  0 < x_healthPollInterval x → deadline < w_now w + Z.of_nat k * x_healthPollInterval x → (k < n)%nat →
  let '(r, w') := pollHealthy x n deadline cid url w in
  r ≠ Some ExOutOfFuel ∧ (r = None → found_healthy cid url) ∧
  ∃ l, w_trace w' = w_trace w ++ l ∧ (polls l ≤ k)%nat.
Proof.
  intros Hi. revert k w. induction n as [|n IH]; intros k w Hd Hk; [lia|].
  cbn [pollHealthy]. unfold docker_ContainerHealthy, http_OK, ctxDone. run_simpl.
  destruct (Z.ltb_spec deadline (w_now w)) as [|Hle].
  { split; [done|]. split; [done|]. exists []. rewrite app_nil_r. split; [done|]. unfold polls. simpl. lia. }
  destruct k as [|k]; [lia|].
  assert (Hone : ∀ l, (polls l = 0)%nat → (polls (AHealth cid :: l) ≤ S k)%nat).
  { intros l Hl. change (AHealth cid :: l) with ([AHealth cid] ++ l). rewrite polls_app, Hl.
    unfold polls. simpl. lia. }
  destruct (env_containerHealthy (w_tick w) cid) as [[]|e] eqn:Hh.
  - run_simpl. destruct (env_httpOK (S (w_tick w)) (healthURL url)) eqn:Hp.
    + run_simpl. split; [done|]. split; [intros _; by do 2 eexists|]. rewrite <- app_assoc.
      eexists. split; [done|]. by apply Hone.
    + run_simpl. destruct (env_ctxDone _); run_simpl.
      * split; [done|]. split; [done|]. rewrite <- app_assoc. eexists. split; [done|]. by apply Hone.
      * set (w1 := mkWorld _ _ _ _ _). specialize (IH k w1). destruct (pollHealthy _ _ _ _ _ w1) as [r w'].
        destruct IH as (H1 & H2 & l & Hl & Hpolls); [simpl; nia|lia|]. split; [done|]. split; [done|].
        simpl in Hl. rewrite Hl, <- !app_assoc. eexists. split; [done|]. rewrite !polls_app. unfold polls at 1 2.
        simpl. lia.
  - run_simpl. destruct (env_ctxDone _); run_simpl.
    + split; [done|]. split; [done|]. eexists. split; [done|]. by apply Hone.
    + set (w1 := mkWorld _ _ _ _ _). specialize (IH k w1). destruct (pollHealthy _ _ _ _ _ w1) as [r w'].
      destruct IH as (H1 & H2 & l & Hl & Hpolls); [simpl; nia|lia|]. split; [done|]. split; [done|].
      simpl in Hl. rewrite Hl, <- !app_assoc. eexists. split; [done|]. rewrite !polls_app. unfold polls at 1.
      simpl. lia.
  - run_simpl. split; [done|]. split; [done|]. eexists. split; [done|]. by apply Hone.
Qed.

(** Waiting for a container ends. When the timeout is less than [k] poll
    intervals, [k + 1] rounds of the loop are enough, however slow the clock of
    the rest of the system is; the container is polled at most [k] times; and
    it is reported healthy only if Docker said so and the health URL answered
    with status 200. *)
Theorem waitHealthy_terminates k cid url w :
  0 < x_healthPollInterval x → x_healthTimeout x < Z.of_nat k * x_healthPollInterval x → (k < fuel)%nat →
  let '(r, w') := waitHealthy x fuel cid url w in
  r ≠ Some ExOutOfFuel ∧ (r = None → found_healthy cid url) ∧
  ∃ l, w_trace w' = w_trace w ++ l ∧ (polls l ≤ k)%nat.
Proof. intros Hi Ht Hk. unfold waitHealthy. run_simpl. apply pollHealthy_bound; [done|lia|done]. Qed.
End executor.

(** ** Instances *)
Definition sample_executor : SandboxExecutor :=
  mkExecutor true false true (2 * Second) (2 * Minute) None "localhost" (2 * Second) 100.
Definition sample_pending : Submission :=
  mkSubmission "s1-00000000" "team" "go" "rest" StatusPending "" "c1" "/a.zip" 1 "" "" 0 0 0 None None []
    F64.zero None.
Definition sample_low : Job := NewProfileJob 0 sample_pending "c1" "low" ["medium"; "high"].
Definition sample_world : world := mkWorld 0 0 {["s1-00000000" := sample_pending]} [sample_low] [].

Lemma preflight_gate_witness :
  let '(r, w') := @Execute calmEnv _ sample_executor (λ _, "error") (λ _, "") 100 sample_low sample_world in
  ∃ l, w_trace w' = w_trace sample_world ++ l ∧ (length (fleet_runs l) ≤ 1)%nat ∧
    (is_ok r = true → length (fleet_runs l) = 1%nat) ∧
    (fleet_runs l ≠ [] → ∃ sub port l1 l2, w_store sample_world !! j_SubmissionID sample_low = Some sub ∧
       l = l1 ++ l2 ∧ fleet_runs l1 = [] ∧
       @gate_passed calmEnv (targetURLForProtocol (s_Protocol sub) (x_sandboxHost sample_executor) port)
         (s_ID sub) l1).
Proof. by apply (@preflight_gate calmEnv _ sample_executor (λ _, "error") (λ _, "") 100). Defined.

Lemma waitHealthy_terminates_witness :
  let '(r, w') := @waitHealthy calmEnv sample_executor 100 "c" "http://h:1" sample_world in
  r ≠ Some ExOutOfFuel ∧ (r = None → @found_healthy calmEnv "c" "http://h:1") ∧
  ∃ l, w_trace w' = w_trace sample_world ++ l ∧ (polls l ≤ 61)%nat.
Proof.
  apply (@waitHealthy_terminates calmEnv sample_executor 100 61); [by vm_compute|by vm_compute|lia].
Defined.
