(* ===== verification/Scoring.v ===== *)
(** * Scoring: what the correctness score and the telemetry of a run mean
    ([checkCorrectness] and [emitFleetTelemetry] of [internal/worker/executor.go]) *)

From S2P Require Import Prelude Models OrderBook Checker Botfleet Stats StatsTheorems Scenarios Validator.
From S2P Require Import Contest Queue Submission Telemetry World Logic Executor ExecutorTheorems.

(** ** Correctness *)
(** The engine under test is the golden book, and the results are in the order
    in which it served the orders. *)
Fixpoint served (book : GoldenOrderbook) (results : list OrderResult) : Prop :=
  match results with
  | [] => True
  | r :: results =>
      match Apply book (orderOf (or_Order r)) with
      | (Ok gf, book) =>
          or_Err r = None ∧
          or_Fill r = mkBotFill (gf_OrderID gf) (gf_ExecutedPrice gf) (gf_ExecutedQty gf) (gf_Accepted gf) ∧
          gf_OrderID gf = o_ID (or_Order r) ∧ served book results
      | (Err _, _) => False
      end
  end.

Lemma replay_served book results :
  served book results →
  ∃ gs, replay book results = (mirror <$> gs, gs) ∧ gf_OrderID <$> gs = (λ r, o_ID (or_Order r)) <$> results.
Proof.
  revert book. induction results as [|r results IH]; intros book; cbn [served replay]; [by exists []|].
  destruct (Apply book (orderOf (or_Order r))) as [[gf|] book']; [|done].
  intros (Herr & Hfill & Hid & Hs). destruct (IH book' Hs) as (gs & -> & Hids).
  exists (gf :: gs). rewrite Herr, Hfill. split; [done|]. by rewrite !fmap_cons, Hid, Hids.
Qed.

(** The score of a run whose results are in the order in which the engine
    served them: an engine that answers like the golden book has a fill counted
    for every order, and none of them wrong exactly when no order id occurs
    twice; the counts add up. *)
Theorem served_run_correct results :
  served NewGoldenOrderbook results →
  let r := checkCorrectness results in
  cr_TotalFills r = Z.of_nat (length results) ∧
  (cr_IncorrectFills r = 0 ↔ NoDup ((λ r, o_ID (or_Order r)) <$> results)) ∧
  cr_CorrectFills r + cr_IncorrectFills r = cr_TotalFills r.
Proof.
  intros Hs. unfold checkCorrectness. destruct (replay_served _ _ Hs) as (gs & -> & Hids).
  destruct (Check_counts (mirror <$> gs) gs) as (H1 & H2 & H3).
  destruct (Check_mirror gs) as (Htot & _ & Hinc). cbv zeta in *.
  assert (length gs = length results) as Hlen by (apply (f_equal length) in Hids; by rewrite !length_fmap in Hids).
  rewrite <- Hids, <- Hlen. split; [done|]. split; [done|]. lia.
Qed.

Definition sample_result (id side : string) (price qty execPrice execQty : Z) : OrderResult :=
  mkOrderResult (mkBotOrder id KindLimit side price qty) (mkBotFill id execPrice execQty true) 1 2 1 None.

(** A buy that rests and a sell that meets it. *)
Definition sample_results : list OrderResult :=
  [sample_result "bot-0001-1" SideBuy 100 5 0 0; sample_result "bot-0000-1" SideSell 100 5 100 5].

Lemma served_run_correct_witness :
  cr_TotalFills (checkCorrectness sample_results) = 2 ∧
  (cr_IncorrectFills (checkCorrectness sample_results) = 0 ↔
   NoDup ((λ r, o_ID (or_Order r)) <$> sample_results)) ∧
  cr_CorrectFills (checkCorrectness sample_results) + cr_IncorrectFills (checkCorrectness sample_results) =
    cr_TotalFills (checkCorrectness sample_results).
Proof. apply (served_run_correct sample_results). by vm_compute. Defined.

(** With two bots the results are concatenated bot by bot, and the same answers
    of the same engine are counted as wrong. *)
Lemma concatenated_bots_scored_wrong :
  cr_IncorrectFills (checkCorrectness (rev sample_results)) = 2.
Proof. by vm_compute. Qed.

(** ** Telemetry *)
(** The batches handed to the emitter. *)
Definition emitted (l : list action) : list (list Event) :=
  omap (λ a, match a with AEmit b => Some b | _ => None end) l.

Section telemetry.
Context `{!Env} (x : SandboxExecutor).

Definition batch_ok (b : list Event) : Prop :=
  0 < Z.of_nat (length b) ≤ Z.max 1 (x_telemetryBatchSize x).

Lemma emitted_app l l' : emitted (l ++ l') = emitted l ++ emitted l'.
Proof. apply omap_app. Qed.

Lemma traced_flush batch :
  traced (flushBatch batch) (λ _ l, emitted l = match batch with [] => [] | _ => [batch] end).
Proof.
  destruct batch as [|e batch]; [by apply traced_ret|]. intros w. exists [AEmit (e :: batch)]. done.
Qed.

Lemma successes_cons r rs :
  successes (r :: rs) = match or_Err r with None => r :: successes rs | Some _ => successes rs end.
Proof. rewrite filter_cons. destruct (or_Err r); by case_decide. Qed.

Lemma traced_emitFrom id batch rs :
  (batch = [] ∨ Z.of_nat (length batch) < x_telemetryBatchSize x) →
  traced (emitFrom x id batch rs)
    (λ _ l, concat (emitted l) = batch ++ (eventOf id <$> successes rs) ∧ Forall batch_ok (emitted l)).
Proof.
  revert batch. induction rs as [|r rs IH]; intros batch Hb; cbn [emitFrom].
  - eapply traced_mono; [apply traced_flush|]. intros _ l ->. rewrite app_nil_r.
    destruct batch as [|e b]; [done|]. cbn [concat]. rewrite app_nil_r. split; [done|].
    apply Forall_singleton. unfold batch_ok. destruct Hb as [|Hb]; [done|]. simpl in *. lia.
  - rewrite successes_cons. destruct (or_Err r) as [e|] eqn:Hr; cbn [fmap list_fmap].
    + by apply IH.
    +       destruct (Z.leb_spec (x_telemetryBatchSize x) (Z.of_nat (length (batch ++ [eventOf id r])))) as [Hfull|].
      * eapply traced_bind; [apply traced_flush|]. intros [] l Hl.
        eapply traced_mono; [apply IH; by left|]. intros _ l' [H1 H2].
        rewrite emitted_app, Hl, concat_app, H1.
        assert (Hne : ∃ e b, batch ++ [eventOf id r] = e :: b) by (destruct batch; simpl; eauto).
        destruct Hne as (e & b & He). rewrite He. cbn [concat]. rewrite app_nil_r, <- He, <- app_assoc.
        split; [done|]. apply Forall_app. split; [|done]. apply Forall_singleton.
        unfold batch_ok. rewrite length_app. destruct Hb as [->|Hb]; simpl in *; lia.
      * eapply traced_mono; [apply IH; by right|]. intros _ l' [H1 H2]. by rewrite H1, <- app_assoc.
Qed.

(** Telemetry is complete. The batches that a run hands to its emitter,
    taken together, are exactly one event per order that was answered, in the
    order of the results; no batch is empty or larger than the batch size. *)
Theorem telemetry_complete id rs :
  traced (emitFleetTelemetry x id rs)
    (λ _ l, concat (emitted l) = eventOf id <$> successes rs ∧ Forall batch_ok (emitted l)).
Proof.
  destruct rs as [|r rs]; [by apply traced_ret|]. eapply traced_mono; [apply traced_emitFrom; by left|].
  done.
Qed.
End telemetry.
