(* ===== verification/Preflight.v ===== *)
(** * Preflight: the gate of production in front of the executor
    ([PreflightValidatorFactory] of [internal/worker/executor.go] with
    [internal/validator] and [internal/botfleet/bot.go]) *)

From S2P Require Import Prelude Models OrderBook Botfleet Stats Scenarios Validator Gate Contest.
From S2P Require Import Queue Submission World Logic Executor ExecutorTheorems.

Section websocket.
Context {engine : Type}
        (Do : engine → string → string → restOrderRequest → option (Z * string) * engine)
        (Unmarshal : string → option restOrderResponse) (sendErrText : send_error → string)
        (burst : (engine → Order → result string Fill * engine) →
                 engine → scenario → list concurrentResult * engine).

(** The HTTP client of the standard library answers no request whose URL has a
    scheme other than http and https. *)
Definition http_only : Prop :=
  ∀ g method rest body, (Do g method ("ws://" +:+ rest) body).1 = None.

Lemma ws_send_fails host g o :
  http_only → ∀ f, (restTransport Do Unmarshal sendErrText ("ws://" +:+ host) g o).1 ≠ Ok f.
Proof.
  intros Hh f. unfold restTransport, restSend. cbn [fst]. set (m := if bool_decide _ then _ else _).
  replace (("ws://" +:+ host) +:+ "/orders") with ("ws://" +:+ (host +:+ "/orders")) by done.
  by rewrite Hh.
Qed.

(** The first scenario sends an order. *)
Lemma first_scenario_sends :
  match fixedScenarios with
  | sc :: _ => sc_isConcurrent sc = false ∧ sc_orders sc ≠ []
  | [] => False
  end.
Proof. by vm_compute. Qed.

Lemma ws_gate_fails host id t g :
  http_only → (∀ Send, burst_ok Send (burst Send)) →
  let '(v, e) := PreflightValidatorFactory Do Unmarshal sendErrText burst (λ _, false) ("ws://" +:+ host) id t g in
  e = None ∧ vr_AllPassed v = false.
Proof.
  intros Hh Hb. unfold PreflightValidatorFactory, Validator.Run.
  set (Send := restTransport Do Unmarshal sendErrText ("ws://" +:+ host)).
  destruct (runScenarios_spec (λ _, false) Send (burst Send) (Hb Send) fixedScenarios [] true g fixedScenarios_wf)
    as [(srs & b & g' & -> & _ & Hall & Hp)|(srs & g' & _ & g'' & Hc)]; [|done].
  split; [done|]. simpl. destruct b; [|done]. destruct (proj1 Hall eq_refl) as [_ Hsrs].
  apply Hp in Hsrs. pose proof first_scenario_sends as Hf.
  destruct fixedScenarios as [|sc scs]; [done|]. destruct Hf as [Hseq Hne]. simpl in Hsrs.
  rewrite Hseq in Hsrs. destruct Hsrs as (g1 & Ha & _). destruct (sc_orders sc) as [|o os]; [done|].
  inversion Ha as [|? ? ? ? f ? ? ? Hs _]; subst.
  destruct (ws_send_fails host g o Hh f). unfold Send in Hs. by rewrite Hs.
Qed.

Context `{!Env, !SortSlice} (x : SandboxExecutor) (runErrText : run_error → string)
        (reasonText : option reason → string) (fuel : nat) (engineOf : nat → engine).

(** The validator that the worker is started with. *)
Definition production_gate : Prop :=
  ∀ t url id, ∃ now, env_validate t url id =
    PreflightValidatorFactory Do Unmarshal sendErrText burst (λ _, false) url id now (engineOf t).

(** C40: With the validator of production no WebSocket submission is ever
    benchmarked in a contest: the validator speaks HTTP to the URL of the
    submission, which has the scheme ws, so that no order gets an answer and the
    gate fails whatever the engine does; the fleet does not run and the low
    profile, the first of the chain, ends with an error. *)
Theorem websocket_never_benchmarked j sub w :
  http_only → (∀ Send, burst_ok Send (burst Send)) → production_gate →
  x_hasValidator x = true → j_VolatilityLabel j = "low" →
  w_store w !! j_SubmissionID j = Some sub → s_Protocol sub = ProtocolWebSocket →
  let '(r, w') := Execute x runErrText reasonText fuel j w in
  is_ok r = false ∧ ∃ l, w_trace w' = w_trace w ++ l ∧ fleet_runs l = [].
Proof.
  intros Hh Hb Hprod Hv Hl Hsub Hws.
  pose proof (Execute_gated x runErrText reasonText fuel j w Hv Hl) as Hg.
  destruct (Execute x runErrText reasonText fuel j w) as [r w'].
  destruct Hg as (l & Htr & _ & Hok & Hgate).
  assert (fleet_runs l = []) as Hnil.
  { destruct (fleet_runs l) as [|c cs] eqn:Hr; [done|]. exfalso.
    destruct (Hgate ltac:(done)) as (sub' & port & l1 & l2 & Hs' & _ & _ & t & v & _ & Hval & Hpass).
    rewrite Hsub in Hs'. injection Hs' as <-. rewrite Hws in Hval.
    destruct (Hprod t (targetURLForProtocol ProtocolWebSocket (x_sandboxHost x) port) (s_ID sub)) as [now Hp].
    rewrite Hp in Hval. unfold targetURLForProtocol in Hval. rewrite bool_decide_eq_true_2 in Hval by done.
    pose proof (ws_gate_fails (x_sandboxHost x +:+ ":" +:+ portText port +:+ "/orders") (s_ID sub) now
      (engineOf t) Hh Hb) as Hfail.
    rewrite Hval in Hfail. destruct Hfail as [_ Hf]. congruence. }
  split; [|by exists l]. destruct (is_ok r) eqn:Hr; [|done]. specialize (Hok eq_refl).
  by rewrite Hnil in Hok.
Qed.
End websocket.

(** ** An instance: an engine that answers nothing, in an outside where nothing
    else fails *)
Definition silent (g : unit) (method url : string) (body : restOrderRequest) : option (Z * string) * unit :=
  (None, g).

Definition silentEnv : Env := {|
  env_delay := λ _, 1%N;
  env_getFails := λ _, false;
  env_updateFails := λ _, false;
  env_deploy := λ _ _, Ok ("0123456789abcdef", 9000);
  env_stopFails := λ _, false;
  env_containerHealthy := λ _ _, Ok true;
  env_httpOK := λ _ _, true;
  env_ctxDone := λ _, false;
  env_activeContest := λ _, Err "no active contest";
  env_enqueueFails := λ _, false;
  env_commitFails := λ _, false;
  env_batchFails := λ _, false;
  env_validate := λ _ url id,
    PreflightValidatorFactory silent (λ _, None) (λ _, "error") (λ Send, in_order Send) (λ _, false) url id 0 ();
  env_fleet := λ _ _, ([], 0, 1)
|}.

Definition sample_websocket : Submission :=
  mkSubmission "s1-00000000" "team" "go" "websocket" StatusPending "" "c1" "/a.zip" 1 "" "" 0 0 0 None None []
    F64.zero None.
Definition websocket_world : world := mkWorld 0 0 {["s1-00000000" := sample_websocket]} [sample_low] [].

Lemma websocket_never_benchmarked_witness :
  let '(r, w') := @Execute silentEnv _ sample_executor (λ _, "error") (λ _, "") 100 sample_low websocket_world in
  is_ok r = false ∧ ∃ l, w_trace w' = w_trace websocket_world ++ l ∧ fleet_runs l = [].
Proof.
  apply (@websocket_never_benchmarked unit silent (λ _, None) (λ _, "error") (λ Send, in_order Send) silentEnv _
    sample_executor (λ _, "error") (λ _, "") 100 (λ _, ()) sample_low sample_websocket websocket_world).
  - by intros g method rest body.
  - intros Send. apply in_order_ok.
  - intros t url id. by exists 0.
  - done.
  - done.
  - done.
  - done.
Defined.
