(* ===== verification/Worker.v ===== *)
(** * Worker: the poll loop ([internal/worker/worker.go], [heartbeat.go])

    [processJob] in the monad of [World], over any executor; [Run] processes
    the jobs that the queue delivers, one at a time. The heartbeat is one round
    of the heartbeater against an orchestrator. *)

From S2P Require Import Prelude Models GoStrings Botfleet Scenarios Validator Queue Submission World.
From S2P Require Import Executor.

(** ** worker.go *)
Record WorkerConfig := mkWorkerConfig { wc_WorkerID : string; wc_JobTimeout : duration }.

Definition DefaultWorkerConfig : WorkerConfig := mkWorkerConfig "" (35 * Minute).

Inductive new_worker_error := NilQueue | NilStore | NilExecutor.

(** [NewWorker]: which of its arguments are not nil, and the configuration. *)
Definition NewWorker (q store executor : bool) (cfg : WorkerConfig)
    : result new_worker_error WorkerConfig :=
  if negb q then Err NilQueue
  else if negb store then Err NilStore
  else if negb executor then Err NilExecutor
  else Ok (mkWorkerConfig
         (if bool_decide (wc_WorkerID cfg = "") then "worker-unknown" else wc_WorkerID cfg)
         (if wc_JobTimeout cfg =? 0 then wc_JobTimeout DefaultWorkerConfig else wc_JobTimeout cfg)).

(** What the guard of [processJob] decides on a submission and its job. *)
Inductive guard := Skip | Proceed.

#[export] Instance guard_eq_dec : EqDecision guard.
Proof. solve_decision. Defined.

Definition jobGuard (j : Job) (sub : Submission) : guard :=
  if IsTerminal (s_Status sub) then Skip
  else if bool_decide (j_VolatilityLabel j = "") && negb (bool_decide (s_Status sub = StatusPending))
  then Skip
  else if negb (bool_decide (j_VolatilityLabel j = "")) &&
    negb (bool_decide (s_Status sub = StatusPending)) && negb (bool_decide (s_Status sub = StatusRunning))
  then Skip
  else Proceed.

Section worker.
Context `{!Env}.
(** The executor, and the texts of its errors and of a list of labels. *)
Context (execute : Job → M (result exec_error BenchmarkResults))
        (errText : exec_error → string) (listText : list string → string).

Definition worker_setStatus (sub : Submission) (status msg : string) : M Submission :=
  r ← store_Update (set_Status status msg sub); mret r.2.

Definition commitOrLog : M unit := _ ← queue_CommitJob; mret ().

(** The submission as stored now, or the copy at hand. *)
Definition reread (j : Job) (sub : Submission) : M Submission :=
  g ← store_Get (j_SubmissionID j);
  mret (match g with Ok fresh => fresh | Err _ => sub end).

(** What follows a successful run. *)
Definition recordSuccess (j : Job) (sub : Submission) (results : BenchmarkResults) : M unit :=
  sub ← reread j sub;
  t ← now;
  if IsLastProfile j then
    let r := if bool_decide (j_VolatilityLabel j = "") then Some results else s_Results sub in
    _ ← worker_setStatus (set_Completed (Some t) r sub) StatusCompleted "benchmark complete";
    mret ()
  else
    _ ← worker_setStatus sub StatusRunning
      ("profile " +:+ quoted (j_VolatilityLabel j) +:+ " done, " +:+
       listText (j_RemainingProfiles j) +:+ " remaining");
    mret ().

Definition processJob (j : Job) : M unit :=
  g ← store_Get (j_SubmissionID j);
  match g with
  | Err _ => mret ()
  | Ok sub =>
      match jobGuard j sub with
      | Skip => commitOrLog
      | Proceed =>
          sub ← worker_setStatus sub StatusDeploying "worker picked up job";
          r ← execute j;
          match r with
          | Err e =>
              sub ← reread j sub;
              _ ← worker_setStatus sub StatusFailed ("execution error: " +:+ errText e);
              commitOrLog
          | Ok results =>
              _ ← recordSuccess j sub results;
              commitOrLog
          end
      end
  end.

(** [Run] over what [Dequeue] answers: a job, an error that is not the end of
    the context, after which it backs off and goes on, or the end. *)
Inductive delivery := DJob (j : Job) | DError.

Fixpoint worker_Run (deliveries : list delivery) : M unit :=
  match deliveries with
  | [] => mret ()
  | DJob j :: deliveries => _ ← processJob j; worker_Run deliveries
  | DError :: deliveries =>
      done ← ctxDone;
      if (done : bool) then mret () else _ ← sleep (2 * Second); worker_Run deliveries
  end.

(** The worker on its own queue: it takes the oldest job, [fuel] times at most. *)
Definition popJob : M (option Job) :=
  λ w, match w_queue w with
       | [] => (None, w)
       | j :: q => (Some j, mkWorld (w_tick w) (w_now w) (w_store w) q (w_trace w))
       end.

Fixpoint drain (fuel : nat) : M unit :=
  match fuel with
  | O => mret ()
  | S fuel =>
      j ← popJob;
      match j with
      | None => mret ()
      | Some j => _ ← processJob j; drain fuel
      end
  end.
End worker.

(** ** heartbeat.go *)
Record HeartbeatStatus := mkHeartbeat { hb_Busy : bool; hb_CurrentJobID : string; hb_JobsCompleted : Z }.
Record heartbeatPayload := mkPayload { hp_Status : string; hp_CurrentJobID : string; hp_JobsCompleted : Z }.

Inductive heartbeat_error := HbRequest | HbStatus (code : Z).

Section heartbeat.
(** One HTTP request to the orchestrator: the status code, or no answer, and the
    orchestrator afterwards. *)
Context {O : Type} (postRegister : string → O → option Z * O)
        (postBeat : string → heartbeatPayload → O → option Z * O).

Definition hb_register (workerID : string) (o : O) : option heartbeat_error * O :=
  match postRegister workerID o with
  | (None, o) => (Some HbRequest, o)
  | (Some code, o) =>
      if negb (code =? 201) && negb (code =? 200) then (Some (HbStatus code), o) else (None, o)
  end.

Definition payloadOf (status : HeartbeatStatus) : heartbeatPayload :=
  mkPayload (if hb_Busy status then "busy" else "idle") (hb_CurrentJobID status)
    (hb_JobsCompleted status).

Definition beat (workerID : string) (status : HeartbeatStatus) (o : O) : option heartbeat_error * O :=
  match postBeat workerID (payloadOf status) o with
  | (None, o) => (Some HbRequest, o)
  | (Some code, o) =>
      if code =? 404 then hb_register workerID o
      else if negb (code =? 200) then (Some (HbStatus code), o)
      else (None, o)
  end.

(** [Run]: one registration, then one beat per tick. *)
Definition hb_Run (workerID : string) (ticks : list HeartbeatStatus) (o : O) : O :=
  fold_left (λ o status, (beat workerID status o).2) ticks (hb_register workerID o).2.
End heartbeat.
