(* ===== verification/WorkerTheorems.v ===== *)
(** * WorkerTheorems: the worker and the chain of profiles
    ([internal/worker/worker.go] with [executor.go]) *)

From S2P Require Import Prelude Models OrderBook Checker Botfleet Stats StatsTheorems Scenarios Validator GoStrings.
From S2P Require Import Contest Queue Submission SubmissionTheorems Telemetry World Logic Executor ExecutorTheorems.
From S2P Require Import JsonString Worker.

(** ** What the worker asks of an executor *)
Definition no_commit (a : action) : Prop := match a with ACommit => False | _ => True end.

(** Every submission is stored under its id, as it is read back. *)
Definition store_ok (s : gmap string Submission) : Prop :=
  ∀ id sub, s !! id = Some sub → s_ID sub = id ∧ stored sub = sub.

(** Submissions stay in the store, under their ids. *)
Definition grows {A} (m : M A) : Prop :=
  ∀ w, store_ok (w_store w) →
    store_ok (w_store (m w).2) ∧ ∀ id, is_Some (w_store w !! id) → is_Some (w_store (m w).2 !! id).

Class ExecutorContract `{!Env} (execute : Job → M (result exec_error BenchmarkResults)) : Prop := {
  ec_no_commit j : only no_commit (execute j);
  ec_grows j : grows (execute j)
}.

Lemma grows_effect {A} (m : M A) : pure_effect m → grows m.
Proof. intros Hm w Hw. specialize (Hm w). unfold state in Hm. injection Hm as -> _. auto. Qed.

Lemma grows_ret {A} (a : A) : grows (mret a).
Proof. by apply grows_effect. Qed.

Lemma grows_bind {A B} (m : M A) (k : A → M B) : grows m → (∀ a, grows (k a)) → grows (m ≫= k).
Proof.
  intros Hm Hk w Hw. specialize (Hm w Hw). unfold mbind, M_bind. destruct (m w) as [a w1].
  simpl in *. destruct Hm as [H1 H2]. destruct (Hk a w1 H1) as [H3 H4]. auto.
Qed.

Lemma store_ok_insert sub s : store_ok s → store_ok (<[s_ID sub := stored sub]> s).
Proof.
  intros Hs id sub'. rewrite lookup_insert. case_decide; [|apply Hs]. intros [= <-].
  by rewrite stored_idemp.
Qed.

(** A value that has been stored before, put under its id. *)
Lemma store_ok_put id sub sub' s :
  store_ok s → s !! id = Some sub → s_ID sub' = s_ID sub → stored sub' = sub' → store_ok (<[id := sub']> s).
Proof.
  intros Hs Hid Hsame Hfix. destruct (Hs _ _ Hid) as [<- _]. rewrite <- Hsame. pose proof (store_ok_insert sub' s Hs) as Hins.
  by rewrite Hfix in Hins.
Qed.

Lemma grows_Update `{!Env} sub : grows (store_Update sub).
Proof.
  intros w Hw. unfold store_Update, Update, Save. run_simpl.
  destruct (env_updateFails (w_tick w)); run_simpl; [auto|].
  split; [by apply (store_ok_insert (set_UpdatedAt (w_now w + Z.of_N (env_delay (w_tick w))) sub))|].
  intros id Hid. rewrite lookup_insert. case_decide; [by eexists|done].
Qed.

Lemma grows_Enqueue `{!Env} j : grows (queue_Enqueue j).
Proof.
  intros w Hw. unfold queue_Enqueue. run_simpl. destruct (env_enqueueFails (w_tick w)); run_simpl; auto.
Qed.

#[export] Hint Resolve grows_ret grows_Update grows_Enqueue : world.
#[export] Hint Extern 3 (grows _) => (apply grows_effect; done) : world.

Ltac grows_tac :=
  repeat first
    [ progress intros
    | solve [auto with world]
    | apply grows_bind
    | match goal with |- context [match ?x with _ => _ end] => destruct x end ].

Section contract.
Context `{!Env, !SortSlice} (x : SandboxExecutor).
Context (runErrText : run_error → string) (reasonText : option reason → string) (fuel : nat).

Lemma effect_poll n deadline cid url : pure_effect (pollHealthy x n deadline cid url).
Proof.
  induction n as [|n IH]; cbn [pollHealthy]; [done|]. apply effect_bind; [done|]. intros t.
  destruct (deadline <? t); [done|]. apply effect_bind; [done|]. intros [healthy|]; [|done].
  apply effect_bind; [by destruct healthy|]. intros [|]; [done|]. apply effect_bind; [done|].
  intros [|]; [done|]. apply effect_bind; [done|]. done.
Qed.

Lemma effect_emitFrom id batch rs : pure_effect (emitFrom x id batch rs).
Proof.
  revert batch. induction rs as [|r rs IH]; intros batch; cbn [emitFrom]; [by destruct batch|].
  destruct (or_Err r); [done|]. destruct (_ <=? _); [|done]. apply effect_bind; [|done].
  by destruct (batch ++ _).
Qed.

Lemma effect_emit id rs : pure_effect (emitFleetTelemetry x id rs).
Proof. destruct rs; [done|apply effect_emitFrom]. Qed.

Lemma effect_runFleet j url protocol p : pure_effect (runFleet x j url protocol p).
Proof.
  unfold runFleet. destruct (NewFleet _) as [cfg|]; [|done]. apply effect_bind; [done|].
  intros [[rs t1] t2]. destruct (ComputeStats rs); [|done]. apply effect_bind; [apply effect_emit|done].
Qed.

Lemma effect_resolveProfile label : pure_effect (resolveProfile x label).
Proof. unfold resolveProfile. effect_tac. Qed.

Lemma effect_finalWeights : pure_effect (finalWeights x).
Proof. unfold finalWeights. effect_tac. Qed.

Lemma grows_Execute j : grows (Execute x runErrText reasonText fuel j).
Proof.
  unfold Execute, executeJob, executeDeployed, waitHealthy, runPreflightValidator, benchmark, finishProfile,
    appendProfileResult, enqueueNextProfile, computeAndWriteFinalScore, writeDryRunResult, markFailed.
  assert (Hp : ∀ n d cid url, grows (pollHealthy x n d cid url)) by (intros; apply grows_effect, effect_poll).
  assert (Hf : ∀ j url pr p, grows (runFleet x j url pr p)) by (intros; apply grows_effect, effect_runFleet).
  assert (Hr : ∀ l, grows (resolveProfile x l)) by (intros; apply grows_effect, effect_resolveProfile).
  assert (Hw : grows (finalWeights x)) by apply grows_effect, effect_finalWeights.
  grows_tac.
Qed.

(** The sandbox executor keeps the contract. *)
#[export] Instance Execute_contract : ExecutorContract (Execute x runErrText reasonText fuel).
Proof.
  split; [|apply grows_Execute]. intros j w.
  assert (Hin : ∀ a, inner a → no_commit a) by (by intros []).
  pose proof (λ sub cid port, only_weaken inner no_commit _ Hin
    (only_executeDeployed x runErrText reasonText fuel sub j cid port)) as Hd.
  assert (only no_commit (Execute x runErrText reasonText fuel j)) as Ho; [|apply Ho].
  unfold Execute, executeJob. apply only_bind; [by apply only_note|]. intros _.
  apply only_bind; [|intros r; apply only_bind; [by apply only_note|auto with world]].
  apply only_bind; [auto with world|]. intros [sub|e]; [|auto with world].
  apply only_bind; [by apply only_noted|]. intros [[cid port]|e]; [|auto with world].
  apply only_bind; [apply Hd|]. intros r. apply only_bind; [by apply only_noted|auto with world].
Qed.
End contract.

(** ** One job *)
Section worker.
Context `{!Env} (execute : Job → M (result exec_error BenchmarkResults)) `{!ExecutorContract execute}.
Context (errText : exec_error → string) (listText : list string → string).

Lemma only_setStatus P sub st msg : (∀ s, P (AUpdate s)) → only P (worker_setStatus sub st msg).
Proof. intros HP. unfold worker_setStatus. only_tac. Qed.

Lemma only_reread P j sub : only P (reread j sub).
Proof. unfold reread. only_tac. Qed.

Lemma only_recordSuccess P j sub r : (∀ s, P (AUpdate s)) → only P (recordSuccess listText j sub r).
Proof.
  intros HP. unfold recordSuccess. apply only_bind; [apply only_reread|]. intros sub'.
  apply only_bind; [auto with world|]. intros t.
  destruct (IsLastProfile j); (apply only_bind; [by apply only_setStatus|auto with world]).
Qed.

Lemma traced_commit : traced commitOrLog (λ _ l, l = [ACommit]).
Proof. intros w. by exists [ACommit]. Qed.

Lemma traced_then_commit {A} (m : M A) :
  only no_commit m → traced (m ≫= λ _, commitOrLog) (λ _ l, ∃ l', l = l' ++ [ACommit] ∧ Forall no_commit l').
Proof.
  intros Hm. eapply traced_bind; [exact Hm|]. intros a l Hl.
  eapply traced_mono; [apply traced_commit|]. intros b l' ->. by exists l.
Qed.

(** Two programs that do the same in every world leave the same traces. *)
Lemma traced_ext {A} (m m' : M A) Q : (∀ w, m w = m' w) → traced m' Q → traced m Q.
Proof. intros He Hm w. rewrite He. apply Hm. Qed.

(** [processJob] after the guard, as one program followed by the commit. *)
Definition runAndRecord (j : Job) (sub : Submission) : M unit :=
  sub ← worker_setStatus sub StatusDeploying "worker picked up job";
  r ← execute j;
  match r with
  | Err e =>
      sub ← reread j sub;
      _ ← worker_setStatus sub StatusFailed ("execution error: " +:+ errText e);
      mret ()
  | Ok results => recordSuccess listText j sub results
  end.

Lemma processJob_eq j w :
  processJob execute errText listText j w =
    (g ← store_Get (j_SubmissionID j);
     match g with
     | Err _ => mret ()
     | Ok sub => match jobGuard j sub with
                 | Skip => commitOrLog
                 | Proceed => runAndRecord j sub ≫= λ _, commitOrLog
                 end
     end) w.
Proof.
  unfold processJob, runAndRecord, mbind, M_bind.
  destruct (store_Get (j_SubmissionID j) w) as [[sub|e] w1]; [|done].
  destruct (jobGuard j sub); [done|].
  destruct (worker_setStatus sub _ _ w1) as [sub' w2]. destruct (execute j w2) as [[r|e] w3]; [done|].
  destruct (reread j sub' w3) as [sub'' w4]. by destruct (worker_setStatus sub'' _ _ w4).
Qed.

Lemma only_runAndRecord j sub : only no_commit (runAndRecord j sub).
Proof.
  apply only_bind; [by apply only_setStatus|]. intros sub'. apply only_bind; [apply ec_no_commit|].
  intros [r|e]; [by apply only_recordSuccess|]. apply only_bind; [apply only_reread|]. intros sub''.
  apply only_bind; [by apply only_setStatus|auto with world].
Qed.

(** C19: The offset of a job is committed last. If the submission can be read, the worker
    commits exactly once, after everything else it does, in particular after every
    attempt to write to the store. The commit does not depend on those attempts: it is
    made as well when they fail, against the comments that promise a commit only after a
    write that succeeded (see [commit_without_write]). A job whose submission is already
    finished, or is being worked on, is committed without touching anything; if the
    submission cannot be read, nothing happens and nothing is committed, so the job is
    delivered again. *)
Theorem commit_last j w :
  let '(_, w') := processJob execute errText listText j w in
  (env_getFails (w_tick w) = true ∨ w_store w !! j_SubmissionID j = None) ∧
    w_trace w' = w_trace w ∧ w_store w' = w_store w ∨
  ∃ sub l, w_store w !! j_SubmissionID j = Some sub ∧
    w_trace w' = w_trace w ++ l ++ [ACommit] ∧ Forall no_commit l ∧
    (jobGuard j sub = Skip → l = [] ∧ w_store w' = w_store w ∧ w_queue w' = w_queue w).
Proof.
  rewrite processJob_eq. unfold store_Get, Get. run_simpl.
  destruct (env_getFails (w_tick w)); run_simpl; [left; by auto|].
  destruct (w_store w !! j_SubmissionID j) as [sub|] eqn:Hsub; run_simpl; [|left; by auto].
  set (w1 := mkWorld _ _ _ _ _). destruct (jobGuard j sub) eqn:Hg.
  - unfold commitOrLog, queue_CommitJob. run_simpl. right. exists sub, []. by auto.
  - destruct (traced_then_commit _ (only_runAndRecord j sub) w1) as (l & Htr & l' & -> & Hl').
    unfold mbind, M_bind in Htr. destruct (runAndRecord j sub w1) as [r w2].
    destruct (commitOrLog w2) as [r' w3]. right. exists sub, l'. by rewrite Hg.
Qed.

(** A job that the guard lets through is committed whatever becomes of the writes: also
    when none of them reaches the store, which is then as it was. *)
Lemma commit_without_write j sub w :
  env_getFails (w_tick w) = false → w_store w !! j_SubmissionID j = Some sub → jobGuard j sub = Proceed →
  (∀ t, env_updateFails t = true) →
  let '(_, w') := processJob execute errText listText j w in
  ∃ l, w_trace w' = w_trace w ++ l ++ [ACommit] ∧
    ((∀ j w, w_store (execute j w).2 = w_store w) → w_store w' = w_store w).
Proof.
  intros Hget Hsub Hg Hfail.
  assert (∀ sub st msg w, w_store (worker_setStatus sub st msg w).2 = w_store w) as Hset.
  { intros sub0 st msg w0. unfold worker_setStatus, store_Update, Update, Save. run_simpl. rewrite Hfail. by run_simpl. }
  assert (∀ sub w, w_store (reread j sub w).2 = w_store w) as Hre.
  { intros sub0 w0. unfold reread, store_Get, Get. run_simpl. destruct (env_getFails (w_tick w0)); run_simpl; [done|].
    by destruct (w_store w0 !! j_SubmissionID j); run_simpl. }
  rewrite processJob_eq. unfold store_Get, Get. run_simpl. rewrite Hget, Hsub. run_simpl. rewrite Hg.
  set (w1 := mkWorld _ _ _ _ _).
  destruct (traced_then_commit _ (only_runAndRecord j sub) w1) as (l & Htr & l' & -> & _).
  assert ((∀ j w, w_store (execute j w).2 = w_store w) → w_store (runAndRecord j sub w1).2 = w_store w1) as Hst.
  { intros Hex. unfold runAndRecord, mbind, M_bind. pose proof (Hset sub StatusDeploying "worker picked up job" w1) as H1.
    destruct (worker_setStatus sub _ _ w1) as [sub1 w2]. specialize (Hex j w2).
    destruct (execute j w2) as [[r|e] w3].
    - unfold recordSuccess, mbind, M_bind. pose proof (Hre sub1 w3) as H2. destruct (reread j sub1 w3) as [sub2 w4].
      run_simpl. simpl in *.
      destruct (IsLastProfile j); (lazymatch goal with |- context [worker_setStatus ?s ?st ?m ?w] =>
        pose proof (Hset s st m w) as H3; destruct (worker_setStatus s st m w) as [sub3 w5] end);
        run_simpl; simpl in *; congruence.
    - pose proof (Hre sub1 w3) as H2. destruct (reread j sub1 w3) as [sub2 w4].
      pose proof (Hset sub2 StatusFailed ("execution error: " +:+ errText e) w4) as H3.
      destruct (worker_setStatus sub2 _ _ w4) as [sub3 w5]. simpl in *. run_simpl. congruence. }
  unfold mbind, M_bind in *. destruct (runAndRecord j sub w1) as [r w2]. simpl in Hst.
  unfold commitOrLog, queue_CommitJob in *. run_simpl. simpl in Htr. exists l'. split; [exact Htr|].
  intros Hex. by rewrite Hst.
Qed.

(** *** The status that a job leaves *)
Hypothesis good_get : ∀ t, env_getFails t = false.
Hypothesis good_update : ∀ t, env_updateFails t = false.

(** The status that follows from the answer of the executor. *)
Definition status_after (j : Job) (r : result exec_error BenchmarkResults) : string :=
  match r with
  | Err _ => StatusFailed
  | Ok _ => if IsLastProfile j then StatusCompleted else StatusRunning
  end.

(** What an update of the status keeps of a submission. *)
Definition keeps (sub sub' : Submission) : Prop :=
  s_ID sub' = s_ID sub ∧ s_TeamName sub' = s_TeamName sub ∧ s_Protocol sub' = s_Protocol sub ∧
  s_ContestID sub' = s_ContestID sub ∧ s_AllResults sub' = s_AllResults sub ∧
  s_FinalScore sub' = s_FinalScore sub ∧ s_DryRunResult sub' = s_DryRunResult sub.

Lemma keeps_stored sub : stored sub = sub → keeps sub (stored sub).
Proof. intros ->. by repeat split. Qed.

(** An update of the status: what [worker_setStatus] hands on, and what it stores. *)
Lemma setStatus_good sub st msg w :
  keeps sub (stored sub) → asUTF8 st = st →
  ∃ m sub' w', worker_setStatus sub st msg w = (m, w') ∧ keeps sub sub' ∧ s_Status sub' = st ∧
    s_CompletedAt sub' = s_CompletedAt sub ∧ s_Results sub' = storedResults <$> s_Results sub ∧
    stored sub' = sub' ∧ w_store w' = <[s_ID sub := sub']> (w_store w) ∧ w_queue w' = w_queue w.
Proof.
  intros Hk Hst. unfold worker_setStatus, store_Update, Update, Save. run_simpl. rewrite good_update. run_simpl.
  eexists _, (stored (set_UpdatedAt _ (set_Status st msg sub))), _.
  split; [done|]. split; [exact Hk|]. split; [exact Hst|]. do 2 (split; [done|]).
  split; [apply stored_idemp|done].
Qed.

Lemma reread_good j sub sub' w :
  w_store w !! j_SubmissionID j = Some sub' →
  ∃ w', reread j sub w = (sub', w') ∧ w_store w' = w_store w ∧ w_queue w' = w_queue w.
Proof.
  intros Hs. unfold reread, store_Get, Get. run_simpl. rewrite good_get, Hs. run_simpl. by eexists.
Qed.

Lemma recordSuccess_good j sub sub3 r w :
  store_ok (w_store w) → w_store w !! j_SubmissionID j = Some sub3 →
  let '(_, w') := recordSuccess listText j sub r w in
  ∃ sub', w_store w' = <[j_SubmissionID j := sub']> (w_store w) ∧ w_queue w' = w_queue w ∧
    keeps sub3 sub' ∧ s_Status sub' = status_after j (Ok r) ∧ stored sub' = sub' ∧
    (IsLastProfile j = true → is_Some (s_CompletedAt sub') ∧
       (j_VolatilityLabel j = "" → s_Results sub' = Some (storedResults r))).
Proof.
  intros Hok Hs. unfold recordSuccess, status_after. unfold mbind, M_bind.
  destruct (reread_good j sub sub3 w Hs) as (w1 & -> & Hw1 & Hq1). run_simpl.
  apply Hok in Hs as [Hid Hfix]. apply keeps_stored in Hfix. destruct (IsLastProfile j).
  - destruct (setStatus_good
      (set_Completed (Some (w_now w1)) (if bool_decide (j_VolatilityLabel j = "") then Some r else s_Results sub3) sub3)
      StatusCompleted "benchmark complete" w1 Hfix eq_refl)
      as (m & sub' & w2 & -> & Hk & Hst & Hc & Hr & Hfix' & Hw2 & Hq2).
    run_simpl. exists sub'. rewrite Hw2, Hw1, Hq2, Hq1. simpl. rewrite Hid. do 2 (split; [done|]).
    split; [exact Hk|]. do 2 (split; [done|]). intros _. rewrite Hc, Hr. simpl. split; [done|].
    intros ->. done.
  - destruct (setStatus_good sub3 StatusRunning
      ("profile " +:+ quoted (j_VolatilityLabel j) +:+ " done, " +:+
       listText (j_RemainingProfiles j) +:+ " remaining") w1 Hfix eq_refl)
      as (m & sub' & w2 & -> & Hk & Hst & Hc & Hr & Hfix' & Hw2 & Hq2).
    run_simpl. exists sub'. rewrite Hw2, Hw1, Hq2, Hq1, Hid. by repeat (split; [done|]).
Qed.

Lemma processJob_run j sub w :
  store_ok (w_store w) → w_store w !! j_SubmissionID j = Some sub → jobGuard j sub = Proceed →
  ∃ sub1 w1 r w2 sub2 sub' w', (processJob execute errText listText j w).2 = w' ∧
    keeps sub sub1 ∧ s_Status sub1 = StatusDeploying ∧
    w_store w1 = <[j_SubmissionID j := sub1]> (w_store w) ∧ w_queue w1 = w_queue w ∧
    execute j w1 = (r, w2) ∧ w_store w2 !! j_SubmissionID j = Some sub2 ∧
    w_store w' = <[j_SubmissionID j := sub']> (w_store w2) ∧ w_queue w' = w_queue w2 ∧
    keeps sub2 sub' ∧ s_Status sub' = status_after j r ∧
    (is_ok r = true → IsLastProfile j = true → is_Some (s_CompletedAt sub')) ∧
    stored sub1 = sub1 ∧ store_ok (w_store w').
Proof.
  intros Hok Hsub Hg. destruct (Hok _ _ Hsub) as [Hid Hfix]. unfold processJob.
  destruct (store_Get_good (j_SubmissionID j) sub w (good_get _) Hsub) as (w0 & Hget & Hw0 & Hq0).
  rewrite (bind_run _ _ _ _ _ Hget), Hg.
  destruct (setStatus_good sub StatusDeploying "worker picked up job" w0 (keeps_stored _ Hfix) eq_refl)
    as (m & sub1 & w1 & Hset & Hk1 & Hs1 & _ & _ & Hfix1 & Hw1 & Hq1). rewrite Hid, Hw0 in Hw1.
  rewrite (bind_run _ _ _ _ _ Hset).
  assert (Hok1 : store_ok (w_store w1)).
  { rewrite Hw1, <- Hid. destruct Hk1 as [<- _]. rewrite <- Hfix1 at 2. by apply store_ok_insert. }
  destruct (ec_grows j w1 Hok1) as [Hok2 Hgrow]. destruct (execute j w1) as [r w2] eqn:He. simpl in Hok2, Hgrow.
  rewrite (bind_run _ _ _ _ _ He).
  destruct (Hgrow (j_SubmissionID j)) as [sub2 Hsub2]; [rewrite Hw1, lookup_insert, decide_True; done|].
  destruct (Hok2 _ _ Hsub2) as [Hid2 Hfix2]. rewrite Hq0 in Hq1.
  assert (Hcommit : ∀ w, (commitOrLog w).2 = mkWorld (S (w_tick w)) (w_now w + Z.of_N (env_delay (w_tick w)))
    (w_store w) (w_queue w) (w_trace w ++ [ACommit])) by done.
  destruct r as [res|e].
  - pose proof (recordSuccess_good j m sub2 res w2 Hok2 Hsub2) as Hrec.
    destruct (recordSuccess listText j m res w2) as [u w3] eqn:Hr.
    destruct Hrec as (sub' & Hw3 & Hq3 & Hk & Hst & Hfix' & Hlast). rewrite (bind_run _ _ _ _ _ Hr).
    destruct (commitOrLog w3) as [u' w4] eqn:Hc. specialize (Hcommit w3). rewrite Hc in Hcommit.
    simpl in Hcommit. subst w4. eexists sub1, w1, (Ok res), w2, sub2, sub', _. split; [done|]. simpl.
    do 10 (split; [done|]). split; [naive_solver|]. split; [done|]. rewrite Hw3.
    apply (store_ok_put _ sub2); [done..|apply Hk|done].
  - destruct (reread_good j m sub2 w2 Hsub2) as (w3 & Hr & Hw3 & Hq3). rewrite (bind_run _ _ _ _ _ Hr).
    destruct (setStatus_good sub2 StatusFailed ("execution error: " +:+ errText e) w3 (keeps_stored _ Hfix2) eq_refl)
      as (m' & sub' & w4 & Hset2 & Hk & Hst & _ & _ & Hfix' & Hw4 & Hq4). rewrite (bind_run _ _ _ _ _ Hset2).
    destruct (commitOrLog w4) as [u' w5] eqn:Hc. specialize (Hcommit w4). rewrite Hc in Hcommit.
    simpl in Hcommit. subst w5. eexists sub1, w1, (Err e), w2, sub2, sub', _. split; [done|]. simpl.
    rewrite Hw4, Hw3, Hq4, Hq3, Hid2. do 12 (split; [done|]).
    apply (store_ok_put _ sub2); [done..|apply Hk|done].
Qed.

(** C18: What a job leaves behind. When the store works and the guard lets the
    job through, the executor runs on the submission marked as deploying; then
    the submission is failed if the executor failed, completed after the last
    profile and running otherwise; everything the executor stored about it, the
    results per profile, the final score and the gate's verdict, is kept. *)
Theorem job_outcome j sub w :
  store_ok (w_store w) → w_store w !! j_SubmissionID j = Some sub → jobGuard j sub = Proceed →
  let '(_, w') := processJob execute errText listText j w in
  ∃ sub1 w1 r w2 sub2 sub', keeps sub sub1 ∧ s_Status sub1 = StatusDeploying ∧
    w_store w1 = <[j_SubmissionID j := sub1]> (w_store w) ∧ w_queue w1 = w_queue w ∧
    execute j w1 = (r, w2) ∧ w_store w2 !! j_SubmissionID j = Some sub2 ∧
    w_store w' = <[j_SubmissionID j := sub']> (w_store w2) ∧ w_queue w' = w_queue w2 ∧
    keeps sub2 sub' ∧ s_Status sub' = status_after j r ∧
    (is_ok r = true → IsLastProfile j = true → is_Some (s_CompletedAt sub')).
Proof.
  intros Hok Hsub Hg.
  destruct (processJob_run j sub w Hok Hsub Hg) as (sub1 & w1 & r & w2 & sub2 & sub' & w' & He & Hrest).
  destruct (processJob execute errText listText j w) as [u w'']. simpl in He. subst w''.
  exists sub1, w1, r, w2, sub2, sub'. naive_solver.
Qed.
End worker.

(** ** Instances *)
Abbreviation sample_execute := (@Execute calmEnv _ sample_executor (λ _, "error") (λ _, "") 100) (only parsing).
Abbreviation sample_process :=
  (@processJob calmEnv sample_execute (λ _, "error") (λ _, "profiles")) (only parsing).

Lemma commit_last_witness :
  let '(_, w') := sample_process sample_low sample_world in
  (@env_getFails calmEnv (w_tick sample_world) = true ∨
   w_store sample_world !! j_SubmissionID sample_low = None) ∧
    w_trace w' = w_trace sample_world ∧ w_store w' = w_store sample_world ∨
  ∃ sub l, w_store sample_world !! j_SubmissionID sample_low = Some sub ∧
    w_trace w' = w_trace sample_world ++ l ++ [ACommit] ∧ Forall no_commit l ∧
    (jobGuard sample_low sub = Skip →
     l = [] ∧ w_store w' = w_store sample_world ∧ w_queue w' = w_queue sample_world).
Proof. apply (@commit_last calmEnv sample_execute _). Defined.

Lemma sample_store_ok : store_ok (w_store sample_world).
Proof. intros id sub. cbn [w_store sample_world]. intros [<- <-]%lookup_singleton_Some. by vm_compute. Qed.

Lemma job_outcome_witness :
  let '(_, w') := sample_process sample_low sample_world in
  ∃ sub1 w1 r w2 sub2 sub', keeps sample_pending sub1 ∧ s_Status sub1 = StatusDeploying ∧
    w_store w1 = <[j_SubmissionID sample_low := sub1]> (w_store sample_world) ∧
    w_queue w1 = w_queue sample_world ∧
    sample_execute sample_low w1 = (r, w2) ∧ w_store w2 !! j_SubmissionID sample_low = Some sub2 ∧
    w_store w' = <[j_SubmissionID sample_low := sub']> (w_store w2) ∧ w_queue w' = w_queue w2 ∧
    keeps sub2 sub' ∧ s_Status sub' = status_after sample_low r ∧
    (is_ok r = true → IsLastProfile sample_low = true → is_Some (s_CompletedAt sub')).
Proof.
  apply (@job_outcome calmEnv sample_execute _); [done|done|apply sample_store_ok|done|done].
Defined.

(** A second worker that takes the next job while the first one has not yet
    marked the submission as running commits it without running it. *)
Lemma next_profile_skipped sub j :
  s_Status sub ∈ [StatusDeploying; StatusBenchmarking] → jobGuard j sub = Skip.
Proof.
  unfold jobGuard. intros Hs. cases_in Hs; [..|by apply not_elem_of_nil in Hs];
    by repeat case_bool_decide.
Qed.
