(* ===== verification/ChainTheorems.v ===== *)
(** * ChainTheorems: a submission from its first job to its final score

    When nothing fails around the worker, the jobs of a submission follow one
    another through the queue until the last profile is done
    ([internal/worker]). *)

From S2P Require Import Prelude Models OrderBook Checker Botfleet Stats StatsTheorems Scenarios Validator GoStrings.
From S2P Require Import JsonString Contest Queue Submission SubmissionTheorems Telemetry World Logic Executor.
From S2P Require Import ExecutorTheorems Worker WorkerTheorems.

(** A profile that the fleet accepts. *)
Definition profile_ok (p : VolatilityProfile) : Prop :=
  0 < vp_BotCount p ∧ 0 < vp_TestDuration p ∧
  ratiosValidate (mkRatios (vp_LimitRatio p) (vp_MarketRatio p) (vp_CancelRatio p)) = None.

Definition labels : list string := ["low"; "medium"; "high"].

(** The profiles that the program ships with are accepted. *)
Lemma defaultProfile_ok label : label ∈ labels → profile_ok (defaultProfile label).
Proof.
  intros Hl. cases_in Hl; [..|by apply not_elem_of_nil in Hl];
    by vm_compute.
Qed.

(** Nothing fails: neither the store, the queue, Docker, the container, the
    validation nor the contest's profiles. *)
Record calm `{!Env} (x : SandboxExecutor) (fuel : nat) : Prop := {
  calm_get t : env_getFails t = false;
  calm_update t : env_updateFails t = false;
  calm_enqueue t : env_enqueueFails t = false;
  calm_deploy t sub : is_ok (env_deploy t sub) = true;
  calm_healthy t cid : env_containerHealthy t cid = Ok true;
  calm_http t url : env_httpOK t url = true;
  calm_validate t url id : ∃ v, env_validate t url id = (v, None) ∧ vr_AllPassed v = true;
  calm_profiles t c label p :
    env_activeContest t = Ok c → ProfileByLabel c label = (p, true) → profile_ok p;
  calm_fleet t cfg : times_ok (env_fleet t cfg).1.1;
  calm_hasQueue : x_hasQueue x = true;
  calm_timeout : 0 ≤ x_healthTimeout x;
  calm_fuel : (0 < fuel)%nat
}.

(** What no step of a run changes, and the results so far. *)
Definition identity (sub : Submission) :=
  (s_ID sub, s_TeamName sub, s_Language sub, s_Protocol sub, s_ArchivePath sub, s_ContestID sub).

(** A submission in memory whose identity and results are those on the disk: other texts,
    a message or the name of a container, may lose bytes there. *)
Definition kept (sub : Submission) : Prop :=
  identity (stored sub) = identity sub ∧ s_AllResults (stored sub) = s_AllResults sub.

Lemma kept_stored sub : kept (stored sub).
Proof. unfold kept. by rewrite stored_idemp. Qed.

Lemma stored_kept sub : stored sub = sub → kept sub.
Proof. unfold kept. by intros ->. Qed.

Section chain.
Context `{!Env, !SortSlice} (x : SandboxExecutor).
Context (runErrText : run_error → string) (reasonText : option reason → string) (fuel : nat).
Hypothesis Hcalm : calm x fuel.

Lemma update_run sub w :
  ∃ t w', store_Update sub w = ((None, set_UpdatedAt t sub), w') ∧
    w_store w' = <[s_ID sub := stored (set_UpdatedAt t sub)]> (w_store w) ∧ w_queue w' = w_queue w.
Proof.
  unfold store_Update, Update, Save. run_simpl. rewrite (calm_update _ _ Hcalm). run_simpl.
  do 2 eexists. by split.
Qed.

Lemma get_run id sub w :
  w_store w !! id = Some sub →
  ∃ w', store_Get id w = (Ok sub, w') ∧ w_store w' = w_store w ∧ w_queue w' = w_queue w.
Proof. apply store_Get_good, (calm_get _ _ Hcalm). Qed.

Lemma effect_run {A} (m : M A) w :
  pure_effect m → ∃ a w', m w = (a, w') ∧ w_store w' = w_store w ∧ w_queue w' = w_queue w.
Proof.
  intros Hm. specialize (Hm w). destruct (m w) as [a w'] eqn:E. exists a, w'. split; [done|].
  by injection Hm.
Qed.

Lemma writeDryRun_run sub d w :
  kept sub → w_store w !! s_ID sub = Some (stored sub) →
  ∃ sub' w', writeDryRunResult sub d w = (sub', w') ∧ kept sub' ∧ identity sub' = identity sub ∧
    s_AllResults sub' = s_AllResults sub ∧ w_store w' = <[s_ID sub := stored sub']> (w_store w) ∧
    w_queue w' = w_queue w.
Proof.
  intros [Hi Hr] Hs. unfold writeDryRunResult. destruct (get_run _ _ _ Hs) as (w1 & Hg & Hw1 & Hq1).
  rewrite (bind_run _ _ _ _ _ Hg). cbn zeta iota.
  destruct (update_run (set_DryRunResult (Some d) (stored sub)) w1) as (t & w2 & Hu & Hw2 & Hq2).
  rewrite (bind_run _ _ _ _ _ Hu). do 2 eexists. split; [done|]. split; [exact (kept_stored sub)|].
  split; [exact Hi|]. split; [exact Hr|]. by rewrite Hw2, Hw1, Hq2.
Qed.

Lemma preflight_run sub url j w :
  kept sub → w_store w !! s_ID sub = Some (stored sub) →
  ∃ sub' w', runPreflightValidator x runErrText reasonText sub url j w = ((None, sub'), w') ∧ kept sub' ∧
    identity sub' = identity sub ∧ s_AllResults sub' = s_AllResults sub ∧
    w_store w' = <[s_ID sub := stored sub']> (w_store w) ∧ w_queue w' = w_queue w.
Proof.
  intros Hk Hs.
  assert (Hskip : ∃ sub' w', (mret (None, sub) : M (option exec_error * Submission)) w = ((None, sub'), w') ∧
    kept sub' ∧ identity sub' = identity sub ∧ s_AllResults sub' = s_AllResults sub ∧
    w_store w' = <[s_ID sub := stored sub']> (w_store w) ∧ w_queue w' = w_queue w).
  { exists sub, w. by rewrite insert_id. }
  unfold runPreflightValidator. destruct (negb _); [done|]. case_bool_decide; [done|].
  destruct (negb _); [done|].
  destruct (calm_validate _ _ Hcalm (w_tick w) url (s_ID sub)) as (v & Hv & Hpass).
  assert (∃ w1, validator_Run url (s_ID sub) w = ((v, None), w1) ∧ w_store w1 = w_store w ∧
    w_queue w1 = w_queue w) as (w1 & Hval & Hw1 & Hq1).
  { unfold validator_Run. run_simpl. rewrite Hv. by eexists. }
  rewrite (bind_run _ _ _ _ _ Hval), Hpass. cbn [negb].
  destruct (writeDryRun_run sub (dryRunOf reasonText v "") w1 Hk) as (sub' & w2 & Hd & Hk' & Hi & Hr & Hw2 & Hq2).
  { by rewrite Hw1. }
  rewrite (bind_run _ _ _ _ _ Hd). exists sub', w2. split; [done|]. by rewrite Hw2, Hw1, Hq2, Hq1.
Qed.

Lemma waitHealthy_run cid url w :
  ∃ w', waitHealthy x fuel cid url w = (None, w') ∧ w_store w' = w_store w ∧ w_queue w' = w_queue w.
Proof.
  pose proof (calm_fuel _ _ Hcalm). destruct fuel as [|n]; [lia|].
  unfold waitHealthy. cbn [pollHealthy]. unfold docker_ContainerHealthy, http_OK. run_simpl.
  pose proof (calm_timeout _ _ Hcalm). rewrite (proj2 (Z.ltb_ge _ _)) by lia. run_simpl.
  rewrite (calm_healthy _ _ Hcalm). run_simpl. rewrite (calm_http _ _ Hcalm). run_simpl. by eexists.
Qed.

Lemma resolveProfile_run label w :
  label ∈ labels →
  ∃ p w', resolveProfile x label w = (p, w') ∧ profile_ok p ∧ w_store w' = w_store w ∧
    w_queue w' = w_queue w.
Proof.
  intros Hl. unfold resolveProfile. destruct (negb _ && _).
  - unfold contest_GetActive. run_simpl. do 2 eexists. split; [done|]. split; [|done].
    destruct (env_activeContest (w_tick w)) as [c|] eqn:Hc; [|by apply defaultProfile_ok].
    destruct (ProfileByLabel c label) as [p []] eqn:Hp; [|by apply defaultProfile_ok].
    by apply (calm_profiles _ _ Hcalm _ _ _ _ Hc Hp).
  - do 2 eexists. split; [done|]. split; [by apply defaultProfile_ok|done].
Qed.

Lemma ComputeStats_total rs : times_ok rs → is_Some (ComputeStats rs).
Proof.
  intros Hok. destruct (decide (successes rs = [])) as [Hs|Hs].
  - by rewrite ComputeStats_all_failed.
  - destruct (ComputeStats_spec rs Hok Hs) as (? & ? & ? & ? & ? & ? & -> & _). done.
Qed.

Lemma fleetConfig_ok j url protocol p :
  j_VolatilityLabel j ≠ "" → profile_ok p → url ≠ "" → protocol ∈ ["rest"; "websocket"] →
  NewFleet (fleetConfigFor x j url protocol p) = Ok (fleetConfigFor x j url protocol p).
Proof.
  intros Hl (Hb & Ht & Hr) Hu Hp. unfold NewFleet, fleetConfigFor.
  rewrite bool_decide_eq_false_2 by done. simpl. destruct (Z.ltb_spec 0 (vp_BotCount p)); [|lia].
  unfold fleetValidate, fleetProtocol. simpl. rewrite Hr.
  destruct (Z.ltb_spec (vp_BotCount p) 1); [lia|]. destruct (Z.leb_spec (vp_TestDuration p) 0); [lia|].
  rewrite bool_decide_eq_false_2 by done.
  cases_in Hp; [done|done|by apply not_elem_of_nil in Hp].
Qed.

Lemma runFleet_run j url protocol p w :
  j_VolatilityLabel j ≠ "" → profile_ok p → url ≠ "" → protocol ∈ ["rest"; "websocket"] →
  ∃ fr cr w', runFleet x j url protocol p w = (Ok (fr, cr), w') ∧ w_store w' = w_store w ∧
    w_queue w' = w_queue w.
Proof.
  intros Hl Hok Hu Hp. unfold runFleet. rewrite fleetConfig_ok by done.
  set (cfg := fleetConfigFor _ _ _ _ _).
  pose proof (calm_fleet _ _ Hcalm (w_tick w) cfg) as Hf.
  destruct (env_fleet (w_tick w) cfg) as [[rs t1] t2] eqn:Hrs. cbn [fst] in Hf.
  assert (∃ w1, fleet_Run cfg w = ((rs, t1, t2), w1) ∧ w_store w1 = w_store w ∧ w_queue w1 = w_queue w)
    as (w1 & Hfl & Hw1 & Hq1) by (unfold fleet_Run; run_simpl; rewrite Hrs; by eexists).
  rewrite (bind_run _ _ _ _ _ Hfl). destruct (ComputeStats_total rs Hf) as [st ->].
  destruct (effect_run (emitFleetTelemetry x (j_SubmissionID j) rs) w1) as (u & w2 & Hem & Hw2 & Hq2);
    [apply effect_emit|].
  rewrite (bind_run _ _ _ _ _ Hem). do 3 eexists. split; [done|]. by rewrite Hw2, Hw1, Hq2, Hq1.
Qed.

(** The job of the next profile, if there is one. *)
Definition next_jobs (t : time) (j : Job) (sub : Submission) : list Job :=
  match j_RemainingProfiles j with
  | [] => []
  | label :: rest => [NewProfileJob t sub (j_ContestID j) label rest]
  end.

(** The weights of a contest that was active, or the default ones. *)
Definition proper_weights (ws : float64 * float64 * float64) : Prop :=
  ws = defaultWeights ∨
  x_hasContest x = true ∧ ∃ t c, env_activeContest t = Ok c ∧ ws = (c_LowWeight c, c_MediumWeight c, c_HighWeight c).

Lemma finalWeights_run w :
  ∃ ws w', finalWeights x w = (ws, w') ∧ proper_weights ws ∧ w_store w' = w_store w ∧ w_queue w' = w_queue w.
Proof.
  unfold finalWeights, proper_weights, contest_GetActive. destruct (x_hasContest x); run_simpl.
  - do 2 eexists. split; [done|]. split; [|done].
    destruct (env_activeContest (w_tick w)) as [c|] eqn:Hc; [right; eauto|by left].
  - do 2 eexists. split; [done|]. split; [by left|done].
Qed.

Definition scored (j : Job) (sub : Submission) : Prop :=
  j_RemainingProfiles j = [] → ∃ ws, proper_weights ws ∧ s_FinalScore sub = finalScore ws sub.

Lemma finalScore_keeps ws sub sub' :
  s_AllResults sub' = s_AllResults sub → finalScore ws sub' = finalScore ws sub.
Proof. intros Hr. destruct ws as [[??]?]. unfold finalScore, safeScore, ResultByLabel. by rewrite Hr. Qed.

Lemma NewProfileJob_identity t sub sub' cid label rest :
  identity sub' = identity sub → NewProfileJob t sub' cid label rest = NewProfileJob t sub cid label rest.
Proof. intros Hi. unfold NewProfileJob. by injection Hi as -> -> -> -> -> _. Qed.

(** The results are appended to what is on the disk. *)
Lemma append_run sub res w :
  kept sub → w_store w !! s_ID sub = Some (stored sub) →
  ∃ sub2 w2, appendProfileResult sub res w = ((None, sub2), w2) ∧ s_ID sub2 = s_ID sub ∧
    identity sub2 = identity sub ∧ identity (stored sub2) = identity sub ∧
    s_AllResults (stored sub2) = s_AllResults sub ++ [storedResults res] ∧
    w_store w2 = <[s_ID sub := stored sub2]> (w_store w) ∧ w_queue w2 = w_queue w.
Proof.
  intros [Hi Hr] Hs. destruct (get_run _ _ _ Hs) as (w1 & Hg & Hw1 & Hq1).
  destruct (update_run (set_AllResults (s_AllResults (stored sub) ++ [res]) (stored sub)) w1)
    as (t2 & w2 & Hu & Hw2 & Hq2).
  set (sub2 := set_UpdatedAt t2 _) in *. exists sub2, w2.
  split; [unfold appendProfileResult; rewrite (bind_run _ _ _ _ _ Hg); cbn zeta iota; by rewrite (bind_run _ _ _ _ _ Hu)|].
  split; [done|]. split; [exact Hi|]. split; [transitivity (identity (stored sub)); [exact (proj1 (kept_stored sub))|exact Hi]|].
  split.
  - change (s_AllResults (stored sub2)) with (storedResults <$> (s_AllResults (stored sub) ++ [res])).
    rewrite fmap_app. f_equal. transitivity (s_AllResults (stored sub)); [exact (proj2 (kept_stored sub))|exact Hr].
  - by rewrite Hw2, Hw1, Hq2.
Qed.

Lemma finishProfile_run sub j res w :
  kept sub → w_store w !! s_ID sub = Some (stored sub) →
  ∃ sub' t w', finishProfile x sub j res w = (Ok res, w') ∧ identity sub' = identity sub ∧
    s_AllResults sub' = s_AllResults sub ++ [storedResults res] ∧ scored j sub' ∧
    w_store w' = <[s_ID sub := sub']> (w_store w) ∧ w_queue w' = w_queue w ++ next_jobs t j sub'.
Proof.
  intros Hk Hs. unfold finishProfile.
  destruct (append_run sub res w Hk Hs) as (sub2 & w2 & Ha & Hid2 & Him2 & Hi2 & Hr2 & Hw2 & Hq2).
  rewrite (bind_run _ _ _ _ _ Ha). unfold scored, next_jobs.
  destruct (j_RemainingProfiles j) as [|label rest].
  - assert (Hs2 : w_store w2 !! s_ID sub2 = Some (stored sub2)) by (rewrite Hw2, Hid2, lookup_insert; by rewrite decide_True).
    unfold computeAndWriteFinalScore. destruct (get_run _ _ _ Hs2) as (w3 & Hg3 & Hw3 & Hq3).
    destruct (finalWeights_run w3) as (ws & w4 & Hf & Hpw & Hw4 & Hq4).
    destruct (update_run (set_FinalScore (finalScore ws (stored sub2)) (stored sub2)) w4) as (t5 & w5 & Hu5 & Hw5 & Hq5).
    rewrite (bind_run _ _ w2 () w5).
    2: { rewrite (bind_run _ _ _ _ _ Hg3), (bind_run _ _ _ _ _ Hf). by rewrite (bind_run _ _ _ _ _ Hu5). }
    destruct (kept_stored sub2) as [Hki Hkr].
    eexists (stored (set_UpdatedAt t5 (set_FinalScore (finalScore ws (stored sub2)) (stored sub2)))), 0, w5.
    split; [done|]. split; [rewrite <- Hi2; exact Hki|]. split; [rewrite <- Hr2; exact Hkr|].
    split.
    { intros _. exists ws. split; [done|]. symmetry. apply finalScore_keeps. exact Hkr. }
    rewrite Hw5, Hw4, Hw3, Hw2, Hq5, Hq4, Hq3, Hq2, app_nil_r. split; [|done].
    cbn [s_ID set_FinalScore stored]. rewrite Hid2. apply insert_insert_eq.
  - unfold enqueueNextProfile. rewrite (calm_hasQueue _ _ Hcalm). cbn [negb].
    assert (∃ w3, (t ← now; e ← queue_Enqueue (NewProfileJob t sub2 (j_ContestID j) label rest);
        match e with
        | Some e => sub ← markFailed sub2 ("failed to enqueue next profile " +:+ quoted label +:+ ": " +:+ e);
            mret (Some (ExEnqueue label), sub)
        | None => mret (None, sub2)
        end) w2 = ((None, sub2), w3) ∧ w_store w3 = w_store w2 ∧
      w_queue w3 = w_queue w2 ++ [NewProfileJob (w_now w2) sub2 (j_ContestID j) label rest])
      as (w3 & He & Hw3 & Hq3).
    { unfold queue_Enqueue. run_simpl. rewrite (calm_enqueue _ _ Hcalm). run_simpl. by eexists. }
    rewrite (bind_run _ _ _ _ _ He). exists (stored sub2), (w_now w2), w3. split; [done|].
    do 2 (split; [done|]). split; [done|]. rewrite Hw3, Hq3, Hw2, Hq2. split; [done|].
    by rewrite (NewProfileJob_identity _ sub2 (stored sub2)) by congruence.
Qed.

Lemma targetURL_nonempty protocol host port : targetURLForProtocol protocol host port ≠ "".
Proof. unfold targetURLForProtocol. by case_bool_decide. Qed.

(** What a run leaves behind when it succeeds. *)
Definition ran (j : Job) (sub : Submission) (w : world) (out : result exec_error BenchmarkResults * world)
    : Prop :=
  ∃ res sub' t, out.1 = Ok res ∧ br_VolatilityLabel res = j_VolatilityLabel j ∧
    identity sub' = identity sub ∧ s_AllResults sub' = s_AllResults sub ++ [storedResults res] ∧ scored j sub' ∧
    w_store out.2 = <[s_ID sub := sub']> (w_store w) ∧ w_queue out.2 = w_queue w ++ next_jobs t j sub'.

(** Earlier updates of the same submission do not show. *)
Lemma ran_before j sub sub1 w w1 out :
  s_ID sub1 = s_ID sub → identity sub1 = identity sub → s_AllResults sub1 = s_AllResults sub →
  (w_store w1 = w_store w ∨ ∃ sub0, w_store w1 = <[s_ID sub := sub0]> (w_store w)) → w_queue w1 = w_queue w →
  ran j sub1 w1 out → ran j sub w out.
Proof.
  intros Hid Hi Hr Hw Hq (res & sub' & t & H1 & H2 & H3 & H4 & H5 & H6 & H7).
  exists res, sub', t. rewrite Hr in H4. rewrite Hid in H6. rewrite H3, Hi, <- Hq. do 5 (split; [done|]).
  split; [|done]. rewrite H6. destruct Hw as [->|[sub0 ->]]; [done|]. apply insert_insert_eq.
Qed.

Lemma benchmark_run sub j url w :
  kept sub → j_VolatilityLabel j ∈ labels → s_Protocol sub ∈ ["rest"; "websocket"] → url ≠ "" →
  ran j sub w (benchmark x sub j url w).
Proof.
  intros Hk Hl Hp Hu.
  assert (Hle : j_VolatilityLabel j ≠ "") by (intros He; rewrite He in Hl; unfold labels in Hl; set_solver).
  unfold benchmark.
  destruct (update_run (set_Status StatusBenchmarking "bot fleet running" sub) w) as (t1 & w1 & H1 & Hw1 & Hq1).
  rewrite (bind_run _ _ _ _ _ H1). set (sub1 := set_UpdatedAt t1 _) in *.
  destruct (resolveProfile_run (j_VolatilityLabel j) w1 Hl) as (p & w2 & H2 & Hok & Hw2 & Hq2).
  rewrite (bind_run _ _ _ _ _ H2).
  destruct (runFleet_run j url (s_Protocol sub1) p w2 Hle Hok Hu Hp) as (fr & cr & w3 & H3 & Hw3 & Hq3).
  rewrite (bind_run _ _ _ _ _ H3). rewrite bool_decide_eq_false_2 by done. cbn zeta.
  set (res := buildResults _ _ _ _).
  destruct (finishProfile_run sub1 j res w3 Hk) as (sub' & t & w4 & H4 & Hi & Hr & Hsc & Hw4 & Hq4).
  { rewrite Hw3, Hw2, Hw1. cbn. by rewrite lookup_insert, decide_True. }
  rewrite H4. exists res, sub', t. split; [done|]. split; [done|]. split; [done|]. split; [done|].
  split; [done|]. cbn [snd]. rewrite Hw4, Hq4, Hw3, Hw2, Hw1, Hq3, Hq2, Hq1. split; [|done].
  apply insert_insert_eq.
Qed.

Lemma executeDeployed_run sub j cid port w :
  kept sub → j_VolatilityLabel j ∈ labels → s_Protocol sub ∈ ["rest"; "websocket"] →
  ran j sub w (executeDeployed x runErrText reasonText fuel sub j cid port w).
Proof.
  intros Hk Hl Hp. unfold executeDeployed. cbn zeta.
  set (sub0 := set_Container _ _ _ sub).
  destruct (update_run sub0 w) as (t1 & w1 & H1 & Hw1 & Hq1).
  rewrite (bind_run _ _ _ _ _ H1). set (sub1 := set_UpdatedAt t1 sub0) in *.
  set (url := targetURLForProtocol _ _ _).
  destruct (waitHealthy_run cid url w1) as (w2 & H2 & Hw2 & Hq2). rewrite (bind_run _ _ _ _ _ H2).
  destruct (preflight_run sub1 url j w2 Hk) as (sub3 & w3 & H3 & Hk3 & Hi & Hr & Hw3 & Hq3).
  { rewrite Hw2, Hw1. by rewrite lookup_insert, decide_True. }
  rewrite (bind_run _ _ _ _ _ H3).
  assert (Hid : s_ID sub3 = s_ID sub) by (by injection Hi).
  apply (ran_before j sub sub3 w w3); [done|done|done|right|by rewrite Hq3, Hq2, Hq1|].
  { exists (stored sub3). rewrite Hw3, Hw2, Hw1. apply insert_insert_eq. }
  apply benchmark_run; [done|done| |apply targetURL_nonempty].
  assert (s_Protocol sub3 = s_Protocol sub) as -> by (by injection Hi). done.
Qed.

Lemma Execute_run j sub w :
  kept sub → j_VolatilityLabel j ∈ labels → s_Protocol sub ∈ ["rest"; "websocket"] →
  w_store w !! j_SubmissionID j = Some sub →
  ran j sub w (Execute x runErrText reasonText fuel j w).
Proof.
  intros Hk Hl Hp Hs. unfold Execute.
  assert (Hjob : ∀ w0, w_store w0 = w_store w → w_queue w0 = w_queue w →
    ran j sub w (executeJob x runErrText reasonText fuel j w0)).
  { intros w0 Hw0 Hq0. unfold executeJob. rewrite <- Hw0 in Hs.
    destruct (get_run (j_SubmissionID j) sub w0 Hs) as (w1 & Hg & Hw1 & Hq1).
    rewrite (bind_run _ _ _ _ _ Hg). pose proof (calm_deploy _ _ Hcalm (w_tick w1) sub) as Hd.
    destruct (env_deploy (w_tick w1) sub) as [[cid port]|] eqn:Hdep; [|done].
    assert (∃ w2, docker_Deploy sub w1 = (Ok (cid, port), w2) ∧ w_store w2 = w_store w1 ∧
      w_queue w2 = w_queue w1) as (w2 & H2 & Hw2 & Hq2)
      by (unfold docker_Deploy; run_simpl; rewrite Hdep; by eexists).
    rewrite (bind_run _ _ _ _ _ H2).
    pose proof (executeDeployed_run sub j cid port w2 Hk Hl Hp) as Hran.
    destruct (executeDeployed _ _ _ _ sub j cid port w2) as [r w3] eqn:H3.
    rewrite (bind_run _ _ _ _ _ H3).
    apply (ran_before j sub sub w w2); [done|done|done|left; by rewrite Hw2, Hw1|by rewrite Hq2, Hq1|].
    unfold docker_Stop. run_simpl. destruct Hran as (res & sub' & t & Hres). by exists res, sub', t. }
  run_simpl. set (w0 := mkWorld _ _ _ _ _). specialize (Hjob w0 eq_refl eq_refl).
  destruct (executeJob _ _ _ _ j w0) as [r w1]. destruct Hjob as (res & sub' & t & Hres). by exists res, sub', t.
Qed.

(** ** The worker and its queue *)
Context (errText : exec_error → string) (listText : list string → string).
Abbreviation process := (processJob (Execute x runErrText reasonText fuel) errText listText).
Abbreviation run_queue := (drain (Execute x runErrText reasonText fuel) errText listText).

Definition result_labels (sub : Submission) : list string := br_VolatilityLabel <$> s_AllResults sub.

(** The submission between two jobs. *)
Definition waiting (sub : Submission) : Prop :=
  s_Status sub ∈ [StatusPending; StatusRunning] ∧ s_Protocol sub ∈ ["rest"; "websocket"].

Lemma job_run j sub w :
  j_VolatilityLabel j ∈ labels → waiting sub → store_ok (w_store w) →
  w_store w !! j_SubmissionID j = Some sub →
  ∃ sub' subj t w', process j w = ((), w') ∧ w_store w' = <[j_SubmissionID j := sub']> (w_store w) ∧
    s_ID subj = j_SubmissionID j ∧ w_queue w' = w_queue w ++ next_jobs t j subj ∧
    s_ID sub' = j_SubmissionID j ∧ s_Protocol sub' = s_Protocol sub ∧
    result_labels sub' = result_labels sub ++ [j_VolatilityLabel j] ∧ scored j sub' ∧
    s_Status sub' = (if IsLastProfile j then StatusCompleted else StatusRunning) ∧
    (IsLastProfile j = true → is_Some (s_CompletedAt sub')) ∧ store_ok (w_store w').
Proof.
  intros Hl [Hst Hp] Hok Hsub. destruct (Hok _ _ Hsub) as [Hid _].
  assert (Hg : jobGuard j sub = Proceed).
  { unfold jobGuard. rewrite (bool_decide_eq_false_2 (j_VolatilityLabel j = "")).
    2: { intros He. rewrite He in Hl. unfold labels in Hl. set_solver. }
    cases_in Hst; [done|done|by apply not_elem_of_nil in Hst]. }
  destruct (processJob_run (Execute x runErrText reasonText fuel) errText listText
    (calm_get _ _ Hcalm) (calm_update _ _ Hcalm) j sub w Hok Hsub Hg)
    as (sub1 & w1 & r & w2 & sub2 & sub' & w' & He & Hk1 & _ & Hw1 & Hq1 & Hex & Hs2 & Hw' & Hq' & Hk2 & Hst' & Hc &
        Hfix1 & Hokw).
  destruct Hk1 as (Hi1 & _ & Hp1 & _ & Hr1 & _). destruct Hk2 as (Hi2 & _ & Hp2 & _ & Hr2 & Hf2 & _).
  destruct (Execute_run j sub1 w1 (stored_kept _ Hfix1) Hl) as (res & subj & t & Hres & Hlab & Hij & Hrj & Hsc & Hw2 & Hq2);
    [by rewrite Hp1|by rewrite Hw1, lookup_insert, decide_True|].
  rewrite Hex in Hres, Hw2, Hq2. cbn [fst snd] in *. subst r.
  assert (sub2 = subj) as ->.
  { rewrite Hw2, Hi1, Hid, lookup_insert, decide_True in Hs2 by done. by injection Hs2. }
  exists sub', subj, t, w'. destruct (process j w) as [[] w''] eqn:Hpr. simpl in He. subst w''.
  split; [done|]. rewrite Hw', Hw2, Hw1, Hi1, Hid, !insert_insert_eq in Hokw |- *. split; [done|].
  assert (s_ID subj = j_SubmissionID j) as Hidj by (injection Hij; intros; congruence).
  assert (s_Protocol subj = s_Protocol sub) as Hpj by (injection Hij; intros; congruence).
  split; [done|]. split; [by rewrite Hq', Hq2, Hq1|]. split; [congruence|]. split; [congruence|].
  split.
  { unfold result_labels. rewrite Hr2, Hrj, Hr1, fmap_app. simpl. rewrite Hlab. do 2 f_equal.
    cases_in Hl; [done..|by apply not_elem_of_nil in Hl]. }
  split; [|split; [done|split; [by apply Hc|done]]]. intros Hlast. destruct (Hsc Hlast) as (ws & Hpw & Hws). exists ws. split; [done|].
  rewrite Hf2, Hws. symmetry. by apply finalScore_keeps.
Qed.

Lemma drain_chain n j sub w :
  j_VolatilityLabel j :: j_RemainingProfiles j ⊆ labels → waiting sub → store_ok (w_store w) →
  w_store w !! j_SubmissionID j = Some sub → w_queue w = [j] →
  (length (j_RemainingProfiles j) < n)%nat →
  ∃ sub' w' ws, run_queue n w = ((), w') ∧ w_queue w' = [] ∧
    w_store w' = <[j_SubmissionID j := sub']> (w_store w) ∧ s_Status sub' = StatusCompleted ∧
    result_labels sub' = result_labels sub ++ j_VolatilityLabel j :: j_RemainingProfiles j ∧
    proper_weights ws ∧ s_FinalScore sub' = finalScore ws sub' ∧ is_Some (s_CompletedAt sub').
Proof.
  revert j sub w. induction n as [|n IH]; intros j sub w Hl Hwait Hok Hsub Hq Hn; [lia|]. cbn [drain].
  assert (popJob w = (Some j, mkWorld (w_tick w) (w_now w) (w_store w) [] (w_trace w))) as Hpop
    by (unfold popJob; by rewrite Hq).
  rewrite (bind_run _ _ _ _ _ Hpop). set (w0 := mkWorld _ _ _ _ _).
  destruct (job_run j sub w0) as (sub1 & subj & t & w1 & Hj & Hw1 & Hidj & Hq1 & Hid1 & Hp1 & Hr1 & Hsc & Hst & Hc & Hok1);
    [set_solver|done|done|done|].
  rewrite (bind_run _ _ _ _ _ Hj). simpl in Hq1, Hw1. unfold next_jobs in Hq1.
  unfold IsLastProfile, scored in *. destruct (j_RemainingProfiles j) as [|label rest] eqn:Hrem.
  - rewrite bool_decide_eq_true_2 in Hst, Hc by done. destruct (Hsc eq_refl) as (ws & Hpw & Hws).
    exists sub1, w1, ws. split; [|split; [by rewrite Hq1|]; do 5 (split; [done|]); by apply Hc]. destruct n; [done|]. cbn [drain].
    rewrite (bind_run _ _ _ None w1); [done|]. unfold popJob. by rewrite Hq1.
  - rewrite bool_decide_eq_false_2 in Hst by done.
    destruct (IH (NewProfileJob t subj (j_ContestID j) label rest) sub1 w1)
      as (sub2 & w2 & ws & Hd & Hq2 & Hw2 & Hst2 & Hr2 & Hf & Hcomp); simpl.
    + set_solver.
    + split; [rewrite Hst; set_solver|]. rewrite Hp1. apply Hwait.
    + exact Hok1.
    + by rewrite Hidj, Hw1, lookup_insert, decide_True.
    + done.
    + simpl in Hn. lia.
    + exists sub2, w2, ws. split; [done|]. split; [done|]. simpl in Hw2, Hr2.
      rewrite Hw2, Hw1, Hidj, insert_insert_eq. split; [done|]. split; [done|].
      split; [|done]. by rewrite Hr2, Hr1, <- app_assoc.
Qed.

(** C2: A submission reaches its final score. When nothing fails around the
    worker, then from the first job that an upload to a contest queues, the
    worker runs the low, the medium and the high profile, each once and in this
    order, every run queueing the next; the queue ends up empty, the submission
    completed with exactly these three results, and its final score is the
    weighted sum of their run scores. Three jobs are enough. *)
Theorem profile_chain n sub cid t w :
  store_ok (w_store w) → w_store w !! s_ID sub = Some sub → s_Status sub = StatusPending →
  s_AllResults sub = [] → s_Protocol sub ∈ ["rest"; "websocket"] → cid ≠ "" →
  w_queue w = [firstJob t sub cid] → (3 ≤ n)%nat →
  ∃ sub' w' ws, run_queue n w = ((), w') ∧ w_queue w' = [] ∧
    w_store w' = <[s_ID sub := sub']> (w_store w) ∧ s_Status sub' = StatusCompleted ∧
    result_labels sub' = ["low"; "medium"; "high"] ∧
    proper_weights ws ∧ s_FinalScore sub' = finalScore ws sub' ∧ is_Some (s_CompletedAt sub').
Proof.
  intros Hok Hsub Hst Hr Hp Hcid Hq Hn. unfold firstJob in Hq.
  rewrite bool_decide_eq_false_2 in Hq by done.
  assert (result_labels sub = []) as Hnil by (unfold result_labels; by rewrite Hr).
  destruct (drain_chain n (NewProfileJob t sub cid "low" ["medium"; "high"]) sub w)
    as (sub' & w' & ws & H1 & H2 & H3 & H4 & H5 & H6); try done.
  - split; [rewrite Hst; set_solver|done].
  - exists sub', w', ws. rewrite Hnil in H5. done.
Qed.
End chain.

Lemma sample_calm : @calm calmEnv sample_executor 100.
Proof.
  split; try done; [|lia].
  intros t url id. by exists (mkValidation id [] true 0).
Qed.

Lemma profile_chain_witness :
  ∃ sub' w' ws, @drain calmEnv sample_execute (λ _, "error") (λ _, "profiles") 3 sample_world = ((), w') ∧
    w_queue w' = [] ∧ w_store w' = <[s_ID sample_pending := sub']> (w_store sample_world) ∧
    s_Status sub' = StatusCompleted ∧ result_labels sub' = ["low"; "medium"; "high"] ∧
    @proper_weights calmEnv sample_executor ws ∧
    s_FinalScore sub' = finalScore ws sub' ∧ is_Some (s_CompletedAt sub').
Proof.
  apply (@profile_chain calmEnv _ sample_executor (λ _, "error") (λ _, "") 100 sample_calm _ _ 3
    sample_pending "c1" 0); try done; [apply sample_store_ok|set_solver].
Defined.
