(* ===== verification/Bytes.v ===== *)
(** * Bytes: bytes, big-endian integers, SHA-1 and base64

    The parts of Go's standard library that the WebSocket transport uses:
    [byte], [encoding/binary.BigEndian], [crypto/sha1] and [encoding/base64].
    A byte is a [Z] below 256, a [string] the list of its bytes. *)

From S2P Require Import Prelude.

#[local] Ltac Zify.zify_post_hook ::= Z.to_euclidean_division_equations.

(** ** Bytes *)
Definition is_byte (b : Z) : Prop := 0 ≤ b < 256.

(** The conversion [byte(x)]. *)
Definition to_byte (x : Z) : Z := x mod 256.

#[export] Instance is_byte_dec b : Decision (is_byte b).
Proof. unfold is_byte. apply _. Defined.

Lemma to_byte_range x : is_byte (to_byte x).
Proof. unfold is_byte, to_byte. lia. Qed.

Lemma to_byte_id b : is_byte b → to_byte b = b.
Proof. unfold is_byte, to_byte. intros. lia. Qed.

(** A property of bytes that evaluates to [true] on all 256 of them holds. *)
Lemma byte_all (P : Z → bool) : forallb P (seqZ 0 256) = true → ∀ b, is_byte b → P b = true.
Proof.
  rewrite forallb_forall. intros HP b Hb. apply HP. apply list_elem_of_In, elem_of_seqZ.
  unfold is_byte in Hb. lia.
Qed.

Lemma lxor_byte a b : is_byte a → is_byte b → is_byte (Z.lxor a b).
Proof.
  unfold is_byte. intros Ha Hb. assert (0 ≤ Z.lxor a b) by (apply Z.lxor_nonneg; lia).
  split; [done|]. destruct (decide (Z.lxor a b = 0)) as [->|]; [lia|].
  apply (Z.log2_lt_pow2 _ 8); [lia|]. eapply Z.le_lt_trans; [apply Z.log2_lxor; lia|].
  assert (Hlog : ∀ x, 0 ≤ x < 256 → Z.log2 x < 8).
  { intros x Hx. destruct (decide (x = 0)) as [->|]; [done|]. apply Z.log2_lt_pow2; lia. }
  pose proof (Hlog _ Ha). pose proof (Hlog _ Hb). lia.
Qed.

Lemma lxor_cancel a b : Z.lxor (Z.lxor a b) b = a.
Proof. by rewrite Z.lxor_assoc, Z.lxor_nilpotent, Z.lxor_0_r. Qed.

(** ** encoding/binary: big-endian integers *)
(** The [n] low bytes of [v], the most significant first. *)
Fixpoint be_bytes (n : nat) (v : Z) : list Z :=
  match n with O => [] | S n => be_bytes n (v / 256) ++ [to_byte v] end.

Definition be_value (l : list Z) : Z := foldl (λ v b, 256 * v + b) 0 l.

Lemma be_bytes_length n v : length (be_bytes n v) = n.
Proof. revert v. induction n as [|n IH]; intros v; simpl; [done|]. rewrite length_app, IH. simpl. lia. Qed.

Lemma be_bytes_range n v : Forall is_byte (be_bytes n v).
Proof.
  revert v. induction n as [|n IH]; intros v; simpl; [constructor|].
  apply Forall_app. split; [done|]. repeat constructor; apply to_byte_range.
Qed.

Lemma be_value_snoc l b : be_value (l ++ [b]) = 256 * be_value l + b.
Proof. unfold be_value. by rewrite foldl_snoc. Qed.

Lemma be_value_bytes n v : be_value (be_bytes n v) = v mod 256 ^ Z.of_nat n.
Proof.
  revert v. induction n as [|n IH]; intros v; [by rewrite Z.mod_1_r|].
  simpl be_bytes. rewrite be_value_snoc, IH, Nat2Z.inj_succ, Z.pow_succ_r by lia.
  unfold to_byte. rewrite Z.rem_mul_r by lia. lia.
Qed.

Lemma be_value_range l : Forall is_byte l → 0 ≤ be_value l < 256 ^ Z.of_nat (length l).
Proof.
  induction l as [|b l IH] using rev_ind; intros Hl; [by vm_compute|].
  apply Forall_app in Hl as [Hl Hb]. apply Forall_cons in Hb as [Hb _]. specialize (IH Hl).
  rewrite be_value_snoc, length_app. simpl length. rewrite Nat2Z.inj_add, Z.pow_add_r by lia.
  unfold is_byte in Hb. change (256 ^ Z.of_nat 1) with 256.
  generalize dependent (256 ^ Z.of_nat (length l)). intros p ?. nia.
Qed.

Lemma be_bytes_value l : Forall is_byte l → be_bytes (length l) (be_value l) = l.
Proof.
  induction l as [|b l IH] using rev_ind; intros Hl; [done|].
  apply Forall_app in Hl as [Hl Hb]. apply Forall_cons in Hb as [Hb _].
  rewrite length_app, Nat.add_comm. simpl. rewrite be_value_snoc.
  unfold is_byte, to_byte in *.
  replace ((256 * be_value l + b) / 256) with (be_value l) by lia.
  rewrite IH by done. do 2 f_equal. lia.
Qed.

#[global] Arguments be_bytes : simpl never.
#[global] Arguments be_value : simpl never.

(** ** Strings as bytes *)
Definition bytes_of (s : string) : list Z := Z.of_N ∘ Ascii.N_of_ascii <$> String.list_ascii_of_string s.

Definition string_of (l : list Z) : string :=
  String.string_of_list_ascii (Ascii.ascii_of_N ∘ Z.to_N <$> l).

Lemma bytes_of_range s : Forall is_byte (bytes_of s).
Proof.
  unfold bytes_of. apply Forall_fmap, Forall_true. intros c. simpl.
  pose proof (Ascii.N_ascii_bounded c). unfold is_byte. lia.
Qed.

Lemma string_of_bytes_of s : string_of (bytes_of s) = s.
Proof.
  unfold string_of, bytes_of. rewrite <- list_fmap_compose.
  rewrite <- (String.string_of_list_ascii_of_string s) at 2. f_equal.
  rewrite <- (list_fmap_id (String.list_ascii_of_string s)) at 2.
  apply list_fmap_ext. intros i c _. simpl. by rewrite N2Z.id, Ascii.ascii_N_embedding.
Qed.

(** ** encoding/base64: [StdEncoding.EncodeToString] *)
Definition base64_alphabet : string :=
  "ABCDEFGHIJKLMNOPQRSTUVWXYZabcdefghijklmnopqrstuvwxyz0123456789+/".

Definition base64_digit (n : Z) : Ascii.ascii :=
  match String.get (Z.to_nat n) base64_alphabet with Some c => c | None => Ascii.ascii_of_N 0 end.

Fixpoint base64 (l : list Z) : string :=
  match l with
  | [] => ""
  | [a] =>
      let n := 65536 * a in
      String (base64_digit (n / 262144)) (String (base64_digit (n / 4096 mod 64)) "==")
  | [a; b] =>
      let n := 65536 * a + 256 * b in
      String (base64_digit (n / 262144)) (String (base64_digit (n / 4096 mod 64))
        (String (base64_digit (n / 64 mod 64)) "="))
  | a :: b :: c :: l =>
      let n := 65536 * a + 256 * b + c in
      String (base64_digit (n / 262144)) (String (base64_digit (n / 4096 mod 64))
        (String (base64_digit (n / 64 mod 64)) (String (base64_digit (n mod 64)) (base64 l))))
  end.

Example base64_vectors :
  base64 (bytes_of "f") = "Zg==" ∧ base64 (bytes_of "fo") = "Zm8=" ∧
  base64 (bytes_of "foobar") = "Zm9vYmFy".
Proof. by vm_compute. Qed.

(** ** crypto/sha1 (FIPS 180-4) *)
Definition u32 (x : Z) : Z := Z.land x 4294967295.
Definition rotl32 (n x : Z) : Z := Z.lor (u32 (Z.shiftl x n)) (Z.shiftr x (32 - n)).
Definition not32 (x : Z) : Z := 4294967295 - x.

Record sha1_state := mkSha1 { h0 : Z; h1 : Z; h2 : Z; h3 : Z; h4 : Z }.

Definition sha1_init : sha1_state :=
  mkSha1 1732584193 4023233417 2562383102 271733878 3285377520.

(** The message followed by 1, zeros and its length in bits, in blocks of 64. *)
Definition sha1_pad (m : list Z) : list Z :=
  m ++ [128] ++ repeat 0 (Z.to_nat ((55 - Z.of_nat (length m)) mod 64)) ++
  be_bytes 8 (8 * Z.of_nat (length m)).

Fixpoint chunks (n fuel : nat) (l : list Z) : list (list Z) :=
  match fuel, l with
  | S fuel, _ :: _ => take n l :: chunks n fuel (drop n l)
  | _, _ => []
  end.

(** The schedule, newest word first. *)
Fixpoint sha1_extend (n : nat) (w : list Z) : list Z :=
  match n with
  | O => w
  | S n =>
      let x := Z.lxor (Z.lxor (nth 2 w 0) (nth 7 w 0)) (Z.lxor (nth 13 w 0) (nth 15 w 0)) in
      sha1_extend n (rotl32 1 x :: w)
  end.

Definition sha1_round (st : sha1_state) (tw : nat * Z) : sha1_state :=
  let '(t, w) := tw in let '(mkSha1 a b c d e) := st in
  let '(f, k) :=
    if (t <? 20)%nat then (Z.lor (Z.land b c) (Z.land (not32 b) d), 1518500249)
    else if (t <? 40)%nat then (Z.lxor (Z.lxor b c) d, 1859775393)
    else if (t <? 60)%nat
    then (Z.lor (Z.lor (Z.land b c) (Z.land b d)) (Z.land c d), 2400959708)
    else (Z.lxor (Z.lxor b c) d, 3395469782) in
  mkSha1 (u32 (rotl32 5 a + f + e + k + w)) a (rotl32 30 b) c d.

Definition sha1_block (st : sha1_state) (block : list Z) : sha1_state :=
  let w := rev (sha1_extend 64 (rev (be_value <$> chunks 4 16 block))) in
  let s := foldl sha1_round st (zip (seq 0 80) w) in
  mkSha1 (u32 (h0 st + h0 s)) (u32 (h1 st + h1 s)) (u32 (h2 st + h2 s))
    (u32 (h3 st + h3 s)) (u32 (h4 st + h4 s)).

Definition sha1 (m : list Z) : list Z :=
  let p := sha1_pad m in
  let s := foldl sha1_block sha1_init (chunks 64 (length p) p) in
  mjoin (be_bytes 4 <$> [h0 s; h1 s; h2 s; h3 s; h4 s]).

Example sha1_vector :
  be_value (sha1 (bytes_of "abc")) = 0xa9993e364706816aba3e25717850c26c9cd0d89d.
Proof. by vm_compute. Qed.
