(* ===== verification/WebSocket.v ===== *)
(** * WebSocket: the bot transport over a WebSocket connection
    ([internal/botfleet/websocket.go], and [closeOnce] of [bot.go])

    A connection is the list of bytes that have arrived and were not read yet,
    the bytes written, and whether it is closed. Operations are in [W], a state
    and error monad over it. A read that finds too few bytes fails, as it does at
    the end of the stream or when the deadline passes, and has consumed what was
    there. [WsEnv] decides what the operating system answers. JSON, URLs and the
    HTTP response of the upgrade are parsed by functions that are arguments. *)

From S2P Require Import Prelude Models Bytes Botfleet.

Definition wsGUID : string := "258EAFA5-E914-47DA-95CA-C5AB0DC85B11".
Definition wsOpcodeText : Z := 1.
Definition wsOpcodePing : Z := 9.
Definition wsOpcodePong : Z := 10.
Definition wsOpcodeClose : Z := 8.
Definition wsSendTimeout : duration := 5 * Second.

(** The largest size [make] allocates on the platform; it panics above it. *)
Definition maxAlloc : Z := 2 ^ 48.

Inductive ws_error :=
| WsParseURL (url : string)
| WsScheme (scheme : string)
| WsDial (host : string)
| WsNonce
| WsSendUpgrade
| WsReadUpgrade
| WsStatus (code : Z)
| WsUpgradeHeader
| WsAcceptMismatch
| WsSetDeadline
| WsMarshal (e : string)
| WsMaskKey
| WsWrite
| WsHeader0
| WsHeader1
| WsLength16
| WsLength64
| WsReadMaskKey
| WsReadPayload (plen : Z)
| WsPong (e : ws_error)
| WsServerClosed
| WsOpcode (opcode : Z)
| WsDecode
| WsPanic
| WsOutOfFuel.

Record conn := mkConn { cn_in : list Z; cn_out : list Z; cn_tick : nat; cn_closed : bool }.

Definition set_in (l : list Z) (c : conn) : conn := mkConn l (cn_out c) (cn_tick c) (cn_closed c).
Definition add_out (l : list Z) (c : conn) : conn :=
  mkConn (cn_in c) (cn_out c ++ l) (S (cn_tick c)) (cn_closed c).
Definition next_tick (c : conn) : conn := mkConn (cn_in c) (cn_out c) (S (cn_tick c)) (cn_closed c).

(** Bytes that arrive from the server. *)
Definition arrive (l : list Z) (c : conn) : conn := set_in (cn_in c ++ l) c.

(** What the system answers to the [t]-th call: [env_random] the bytes that
    [io.ReadFull(rand.Reader, ...)] puts into a buffer of [n], [env_writeCut] the
    number of bytes written when a write fails. *)
Class WsEnv : Type := {
  env_random : nat → nat → option (list Z);
  env_random_ok t n k : env_random t n = Some k → length k = n ∧ Forall is_byte k;
  env_writeCut : nat → option nat;
  env_deadlineFails : nat → bool;
  env_closeErr : nat → option string
}.

Definition W (A : Type) : Type := conn → result ws_error A * conn.

#[export] Instance W_ret : MRet W := λ A a c, (Ok a, c).
#[export] Instance W_bind : MBind W := λ A B k m c,
  match m c with (Ok a, c) => k a c | (Err e, c) => (Err e, c) end.

Definition ws_fail {A} (e : ws_error) : W A := λ c, (Err e, c).

(** [fmt.Errorf("...: %w", err)]. *)
Definition ws_wrap {A} (f : ws_error → ws_error) (m : W A) : W A := λ c,
  match m c with (Ok a, c) => (Ok a, c) | (Err e, c) => (Err (f e), c) end.

Section connection.
Context `{!WsEnv}.

Definition ws_random (n : nat) (e : ws_error) : W (list Z) := λ c,
  match env_random (cn_tick c) n with
  | Some k => (Ok k, next_tick c)
  | None => (Err e, next_tick c)
  end.

Definition conn_Write (l : list Z) (e : ws_error) : W unit := λ c,
  if cn_closed c then (Err e, next_tick c)
  else match env_writeCut (cn_tick c) with
       | Some n => (Err e, add_out (take n l) c)
       | None => (Ok (), add_out l c)
       end.

Definition conn_SetDeadline : W unit := λ c,
  if cn_closed c || env_deadlineFails (cn_tick c) then (Err WsSetDeadline, next_tick c)
  else (Ok (), next_tick c).

Definition conn_Close (c : conn) : option string * conn :=
  (env_closeErr (cn_tick c), mkConn (cn_in c) (cn_out c) (S (cn_tick c)) true).

(** [io.ReadFull(t.reader, buf)] with a buffer of [n] bytes, and [ReadByte]. *)
Definition readFull (n : Z) (e : ws_error) : W (list Z) := λ c,
  if Z.of_nat (length (cn_in c)) <? n then (Err e, set_in [] c)
  else (Ok (take (Z.to_nat n) (cn_in c)), set_in (drop (Z.to_nat n) (cn_in c)) c).

Definition readByte (e : ws_error) : W Z := λ c,
  match cn_in c with
  | [] => (Err e, c)
  | b :: l => (Ok b, set_in l c)
  end.

(** ** Frames *)
(** [b ^ maskKey\[i%4\]] for each index. *)
Definition maskBytes (key payload : list Z) : list Z :=
  imap (λ i b, Z.lxor b (nth (i mod 4) key 0)) payload.

Definition frameHeader (opcode plen : Z) : list Z :=
  [Z.lor 128 opcode] ++
  (if plen <=? 125 then [to_byte (Z.lor 128 plen)]
   else if plen <=? 65535
   then [Z.lor 128 126; to_byte (Z.shiftr plen 8); to_byte plen]
   else [Z.lor 128 127] ++ be_bytes 8 plen).

Definition writeFrame (opcode : Z) (payload : list Z) : W unit :=
  maskKey ← ws_random 4 WsMaskKey;
  let header := frameHeader opcode (Z.of_nat (length payload)) ++ maskKey in
  conn_Write (header ++ maskBytes maskKey payload) WsWrite.

(** [plen] after the extended length. The conversion [int(uint64)] wraps. *)
Definition readLength (plen : Z) : W Z :=
  if plen =? 126 then ext ← readFull 2 WsLength16; mret (be_value ext)
  else if plen =? 127 then ext ← readFull 8 WsLength64; mret (i64 (be_value ext))
  else mret plen.

Definition readFrame : W (list Z * Z) :=
  b0 ← readByte WsHeader0;
  let opcode := Z.land b0 15 in
  b1 ← readByte WsHeader1;
  let masked := negb (Z.land b1 128 =? 0) in
  plen ← readLength (Z.land b1 127);
  maskKey ← (if masked then readFull 4 WsReadMaskKey else mret [0; 0; 0; 0]);
  if (plen <? 0) || (maxAlloc <? plen) then ws_fail WsPanic
  else
    payload ← readFull plen (WsReadPayload plen);
    mret (if masked then maskBytes maskKey payload else payload, opcode).

Fixpoint readFrames (fuel : nat) : W (list Z) :=
  match fuel with
  | O => ws_fail WsOutOfFuel
  | S fuel =>
      '(payload, opcode) ← readFrame;
      if (opcode =? wsOpcodeText) || (opcode =? 2) then mret payload
      else if opcode =? wsOpcodePing then
        _ ← ws_wrap WsPong (writeFrame wsOpcodePong payload);
        readFrames fuel
      else if opcode =? wsOpcodeClose then ws_fail WsServerClosed
      else ws_fail (WsOpcode opcode)
  end.

(** The loop, with a frame's worth of fuel for every byte that has arrived. *)
Definition readDataFrame : W (list Z) := λ c, readFrames (S (length (cn_in c))) c.

(** ** Send and Close *)
Context (marshalOrder : Order → result string (list Z)) (decodeFill : list Z → option Fill).

Definition ws_Send (o : Order) : W Fill :=
  _ ← conn_SetDeadline;
  match marshalOrder o with
  | Err e => ws_fail (WsMarshal e)
  | Ok payload =>
      _ ← writeFrame wsOpcodeText payload;
      fillPayload ← readDataFrame;
      match decodeFill fillPayload with
      | None => ws_fail WsDecode
      | Some fill => mret fill
      end
  end.

Record closeOnce := mkCloseOnce { co_done : bool; co_err : option string }.
Record WebSocketTransport := mkWebSocket { t_conn : conn; t_closer : closeOnce }.

Definition ws_Close (t : WebSocketTransport) : option string * WebSocketTransport :=
  if co_done (t_closer t) then (co_err (t_closer t), t)
  else let '(e, c) := conn_Close (t_conn t) in (e, mkWebSocket c (mkCloseOnce true e)).

(** ** The handshake *)
Definition computeAccept (key : string) : string := base64 (sha1 (bytes_of (key +:+ wsGUID))).

Record URL := mkURL { u_Scheme : string; u_Host : string; u_RequestURI : string }.
Record response := mkResponse { rs_StatusCode : Z; rs_Header : string → string }.

Context (parseURL : string → option URL) (dial : string → option conn)
        (readResponse : list Z → option (response * list Z)).

Fixpoint ContainsColon (s : string) : bool :=
  match s with
  | EmptyString => false
  | String c s => bool_decide (c = Ascii.ascii_of_N 58) || ContainsColon s
  end.

(** The address to dial, with the default port of the scheme. *)
Definition dialHost (u : URL) : string :=
  if ContainsColon (u_Host u) then u_Host u
  else if bool_decide (u_Scheme u = "wss") then u_Host u +:+ ":443"
  else u_Host u +:+ ":80".

Definition crlf : string := string_of [13; 10].

Definition upgradeRequest (path host key : string) : string :=
  "GET " +:+ path +:+ " HTTP/1.1" +:+ crlf +:+
  "Host: " +:+ host +:+ crlf +:+
  "Upgrade: websocket" +:+ crlf +:+
  "Connection: Upgrade" +:+ crlf +:+
  "Sec-WebSocket-Key: " +:+ key +:+ crlf +:+
  "Sec-WebSocket-Version: 13" +:+ crlf +:+ crlf.

(** [strings.EqualFold] with a text of lower-case letters: a byte counts as its
    lower case, and the long s and the Kelvin sign as the letters they fold to. *)
Fixpoint fold_case (l : list Z) : list Z :=
  match l with
  | 197 :: 191 :: l => 115 :: fold_case l
  | 226 :: 132 :: 170 :: l => 107 :: fold_case l
  | b :: l => (if (65 <=? b) && (b <=? 90) then b + 32 else b) :: fold_case l
  | [] => []
  end.
Definition EqualFold (s lower : string) : bool := bool_decide (fold_case (bytes_of s) = bytes_of lower).

(** A failure after the dial closes the connection. *)
Definition closeWith {A} (e : ws_error) : W A := λ c, (Err e, (conn_Close c).2).

Definition orClose {A} (m : W A) : W A := λ c,
  match m c with (Ok a, c) => (Ok a, c) | (Err e, c) => closeWith e c end.

Definition readUpgrade : W response := λ c,
  match readResponse (cn_in c) with
  | None => (Err WsReadUpgrade, c)
  | Some (resp, rest) => (Ok resp, set_in rest c)
  end.

Definition upgrade (u : URL) : W unit :=
  let path := if bool_decide (u_RequestURI u = "") then "/" else u_RequestURI u in
  nonce ← orClose (ws_random 16 WsNonce);
  let key := base64 nonce in
  let expectedAccept := computeAccept key in
  _ ← orClose (conn_Write (bytes_of (upgradeRequest path (u_Host u) key)) WsSendUpgrade);
  resp ← orClose readUpgrade;
  if negb (rs_StatusCode resp =? 101) then closeWith (WsStatus (rs_StatusCode resp))
  else if negb (EqualFold (rs_Header resp "Upgrade") "websocket") then closeWith WsUpgradeHeader
  else if negb (bool_decide (rs_Header resp "Sec-WebSocket-Accept" = expectedAccept))
  then closeWith WsAcceptMismatch
  else mret ().

(** The transport, or an error with the connection it dialed, if any. *)
Definition NewWebSocketTransport (rawURL : string)
    : WebSocketTransport + ws_error * option conn :=
  match parseURL rawURL with
  | None => inr (WsParseURL rawURL, None)
  | Some u =>
      let host := dialHost u in
      if negb (bool_decide (u_Scheme u = "ws")) then inr (WsScheme (u_Scheme u), None)
      else match dial host with
      | None => inr (WsDial host, None)
      | Some c =>
          match upgrade u c with
          | (Ok _, c) => inl (mkWebSocket c (mkCloseOnce false None))
          | (Err e, c) => inr (e, Some c)
          end
      end
  end.
End connection.

(** The example of RFC 6455, section 1.3. *)
Example computeAccept_rfc6455 :
  computeAccept "dGhlIHNhbXBsZSBub25jZQ==" = "s3pPLMBiTxaQ9kYGzzhZRbK+xOo=".
Proof. by vm_compute. Qed.

Example EqualFold_examples :
  EqualFold "WebSocket" "websocket" = true ∧ EqualFold "websockets" "websocket" = false.
Proof. by vm_compute. Qed.
