(* ===== verification/WebSocketTheorems.v ===== *)
(** * WebSocketTheorems: frames on the wire, exchanges and the handshake

    [frame] has the parts of a frame of RFC 6455. [server_frame] are the frames a server
    may send by the RFC, [accepted_frame] those that [readFrame] takes, which are more;
    [writeFrame] produces one. From there: pings are answered and skipped, reading ends,
    [Send] is one exchange, and a failed handshake leaves no connection open. *)

From S2P Require Import Prelude Models Bytes Botfleet WebSocket.

#[local] Ltac Zify.zify_post_hook ::= Z.to_euclidean_division_equations.

(** ** The grammar of a frame *)
Inductive length_form := Len7 | Len16 | Len64.

(** [fr_flags] are the four high bits of the first byte, FIN first. *)
Record frame := mkFrame {
  fr_flags : Z; fr_opcode : Z; fr_key : option (list Z); fr_form : length_form;
  fr_payload : list Z
}.

(** The seven low bits of the second byte, and the bytes that extend them. *)
Definition short_length (form : length_form) (n : Z) : Z :=
  match form with Len7 => n | Len16 => 126 | Len64 => 127 end.
Definition extended_length (form : length_form) (n : Z) : list Z :=
  match form with Len7 => [] | Len16 => be_bytes 2 n | Len64 => be_bytes 8 n end.

Definition frame_body (f : frame) : list Z :=
  match fr_key f with Some k => k ++ maskBytes k (fr_payload f) | None => fr_payload f end.

Definition encode_frame (f : frame) : list Z :=
  let n := Z.of_nat (length (fr_payload f)) in
  (16 * fr_flags f + fr_opcode f) ::
  (match fr_key f with Some _ => 128 | None => 0 end + short_length (fr_form f) n) ::
  extended_length (fr_form f) n ++ frame_body f.

#[local] Arguments encode_frame : simpl never.

Definition form_ok (form : length_form) (n : Z) : Prop :=
  match form with Len7 => n ≤ 125 | Len16 => n < 65536 | Len64 => n ≤ maxAlloc end.

(** What [readFrame] takes: reserved bits, unused opcodes, lengths that are not minimal,
    long or fragmented control frames and masked frames included. [maxAlloc] is a bound
    of the platform. *)
Record accepted_frame (f : frame) : Prop := {
  af_flags : 0 ≤ fr_flags f < 16;
  af_opcode : 0 ≤ fr_opcode f < 16;
  af_key k : fr_key f = Some k → length k = 4%nat ∧ Forall is_byte k;
  af_payload : Forall is_byte (fr_payload f);
  af_form : form_ok (fr_form f) (Z.of_nat (length (fr_payload f)))
}.

Definition minimal_form (n : Z) : length_form :=
  if n <=? 125 then Len7 else if n <=? 65535 then Len16 else Len64.

(** RFC 6455, sections 5.1, 5.2 and 5.5: a frame from a server, with no extension agreed.
    The reserved bits are zero, the opcode is a defined one, there is no mask, the length
    takes the fewest bytes and is less than 2^63, and a control frame is not fragmented
    and has at most 125 bytes. *)
Record server_frame (f : frame) : Prop := {
  sf_reserved : fr_flags f = 0 ∨ fr_flags f = 8;
  sf_opcode : fr_opcode f ∈ [0; 1; 2; 8; 9; 10];
  sf_unmasked : fr_key f = None;
  sf_minimal : fr_form f = minimal_form (Z.of_nat (length (fr_payload f)));
  sf_length : Z.of_nat (length (fr_payload f)) < 2 ^ 63;
  sf_control : 8 ≤ fr_opcode f → fr_flags f = 8 ∧ Z.of_nat (length (fr_payload f)) ≤ 125;
  sf_payload : Forall is_byte (fr_payload f)
}.

Lemma server_frame_accepted f :
  server_frame f → Z.of_nat (length (fr_payload f)) ≤ maxAlloc → accepted_frame f.
Proof.
  intros [Hr Ho Hk Hm _ _ Hp] Hn. split; [lia| | |done|].
  - rewrite !elem_of_cons, elem_of_nil in Ho. lia.
  - by rewrite Hk.
  - rewrite Hm. unfold minimal_form. repeat case Z.leb_spec; intros; simpl; lia.
Qed.

(** ** Bits of a byte *)
Lemma land_byte b : is_byte b →
  Z.land b 15 = b mod 16 ∧ Z.land b 127 = b mod 128 ∧ (Z.land b 128 =? 0) = (b <? 128).
Proof.
  intros Hb. split; [|split].
  - apply (Z.land_ones b 4). lia.
  - apply (Z.land_ones b 7). lia.
  - apply eqb_prop, (byte_all (λ b, eqb (Z.land b 128 =? 0) (b <? 128))); [by vm_compute|done].
Qed.

Lemma lor_128 n : 0 ≤ n < 128 → Z.lor 128 n = 128 + n.
Proof.
  intros Hn. apply Z.eqb_eq.
  assert (Hall : ∀ b, is_byte b → (128 <=? b) || (Z.lor 128 b =? 128 + b) = true).
  { apply byte_all. by vm_compute. }
  specialize (Hall n). apply orb_true_iff in Hall as [Hle|]; [lia|done|]. unfold is_byte. lia.
Qed.

(** ** Masking *)
Lemma maskBytes_length k p : length (maskBytes k p) = length p.
Proof. apply length_imap. Qed.

Lemma maskBytes_involutive k p : maskBytes k (maskBytes k p) = p.
Proof.
  apply list_eq. intros i. unfold maskBytes. rewrite !list_lookup_imap.
  destruct (p !! i); simpl; [|done]. by rewrite lxor_cancel.
Qed.

Lemma nth_byte k i : Forall is_byte k → is_byte (nth i k 0).
Proof.
  intros Hk. revert i. induction Hk as [|b k Hb Hk IH]; intros [|i]; simpl; try done.
Qed.

Lemma maskBytes_bytes k p : Forall is_byte k → Forall is_byte p → Forall is_byte (maskBytes k p).
Proof.
  intros Hk Hp. apply Forall_lookup. intros i x. unfold maskBytes. rewrite list_lookup_imap.
  destruct (p !! i) as [b|] eqn:E; simpl; [|done]. intros [= <-].
  apply lxor_byte; [|by apply nth_byte]. by eapply Forall_lookup_1.
Qed.

(** ** Reading *)
Lemma set_in_set_in l l' c : set_in l (set_in l' c) = set_in l c.
Proof. done. Qed.

Lemma set_in_id c : set_in (cn_in c) c = c.
Proof. by destruct c. Qed.

Section theorems.
Context `{!WsEnv}.

(** Running a bind whose first action is known. *)
Lemma W_bind_ok {A B} (m : W A) (k : A → W B) c a c' :
  m c = (Ok a, c') → mbind k m c = k a c'.
Proof. unfold mbind, W_bind. by intros ->. Qed.

Lemma W_bind_inv {A B} (m : W A) (k : A → W B) c b c' :
  mbind k m c = (Ok b, c') → ∃ a c1, m c = (Ok a, c1) ∧ k a c1 = (Ok b, c').
Proof. unfold mbind, W_bind. destruct (m c) as [[a|e] c1]; [eauto|done]. Qed.

Lemma readFull_app e l rest c :
  cn_in c = l ++ rest → readFull (Z.of_nat (length l)) e c = (Ok l, set_in rest c).
Proof.
  intros Hc. unfold readFull. rewrite Hc, length_app.
  replace (_ <? _) with false by (symmetry; apply Z.ltb_ge; lia).
  by rewrite Nat2Z.id, take_app_length, drop_app_length.
Qed.

Lemma readFull_inv n e c l c' : 0 ≤ n → readFull n e c = (Ok l, c') →
  Z.of_nat (length l) = n ∧ cn_in c = l ++ cn_in c' ∧ c' = set_in (cn_in c') c.
Proof.
  unfold readFull. intros Hn. destruct (Z.ltb_spec (Z.of_nat (length (cn_in c))) n); [done|].
  intros [= <- <-]. simpl. rewrite take_drop, length_take. split; [lia|done].
Qed.

Lemma readByte_cons e b rest c : cn_in c = b :: rest → readByte e c = (Ok b, set_in rest c).
Proof. unfold readByte. by intros ->. Qed.

Lemma readByte_inv e c b c' : readByte e c = (Ok b, c') →
  cn_in c = b :: cn_in c' ∧ c' = set_in (cn_in c') c.
Proof. unfold readByte. destruct (cn_in c); [done|]. by intros [= <- <-]. Qed.

Lemma readLength_ok form n rest c :
  form_ok form n → 0 ≤ n → cn_in c = extended_length form n ++ rest →
  readLength (short_length form n) c = (Ok n, set_in rest c).
Proof.
  intros Hok Hn Hc. destruct form; simpl in *.
  - unfold readLength. rewrite !(proj2 (Z.eqb_neq _ _)) by lia. by rewrite <- Hc, set_in_id.
  - unfold readLength. rewrite Z.eqb_refl.
    rewrite (W_bind_ok _ _ _ _ _ (readFull_app WsLength16 (be_bytes 2 n) rest c Hc)).
    rewrite be_value_bytes, Z.mod_small; [done|]. simpl. lia.
  - unfold readLength. simpl.
    rewrite (W_bind_ok _ _ _ _ _ (readFull_app WsLength64 (be_bytes 8 n) rest c Hc)).
    unfold maxAlloc in Hok. rewrite be_value_bytes, Z.mod_small, i64_id; [done| |].
    + solve_int64.
    + simpl. lia.
Qed.

Lemma readLength_inv s n c c' :
  Forall is_byte (cn_in c) → 0 ≤ s < 128 → readLength s c = (Ok n, c') → 0 ≤ n ≤ maxAlloc →
  ∃ form, s = short_length form n ∧ form_ok form n ∧
    cn_in c = extended_length form n ++ cn_in c' ∧ c' = set_in (cn_in c') c.
Proof.
  intros Hb Hs. unfold readLength.
  destruct (Z.eqb_spec s 126) as [->|]; [|destruct (Z.eqb_spec s 127) as [->|]].
  - intros (ext & c1 & Hr & [= <- <-])%W_bind_inv Hn.
    apply readFull_inv in Hr as (Hlen & Hin & Hc1); [|lia].
    assert (He : Forall is_byte ext) by (rewrite Hin in Hb; by apply Forall_app in Hb as []).
    assert (length ext = 2%nat) as Hl by lia. pose proof (be_value_range ext He) as Hv.
    exists Len16. cbn [short_length extended_length form_ok]. rewrite Hl in Hv. change (256 ^ Z.of_nat 2) with 65536 in Hv.
    rewrite <- Hl, be_bytes_value by done. repeat split; [lia|done|done].
  - intros (ext & c1 & Hr & [= <- <-])%W_bind_inv Hn.
    apply readFull_inv in Hr as (Hlen & Hin & Hc1); [|lia].
    assert (He : Forall is_byte ext) by (rewrite Hin in Hb; by apply Forall_app in Hb as []).
    assert (length ext = 8%nat) as Hl by lia. pose proof (be_value_range ext He) as Hv.
    assert (i64 (be_value ext) = be_value ext) as Hi.
    { rewrite Hl in Hv. change (256 ^ Z.of_nat 8) with (2 ^ 64) in Hv.
      unfold i64 in *. lia. }
    exists Len64. cbn [short_length extended_length form_ok]. rewrite Hi in *. rewrite <- Hl, be_bytes_value by done.
    repeat split; [lia|done|done].
  - intros [= <- <-] Hn. exists Len7. simpl. rewrite set_in_id. repeat split; lia.
Qed.

(** The four bytes of the key of a masked frame, none otherwise. *)
Lemma read_key_ok f rest c :
  accepted_frame f → cn_in c = frame_body f ++ rest →
  ∃ k raw, (if (match fr_key f with Some _ => true | None => false end : bool)
            then readFull 4 WsReadMaskKey else mret [0; 0; 0; 0]) c = (Ok k, set_in (raw ++ rest) c) ∧
    length raw = length (fr_payload f) ∧
    (if (match fr_key f with Some _ => true | None => false end : bool) then maskBytes k raw else raw)
    = fr_payload f.
Proof.
  intros Hwf Hc. unfold frame_body in Hc. destruct (fr_key f) as [k|] eqn:Ek.
  - destruct (af_key f Hwf k Ek) as [Hl _]. rewrite <- app_assoc in Hc.
    exists k, (maskBytes k (fr_payload f)). change 4 with (Z.of_nat 4). rewrite <- Hl.
    rewrite (readFull_app _ k _ c Hc), maskBytes_length, maskBytes_involutive. done.
  - exists [0; 0; 0; 0], (fr_payload f). rewrite <- Hc, set_in_id. done.
Qed.

Lemma readFrame_ok f rest c :
  accepted_frame f → cn_in c = encode_frame f ++ rest →
  readFrame c = (Ok (fr_payload f, fr_opcode f), set_in rest c).
Proof.
  intros Hwf Hc. pose proof Hwf as [Hfl Hop _ _ Hform]. unfold encode_frame in Hc.
  set (n := Z.of_nat (length (fr_payload f))) in *.
  set (m := match fr_key f with Some _ => 128 | None => 0 end) in *.
  assert (Hs : 0 ≤ short_length (fr_form f) n < 128).
  { destruct (fr_form f); simpl in *; unfold n in *; lia. }
  assert (Hm : m = 128 ∨ m = 0) by (unfold m; destruct (fr_key f); auto).
  destruct (land_byte (16 * fr_flags f + fr_opcode f)) as (H15 & _ & _); [unfold is_byte; lia|].
  destruct (land_byte (m + short_length (fr_form f) n)) as (_ & H127 & H128); [unfold is_byte; lia|].
  simpl in Hc. rewrite <- app_assoc in Hc. unfold readFrame.
  erewrite W_bind_ok by (by apply readByte_cons). erewrite W_bind_ok by (by apply readByte_cons).
  rewrite H15, H127, H128.
  replace ((m + short_length (fr_form f) n) mod 128) with (short_length (fr_form f) n) by lia.
  erewrite W_bind_ok by (apply readLength_ok; [done|lia|done]).
  replace (negb (m + short_length (fr_form f) n <? 128))
    with (match fr_key f with Some _ => true | None => false end)
    by (unfold m; destruct (fr_key f); case Z.ltb_spec; first [done | lia]).
  destruct (read_key_ok f rest (set_in (frame_body f ++ rest) c) Hwf eq_refl)
    as (k & raw & Hk & Hl & Hp).
  erewrite W_bind_ok by done.
  replace ((n <? 0) || (maxAlloc <? n)) with false.
  2: { symmetry. apply orb_false_iff. rewrite !Z.ltb_ge.
       assert (0 ≤ n) by (unfold n; lia).
       destruct (fr_form f); simpl in Hform; unfold maxAlloc in *; lia. }
  unfold n. rewrite <- Hl.
  erewrite W_bind_ok by (by apply readFull_app).
  rewrite Hp. unfold mret, W_ret. do 3 f_equal. lia.
Qed.

Lemma read_key_inv (b : bool) k c c' : Forall is_byte (cn_in c) →
  (if b then readFull 4 WsReadMaskKey else mret [0; 0; 0; 0]) c = (Ok k, c') →
  length k = 4%nat ∧ Forall is_byte k ∧ c' = set_in (cn_in c') c ∧
  cn_in c = (if b then k else []) ++ cn_in c'.
Proof.
  intros Hb. destruct b.
  - intros Hr. apply readFull_inv in Hr as (Hl & Hin & Hc'); [|lia]. rewrite Hin in Hb.
    apply Forall_app in Hb as [Hk _]. split; [lia|]. by rewrite Hin.
  - intros [= <- <-]. rewrite set_in_id. repeat split; repeat constructor; done.
Qed.

Lemma readFrame_inv c p op c' :
  Forall is_byte (cn_in c) → readFrame c = (Ok (p, op), c') →
  ∃ f, accepted_frame f ∧ cn_in c = encode_frame f ++ cn_in c' ∧
    fr_payload f = p ∧ fr_opcode f = op ∧ c' = set_in (cn_in c') c.
Proof.
  intros Hb. unfold readFrame. intros (b0 & c0 & Hr0 & Hrun)%W_bind_inv.
  apply readByte_inv in Hr0 as [Hi0 Hc0]. rewrite Hi0 in Hb. apply Forall_cons in Hb as [Hb0 Hb].
  apply W_bind_inv in Hrun as (b1 & c1 & Hr1 & Hrun).
  apply readByte_inv in Hr1 as [Hi1 Hc1]. rewrite Hi1 in Hb. apply Forall_cons in Hb as [Hb1 Hb].
  apply W_bind_inv in Hrun as (plen & c2 & Hr2 & Hrun). apply W_bind_inv in Hrun as (k & c3 & Hr3 & Hrun).
  destruct ((plen <? 0) || (maxAlloc <? plen)) eqn:E; [done|].
  apply orb_false_iff in E as [E1%Z.ltb_ge E2%Z.ltb_ge].
  destruct (land_byte b0 Hb0) as (H15 & _ & _), (land_byte b1 Hb1) as (_ & H127 & H128).
  rewrite H127 in Hr2. rewrite H128 in Hrun, Hr3. clear H127 H128. unfold is_byte in Hb0, Hb1.
  apply readLength_inv in Hr2 as (form & Hs & Hok & Hi2 & Hc2); [|done|lia|lia].
  rewrite Hi2 in Hb. apply Forall_app in Hb as [_ Hb].
  apply read_key_inv in Hr3 as (Hkl & Hkb & Hc3 & Hi3); [|done].
  rewrite Hi3 in Hb. apply Forall_app in Hb as [_ Hb].
  apply W_bind_inv in Hrun as (raw & c4 & Hr4 & Hrun). apply readFull_inv in Hr4 as (Hl & Hi4 & Hc4); [|done].
  rewrite Hi4 in Hb. apply Forall_app in Hb as [Hraw Hb].
  injection Hrun as <- <- <-.
  exists (mkFrame (b0 / 16) (b0 mod 16) (if b1 <? 128 then None else Some k) form
            (if negb (b1 <? 128) then maskBytes k raw else raw)).
  assert (Hplen : Z.of_nat (length (if negb (b1 <? 128) then maskBytes k raw else raw)) = plen).
  { rewrite <- Hl. destruct (negb _); by rewrite ?maskBytes_length. }
  split; [|split; [|split; [|split]]]; simpl.
  - split; simpl; [lia|lia| | |by rewrite Hplen].
    + intros k'. destruct (b1 <? 128); [done|]. by intros [= <-].
    + destruct (negb _); auto using maskBytes_bytes.
  - unfold encode_frame, frame_body. simpl. rewrite Hplen, Hi0, Hi1, Hi2, Hi3, Hi4.
    rewrite <- !app_assoc. f_equal; [lia|].
    destruct (Z.ltb_spec b1 128); simpl; rewrite ?maskBytes_involutive, <- ?app_assoc;
      f_equal; lia.
  - done.
  - done.
  - rewrite Hc4, Hc3, Hc2, Hc1, Hc0. done.
Qed.

(** ** Writing *)
(** The frame a client sends: final, masked, in the shortest form. *)
Definition client_frame (k : list Z) (op : Z) (p : list Z) : frame :=
  mkFrame 8 op (Some k) (minimal_form (Z.of_nat (length p))) p.

Definition sendable (op : Z) (p : list Z) : Prop :=
  0 ≤ op < 16 ∧ Forall is_byte p ∧ Z.of_nat (length p) ≤ maxAlloc.

Lemma client_frame_accepted k op p :
  sendable op p → length k = 4%nat → Forall is_byte k → accepted_frame (client_frame k op p).
Proof.
  intros (Hop & Hp & Hn) Hl Hk. split; simpl; [lia|done| |done|].
  - intros k'. by intros [= <-].
  - unfold minimal_form. repeat case Z.leb_spec; intros; simpl; lia.
Qed.

Lemma frameHeader_client op (p : list Z) : 0 ≤ op < 16 → Z.of_nat (length p) ≤ maxAlloc →
  frameHeader op (Z.of_nat (length p)) =
  (16 * 8 + op) :: (128 + short_length (minimal_form (Z.of_nat (length p))) (Z.of_nat (length p))) ::
  extended_length (minimal_form (Z.of_nat (length p))) (Z.of_nat (length p)).
Proof.
  intros Hop Hn. unfold frameHeader, minimal_form. rewrite lor_128 by lia.
  repeat case Z.leb_spec; intros; cbn [short_length extended_length app]; try done.
  - rewrite lor_128 by lia. by rewrite to_byte_id by (unfold is_byte; lia).
  - by rewrite Z.shiftr_div_pow2 by lia.
Qed.

Lemma client_frame_encode k op (p : list Z) : 0 ≤ op < 16 → Z.of_nat (length p) ≤ maxAlloc →
  (frameHeader op (Z.of_nat (length p)) ++ k) ++ maskBytes k p = encode_frame (client_frame k op p).
Proof.
  intros Hop Hn. rewrite frameHeader_client by done. unfold encode_frame, frame_body. simpl.
  by rewrite <- !app_assoc.
Qed.

(** A write that succeeds has put the encoding of one frame on the wire, a write
    that fails a part of it. *)
Lemma writeFrame_inv op p c r c' : sendable op p → writeFrame op p c = (r, c') →
  cn_in c' = cn_in c ∧ cn_closed c' = cn_closed c ∧
  match r with
  | Ok _ => ∃ k, length k = 4%nat ∧ Forall is_byte k ∧
                 cn_out c' = cn_out c ++ encode_frame (client_frame k op p)
  | Err e => (e = WsMaskKey ∨ e = WsWrite) ∧ ∃ k n,
                 cn_out c' = cn_out c ++ take n (encode_frame (client_frame k op p))
  end.
Proof.
  intros (Hop & Hp & Hn). unfold writeFrame, ws_random, mbind, W_bind.
  destruct (env_random (cn_tick c) 4) as [k|] eqn:Ek; cbv beta iota zeta.
  - apply env_random_ok in Ek as [Hl Hk]. rewrite client_frame_encode by done.
    unfold conn_Write. simpl. destruct (cn_closed c) eqn:Ec.
    + intros [= <- <-]. simpl. rewrite Ec. split_and!; auto. exists k, 0%nat. simpl. by rewrite app_nil_r.
    + destruct (env_writeCut _) as [n|]; intros [= <- <-]; simpl; rewrite Ec; eauto 10.
  - intros [= <- <-]. simpl. split_and!; auto. exists [], 0%nat. simpl. by rewrite app_nil_r.
Qed.

Lemma encode_frame_bytes f : accepted_frame f → Forall is_byte (encode_frame f).
Proof.
  intros [Hfl Hop Hk Hp Hf]. unfold encode_frame.
  set (n := Z.of_nat (length (fr_payload f))) in *.
  assert (0 ≤ short_length (fr_form f) n < 128) by (destruct (fr_form f); simpl in *; unfold n in *; lia).
  repeat constructor; unfold is_byte; [lia|lia|destruct (fr_key f); lia|destruct (fr_key f); lia|].
  apply Forall_app. split.
  - destruct (fr_form f); simpl; [constructor|apply be_bytes_range|apply be_bytes_range].
  - unfold frame_body. destruct (fr_key f) as [k|]; [|done].
    destruct (Hk k eq_refl) as [_ Hkb]. apply Forall_app. auto using maskBytes_bytes.
Qed.

(** ** Reading data frames *)
Record steady : Prop := {
  steady_random t n : is_Some (env_random t n);
  steady_write t : env_writeCut t = None;
  steady_deadline t : env_deadlineFails t = false
}.

Lemma accepted_sendable f op : accepted_frame f → 0 ≤ op < 16 → sendable op (fr_payload f).
Proof.
  intros [_ _ _ Hp Hf] Hop. split_and!; [lia|lia|done|].
  unfold maxAlloc. destruct (fr_form f); simpl in Hf; unfold maxAlloc in *; lia.
Qed.

Lemma writeFrame_steady op p c : steady → cn_closed c = false → sendable op p →
  ∃ k c', writeFrame op p c = (Ok (), c') ∧ length k = 4%nat ∧ Forall is_byte k ∧
    cn_in c' = cn_in c ∧ cn_closed c' = false ∧
    cn_out c' = cn_out c ++ encode_frame (client_frame k op p).
Proof.
  intros [Hr Hw _] Hcl Hs. destruct (writeFrame op p c) as [r c'] eqn:E.
  pose proof (writeFrame_inv _ _ _ _ _ Hs E) as (Hin & Hcl' & Hout).
  assert (is_ok r = true) as Hok.
  { revert E. unfold writeFrame, ws_random, mbind, W_bind, conn_Write.
    destruct (Hr (cn_tick c) 4%nat) as [k ->]. cbv beta iota zeta. unfold next_tick. simpl.
    rewrite Hcl, Hw. by intros [= <- <-]. }
  destruct r as [[]|e]; [|done]. destruct Hout as (k & Hl & Hk & Hout).
  exists k, c'. rewrite Hcl'. done.
Qed.

(** The pongs that answer [pings] under the masking keys [keys]. *)
Definition pongs (keys : list (list Z)) (pings : list frame) : list Z :=
  mjoin (zip_with (λ k f, encode_frame (client_frame k wsOpcodePong (fr_payload f))) keys pings).

Definition is_ping (f : frame) : Prop := accepted_frame f ∧ fr_opcode f = wsOpcodePing.
Definition is_data (f : frame) : Prop := accepted_frame f ∧ (fr_opcode f = wsOpcodeText ∨ fr_opcode f = 2).

Lemma encode_frame_length f : (2 ≤ length (encode_frame f))%nat.
Proof. unfold encode_frame. simpl. lia. Qed.

Lemma readFrames_pings pings f rest fuel c :
  steady → cn_closed c = false → Forall is_ping pings → is_data f →
  (length pings < fuel)%nat →
  cn_in c = mjoin (encode_frame <$> pings) ++ encode_frame f ++ rest →
  ∃ keys c', readFrames fuel c = (Ok (fr_payload f), c') ∧ length keys = length pings ∧
    cn_in c' = rest ∧ cn_closed c' = false ∧ cn_out c' = cn_out c ++ pongs keys pings.
Proof.
  intros Hst Hcl Hp [Hf Hop]. revert fuel c Hcl.
  induction Hp as [|g pings [Hg Hgop] Hp IH]; intros fuel c Hcl Hfuel Hc;
    (destruct fuel as [|fuel]; [simpl in Hfuel; lia|]); simpl in Hc; cbn [readFrames].
  - rewrite (W_bind_ok _ _ _ _ _ (readFrame_ok f rest c Hf Hc)). cbv beta iota.
    exists [], (set_in rest c). split_and!; try done; [|simpl; by rewrite app_nil_r].
    by destruct Hop as [-> | ->].
  - rewrite <- app_assoc in Hc. rewrite (W_bind_ok _ _ _ _ _ (readFrame_ok g _ c Hg Hc)).
    cbv beta iota. rewrite Hgop. simpl.
    set (c1 := set_in _ c).
    destruct (writeFrame_steady wsOpcodePong (fr_payload g) c1 Hst Hcl)
      as (k & c2 & Hw & _ & _ & Hin2 & Hcl2 & Hout2).
    { apply accepted_sendable; [done|unfold wsOpcodePong; lia]. }
    erewrite W_bind_ok by (unfold ws_wrap; by rewrite Hw).
    destruct (IH fuel c2 Hcl2) as (keys & c3 & Hr & Hl & Hin3 & Hcl3 & Hout3).
    { simpl in Hfuel. lia. }
    { by rewrite Hin2. }
    exists (k :: keys), c3. split_and!; [done|by simpl; rewrite Hl|done|done|].
    rewrite Hout3, Hout2. by rewrite <- app_assoc.
Qed.

Lemma mjoin_frames_length pings : (length pings ≤ length (mjoin (encode_frame <$> pings)))%nat.
Proof.
  induction pings as [|f pings IH]; [simpl; lia|].
  change (mjoin (encode_frame <$> f :: pings)) with (encode_frame f ++ mjoin (encode_frame <$> pings)).
  rewrite length_app. cbn [length]. pose proof (encode_frame_length f). lia.
Qed.

Lemma readDataFrame_pings pings f rest c :
  steady → cn_closed c = false → Forall is_ping pings → is_data f →
  cn_in c = mjoin (encode_frame <$> pings) ++ encode_frame f ++ rest →
  ∃ keys c', readDataFrame c = (Ok (fr_payload f), c') ∧ length keys = length pings ∧
    cn_in c' = rest ∧ cn_closed c' = false ∧ cn_out c' = cn_out c ++ pongs keys pings.
Proof.
  intros Hst Hcl Hp Hf Hc. unfold readDataFrame.
  eapply readFrames_pings; [done|done|done|done| |done].
  rewrite Hc, length_app. pose proof (mjoin_frames_length pings). lia.
Qed.

(** ** Reading ends *)
Definition read_error (e : ws_error) : Prop :=
  match e with
  | WsHeader0 | WsHeader1 | WsLength16 | WsLength64 | WsReadMaskKey | WsReadPayload _ | WsPanic => True
  | _ => False
  end.

Lemma readFull_err n e c e' c' : readFull n e c = (Err e', c') → e' = e.
Proof. unfold readFull. case_match; congruence. Qed.

Lemma readByte_err e c e' c' : readByte e c = (Err e', c') → e' = e.
Proof. unfold readByte. case_match; congruence. Qed.

Lemma W_bind_err {A B} (m : W A) (k : A → W B) c e c' :
  mbind k m c = (Err e, c') →
  m c = (Err e, c') ∨ ∃ a c1, m c = (Ok a, c1) ∧ k a c1 = (Err e, c').
Proof. unfold mbind, W_bind. destruct (m c) as [[a|e'] c1]; [eauto|]. intros [= -> ->]. auto. Qed.

Lemma readLength_err s c e c' : readLength s c = (Err e, c') → read_error e.
Proof.
  unfold readLength. repeat case_match; try done;
    intros [->%readFull_err|(? & ? & _ & [=])]%W_bind_err; done.
Qed.

Lemma readFrame_err c e c' : readFrame c = (Err e, c') → read_error e.
Proof.
  unfold readFrame.
  intros [->%readByte_err|(b0 & c0 & _ & Hr)]%W_bind_err; [done|].
  apply W_bind_err in Hr as [->%readByte_err|(b1 & c1 & _ & Hr)]; [done|].
  apply W_bind_err in Hr as [?%readLength_err|(n & c2 & _ & Hr)]; [done|].
  apply W_bind_err in Hr as [Hr|(k & c3 & _ & Hr)].
  { destruct (negb _); [by apply readFull_err in Hr as ->|done]. }
  destruct (_ || _); [by injection Hr as <- <-|].
  by apply W_bind_err in Hr as [->%readFull_err|(raw & c4 & _ & [=])].
Qed.

(** The loop has enough fuel: every frame it skips takes two bytes or more. *)
Lemma readFrames_fuel fuel c r c' :
  Forall is_byte (cn_in c) → (length (cn_in c) < fuel)%nat →
  readFrames fuel c = (r, c') → r ≠ Err WsOutOfFuel.
Proof.
  revert c. induction fuel as [|fuel IH]; intros c Hb Hfuel; [lia|]. cbn [readFrames].
  unfold mbind at 1, W_bind at 1. destruct (readFrame c) as [[[p op]|e] c1] eqn:Er.
  2: { apply readFrame_err in Er. intros [= <- <-] [= ->]. done. }
  pose proof (readFrame_inv _ _ _ _ Hb Er) as (f & Hf & Hin & <- & <- & _).
  pose proof (encode_frame_length f) as Hlen.
  destruct (_ || _); [by intros [= <- <-]|].
  destruct (_ =? _); [|destruct (_ =? _); by intros [= <- <-]].
  unfold mbind, W_bind, ws_wrap. destruct (writeFrame _ _ c1) as [[[]|e] c2] eqn:Ew.
  2: { by intros [= <- <-]. }
  apply writeFrame_inv in Ew as (Hin2 & _ & _).
  2: { apply accepted_sendable; [done|unfold wsOpcodePong; lia]. }
  apply IH.
  - rewrite Hin2. rewrite Hin in Hb. by apply Forall_app in Hb as [].
  - rewrite Hin2. rewrite Hin, length_app in Hfuel. lia.
Qed.

(** ** Send *)
Section send.
Context (marshalOrder : Order → result string (list Z)) (decodeFill : list Z → option Fill).

(** [f] carries the fill [fill]. *)
Definition answers (f : frame) (fill : Fill) : Prop := is_data f ∧ decodeFill (fr_payload f) = Some fill.

Lemma ws_Send_ok o payload pings f fill rest c :
  steady → cn_closed c = false → marshalOrder o = Ok payload → sendable wsOpcodeText payload →
  Forall is_ping pings → answers f fill →
  cn_in c = mjoin (encode_frame <$> pings) ++ encode_frame f ++ rest →
  ∃ k keys c', ws_Send marshalOrder decodeFill o c = (Ok fill, c') ∧
    cn_in c' = rest ∧ cn_closed c' = false ∧
    cn_out c' = cn_out c ++ encode_frame (client_frame k wsOpcodeText payload) ++ pongs keys pings.
Proof.
  intros Hst Hcl Hm Hs Hp [Hf Hd] Hc. unfold ws_Send.
  erewrite W_bind_ok by (unfold conn_SetDeadline; by rewrite Hcl, (steady_deadline Hst)).
  rewrite Hm.
  destruct (writeFrame_steady wsOpcodeText payload (next_tick c) Hst Hcl Hs)
    as (k & c1 & Hw & _ & _ & Hin1 & Hcl1 & Hout1).
  erewrite W_bind_ok by done.
  destruct (readDataFrame_pings pings f rest c1 Hst Hcl1 Hp Hf) as (keys & c2 & Hr & _ & Hin2 & Hcl2 & Hout2).
  { by rewrite Hin1. }
  erewrite W_bind_ok by done. rewrite Hd. exists k, keys, c2. split_and!; try done.
  rewrite Hout2, Hout1. by rewrite <- app_assoc.
Qed.

(** Nothing has arrived when the deadline passes. *)
Lemma ws_Send_timeout o payload c :
  steady → cn_closed c = false → marshalOrder o = Ok payload → sendable wsOpcodeText payload →
  cn_in c = [] →
  ∃ c', ws_Send marshalOrder decodeFill o c = (Err WsHeader0, c') ∧ cn_in c' = [] ∧ cn_closed c' = false.
Proof.
  intros Hst Hcl Hm Hs Hc. unfold ws_Send.
  erewrite W_bind_ok by (unfold conn_SetDeadline; by rewrite Hcl, (steady_deadline Hst)).
  rewrite Hm.
  destruct (writeFrame_steady wsOpcodeText payload (next_tick c) Hst Hcl Hs)
    as (k & c1 & Hw & _ & _ & Hin1 & Hcl1 & Hout1).
  erewrite W_bind_ok by done. exists c1. simpl in Hin1.
  unfold readDataFrame. rewrite Hin1, Hc. cbn [length readFrames].
  unfold mbind, W_bind, readFrame, readByte, mbind, W_bind. rewrite Hin1, Hc. split_and!; congruence.
Qed.

(** Orders one after the other, each with the bytes that arrive during it. *)
Fixpoint ws_sends (rounds : list (Order * list Z)) : conn → list (result ws_error Fill) * conn :=
  λ c, match rounds with
  | [] => ([], c)
  | (o, bytes) :: rounds =>
      let '(r, c) := ws_Send marshalOrder decodeFill o (arrive bytes c) in
      let '(rs, c) := ws_sends rounds c in (r :: rs, c)
  end.

Lemma ws_sends_ok rounds fills c :
  steady → cn_closed c = false → cn_in c = [] →
  Forall (λ r, ∃ p, marshalOrder r.1 = Ok p ∧ sendable wsOpcodeText p) rounds →
  Forall2 (λ r fill, ∃ f, r.2 = encode_frame f ∧ answers f fill) rounds fills →
  ∃ c', ws_sends rounds c = (Ok <$> fills, c') ∧ cn_in c' = [] ∧ cn_closed c' = false.
Proof.
  intros Hst Hcl Hc Hr Hf. revert c Hcl Hc.
  induction Hf as [|[o bytes] fill rounds fills (f & Hb & Hans) _ IH]; intros c Hcl Hc; [by exists c|].
  apply Forall_cons in Hr as [(p & Hm & Hs) Hr]. simpl in *. subst bytes.
  destruct (ws_Send_ok o p [] f fill [] (arrive (encode_frame f) c) Hst Hcl Hm Hs)
    as (k & keys & c1 & Hsend & Hin1 & Hcl1 & _); [constructor|done| |].
  { simpl. by rewrite Hc, app_nil_r. }
  rewrite Hsend. destruct (IH Hr c1 Hcl1 Hin1) as (c2 & -> & Hin2 & Hcl2). by exists c2.
Qed.

(** A length of 64 bits with the top bit set becomes a negative [int]. *)
Lemma readFrame_negative_length b0 ext rest c :
  Forall is_byte ext → length ext = 8%nat → 2 ^ 63 ≤ be_value ext →
  cn_in c = b0 :: 127 :: ext ++ rest → readFrame c = (Err WsPanic, set_in rest c).
Proof.
  intros He Hl Hv Hc. pose proof (be_value_range ext He) as Hr. rewrite Hl in Hr.
  change (256 ^ Z.of_nat 8) with (2 ^ 64) in Hr. unfold readFrame.
  erewrite W_bind_ok by (by apply readByte_cons). erewrite W_bind_ok by (by apply readByte_cons).
  change (Z.land 127 128 =? 0) with true. change (Z.land 127 127) with 127. simpl negb.
  assert (i64 (be_value ext) < 0) as Hneg by (unfold i64; lia).
  erewrite W_bind_ok.
  2: { unfold readLength. simpl. erewrite W_bind_ok; [done|].
       change 8 with (Z.of_nat 8). rewrite <- Hl. by apply readFull_app. }
  erewrite W_bind_ok by done.
  by replace (i64 (be_value ext) <? 0) with true by (symmetry; by apply Z.ltb_lt).
Qed.

Lemma ws_Send_negative_length o payload b0 ext rest c :
  steady → cn_closed c = false → marshalOrder o = Ok payload → sendable wsOpcodeText payload →
  Forall is_byte ext → length ext = 8%nat → 2 ^ 63 ≤ be_value ext →
  cn_in c = b0 :: 127 :: ext ++ rest →
  (ws_Send marshalOrder decodeFill o c).1 = Err WsPanic.
Proof.
  intros Hst Hcl Hm Hs He Hl Hv Hc. unfold ws_Send.
  erewrite W_bind_ok by (unfold conn_SetDeadline; by rewrite Hcl, (steady_deadline Hst)).
  rewrite Hm.
  destruct (writeFrame_steady wsOpcodeText payload (next_tick c) Hst Hcl Hs)
    as (k & c1 & Hw & _ & _ & Hin1 & Hcl1 & Hout1).
  erewrite W_bind_ok by done. simpl in Hin1. rewrite Hc in Hin1.
  unfold readDataFrame. cbn [readFrames].
  unfold mbind, W_bind. by rewrite (readFrame_negative_length _ _ _ _ He Hl Hv Hin1).
Qed.
End send.

(** ** The handshake *)
Section handshake.
Context (parseURL : string → option URL) (dial : string → option conn)
        (readResponse : list Z → option (response * list Z)).

(** What a server must answer to a client that sent [key]. *)
Record accepts (key : string) (resp : response) : Prop := {
  acc_status : rs_StatusCode resp = 101;
  acc_upgrade : EqualFold (rs_Header resp "Upgrade") "websocket" = true;
  acc_accept : rs_Header resp "Sec-WebSocket-Accept" = base64 (sha1 (bytes_of (key +:+ wsGUID)))
}.

Lemma closeWith_closed {A} e c : cn_closed (@closeWith _ A e c).2 = true.
Proof. done. Qed.

Lemma orClose_bind {A B} (m : W A) (k : A → W B) c :
  (∃ e c1, m c = (Err e, c1) ∧ mbind k (orClose m) c = closeWith e c1) ∨
  (∃ a c1, m c = (Ok a, c1) ∧ mbind k (orClose m) c = k a c1).
Proof.
  unfold mbind, W_bind, orClose. destruct (m c) as [[a|e] c1]; [right; by eauto|left].
  exists e, c1. done.
Qed.

(** Every way through [upgrade]: accepted on the open connection, or closed. *)
Lemma upgrade_cases u c r c' : cn_closed c = false → upgrade readResponse u c = (r, c') →
  match r with
  | Ok _ => ∃ nonce resp rest, length nonce = 16%nat ∧ accepts (base64 nonce) resp ∧
      readResponse (cn_in c) = Some (resp, rest) ∧ cn_closed c' = false ∧ cn_in c' = rest ∧
      cn_out c' = cn_out c ++ bytes_of (upgradeRequest
        (if bool_decide (u_RequestURI u = "") then "/" else u_RequestURI u) (u_Host u) (base64 nonce))
  | Err _ => cn_closed c' = true
  end.
Proof.
  intros Hcl. unfold upgrade. cbv zeta.
  match goal with |- mbind ?k (orClose ?m) c = _ → _ =>
    destruct (orClose_bind m k c) as [(e & c1 & _ & ->)|(nonce & c1 & Hn & ->)] end.
  { by intros [= <- <-]. }
  unfold ws_random in Hn. destruct (env_random _ 16) as [k|] eqn:Ek; [|done].
  apply env_random_ok in Ek as [Hlen _]. injection Hn as <- <-.
  match goal with |- mbind ?k (orClose ?m) ?c = _ → _ =>
    destruct (orClose_bind m k c) as [(e & c2 & _ & ->)|([] & c2 & Hw & ->)] end.
  { by intros [= <- <-]. }
  unfold conn_Write in Hw. simpl in Hw. rewrite Hcl in Hw.
  destruct (env_writeCut _); [done|]. injection Hw as <-.
  match goal with |- mbind ?k (orClose ?m) ?c = _ → _ =>
    destruct (orClose_bind m k c) as [(e & c3 & _ & ->)|(resp & c3 & Hr & ->)] end.
  { by intros [= <- <-]. }
  unfold readUpgrade in Hr. simpl in Hr.
  destruct (readResponse (cn_in c)) as [[resp' rest]|] eqn:Eresp; [|done]. injection Hr as <- <-.
  destruct (Z.eqb_spec (rs_StatusCode resp') 101); simpl; [|by intros [= <- <-]].
  destruct (EqualFold _ _) eqn:Eu; simpl; [|by intros [= <- <-]].
  case_bool_decide; simpl; [|by intros [= <- <-]].
  intros [= <- <-]. exists k, resp', rest. split_and!; try done.
Qed.
End handshake.
End theorems.

(** ** The properties *)
Section properties.
Context `{!WsEnv}.

(** C15: A frame that [writeFrame] sends consists of bytes, and whoever reads it with
    [readFrame] from the head of a stream gets the payload and the opcode back and
    finds the rest of the stream untouched, for every payload the platform can hold. *)
Theorem ws_frame_roundtrip op p c c' :
  0 ≤ op < 16 → Forall is_byte p → Z.of_nat (length p) ≤ maxAlloc →
  writeFrame op p c = (Ok (), c') →
  ∃ bs, cn_out c' = cn_out c ++ bs ∧ Forall is_byte bs ∧
    ∀ rest peer, cn_in peer = bs ++ rest → readFrame peer = (Ok (p, op), set_in rest peer).
Proof.
  intros Hop Hp Hn Hw. assert (sendable op p) as Hs by (split; auto).
  apply writeFrame_inv in Hw as (_ & _ & k & Hl & Hk & Hout); [|done].
  pose proof (client_frame_accepted k op p Hs Hl Hk) as Hwf. eexists. split; [done|]. split.
  - by apply encode_frame_bytes.
  - intros rest peer Hin. by apply (readFrame_ok (client_frame k op p)).
Qed.

(** C36: [readFrame] reads every frame that a server may send by RFC 6455, of a length the
    platform can hold: it returns the payload and the opcode and leaves the rest of the
    stream. What it takes besides is exact too: on any stream of bytes it succeeds
    with a payload and an opcode if and only if the stream begins with an
    [accepted_frame] that carries them, and it consumes that frame. These are more than
    the RFC allows a server. *)
Theorem ws_read_frame_exact c :
  Forall is_byte (cn_in c) →
  (∀ f rest, server_frame f → Z.of_nat (length (fr_payload f)) ≤ maxAlloc →
     cn_in c = encode_frame f ++ rest → readFrame c = (Ok (fr_payload f, fr_opcode f), set_in rest c)) ∧
  ∀ p op c', readFrame c = (Ok (p, op), c') ↔
    ∃ f, accepted_frame f ∧ cn_in c = encode_frame f ++ cn_in c' ∧
      fr_payload f = p ∧ fr_opcode f = op ∧ c' = set_in (cn_in c') c.
Proof.
  intros Hb. split; [intros f rest Hf Hn; by apply readFrame_ok, server_frame_accepted|].
  intros p op c'. split; [by apply readFrame_inv|].
  intros (f & Hf & Hin & <- & <- & Hc'). rewrite Hc'. by apply readFrame_ok.
Qed.

(** C28: Reading a data frame always ends, whatever bytes have arrived; pings before
    the data frame are each answered by a pong with the same payload, in order, and
    the payload of the data frame is returned with the rest of the stream left. *)
Theorem ws_data_frames c :
  Forall is_byte (cn_in c) →
  (readDataFrame c).1 ≠ Err WsOutOfFuel ∧
  ∀ pings f rest, steady → cn_closed c = false → Forall is_ping pings → is_data f →
    cn_in c = mjoin (encode_frame <$> pings) ++ encode_frame f ++ rest →
    ∃ keys c', readDataFrame c = (Ok (fr_payload f), c') ∧ length keys = length pings ∧
      cn_in c' = rest ∧ cn_out c' = cn_out c ++ pongs keys pings.
Proof.
  intros Hb. split.
  - destruct (readDataFrame c) as [r c'] eqn:E. unfold readDataFrame in E.
    eapply readFrames_fuel; [done| |done]. lia.
  - intros pings f rest Hst Hcl Hp Hf Hc.
    destruct (readDataFrame_pings pings f rest c Hst Hcl Hp Hf Hc) as (keys & c' & ? & ? & ? & _ & ?).
    eauto 10.
Qed.

(** Replies are paired with orders by position only. When every reply arrives in
    time each order gets its own fill; when the first reply misses its deadline and
    the replies then arrive one order late, each later order is given the fill of
    the order before it. *)
Theorem ws_late_reply marshalOrder decodeFill (server : Order → frame) (fillOf : Order → Fill) o os c :
  steady → cn_closed c = false → cn_in c = [] →
  Forall (λ o, ∃ p, marshalOrder o = Ok p ∧ sendable wsOpcodeText p) (o :: os) →
  (∀ o, answers decodeFill (server o) (fillOf o)) →
  let replies := (λ o, encode_frame (server o)) <$> o :: os in
  (ws_sends marshalOrder decodeFill (zip (o :: os) replies) c).1 = (λ o, Ok (fillOf o)) <$> o :: os ∧
  (ws_sends marshalOrder decodeFill ((o, []) :: zip os replies) c).1 =
    Err WsHeader0 :: ((λ o, Ok (fillOf o)) <$> take (length os) (o :: os)).
Proof.
  intros Hst Hcl Hc Hm Hserver replies.
  assert (Hrounds : ∀ xs ys : list Order, Forall2 (λ r fill, ∃ f, r.2 = encode_frame f ∧ answers decodeFill f fill)
            (zip xs ((λ o, encode_frame (server o)) <$> ys)) (fillOf <$> take (length xs) ys)).
  { induction xs as [|x xs IH]; intros [|y ys]; try constructor; [|apply IH]. exists (server y). auto. }
  assert (Hok : ∀ (xs : list Order) (ys : list (list Z)), Forall (λ o, ∃ p, marshalOrder o = Ok p ∧ sendable wsOpcodeText p) xs →
            Forall (λ r : Order * list Z, ∃ p, marshalOrder r.1 = Ok p ∧ sendable wsOpcodeText p) (zip xs ys)).
  { induction xs as [|x xs IH]; intros [|y ys]; try by constructor.
    intros [? ?]%Forall_cons. constructor; [done|]. by apply IH. }
  assert (Hmap : ∀ xs : list Order, @Ok ws_error Fill <$> (fillOf <$> xs) = (λ o, Ok (fillOf o)) <$> xs).
  { intros xs. by rewrite <- list_fmap_compose. }
  split.
  - edestruct (ws_sends_ok marshalOrder decodeFill (zip (o :: os) replies)) as (c' & -> & _); try done.
    + by apply Hok.
    + apply Hrounds.
    + simpl fst. rewrite Hmap. by rewrite take_ge.
  - apply Forall_cons in Hm as [(p & Hmo & Hs) Hm].
    destruct (ws_Send_timeout marshalOrder decodeFill o p (arrive [] c) Hst Hcl Hmo Hs)
      as (c1 & Hsend & Hc1 & Hcl1); [by simpl; rewrite Hc|].
    cbn [ws_sends]. rewrite Hsend.
    edestruct (ws_sends_ok marshalOrder decodeFill (zip os replies)) as (c' & -> & _);
      [done|exact Hcl1|exact Hc1|by apply Hok|apply Hrounds|].
    simpl fst. by rewrite Hmap.
Qed.

(** A server frame that announces a 64-bit length of 2^63 or more makes [Send]
    panic, whatever follows it. *)
Theorem ws_negative_length_panics marshalOrder decodeFill o payload b0 ext rest c :
  steady → cn_closed c = false → marshalOrder o = Ok payload → sendable wsOpcodeText payload →
  Forall is_byte ext → length ext = 8%nat → 2 ^ 63 ≤ be_value ext →
  cn_in c = b0 :: 127 :: ext ++ rest →
  (ws_Send marshalOrder decodeFill o c).1 = Err WsPanic.
Proof. apply ws_Send_negative_length. Qed.

(** The handshake. A transport is returned only for a ws URL whose server
    answered 101 with the upgrade header and the accept value of the key that was
    sent, and it reads on where the response ended; on every failure the connection
    that was dialed is closed. Closing a transport twice closes it once and gives
    the same error again. *)
Theorem ws_handshake parseURL dial readResponse url :
  (∀ h c, dial h = Some c → cn_closed c = false) →
  match NewWebSocketTransport parseURL dial readResponse url with
  | inl t => ∃ u c nonce resp rest, parseURL url = Some u ∧ u_Scheme u = "ws" ∧
      dial (dialHost u) = Some c ∧ length nonce = 16%nat ∧
      readResponse (cn_in c) = Some (resp, rest) ∧ accepts (base64 nonce) resp ∧
      cn_in (t_conn t) = rest ∧ cn_closed (t_conn t) = false ∧
      let '(e, t1) := ws_Close t in cn_closed (t_conn t1) = true ∧ ws_Close t1 = (e, t1)
  | inr (_, Some c) => cn_closed c = true
  | inr (_, None) => ∀ u, parseURL url = Some u → u_Scheme u = "ws" → dial (dialHost u) = None
  end.
Proof.
  intros Hdial. unfold NewWebSocketTransport.
  destruct (parseURL url) as [u|] eqn:Eu; [|by intros u].
  case_bool_decide as Hs; simpl; [|intros u' [= <-]; done].
  destruct (dial (dialHost u)) as [c|] eqn:Ed; [|by intros u' [= <-]].
  destruct (upgrade readResponse u c) as [r c'] eqn:Ec.
  apply upgrade_cases in Ec; [|by eapply Hdial].
  destruct r as [[]|e]; [|done].
  destruct Ec as (nonce & resp & rest & Hl & Hacc & Hr & Hcl & Hin & _).
  exists u, c, nonce, resp, rest. split_and!; done.
Qed.
End properties.

(** ** The properties at concrete inputs *)
Definition plain_random (t n : nat) : option (list Z) :=
  Some ((λ i, to_byte (Z.of_nat (t + 37 * i))) <$> seq 0 n).

Lemma plain_random_ok t n k : plain_random t n = Some k → length k = n ∧ Forall is_byte k.
Proof.
  intros [= <-]. rewrite length_fmap, length_seq. split; [done|].
  apply Forall_fmap, Forall_true. intros i. apply to_byte_range.
Qed.

#[export] Instance plainWs : WsEnv := {
  env_random := plain_random;
  env_random_ok := plain_random_ok;
  env_writeCut _ := None;
  env_deadlineFails _ := false;
  env_closeErr _ := None
}.

Lemma plainWs_steady : @steady plainWs.
Proof. split; [by eexists|done|done]. Qed.

Definition ex_conn : conn := mkConn [] [] 0 false.
Definition ex_order (id : string) : Order := mkBotOrder id "limit" "buy" 10000 5.
Definition ex_marshal (o : Order) : result string (list Z) := Ok (bytes_of (o_ID o)).
Definition ex_decode (l : list Z) : option Fill := Some (mkBotFill (string_of l) 0 0 true).
Definition ex_server (o : Order) : frame := mkFrame 8 1 None Len7 (bytes_of "ok").

Lemma ws_frame_roundtrip_witness :
  ∃ c', writeFrame wsOpcodeText (bytes_of "hello") ex_conn = (Ok (), c') ∧
  ∃ bs, cn_out c' = cn_out ex_conn ++ bs ∧ Forall is_byte bs ∧
    ∀ rest peer, cn_in peer = bs ++ rest →
      readFrame peer = (Ok (bytes_of "hello", wsOpcodeText), set_in rest peer).
Proof.
  eexists. split; [vm_compute; reflexivity|].
  apply (ws_frame_roundtrip wsOpcodeText (bytes_of "hello") ex_conn);
    [by vm_compute|apply bytes_of_range|by vm_compute|by vm_compute].
Defined.

Definition ok_frame : frame := mkFrame 8 1 None Len7 [111; 107].

Lemma ok_frame_server : server_frame ok_frame.
Proof.
  split; simpl; [by right|by right; left|done|done|lia|lia|].
  repeat (apply Forall_cons; split; [unfold is_byte; lia|]). constructor.
Qed.

Lemma ws_read_frame_exact_witness :
  readFrame (mkConn [129; 2; 111; 107; 7] [] 0 false) = (Ok ([111; 107], 1), mkConn [7] [] 0 false) ∧
  ∃ f, accepted_frame f ∧ [129; 2; 111; 107; 7] = encode_frame f ++ [7] ∧ fr_payload f = [111; 107].
Proof.
  destruct (ws_read_frame_exact (mkConn [129; 2; 111; 107; 7] [] 0 false)
    ltac:(repeat (apply Forall_cons; split; [unfold is_byte; lia|]); constructor)) as [Hserver Hexact].
  pose proof (Hserver ok_frame [7] ok_frame_server ltac:(by vm_compute) eq_refl) as Hr.
  split; [exact Hr|]. destruct (proj1 (Hexact _ _ _) Hr) as (f & ? & ? & ? & _). by exists f.
Defined.

(** Frames that no server may send are read as well: a length in a longer form than
    needed, a reserved bit, a mask and a ping of 126 bytes; and of a message in two
    fragments the first is taken for the whole. *)
Example lenient_frames :
  let reads l := (readFrame (mkConn l [] 0 false)).1 in
  reads [129; 126; 0; 1; 7] = Ok ([7], 1) ∧ reads [193; 1; 7] = Ok ([7], 1) ∧
  reads [129; 129; 1; 2; 3; 4; 6] = Ok ([7], 1) ∧ reads (137 :: 126 :: 0 :: 126 :: replicate 126 0) = Ok (replicate 126 0, 9) ∧
  (readDataFrame (mkConn [1; 1; 7; 128; 1; 8] [] 0 false)).1 = Ok [7].
Proof. by vm_compute. Qed.

Lemma ws_data_frames_witness :
  (readDataFrame (mkConn [137; 1; 9; 129; 2; 111; 107] [] 0 false)).1 ≠ Err WsOutOfFuel ∧
  (readDataFrame (mkConn [137; 1; 9; 129; 2; 111; 107] [] 0 false)).1 = Ok [111; 107].
Proof.
  split; [|by vm_compute].
  apply (ws_data_frames (mkConn [137; 1; 9; 129; 2; 111; 107] [] 0 false)).
  repeat (apply Forall_cons; split; [unfold is_byte; lia|]). constructor.
Defined.

Lemma ex_server_answers o : answers ex_decode (ex_server o) (mkBotFill "ok" 0 0 true).
Proof.
  split; [|by vm_compute]. split; [|by left].
  split; simpl; [lia|lia|done|apply (bytes_of_range "ok")|by vm_compute].
Qed.

Lemma ex_marshal_sendable id : ∃ p, ex_marshal (ex_order id) = Ok p ∧
  (Z.of_nat (length (bytes_of id)) ≤ maxAlloc → sendable wsOpcodeText p).
Proof.
  eexists. split; [done|]. intros Hl. split; [unfold wsOpcodeText; lia|].
  split; [apply bytes_of_range|exact Hl].
Qed.

Lemma ws_late_reply_witness :
  (ws_sends ex_marshal ex_decode
     ((ex_order "a", []) :: zip [ex_order "b"] ((λ o, encode_frame (ex_server o)) <$> [ex_order "a"; ex_order "b"]))
     ex_conn).1 = [Err WsHeader0; Ok (mkBotFill "ok" 0 0 true)].
Proof.
  apply (ws_late_reply ex_marshal ex_decode ex_server (λ _, mkBotFill "ok" 0 0 true)
           (ex_order "a") [ex_order "b"] ex_conn).
  - apply plainWs_steady.
  - done.
  - done.
  - repeat constructor.
    + destruct (ex_marshal_sendable "a") as (p & ? & Hs). exists p. split; [done|]. apply Hs. by vm_compute.
    + destruct (ex_marshal_sendable "b") as (p & ? & Hs). exists p. split; [done|]. apply Hs. by vm_compute.
  - apply ex_server_answers.
Defined.

Lemma ws_negative_length_panics_witness :
  (ws_Send ex_marshal ex_decode (ex_order "a")
     (mkConn ([130; 127] ++ [128; 0; 0; 0; 0; 0; 0; 0] ++ []) [] 0 false)).1 = Err WsPanic.
Proof.
  destruct (ex_marshal_sendable "a") as (p & Hp & Hs).
  apply (ws_negative_length_panics ex_marshal ex_decode (ex_order "a") p 130
           [128; 0; 0; 0; 0; 0; 0; 0] []); [apply plainWs_steady|done|done| | |done|by vm_compute|done].
  - apply Hs. by vm_compute.
  - repeat (apply Forall_cons; split; [unfold is_byte; lia|]). constructor.
Defined.

Definition ex_url : URL := mkURL "ws" "localhost:7878" "/ws".
Definition ex_response : response := mkResponse 101 (λ h,
  if bool_decide (h = "Upgrade") then "WebSocket"
  else if bool_decide (h = "Sec-WebSocket-Accept")
  then computeAccept (base64 ((λ i, to_byte (Z.of_nat (37 * i))) <$> seq 0 16)) else "").

Lemma ws_handshake_witness :
  ∃ t, NewWebSocketTransport (λ _, Some ex_url) (λ _, Some ex_conn) (λ l, Some (ex_response, l)) "ws://e"
       = inl t ∧ (let '(e, t1) := ws_Close t in cn_closed (t_conn t1) = true ∧ ws_Close t1 = (e, t1)).
Proof.
  pose proof (ws_handshake (λ _, Some ex_url) (λ _, Some ex_conn) (λ l, Some (ex_response, l)) "ws://e"
    ltac:(by intros h c [= <-])) as Hok.
  assert (∃ t, NewWebSocketTransport (λ _, Some ex_url) (λ _, Some ex_conn)
            (λ l, Some (ex_response, l)) "ws://e" = inl t) as [t Ht].
  { eexists. vm_compute. reflexivity. }
  exists t. split; [done|]. rewrite Ht in Hok.
  by destruct Hok as (u & c & nonce & resp & rest & _ & _ & _ & _ & _ & _ & _ & _ & Hclose).
Defined.
