(* ===== verification/Orchestrator.v ===== *)
(** * Orchestrator: the registry of workers
    ([internal/orchestrator/registry.go], [handler.go])

    The registry maps worker ids to records; each operation runs under its lock
    and is one step. The clock is an argument. A handler gets the decoded body,
    or [None] when it does not decode, and answers with a status code and a body. *)

From S2P Require Import Prelude Models.

(** ** registry.go *)
Definition WorkerStatusIdle : string := "idle".
Definition WorkerStatusBusy : string := "busy".
Definition WorkerStatusDead : string := "dead".
Definition HeartbeatTTL : duration := 15 * Second.

Record WorkerRecord := mkWorker {
  w_ID : string;
  w_Status : string;
  w_CurrentJobID : string;
  w_RegisteredAt : time;
  w_LastHeartbeat : time;
  w_JobsCompleted : Z
}.

#[export] Instance worker_record_eq_dec : EqDecision WorkerRecord.
Proof. solve_decision. Defined.

Definition IsAlive (now : time) (w : WorkerRecord) : bool := now - w_LastHeartbeat w <=? HeartbeatTTL.

Record HeartbeatUpdate := mkUpdate { hu_Status : string; hu_CurrentJobID : string; hu_JobsCompleted : Z }.

Abbreviation worker_map := (gmap string WorkerRecord) (only parsing).
Definition WorkerRegistry : Type := worker_map.
Definition NewWorkerRegistry : worker_map := ∅.

Inductive registry_error := ErrEmptyID | ErrNotRegistered (id : string).

Definition Register (now : time) (id : string) (r : worker_map)
    : result registry_error WorkerRecord * worker_map :=
  if bool_decide (id = "") then (Err ErrEmptyID, r)
  else match r !! id with
  | Some existing =>
      let rec := mkWorker (w_ID existing) WorkerStatusIdle "" now now 0 in (Ok rec, <[id := rec]> r)
  | None =>
      let rec := mkWorker id WorkerStatusIdle "" now now 0 in (Ok rec, <[id := rec]> r)
  end.

Definition Heartbeat (now : time) (id : string) (update : HeartbeatUpdate) (r : worker_map)
    : option registry_error * worker_map :=
  match r !! id with
  | None => (Some (ErrNotRegistered id), r)
  | Some rec =>
      (None, <[id := mkWorker (w_ID rec) (hu_Status update) (hu_CurrentJobID update)
                       (w_RegisteredAt rec) now (hu_JobsCompleted update)]> r)
  end.

(** What [List] does to a record: a stale one that is not marked yet becomes dead
    and loses its job. *)
Definition markDead (now : time) (w : WorkerRecord) : WorkerRecord :=
  if negb (IsAlive now w) && negb (bool_decide (w_Status w = WorkerStatusDead))
  then mkWorker (w_ID w) WorkerStatusDead "" (w_RegisteredAt w) (w_LastHeartbeat w) (w_JobsCompleted w)
  else w.

(** What [Stats] does to a record. *)
Definition markStale (now : time) (w : WorkerRecord) : WorkerRecord :=
  if IsAlive now w then w
  else mkWorker (w_ID w) WorkerStatusDead (w_CurrentJobID w) (w_RegisteredAt w) (w_LastHeartbeat w)
         (w_JobsCompleted w).

Definition reg_Get (id : string) (r : worker_map) : WorkerRecord * bool :=
  match r !! id with
  | Some rec => (rec, true)
  | None => (mkWorker "" "" "" zero_time zero_time 0, false)
  end.

Record RegistryStats := mkRegStats { rs_Total : Z; rs_Idle : Z; rs_Busy : Z; rs_Dead : Z }.

Definition countStatus (st : RegistryStats) (w : WorkerRecord) : RegistryStats :=
  if bool_decide (w_Status w = WorkerStatusIdle)
  then mkRegStats (rs_Total st) (rs_Idle st + 1) (rs_Busy st) (rs_Dead st)
  else if bool_decide (w_Status w = WorkerStatusBusy)
  then mkRegStats (rs_Total st) (rs_Idle st) (rs_Busy st + 1) (rs_Dead st)
  else if bool_decide (w_Status w = WorkerStatusDead)
  then mkRegStats (rs_Total st) (rs_Idle st) (rs_Busy st) (rs_Dead st + 1)
  else st.

Section range.
Context `{!MapRange}.

Definition reg_List (now : time) (r : worker_map) : list WorkerRecord * worker_map :=
  let r := markDead now <$> r in (snd <$> map_range r, r).

Definition Stats (now : time) (r : worker_map) : RegistryStats * worker_map :=
  let r' := markStale now <$> r in
  (foldl countStatus (mkRegStats (Z.of_nat (size r)) 0 0 0) (snd <$> map_range r'), r').

(** ** handler.go *)
Inductive reply :=
| ReplyError (status : Z) (code : string)
| ReplyWorker (status : Z) (w : WorkerRecord)
| ReplyWorkers (status : Z) (ws : list WorkerRecord) (count : Z)
| ReplyStats (status : Z) (st : RegistryStats).

Definition reply_status (r : reply) : Z :=
  match r with
  | ReplyError st _ | ReplyWorker st _ | ReplyWorkers st _ _ | ReplyStats st _ => st
  end.

Definition handleRegister (now : time) (body : option string) (r : worker_map)
    : reply * worker_map :=
  match body with
  | None => (ReplyError 400 "invalid_json", r)
  | Some workerID =>
      if bool_decide (workerID = "") then (ReplyError 400 "missing_field", r)
      else match Register now workerID r with
      | (Err _, r) => (ReplyError 400 "registration_failed", r)
      | (Ok rec, r) => (ReplyWorker 201 rec, r)
      end
  end.

Definition handleHeartbeat (now : time) (id : string) (body : option HeartbeatUpdate)
    (r : worker_map) : reply * worker_map :=
  if bool_decide (id = "") then (ReplyError 400 "missing_param", r)
  else match body with
  | None => (ReplyError 400 "invalid_json", r)
  | Some update =>
      let update := if bool_decide (hu_Status update = "")
                    then mkUpdate WorkerStatusIdle (hu_CurrentJobID update) (hu_JobsCompleted update)
                    else update in
      match Heartbeat now id update r with
      | (Some _, r) => (ReplyError 404 "not_registered", r)
      | (None, r) => (ReplyWorker 200 (reg_Get id r).1, r)
      end
  end.

Definition handleList (now : time) (r : worker_map) : reply * worker_map :=
  let '(workers, r) := reg_List now r in
  (ReplyWorkers 200 workers (Z.of_nat (length workers)), r).

Definition handleStats (now : time) (r : worker_map) : reply * worker_map :=
  let '(st, r) := Stats now r in (ReplyStats 200 st, r).

(** A request to the handler, at its time. *)
Inductive request :=
| PostRegister (body : option string)
| PostHeartbeat (id : string) (body : option HeartbeatUpdate)
| GetList
| GetStats.

Definition handle (now : time) (q : request) (r : worker_map) : reply * worker_map :=
  match q with
  | PostRegister body => handleRegister now body r
  | PostHeartbeat id body => handleHeartbeat now id body r
  | GetList => handleList now r
  | GetStats => handleStats now r
  end.

(** The registry after requests served one after the other. *)
Definition serveAll (l : list (time * request)) (r : worker_map) : worker_map :=
  fold_left (λ r tq, (handle tq.1 tq.2 r).2) l r.
End range.
