(* ===== verification/OrchestratorTheorems.v ===== *)
(** * OrchestratorTheorems: what the worker registry reports

    The specification keeps, per worker, the last contact and what was reported at
    it; the registry refines it. Then: what [Stats] leaves behind, and that a worker
    which keeps beating recovers from a registry that forgot it. *)

From S2P Require Import Prelude Models Queue World Worker Orchestrator.

(** ** The specification *)
Record contact := mkContact { ct_Registered : time; ct_Last : time; ct_Report : HeartbeatUpdate }.

(** The status a report carries; an empty one means idle. *)
Definition reported (u : HeartbeatUpdate) : HeartbeatUpdate :=
  if bool_decide (hu_Status u = "") then mkUpdate WorkerStatusIdle (hu_CurrentJobID u) (hu_JobsCompleted u)
  else u.

(** Only registrations and the heartbeats of registered workers are contacts. *)
Definition spec_step (m : gmap string contact) (tq : time * request) : gmap string contact :=
  let '(t, q) := tq in
  match q with
  | PostRegister (Some id) =>
      if bool_decide (id = "") then m else <[id := mkContact t t (mkUpdate WorkerStatusIdle "" 0)]> m
  | PostHeartbeat id (Some u) =>
      if bool_decide (id = "") then m
      else match m !! id with
           | Some c => <[id := mkContact (ct_Registered c) t (reported u)]> m
           | None => m
           end
  | _ => m
  end.

Definition spec_all (l : list (time * request)) : gmap string contact := fold_left spec_step l ∅.

(** A worker is dead once its last contact is more than the TTL ago. *)
Definition status_at (now : time) (c : contact) : string :=
  if now - ct_Last c <=? HeartbeatTTL then hu_Status (ct_Report c) else WorkerStatusDead.

(** The number of workers with a status. *)
Definition count_at (now : time) (s : string) (m : gmap string contact) : Z :=
  Z.of_nat (length (filter (.= s) (snd <$> map_to_list (status_at now <$> m)))).

(** ** The simulation *)
(** A record and its contact at time [t]: the last report, or dead since. *)
Record rec_ok (t : time) (id : string) (w : WorkerRecord) (c : contact) : Prop := {
  ro_id : w_ID w = id;
  ro_registered : w_RegisteredAt w = ct_Registered c;
  ro_last : w_LastHeartbeat w = ct_Last c;
  ro_jobs : w_JobsCompleted w = hu_JobsCompleted (ct_Report c);
  ro_status : w_Status w = hu_Status (ct_Report c) ∨
              w_Status w = WorkerStatusDead ∧ HeartbeatTTL < t - ct_Last c
}.

Definition reg_ok (t : time) (r : gmap string WorkerRecord) (m : gmap string contact) : Prop :=
  ∀ id, option_Forall2 (rec_ok t id) (r !! id) (m !! id).

Lemma rec_ok_later t t' id w c : t ≤ t' → rec_ok t id w c → rec_ok t' id w c.
Proof. intros Ht [????[?|[??]]]; split; auto. right. split; [done|lia]. Qed.

Lemma reg_ok_later t t' r m : t ≤ t' → reg_ok t r m → reg_ok t' r m.
Proof.
  intros Ht Hr id. specialize (Hr id). destruct Hr; constructor. by eapply rec_ok_later.
Qed.

Lemma reg_ok_insert t r m id w c : rec_ok t id w c → reg_ok t r m → reg_ok t (<[id := w]> r) (<[id := c]> m).
Proof.
  intros Hw Hr id'. rewrite !lookup_insert. case_decide as E; [subst; by constructor|apply Hr].
Qed.

Lemma reg_ok_fmap t r m (f : WorkerRecord → WorkerRecord) :
  (∀ id w c, rec_ok t id w c → rec_ok t id (f w) c) → reg_ok t r m → reg_ok t (f <$> r) m.
Proof.
  intros Hf Hr id. specialize (Hr id). rewrite lookup_fmap. destruct Hr; simpl; constructor. auto.
Qed.

Lemma markDead_ok t id w c : rec_ok t id w c → rec_ok t id (markDead t w) c.
Proof.
  intros Hw. unfold markDead, IsAlive. destruct (Z.leb_spec (t - w_LastHeartbeat w) HeartbeatTTL); simpl; [done|].
  destruct (negb _); [|done]. destruct Hw. split; simpl; auto. right. split; [done|lia].
Qed.

Lemma markStale_ok t id w c : rec_ok t id w c → rec_ok t id (markStale t w) c.
Proof.
  intros Hw. unfold markStale, IsAlive. destruct (Z.leb_spec (t - w_LastHeartbeat w) HeartbeatTTL); [done|].
  destruct Hw. split; simpl; auto. right. split; [done|lia].
Qed.

Lemma markDead_status t id w c : rec_ok t id w c → w_Status (markDead t w) = status_at t c.
Proof.
  intros [_ _ Hl _ Hs]. unfold markDead, status_at, IsAlive. rewrite Hl.
  destruct (Z.leb_spec (t - ct_Last c) HeartbeatTTL); simpl.
  - destruct Hs as [|[_ ?]]; [done|lia].
  - by case_bool_decide.
Qed.

Lemma markStale_status t id w c : rec_ok t id w c → w_Status (markStale t w) = status_at t c.
Proof.
  intros [_ _ Hl _ Hs]. unfold markStale, status_at, IsAlive. rewrite Hl.
  destruct (Z.leb_spec (t - ct_Last c) HeartbeatTTL); [|done].
  destruct Hs as [|[_ ?]]; [done|lia].
Qed.

(** The statuses of a registry that was just swept are those of the specification. *)
Lemma statuses_eq t r m (f : WorkerRecord → WorkerRecord) :
  (∀ id w c, rec_ok t id w c → w_Status (f w) = status_at t c) → reg_ok t r m →
  w_Status <$> (f <$> r) = status_at t <$> m.
Proof.
  intros Hf Hr. apply map_eq. intros id. rewrite !lookup_fmap. destruct (Hr id); simpl; [|done].
  f_equal. by eapply Hf.
Qed.

Lemma reg_ok_size t r m : reg_ok t r m → size r = size m.
Proof.
  intros Hr. rewrite <- !size_dom. f_equal. apply set_eq. intros id. rewrite !elem_of_dom.
  destruct (Hr id); rewrite !is_Some_alt; naive_solver.
Qed.

Section theorems.
Context `{!MapRange}.

Lemma handle_ok t q r m : reg_ok t r m → reg_ok t (handle t q r).2 (spec_step m (t, q)).
Proof.
  intros Hr. destruct q as [[id|]|id [u|]| |]; simpl; try done.
  - unfold handleRegister, Register. case_bool_decide; [done|].
    pose proof (Hr id) as Hid. destruct (r !! id) as [w|]; simpl; apply reg_ok_insert; try done.
    + inversion Hid as [? c Hw|]; subst. split; simpl; auto. by apply (ro_id _ _ _ _ Hw).
    + split; simpl; auto.
  - unfold handleHeartbeat. case_bool_decide; [done|]. fold (reported u). unfold Heartbeat.
    pose proof (Hr id) as Hid. destruct (r !! id) as [w|], (m !! id) as [c|]; inversion Hid; subst; try done.
    simpl. apply reg_ok_insert; [|done].
    match goal with Hw : rec_ok _ _ _ _ |- _ => destruct Hw end. split; simpl; auto.
  - unfold handleHeartbeat. by case_bool_decide.
  - apply reg_ok_fmap; [apply markDead_ok|done].
  - apply reg_ok_fmap; [apply markStale_ok|done].
Qed.

Lemma serveAll_ok l t : StronglySorted Z.le (l.*1 ++ [t]) → reg_ok t (serveAll l ∅) (spec_all l).
Proof.
  unfold serveAll, spec_all. revert t. induction l as [|[t0 q] l IH] using rev_ind; intros t Hs.
  { intros id. simpl. rewrite !lookup_empty. constructor. }
  rewrite !fold_left_app. simpl. rewrite fmap_app in Hs. simpl in Hs.
  assert (StronglySorted Z.le (l.*1 ++ [t0]) ∧ t0 ≤ t) as [Hs0 Ht].
  { apply StronglySorted_app in Hs as (Hle & Hs & _). split; [done|].
    apply (Hle t0 t); set_solver. }
  eapply reg_ok_later; [done|]. apply handle_ok. by apply IH.
Qed.

(** ** Counting *)
Definition with_status (s : string) (l : list WorkerRecord) : Z :=
  Z.of_nat (length (filter (.= s) (w_Status <$> l))).

Lemma foldl_countStatus l total i b d :
  foldl countStatus (mkRegStats total i b d) l =
  mkRegStats total (i + with_status WorkerStatusIdle l) (b + with_status WorkerStatusBusy l)
    (d + with_status WorkerStatusDead l).
Proof.
  unfold with_status. revert i b d. induction l as [|w l IH]; intros i b d; cbn [foldl].
  { simpl. by rewrite !Z.add_0_r. }
  assert (WorkerStatusIdle ≠ WorkerStatusBusy ∧ WorkerStatusIdle ≠ WorkerStatusDead ∧
          WorkerStatusBusy ≠ WorkerStatusDead) as (? & ? & ?) by done.
  assert (countStatus (mkRegStats total i b d) w = mkRegStats total
            (i + if decide (w_Status w = WorkerStatusIdle) then 1 else 0)
            (b + if decide (w_Status w = WorkerStatusBusy) then 1 else 0)
            (d + if decide (w_Status w = WorkerStatusDead) then 1 else 0)) as ->.
  { unfold countStatus. repeat case_bool_decide; repeat case_decide; try congruence;
      simpl; f_equal; lia. }
  rewrite IH, fmap_cons, !filter_cons.
  f_equal; repeat case_decide; simpl; first [congruence | lia].
Qed.

Lemma statuses_perm (r : gmap string WorkerRecord) :
  w_Status <$> (snd <$> map_range r) ≡ₚ snd <$> map_to_list (w_Status <$> r).
Proof.
  rewrite map_range_perm, map_to_list_fmap, <- !list_fmap_compose. done.
Qed.

Lemma with_status_at t r m s (f : WorkerRecord → WorkerRecord) :
  w_Status <$> (f <$> r) = status_at t <$> m →
  with_status s (snd <$> map_range (f <$> r)) = count_at t s m.
Proof.
  intros Hm. unfold with_status, count_at. rewrite <- Hm. by rewrite statuses_perm.
Qed.

(** ** The properties *)
(** C16: The registry refines the record of contacts. After any requests in the order
    of the clock, the list shows every registered worker once, with the time of its
    latest registration (not of its first, as the comment on the field has it), its last
    contact and the status it then reported, or dead if that was more than 15 s ago;
    the statistics count those statuses. A silent worker is never taken off the list,
    whatever the architecture document says about eviction. Earlier lists and
    statistics make no difference. *)
Theorem registry_refines l t :
  StronglySorted Z.le (l.*1 ++ [t]) →
  let r := serveAll l NewWorkerRegistry in
  let m := spec_all l in
  (∃ ws, (handleList t r).1 = ReplyWorkers 200 ws (Z.of_nat (size m)) ∧ NoDup (w_ID <$> ws) ∧
     Forall (λ w, ∃ c, m !! w_ID w = Some c ∧ w_RegisteredAt w = ct_Registered c ∧
               w_LastHeartbeat w = ct_Last c ∧ w_JobsCompleted w = hu_JobsCompleted (ct_Report c) ∧
               w_Status w = status_at t c) ws) ∧
  (handleStats t r).1 =
    ReplyStats 200 (mkRegStats (Z.of_nat (size m)) (count_at t WorkerStatusIdle m)
                      (count_at t WorkerStatusBusy m) (count_at t WorkerStatusDead m)).
Proof.
  intros Hs r m. pose proof (serveAll_ok l t Hs : reg_ok t r m) as Hr. split.
  - assert (Hkeys : ∀ k w, (k, w) ∈ map_range (markDead t <$> r) →
              ∃ w0 c, w = markDead t w0 ∧ m !! k = Some c ∧ rec_ok t k w0 c).
    { intros k w Hin%elem_of_map_range. rewrite lookup_fmap in Hin. pose proof (Hr k) as Hk.
      destruct (r !! k) as [w0|]; [|done]. simpl in Hin. inversion Hk as [? c Hw Hc1 Hc2|]; subst.
      exists w0, c. split_and!; congruence. }
    eexists. split; [|split].
    + unfold handleList, reg_List. simpl. do 2 f_equal.
      by rewrite length_fmap, map_range_perm, length_map_to_list, map_size_fmap, (reg_ok_size t r m).
    + rewrite <- list_fmap_compose.
      replace ((w_ID ∘ snd) <$> map_range (markDead t <$> r)) with ((map_range (markDead t <$> r)).*1).
      { rewrite map_range_perm. apply NoDup_fst_map_to_list. }
      apply list_fmap_ext. intros i [k w] Hi%list_elem_of_lookup_2. simpl.
      destruct (Hkeys k w Hi) as (w0 & c & -> & _ & Hw). symmetry.
      apply (ro_id _ _ _ _ (markDead_ok _ _ _ _ Hw)).
    + apply Forall_fmap, Forall_forall. intros [k w] Hin. simpl.
      destruct (Hkeys k w Hin) as (w0 & c & -> & Hc & Hw). exists c.
      rewrite (markDead_status t k w0 c Hw). apply markDead_ok in Hw. destruct Hw as [-> ? ? ? _]. done.
  - unfold handleStats, Stats. simpl. rewrite foldl_countStatus.
    rewrite !(with_status_at t r m) by (apply statuses_eq; [apply markStale_status|done]).
    by rewrite (reg_ok_size t r m).
Qed.

(** [Stats] marks a stale worker dead without clearing its job, and [List] clears
    the job only of a worker it marks itself: which of the two is asked first decides
    whether a dead worker is shown with a job from then on. *)
Theorem stats_keeps_job t t' r id w :
  r !! id = Some w → IsAlive t w = false → w_Status w ≠ WorkerStatusDead → t ≤ t' →
  let '(_, r1) := Stats t r in
  let '(_, r2) := reg_List t r in
  let shown r := (reg_Get id (reg_List t' r).2).1 in
  w_Status (shown r1) = WorkerStatusDead ∧ w_CurrentJobID (shown r1) = w_CurrentJobID w ∧
  w_Status (shown r2) = WorkerStatusDead ∧ w_CurrentJobID (shown r2) = "".
Proof.
  intros Hr Ha Hs Ht.
  assert (Ha' : ∀ w', w_LastHeartbeat w' = w_LastHeartbeat w → IsAlive t' w' = false).
  { unfold IsAlive in *. intros w' ->. apply Z.leb_gt in Ha. apply Z.leb_gt. lia. }
  unfold Stats, reg_List, reg_Get. cbv beta iota zeta. cbn [fst snd].
  rewrite !lookup_fmap, !Hr. simpl.
  unfold markStale, markDead. rewrite Ha. simpl. rewrite bool_decide_eq_false_2 by done. simpl.
  rewrite !Ha' by done. done.
Qed.

(** ** A worker that beats *)
(** The requests of [heartbeat.go], served by the handler at time [now]. *)
Definition postRegister (now : time) (workerID : string) (r : gmap string WorkerRecord)
    : option Z * gmap string WorkerRecord :=
  let '(rep, r) := handle now (PostRegister (Some workerID)) r in (Some (reply_status rep), r).

Definition postBeat (now : time) (workerID : string) (p : heartbeatPayload) (r : gmap string WorkerRecord)
    : option Z * gmap string WorkerRecord :=
  let '(rep, r) :=
    handle now (PostHeartbeat workerID
                  (Some (mkUpdate (hp_Status p) (hp_CurrentJobID p) (hp_JobsCompleted p)))) r in
  (Some (reply_status rep), r).

(** Whatever the registry knows of a worker, even nothing after a restart of the
    control plane, one beat makes the worker registered and alive without an error,
    and the next beat puts its own report on record. *)
Lemma heartbeat_recovers id now now' st st' r :
  id ≠ "" →
  let '(e, r1) := beat (postRegister now) (postBeat now) id st r in
  e = None ∧ (∃ w, r1 !! id = Some w ∧ ∀ t, t - now ≤ HeartbeatTTL → IsAlive t w = true) ∧
  let '(e', r2) := beat (postRegister now') (postBeat now') id st' r1 in
  e' = None ∧ ∃ w, r2 !! id = Some w ∧ w_LastHeartbeat w = now' ∧
    w_Status w = (if hb_Busy st' then "busy" else "idle") ∧
    w_CurrentJobID w = hb_CurrentJobID st' ∧ w_JobsCompleted w = hb_JobsCompleted st'.
Proof.
  intros Hid.
  assert (Hknown : ∀ t s r w, r !! id = Some w →
    beat (postRegister t) (postBeat t) id s r =
      (None, <[id := mkWorker (w_ID w) (if hb_Busy s then "busy" else "idle") (hb_CurrentJobID s)
                       (w_RegisteredAt w) t (hb_JobsCompleted s)]> r)).
  { intros t s r0 w Hw. unfold beat, postBeat, handle, handleHeartbeat.
    rewrite bool_decide_eq_false_2 by done. unfold Heartbeat, payloadOf.
    destruct (hb_Busy s); simpl; by rewrite Hw. }
  assert (∃ w, w_LastHeartbeat w = now ∧
    beat (postRegister now) (postBeat now) id st r = (None, <[id := w]> r)) as (w & Hl & ->).
  { destruct (r !! id) as [w|] eqn:E.
    { rewrite (Hknown now st r w E). eexists. by split; [|reflexivity]. }
    unfold beat, postBeat, handle, handleHeartbeat. rewrite bool_decide_eq_false_2 by done.
    unfold Heartbeat at 1, payloadOf. destruct (hb_Busy st); simpl; rewrite E; simpl;
      unfold hb_register, postRegister, handle, handleRegister, Register;
      rewrite bool_decide_eq_false_2 by done; rewrite E; simpl; eexists; by split; [|reflexivity]. }
  split; [done|]. split.
  - exists w. rewrite lookup_insert_eq. split; [done|]. intros t Ht. unfold IsAlive.
    rewrite Hl. by apply Z.leb_le.
  - rewrite (Hknown now' st' _ w) by apply lookup_insert_eq. split; [done|].
    eexists. rewrite lookup_insert_eq. split; [done|]. by simpl.
Qed.
End theorems.

(** ** The properties at concrete inputs *)
Definition ex_requests : list (time * request) :=
  [(0, PostRegister (Some "w1")); (2, PostRegister (Some "w2"));
   (5 * Second, PostHeartbeat "w1" (Some (mkUpdate "busy" "sub-1" 0))); (18 * Second, GetStats);
   (19 * Second, PostHeartbeat "w3" (Some (mkUpdate "busy" "sub-2" 0)))].

Lemma registry_refines_witness :
  (handleStats (20 * Second) (serveAll ex_requests NewWorkerRegistry)).1 =
    ReplyStats 200 (mkRegStats 2 0 1 1).
Proof.
  assert (StronglySorted Z.le (ex_requests.*1 ++ [20 * Second])) as Hs.
  { simpl. unfold Second. repeat (constructor || lia). }
  rewrite (proj2 (registry_refines ex_requests (20 * Second) Hs)). by vm_compute.
Defined.

Lemma stats_keeps_job_witness :
  let r : gmap string WorkerRecord := {["w1" := mkWorker "w1" "busy" "sub-1" 0 0 0]} in
  w_CurrentJobID (reg_Get "w1" (reg_List (30 * Second) (Stats (20 * Second) r).2).2).1 = "sub-1".
Proof.
  pose proof (stats_keeps_job (20 * Second) (30 * Second)
    {["w1" := mkWorker "w1" "busy" "sub-1" 0 0 0]} "w1" (mkWorker "w1" "busy" "sub-1" 0 0 0)
    ltac:(by vm_compute) ltac:(by vm_compute) ltac:(done) ltac:(unfold Second; lia)) as Hk.
  simpl in Hk. apply Hk.
Defined.

Lemma heartbeat_recovers_witness :
  (beat (postRegister 7) (postBeat 7) "w1" (mkHeartbeat true "sub-1" 3) ∅).1 = None.
Proof.
  pose proof (heartbeat_recovers "w1" 7 8 (mkHeartbeat true "sub-1" 3) (mkHeartbeat true "sub-1" 3) ∅
    ltac:(done)) as Hb.
  destruct (beat _ _ _ _ _) as [e r]. apply Hb.
Defined.
