(* ===== verification/Leaderboard.v ===== *)
(** * Leaderboard: ranking the teams
    ([BuildDedupedLeaderboard], [buildLeaderboardEntry] and [getCorrectness] of
    [internal/api/router.go], and [buildLeaderboardEntries] of [cmd/server/main.go])

    A map from team names to candidates is ranged over in any order ([MapRange])
    and sorted by an unstable sort ([SortSlice]). *)

From S2P Require Import Prelude Models Contest.

Definition getCorrectness (e : LeaderboardEntry) : float64 :=
  if F64.gtb (le_AvgCorrectness e) F64.zero then le_AvgCorrectness e else le_CorrectnessScore e.

(** ** buildLeaderboardEntry *)
(** The loop over [AllResults]: the entry, the sum and the count. *)
Record entry_acc := mkEntryAcc { ea_entry : LeaderboardEntry; ea_sum : float64; ea_count : Z }.

Definition set_scores (low medium high best peak : float64) (e : LeaderboardEntry) : LeaderboardEntry :=
  mkEntry (le_Rank e) (le_SubmissionID e) (le_TeamName e) (le_Language e) (le_Protocol e) (le_Status e)
    (le_CompositeScore e) low medium high (le_FinalScore e) best peak (le_AvgCorrectness e)
    (le_P99LatencyMs e) (le_MaxTPS e) (le_CorrectnessScore e) (le_CompletedAt e).

Definition set_AvgCorrectness (v : float64) (e : LeaderboardEntry) : LeaderboardEntry :=
  mkEntry (le_Rank e) (le_SubmissionID e) (le_TeamName e) (le_Language e) (le_Protocol e) (le_Status e)
    (le_CompositeScore e) (le_LowScore e) (le_MediumScore e) (le_HighScore e) (le_FinalScore e)
    (le_BestP99Ms e) (le_PeakSustainedTPS e) v (le_P99LatencyMs e) (le_MaxTPS e)
    (le_CorrectnessScore e) (le_CompletedAt e).

(** [entry.BestP99Ms] and [entry.PeakSustainedTPS] after one result. *)
Definition bestP99 (best p99 : float64) : float64 :=
  if F64.gtb p99 F64.zero && (F64.eqb best F64.zero || F64.ltb p99 best) then p99 else best.
Definition peakTPS (peak tps : float64) : float64 := if F64.gtb tps peak then tps else peak.

Definition entryStep (a : entry_acc) (r : BenchmarkResults) : entry_acc :=
  let e := ea_entry a in
  let on label v old := if bool_decide (br_VolatilityLabel r = label) then v else old in
  mkEntryAcc
    (set_scores (on "low" (br_RunScore r) (le_LowScore e)) (on "medium" (br_RunScore r) (le_MediumScore e))
       (on "high" (br_RunScore r) (le_HighScore e)) (bestP99 (le_BestP99Ms e) (br_P99LatencyMs r))
       (peakTPS (le_PeakSustainedTPS e) (br_SustainedTPS r)) e)
    (F64.add (ea_sum a) (br_CorrectnessScore r)) (ea_count a + 1).

(** The entry before the loop. *)
Definition baseEntry (sub : Submission) (effectiveScore : float64) : LeaderboardEntry :=
  let res f := match s_Results sub with Some r => f r | None => F64.zero end in
  mkEntry 0 (s_ID sub) (s_TeamName sub) (s_Language sub) (s_Protocol sub) (s_Status sub)
    effectiveScore F64.zero F64.zero F64.zero (s_FinalScore sub) F64.zero F64.zero F64.zero
    (res br_P99LatencyMs) (res br_MaxTPS) (res br_CorrectnessScore) (s_CompletedAt sub).

Definition buildLeaderboardEntry (sub : Submission) (effectiveScore : float64) : LeaderboardEntry :=
  let a := foldl entryStep (mkEntryAcc (baseEntry sub effectiveScore) F64.zero 0) (s_AllResults sub) in
  if 0 <? ea_count a
  then set_AvgCorrectness (F64.div (ea_sum a) (F64.of_Z (ea_count a))) (ea_entry a)
  else ea_entry a.

(** ** BuildDedupedLeaderboard *)
Definition effectiveScoreOf (sub : Submission) : float64 :=
  if F64.eqb (s_FinalScore sub) F64.zero
  then match s_Results sub with Some r => br_CompositeScore r | None => s_FinalScore sub end
  else s_FinalScore sub.

Definition entryOf (sub : Submission) : LeaderboardEntry :=
  buildLeaderboardEntry sub (effectiveScoreOf sub).

Record candidate := mkCandidate { cd_entry : LeaderboardEntry; cd_score : float64 }.

(** The better of a team's candidate so far and a submission. *)
Definition bestStep (best : gmap string candidate) (sub : Submission) : gmap string candidate :=
  if negb (bool_decide (s_Status sub = StatusCompleted)) then best
  else
    let score := effectiveScoreOf sub in
    let entry := buildLeaderboardEntry sub score in
    let take_it := <[s_TeamName sub := mkCandidate entry score]> best in
    match best !! s_TeamName sub with
    | None => take_it
    | Some existing =>
        let isBetterScore := F64.gtb score (cd_score existing) in
        let isTiedButBetterCorrectness :=
          F64.eqb score (cd_score existing) &&
          F64.gtb (getCorrectness entry) (getCorrectness (cd_entry existing)) in
        if isBetterScore || isTiedButBetterCorrectness then take_it else best
    end.

(** The [less] of the final sort. *)
Definition rankedBefore (a b : LeaderboardEntry) : bool :=
  if negb (F64.eqb (le_CompositeScore a) (le_CompositeScore b))
  then F64.gtb (le_CompositeScore a) (le_CompositeScore b)
  else F64.gtb (getCorrectness a) (getCorrectness b).

Section leaderboard.
Context `{!SortSlice, !MapRange}.

Definition BuildDedupedLeaderboard (subs : list Submission) : list LeaderboardEntry :=
  let bestByTeam := foldl bestStep ∅ subs in
  let ranked := sort_slice rankedBefore ((λ kc, cd_entry kc.2) <$> map_range bestByTeam) in
  imap (λ i e, set_Rank (Z.of_nat i + 1) e) ranked.

(** The leaderboard of a contest, as the manual close and the event stream build it. *)
Definition contestLeaderboard (contestID : string) (subs : list Submission) : list LeaderboardEntry :=
  BuildDedupedLeaderboard (filter (λ s, s_ContestID s = contestID) subs).

(** The server's own: the contest's submissions and those of no contest. *)
Definition inServerBoard (contestID : string) (s : Submission) : bool :=
  bool_decide (s_Status s = StatusCompleted) &&
  negb (negb (bool_decide (contestID = "")) && negb (bool_decide (s_ContestID s = "")) &&
        negb (bool_decide (s_ContestID s = contestID))).

Definition buildLeaderboardEntries (contestID : string) (all : result string (list Submission))
    : list LeaderboardEntry :=
  match all with
  | Err _ => []
  | Ok all => BuildDedupedLeaderboard (filter (λ s, inServerBoard contestID s = true) all)
  end.
End leaderboard.
