(* ===== verification/LeaderboardTheorems.v ===== *)
(** * LeaderboardTheorems: each team once, with its best run, in order

    Scores are compared as floats; the theorems on the order ask that none of
    them is NaN, which JSON cannot carry. *)

From S2P Require Import Prelude Models Contest Submission Leaderboard.

(** ** Comparing entries *)
Lemma F64_eqb_ltb x y : x ≠ S754_nan → y ≠ S754_nan →
  F64.eqb x y = negb (F64.ltb x y) && negb (F64.ltb y x).
Proof.
  intros Hx Hy. unfold F64.eqb, F64.ltb, SFeqb, SFltb. rewrite (SFcompare_sym x y).
  destruct (SFcompare x y) as [[]|] eqn:E; [done..|].
  by destruct x as [[]|[]| |[] ? ?], y as [[]|[]| |[] ? ?].
Qed.

Lemma F64_gtb_eqb x y : F64.gtb x y = true → F64.eqb x y = false.
Proof.
  unfold F64.gtb, F64.ltb, F64.eqb, SFltb, SFeqb. rewrite (SFcompare_sym y x).
  by destruct (SFcompare y x) as [[]|].
Qed.

Record clean (e : LeaderboardEntry) : Prop := {
  clean_score : le_CompositeScore e ≠ S754_nan;
  clean_correctness : getCorrectness e ≠ S754_nan
}.

Lemma rankedBefore_key a b : clean a → clean b →
  rankedBefore a b = true ↔
    let ka := F64_key (le_CompositeScore a) in let kb := F64_key (le_CompositeScore b) in
    key_lt kb ka ∨
    ¬ key_lt ka kb ∧ ¬ key_lt kb ka ∧ key_lt (F64_key (getCorrectness b)) (F64_key (getCorrectness a)).
Proof.
  intros [Ha Ha'] [Hb Hb']. unfold rankedBefore, F64.gtb. cbv zeta.
  rewrite <- !F64_ltb_key, F64_eqb_ltb by done.
  pose proof (F64_gtb_asym (le_CompositeScore a) (le_CompositeScore b)) as Hasym. unfold F64.gtb in Hasym.
  destruct (F64.ltb (le_CompositeScore a) _), (F64.ltb (le_CompositeScore b) _), (F64.ltb (getCorrectness b) _);
    simpl; naive_solver.
Qed.

Lemma rankedBefore_swo l : Forall clean l → swo_on rankedBefore l.
Proof.
  rewrite Forall_forall. intros Hl. split.
  - intros x y Hx Hy. rewrite <- not_true_iff_false, !rankedBefore_key by auto. unfold key_lt.
    destruct (F64_key (le_CompositeScore x)) as [[??]?], (F64_key (le_CompositeScore y)) as [[??]?],
      (F64_key (getCorrectness x)) as [[??]?], (F64_key (getCorrectness y)) as [[??]?]. lia.
  - intros x y z Hx Hy Hz. rewrite <- !not_true_iff_false, !rankedBefore_key by auto. unfold key_lt.
    destruct (F64_key (le_CompositeScore x)) as [[??]?], (F64_key (le_CompositeScore y)) as [[??]?],
      (F64_key (le_CompositeScore z)) as [[??]?],
      (F64_key (getCorrectness x)) as [[??]?], (F64_key (getCorrectness y)) as [[??]?],
      (F64_key (getCorrectness z)) as [[??]?]. lia.
Qed.

(** ** What an entry keeps of its submission *)
Definition entry_meta (e : LeaderboardEntry) : string * string * float64 * float64 :=
  (le_SubmissionID e, le_TeamName e, le_CompositeScore e, le_FinalScore e).

Lemma foldl_entryStep_meta rs a : entry_meta (ea_entry (foldl entryStep a rs)) = entry_meta (ea_entry a).
Proof. revert a. induction rs as [|r rs IH]; intros a; simpl; [done|]. by rewrite IH. Qed.

Lemma buildLeaderboardEntry_meta sub v :
  entry_meta (buildLeaderboardEntry sub v) = (s_ID sub, s_TeamName sub, v, s_FinalScore sub).
Proof.
  unfold buildLeaderboardEntry. case_match; [change (entry_meta (set_AvgCorrectness ?v ?e)) with (entry_meta e)|];
    by rewrite foldl_entryStep_meta.
Qed.

Lemma entryOf_team sub : le_TeamName (entryOf sub) = s_TeamName sub.
Proof. pose proof (buildLeaderboardEntry_meta sub (effectiveScoreOf sub)) as Hm. by injection Hm. Qed.

Lemma entryOf_score sub : le_CompositeScore (entryOf sub) = effectiveScoreOf sub.
Proof. pose proof (buildLeaderboardEntry_meta sub (effectiveScoreOf sub)) as Hm. by injection Hm. Qed.

(** ** The best candidate of each team *)
Definition completed (s : Submission) : Prop := s_Status s = StatusCompleted.
Definition candidateOf (s : Submission) : candidate := mkCandidate (entryOf s) (effectiveScoreOf s).

(** [s] is a best submission of [team] in [l]. *)
Record best_of (l : list Submission) (team : string) (s : Submission) : Prop := {
  bo_in : s ∈ l;
  bo_completed : completed s;
  bo_team : s_TeamName s = team;
  bo_best s' : s' ∈ l → completed s' → s_TeamName s' = team → rankedBefore (entryOf s') (entryOf s) = false
}.

Definition best_ok (l : list Submission) (best : gmap string candidate) : Prop :=
  ∀ team, match best !! team with
  | None => ∀ s, s ∈ l → completed s → s_TeamName s ≠ team
  | Some c => ∃ s, c = candidateOf s ∧ best_of l team s
  end.

(** The step replaces the candidate exactly when the new entry ranks before it. *)
Lemma bestStep_eq best s : completed s →
  bestStep best s =
    match best !! s_TeamName s with
    | Some (mkCandidate e score) =>
        if (F64.gtb (effectiveScoreOf s) score ||
            F64.eqb (effectiveScoreOf s) score && F64.gtb (getCorrectness (entryOf s)) (getCorrectness e))
        then <[s_TeamName s := candidateOf s]> best else best
    | None => <[s_TeamName s := candidateOf s]> best
    end.
Proof.
  intros Hc. unfold bestStep. rewrite bool_decide_eq_true_2 by done. simpl.
  by destruct (best !! s_TeamName s) as [[e score]|].
Qed.

Lemma bestStep_other best s team : s_TeamName s ≠ team → bestStep best s !! team = best !! team.
Proof.
  intros Ht. unfold bestStep. destruct (negb _); [done|]. cbv zeta.
  destruct (best !! s_TeamName s); [destruct (_ || _)|]; rewrite ?lookup_insert_ne by done; done.
Qed.

Lemma replaces_iff s s' :
  F64.gtb (effectiveScoreOf s) (effectiveScoreOf s') ||
  F64.eqb (effectiveScoreOf s) (effectiveScoreOf s') &&
    F64.gtb (getCorrectness (entryOf s)) (getCorrectness (entryOf s')) = rankedBefore (entryOf s) (entryOf s').
Proof.
  unfold rankedBefore. rewrite !entryOf_score.
  destruct (F64.gtb (effectiveScoreOf s) _) eqn:E; [by rewrite F64_gtb_eqb|].
  by destruct (F64.eqb _ _).
Qed.

Lemma best_of_snoc_other l s team s0 :
  best_of l team s0 → (completed s → s_TeamName s = team → rankedBefore (entryOf s) (entryOf s0) = false) →
  best_of (l ++ [s]) team s0.
Proof.
  intros [Hin Hc Ht Hb] Hs. split; [set_solver|done|done|].
  intros s' [Hs'| ->%list_elem_of_singleton]%elem_of_app Hc' Ht'; auto.
Qed.

Lemma bestStep_ok l s best :
  Forall clean (entryOf <$> l ++ [s]) → best_ok l best → best_ok (l ++ [s]) (bestStep best s).
Proof.
  intros Hcl Hok team. specialize (Hok team).
  destruct (decide (completed s)) as [Hc|Hc].
  2: { unfold bestStep. rewrite bool_decide_eq_false_2 by done. simpl.
       destruct (best !! team) as [c|].
       - destruct Hok as (s0 & -> & Hb). exists s0. split; [done|]. by apply best_of_snoc_other.
       - intros s' [Hs'| ->%list_elem_of_singleton]%elem_of_app Hc'; auto. }
  rewrite bestStep_eq by done.
  assert (Hnew : s_TeamName s = team → (∀ s', s' ∈ l → completed s' → s_TeamName s' = team →
            rankedBefore (entryOf s') (entryOf s) = false) → best_of (l ++ [s]) team s).
  { intros Ht Hb. split; [set_solver|done|done|].
    intros s' [Hs'| ->%list_elem_of_singleton]%elem_of_app Hc' Ht'; [auto|].
    unfold rankedBefore. rewrite !F64_gtb_irrefl. by destruct (negb _). }
  destruct (decide (s_TeamName s = team)) as [Ht|Ht].
  - rewrite Ht. destruct (best !! team) as [c|] eqn:E.
    + destruct Hok as (s0 & -> & Hb). unfold candidateOf at 1. rewrite replaces_iff.
      destruct (rankedBefore (entryOf s) (entryOf s0)) eqn:Er.
      * rewrite lookup_insert_eq. exists s. split; [done|]. apply Hnew; [done|].
        intros s' Hs' Hc' Ht'.
        destruct (rankedBefore_swo _ Hcl) as [Hasym Htrans].
        assert (Hmem : ∀ x, x ∈ l ++ [s] → entryOf x ∈ entryOf <$> l ++ [s]).
        { intros x Hx. by apply list_elem_of_fmap_2. }
        pose proof (bo_in _ _ _ Hb).
        apply (Htrans (entryOf s) (entryOf s0) (entryOf s')); try (apply Hmem; set_solver).
        -- apply Hasym; try (apply Hmem; set_solver). done.
        -- by apply (bo_best _ _ _ Hb).
      * rewrite E. exists s0. split; [done|]. by apply best_of_snoc_other.
    + rewrite lookup_insert_eq. exists s. split; [done|]. apply Hnew; [done|].
      intros s' Hs' Hc' Ht'. by destruct (Hok s').
  - rewrite <- bestStep_eq, bestStep_other by done.
    destruct (best !! team) as [c|].
    + destruct Hok as (s0 & -> & Hb). exists s0. split; [done|]. by apply best_of_snoc_other.
    + intros s' [Hs'| ->%list_elem_of_singleton]%elem_of_app Hc'; auto.
Qed.

Lemma best_all l : Forall clean (entryOf <$> l) → best_ok l (foldl bestStep ∅ l).
Proof.
  induction l as [|s l IH] using rev_ind; intros Hcl.
  - intros team. simpl. rewrite lookup_empty. intros s Hs. set_solver.
  - rewrite foldl_snoc. apply bestStep_ok; [done|]. apply IH.
    rewrite fmap_app in Hcl. by apply Forall_app in Hcl as [].
Qed.

(** ** Ranks *)
Definition number (l : list LeaderboardEntry) : list LeaderboardEntry :=
  imap (λ i e, set_Rank (Z.of_nat i + 1) e) l.

Lemma number_lookup l i : number l !! i = set_Rank (Z.of_nat i + 1) <$> l !! i.
Proof. unfold number. by rewrite list_lookup_imap. Qed.

Lemma number_ranks l : le_Rank <$> number l = seqZ 1 (Z.of_nat (length l)).
Proof.
  apply list_eq. intros i. rewrite list_lookup_fmap, number_lookup.
  destruct (l !! i) as [e|] eqn:He; simpl; symmetry.
  - apply lookup_lt_Some in He. apply lookup_seqZ. lia.
  - apply lookup_ge_None in He. apply lookup_seqZ_ge. lia.
Qed.

Lemma number_teams l : le_TeamName <$> number l = le_TeamName <$> l.
Proof.
  apply list_eq. intros i. rewrite !list_lookup_fmap, number_lookup. by destruct (l !! i).
Qed.

Lemma number_elem l e : e ∈ number l → ∃ e0, e0 ∈ l ∧ e = set_Rank (le_Rank e) e0.
Proof.
  intros [i Hi]%list_elem_of_lookup. rewrite number_lookup in Hi.
  destruct (l !! i) as [e0|] eqn:He; [|done]. injection Hi as <-.
  exists e0. split; [by eapply list_elem_of_lookup_2|done].
Qed.

Lemma number_sorted l a b :
  sorted_by rankedBefore l → swo_on rankedBefore l → a ∈ number l → b ∈ number l →
  rankedBefore a b = true → le_Rank a < le_Rank b.
Proof.
  intros Hs Hswo [i Hi]%list_elem_of_lookup [j Hj]%list_elem_of_lookup Hab.
  rewrite number_lookup in Hi, Hj.
  destruct (l !! i) as [x|] eqn:Hx; [|done]. destruct (l !! j) as [y|] eqn:Hy; [|done].
  injection Hi as <-. injection Hj as <-. simpl. change (rankedBefore x y = true) in Hab.
  apply Z.nle_gt. intros Hle. destruct (decide (i = j)) as [->|Hne].
  - replace y with x in Hab by congruence.
    rewrite (on_asym _ _ Hswo x x) in Hab; by eauto using list_elem_of_lookup_2.
  - pose proof (sorted_lookup_lt _ _ _ _ _ _ Hs Hy Hx ltac:(lia)) as Hyx. simpl in Hyx. congruence.
Qed.

Section theorems.
Context `{!SortSlice, !MapRange}.

Definition candidates (subs : list Submission) : list LeaderboardEntry :=
  (λ kc : string * candidate, cd_entry kc.2) <$> map_range (foldl bestStep ∅ subs).

Lemma BuildDeduped_number subs :
  BuildDedupedLeaderboard subs = number (sort_slice rankedBefore (candidates subs)).
Proof. done. Qed.

Lemma candidates_elem subs e : Forall clean (entryOf <$> subs) →
  e ∈ candidates subs → ∃ s, best_of subs (s_TeamName s) s ∧ e = entryOf s.
Proof.
  intros Hcl ([team c] & -> & Hin)%list_elem_of_fmap. apply elem_of_map_range in Hin.
  pose proof (best_all subs Hcl team) as Hok. rewrite Hin in Hok.
  destruct Hok as (s & -> & Hb). exists s. by rewrite (bo_team _ _ _ Hb).
Qed.

Lemma candidates_teams subs : Forall clean (entryOf <$> subs) →
  le_TeamName <$> candidates subs = (map_range (foldl bestStep ∅ subs)).*1.
Proof.
  intros Hcl. unfold candidates. rewrite <- list_fmap_compose. apply list_fmap_ext.
  intros i [team c] Hin%list_elem_of_lookup_2%elem_of_map_range. simpl.
  pose proof (best_all subs Hcl team) as Hok. rewrite Hin in Hok.
  destruct Hok as (s & -> & Hb). simpl. by rewrite entryOf_team, (bo_team _ _ _ Hb).
Qed.

Lemma board_teams subs : Forall clean (entryOf <$> subs) →
  le_TeamName <$> BuildDedupedLeaderboard subs ≡ₚ (map_to_list (foldl bestStep ∅ subs)).*1.
Proof.
  intros Hcl. by rewrite BuildDeduped_number, number_teams, sort_slice_perm, candidates_teams, map_range_perm.
Qed.

Lemma board_team_iff subs team : Forall clean (entryOf <$> subs) →
  team ∈ le_TeamName <$> BuildDedupedLeaderboard subs ↔
  ∃ s, s ∈ subs ∧ completed s ∧ s_TeamName s = team.
Proof.
  intros Hcl. rewrite board_teams by done. pose proof (best_all subs Hcl team) as Hok. split.
  - intros ([team' c] & -> & Hin%elem_of_map_to_list)%list_elem_of_fmap. simpl in *. rewrite Hin in Hok.
    destruct Hok as (s & _ & Hs). exists s. by destruct Hs.
  - intros (s & Hs & Hc & Ht). destruct (foldl bestStep ∅ subs !! team) as [c|] eqn:E; [|by destruct (Hok s)].
    apply list_elem_of_fmap. exists (team, c). by rewrite elem_of_map_to_list.
Qed.

(** C14: The leaderboard lists every team with a completed submission exactly once,
    with a submission of the team that no other one of its completed submissions
    beats, numbers the teams from 1 without gaps, and never puts a team behind one
    that it beats on score, or on correctness at equal score. *)
Theorem leaderboard_best subs :
  Forall clean (entryOf <$> subs) →
  let board := BuildDedupedLeaderboard subs in
  le_Rank <$> board = seqZ 1 (Z.of_nat (length board)) ∧
  NoDup (le_TeamName <$> board) ∧
  (∀ s, s ∈ subs → completed s → s_TeamName s ∈ le_TeamName <$> board) ∧
  (∀ e, e ∈ board → ∃ s, best_of subs (le_TeamName e) s ∧ e = set_Rank (le_Rank e) (entryOf s)) ∧
  (∀ a b, a ∈ board → b ∈ board → rankedBefore a b = true → le_Rank a < le_Rank b).
Proof.
  intros Hcl board. pose proof (board_teams subs Hcl) as Hteams.
  pose proof (board_team_iff subs) as Hiff. fold board in Hteams, Hiff.
  assert (board = number (sort_slice rankedBefore (candidates subs))) as Hboard by done.
  clearbody board. subst board.
  set (sorted := sort_slice rankedBefore (candidates subs)) in *.
  assert (sorted ≡ₚ candidates subs) as Hp by apply sort_slice_perm.
  assert (Forall clean (candidates subs)) as Hclean.
  { apply Forall_forall. intros e (s & Hb & ->)%candidates_elem; [|done].
    rewrite Forall_forall in Hcl. apply Hcl, list_elem_of_fmap_2, (bo_in _ _ _ Hb). }
  split_and!.
  - rewrite number_ranks. do 2 f_equal. symmetry. apply length_imap.
  - rewrite Hteams. apply NoDup_fst_map_to_list.
  - intros s Hs Hc. apply Hiff; [done|]. by exists s.
  - intros e (e0 & He0 & He)%number_elem. rewrite Hp in He0.
    apply candidates_elem in He0 as (s & Hb & ->); [|done]. exists s. split; [|done].
    rewrite He. simpl. by rewrite entryOf_team.
  - intros a b. apply number_sorted.
    + apply sort_slice_sorted_on. by apply rankedBefore_swo.
    + apply rankedBefore_swo. by rewrite Hp.
Qed.

Lemma foldl_bestStep_filter (P : Submission → bool) subs best :
  (∀ s, s ∈ subs → completed s → P s = true) →
  foldl bestStep best (filter (λ s, P s = true) subs) = foldl bestStep best subs.
Proof.
  revert best. induction subs as [|s subs IH]; intros best HP; [done|].
  rewrite filter_cons. case_decide as E; simpl.
  - apply IH. set_solver.
  - rewrite IH by set_solver. f_equal. unfold bestStep. rewrite bool_decide_eq_false_2; [done|].
    intros Hc. apply E, HP; [set_solver|done].
Qed.

(** Closing a contest by hand and closing it by the server's clock freeze the same
    leaderboard as long as every submission belongs to a contest. A completed
    submission of no contest, whose team has nothing else completed there, is on the
    leaderboard of the second and not on that of the first. *)
Theorem closing_boards contestID subs :
  contestID ≠ "" →
  ((∀ s, s ∈ subs → s_ContestID s ≠ "") →
   buildLeaderboardEntries contestID (Ok subs) = contestLeaderboard contestID subs) ∧
  (Forall clean (entryOf <$> subs) → ∀ s, s ∈ subs → completed s → s_ContestID s = "" →
   (∀ s', s' ∈ subs → completed s' → s_ContestID s' = contestID → s_TeamName s' ≠ s_TeamName s) →
   s_TeamName s ∈ le_TeamName <$> buildLeaderboardEntries contestID (Ok subs) ∧
   s_TeamName s ∉ le_TeamName <$> contestLeaderboard contestID subs).
Proof.
  intros Hid. split.
  - intros Hne. unfold buildLeaderboardEntries, contestLeaderboard, BuildDedupedLeaderboard.
    assert (filter (λ s, inServerBoard contestID s = true) subs =
            filter (λ s, bool_decide (completed s) = true) (filter (λ s, s_ContestID s = contestID) subs)) as ->.
    { rewrite list_filter_filter. apply filter_ext_in. intros s Hs. unfold inServerBoard, completed.
      rewrite (bool_decide_eq_false_2 (contestID = "")), (bool_decide_eq_false_2 (s_ContestID s = "")) by auto.
      simpl. rewrite andb_true_iff, negb_involutive, !bool_decide_eq_true. naive_solver. }
    rewrite foldl_bestStep_filter; [done|]. intros s _ Hc. by apply bool_decide_eq_true.
  - intros Hcl s Hs Hc Hno Hother.
    assert (Hsub : ∀ (P : Submission → Prop) `{!∀ x, Decision (P x)},
              Forall clean (entryOf <$> filter P subs)).
    { intros P ?. rewrite Forall_forall in *. intros e (x & -> & Hx)%list_elem_of_fmap.
      apply Hcl, list_elem_of_fmap_2. by apply list_elem_of_filter in Hx as []. }
    split.
    + unfold buildLeaderboardEntries. apply board_team_iff; [apply Hsub|]. exists s.
      split; [|done]. apply list_elem_of_filter. split; [|done]. unfold inServerBoard.
      by rewrite (bool_decide_eq_true_2 _ Hc), (bool_decide_eq_true_2 _ Hno), andb_false_r.
    + unfold contestLeaderboard. rewrite board_team_iff by apply Hsub.
      intros (s' & [Hid' Hs']%list_elem_of_filter & Hc' & Ht'). by eapply Hother.
Qed.
End theorems.

(** ** The figures of an entry *)
Lemma F64_gtb_nan_l x : F64.gtb S754_nan x = false.
Proof. by destruct x as [[]|[]| |[] ? ?]. Qed.
Lemma F64_gtb_nan_r x : F64.gtb x S754_nan = false.
Proof. by destruct x as [[]|[]| |[] ? ?]. Qed.

(** A bound survives when it grows, NaN included. *)
Lemma F64_gtb_grow r p p' : F64.gtb r p = false → F64.gtb p' p = true → F64.gtb r p' = false.
Proof.
  intros Hr Hp. destruct (decide (r = S754_nan)) as [->|Hr']; [apply F64_gtb_nan_l|].
  destruct (decide (p = S754_nan)) as [->|Hp1]; [by rewrite F64_gtb_nan_r in Hp|].
  destruct (decide (p' = S754_nan)) as [->|Hp2]; [by rewrite F64_gtb_nan_l in Hp|].
  revert Hr Hp. unfold F64.gtb. rewrite <- !not_true_iff_false, !F64_ltb_key by done. unfold key_lt.
  destruct (F64_key r) as [[??]?], (F64_key p) as [[??]?], (F64_key p') as [[??]?]. lia.
Qed.

Lemma F64_eqb_zero_gtb x : F64.gtb x F64.zero = true → F64.eqb x F64.zero = false.
Proof. apply F64_gtb_eqb. Qed.

Definition lastScore (label : string) (rs : list BenchmarkResults) : float64 :=
  match last (filter (λ r, br_VolatilityLabel r = label) rs) with
  | Some r => br_RunScore r
  | None => F64.zero
  end.

(** [peak] is the greatest of the sustained rates of [rs] and zero. *)
Record is_peak (rs : list BenchmarkResults) (peak : float64) : Prop := {
  pk_bound r : r ∈ rs → F64.gtb (br_SustainedTPS r) peak = false;
  pk_reached : peak = F64.zero ∨ ∃ r, r ∈ rs ∧ peak = br_SustainedTPS r
}.

(** [best] is the least of the positive latencies of [rs], or zero without one. *)
Record is_best (rs : list BenchmarkResults) (best : float64) : Prop := {
  bs_bound r : r ∈ rs → F64.gtb (br_P99LatencyMs r) F64.zero = true →
    F64.eqb best F64.zero = false ∧ F64.ltb (br_P99LatencyMs r) best = false;
  bs_reached : best = F64.zero ∨
    ∃ r, r ∈ rs ∧ best = br_P99LatencyMs r ∧ F64.gtb best F64.zero = true
}.

Lemma peak_snoc rs r peak : is_peak rs peak → is_peak (rs ++ [r]) (peakTPS peak (br_SustainedTPS r)).
Proof.
  intros [Hb Hr]. unfold peakTPS. destruct (F64.gtb (br_SustainedTPS r) peak) eqn:E; split.
  - intros r' [Hr'| ->%list_elem_of_singleton]%elem_of_app; [|apply F64_gtb_irrefl].
    eapply F64_gtb_grow; [by apply Hb|done].
  - right. exists r. set_solver.
  - intros r' [Hr'| ->%list_elem_of_singleton]%elem_of_app; auto.
  - destruct Hr as [|(r' & ? & ?)]; [by left|right]. exists r'. set_solver.
Qed.

Lemma best_snoc rs r best : is_best rs best → is_best (rs ++ [r]) (bestP99 best (br_P99LatencyMs r)).
Proof.
  intros [Hb Hr]. unfold bestP99.
  destruct (F64.gtb (br_P99LatencyMs r) F64.zero) eqn:E; simpl.
  2: { split.
       - intros r' [Hr'| ->%list_elem_of_singleton]%elem_of_app Hpos; [auto|congruence].
       - destruct Hr as [|(r' & ? & ?)]; [by left|right]. exists r'. set_solver. }
  destruct (F64.eqb best F64.zero || F64.ltb (br_P99LatencyMs r) best) eqn:E2; split.
  - intros r' [Hr'| ->%list_elem_of_singleton]%elem_of_app Hpos.
    + split; [by apply F64_gtb_eqb|]. destruct (Hb r' Hr' Hpos) as [Hz Hlt]. rewrite Hz in E2. simpl in E2.
      destruct (F64.ltb (br_P99LatencyMs r') (br_P99LatencyMs r)) eqn:E3; [|done].
      pose proof (F64_gtb_grow best (br_P99LatencyMs r') (br_P99LatencyMs r) Hlt E3) as Hc.
      unfold F64.gtb in Hc. congruence.
    + split; [by apply F64_gtb_eqb|]. apply (F64_gtb_irrefl (br_P99LatencyMs r)).
  - right. exists r. set_solver.
  - apply orb_false_iff in E2 as [Hz Hlt].
    intros r' [Hr'| ->%list_elem_of_singleton]%elem_of_app Hpos; auto.
  - destruct Hr as [|(r' & ? & ?)]; [by left|right]. exists r'. set_solver.
Qed.

Lemma lastScore_snoc label rs r :
  lastScore label (rs ++ [r]) =
    if bool_decide (br_VolatilityLabel r = label) then br_RunScore r else lastScore label rs.
Proof.
  unfold lastScore. rewrite filter_app, filter_cons, filter_nil. case_decide as E.
  - rewrite bool_decide_eq_true_2 by done. by rewrite last_snoc.
  - rewrite bool_decide_eq_false_2 by done. by rewrite app_nil_r.
Qed.

Record figures (rs : list BenchmarkResults) (e : LeaderboardEntry) : Prop := {
  fg_low : le_LowScore e = lastScore "low" rs;
  fg_medium : le_MediumScore e = lastScore "medium" rs;
  fg_high : le_HighScore e = lastScore "high" rs;
  fg_peak : is_peak rs (le_PeakSustainedTPS e);
  fg_best : is_best rs (le_BestP99Ms e)
}.

Lemma figures_foldl sub v rs :
  let a := foldl entryStep (mkEntryAcc (baseEntry sub v) F64.zero 0) rs in
  figures rs (ea_entry a) ∧ ea_count a = Z.of_nat (length rs) ∧
  ea_sum a = foldl F64.add F64.zero (br_CorrectnessScore <$> rs).
Proof.
  induction rs as [|r rs (Hf & Hn & Hsum)] using rev_ind.
  - split; [|done]. split; simpl; try done; split; try (by left);
      intros r Hr; by apply not_elem_of_nil in Hr.
  - cbv zeta in *. rewrite foldl_snoc, fmap_app, length_app. simpl (foldl _ _ (_ ++ _)).
    rewrite foldl_app. set (a := foldl entryStep _ rs) in *. simpl. rewrite <- Hsum.
    split; [|split; [lia|done]].
    destruct Hf as [Hl Hm Hh Hp Hb].
    split; simpl; rewrite ?lastScore_snoc, <- ?Hl, <- ?Hm, <- ?Hh; try done.
    + by apply peak_snoc.
    + by apply best_snoc.
Qed.

(** The entry of a submission over all its runs: per profile the score of the last
    run, the highest sustained rate, the lowest positive p99, and the mean of the
    correctness scores; its rank key is the final score, or the composite score of
    the last run while the final score is zero. *)
Theorem leaderboard_entry sub :
  let e := entryOf sub in
  let rs := s_AllResults sub in
  figures rs e ∧
  (rs ≠ [] → le_AvgCorrectness e =
     F64.div (foldl F64.add F64.zero (br_CorrectnessScore <$> rs)) (F64.of_Z (Z.of_nat (length rs)))) ∧
  le_CompositeScore e = effectiveScoreOf sub ∧ le_FinalScore e = s_FinalScore sub ∧
  le_TeamName e = s_TeamName sub ∧ le_SubmissionID e = s_ID sub.
Proof.
  cbv zeta. pose proof (buildLeaderboardEntry_meta sub (effectiveScoreOf sub)) as Hm.
  fold (entryOf sub) in Hm. injection Hm as Hid Ht Hs Hf. rewrite Hid, Ht, Hs, Hf.
  destruct (figures_foldl sub (effectiveScoreOf sub) (s_AllResults sub)) as (Hfig & Hn & Hsum).
  unfold entryOf, buildLeaderboardEntry. rewrite Hn.
  split; [|split; [|done]].
  - destruct (0 <? _); [|done]. by destruct Hfig.
  - intros Hne. destruct (s_AllResults sub) as [|r rs]; [done|].
    replace (0 <? Z.of_nat (length (r :: rs))) with true by (symmetry; apply Z.ltb_lt; simpl; lia).
    by rewrite <- Hsum.
Qed.

(** ** The properties at concrete inputs *)
Definition ex_sub (id team contest : string) (score : Z) : Submission :=
  set_Status StatusCompleted "" (set_FinalScore (F64.of_Z score)
    (mkSubmission id team "go" "rest" "" "" contest "" 0 "" "" 0 0 0 None None [] F64.zero None)).

Definition ex_subs : list Submission :=
  [ex_sub "s1" "alpha" "c1" 50; ex_sub "s2" "beta" "c1" 70; ex_sub "s3" "alpha" "c1" 60; ex_sub "s4" "gamma" "" 80].

Lemma ex_subs_clean : Forall clean (entryOf <$> ex_subs).
Proof. repeat constructor; by vm_compute. Qed.

Lemma leaderboard_best_witness :
  (λ e, (le_TeamName e, le_SubmissionID e, le_Rank e)) <$> BuildDedupedLeaderboard ex_subs =
    [("gamma", "s4", 1); ("beta", "s2", 2); ("alpha", "s3", 3)] ∧
  NoDup (le_TeamName <$> BuildDedupedLeaderboard ex_subs).
Proof. split; [by vm_compute|]. by apply (leaderboard_best ex_subs ex_subs_clean). Defined.

Lemma closing_boards_witness :
  "gamma" ∈ le_TeamName <$> buildLeaderboardEntries "c1" (Ok ex_subs) ∧
  "gamma" ∉ le_TeamName <$> contestLeaderboard "c1" ex_subs.
Proof.
  apply (proj2 (closing_boards "c1" ex_subs ltac:(done)) ex_subs_clean (ex_sub "s4" "gamma" "" 80)).
  - unfold ex_subs. set_solver.
  - done.
  - done.
  - intros s' Hs'. unfold ex_subs in Hs'. cases_in Hs'; try done. by apply not_elem_of_nil in Hs'.
Defined.
