(* ===== verification/Bus.v ===== *)
(** * Bus: the leaderboard broadcaster ([internal/api/bus.go])

    Each subscriber has a buffered channel. Every operation holds the lock of the
    bus, so an execution is a sequence of steps; a receive takes the oldest event
    of a channel. Ids come from the UUID library and are arguments. *)

From S2P Require Import Prelude Models Contest.

(** The event on the wire. *)
Record WireEvent := mkWire {
  we_Type : string;
  we_ContestID : string;
  we_ContestName : string;
  we_Entries : list LeaderboardEntry
}.

#[export] Instance wire_eq_dec : EqDecision WireEvent.
Proof. solve_decision. Defined.

Definition subscriberChanSize : nat := 4.

(** The channels by subscriber id, each the list of the events it holds. *)
Abbreviation channels := (gmap string (list WireEvent)) (only parsing).
Definition LeaderboardBus : Type := channels.
Definition NewLeaderboardBus : channels := ∅.

Definition toWire (event : LeaderboardEvent) : WireEvent :=
  mkWire (ev_Type event) (ev_ContestID event) (ev_ContestName event) (ev_Entries event).

(** [select { case ch <- wire: default: }] *)
Definition trySend (wire : WireEvent) (ch : list WireEvent) : list WireEvent :=
  if bool_decide (length ch < subscriberChanSize)%nat then ch ++ [wire] else ch.

Definition Broadcast (event : LeaderboardEvent) (b : channels) : channels :=
  trySend (toWire event) <$> b.

Definition doSubscribe (id : string) (b : channels) : channels := <[id := []]> b.

Definition doUnsubscribe (id : string) (b : channels) : channels :=
  match b !! id with Some _ => delete id b | None => b end.

Definition SubscriberCount (b : channels) : Z := Z.of_nat (size b).

(** [<-ch] when the channel holds something. *)
Definition receive (id : string) (b : channels) : option WireEvent * channels :=
  match b !! id with
  | Some (e :: ch) => (Some e, <[id := ch]> b)
  | _ => (None, b)
  end.

Inductive bus_op :=
| BBroadcast (event : LeaderboardEvent)
| BSubscribe (id : string)
| BUnsubscribe (id : string)
| BReceive (id : string).

(** One step, with what the subscriber [BReceive] names took from its channel. *)
Definition bus_step (b : channels) (op : bus_op) : channels * list (string * WireEvent) :=
  match op with
  | BBroadcast event => (Broadcast event b, [])
  | BSubscribe id => (doSubscribe id b, [])
  | BUnsubscribe id => (doUnsubscribe id b, [])
  | BReceive id =>
      match receive id b with
      | (Some e, b) => (b, [(id, e)])
      | (None, b) => (b, [])
      end
  end.

Fixpoint bus_run (ops : list bus_op) (b : channels) : channels * list (string * WireEvent) :=
  match ops with
  | [] => (b, [])
  | op :: ops =>
      let '(b, out) := bus_step b op in
      let '(b, outs) := bus_run ops b in (b, out ++ outs)
  end.

(** ** What a subscriber gets *)
(** The events broadcast in [ops], and those that [id] received. *)
Definition broadcasts (ops : list bus_op) : list WireEvent :=
  omap (λ op, match op with BBroadcast e => Some (toWire e) | _ => None end) ops.
Definition received (id : string) (outs : list (string * WireEvent)) : list WireEvent :=
  omap (λ o, if bool_decide (o.1 = id) then Some o.2 else None) outs.

(** [id] neither comes nor goes during [ops]. *)
Definition stays (id : string) (ops : list bus_op) : Prop :=
  ∀ op, op ∈ ops → op ≠ BSubscribe id ∧ op ≠ BUnsubscribe id.

(** [id]'s channel has room at every broadcast. *)
Fixpoint keeps_up (id : string) (ops : list bus_op) (ch : list WireEvent) : bool :=
  match ops with
  | [] => true
  | BBroadcast e :: ops =>
      bool_decide (length ch < subscriberChanSize)%nat && keeps_up id ops (ch ++ [toWire e])
  | BReceive id' :: ops => keeps_up id ops (if bool_decide (id' = id) then tail ch else ch)
  | _ :: ops => keeps_up id ops ch
  end.

(** The channel of [id] along [ops]: the events that were not dropped are received
    or still there, in order. *)
Lemma bus_run_channel id ops b ch :
  stays id ops → b !! id = Some ch →
  ∃ kept ch', kept `sublist_of` broadcasts ops ∧ (bus_run ops b).1 !! id = Some ch' ∧
    ch ++ kept = received id (bus_run ops b).2 ++ ch' ∧
    (length ch ≤ subscriberChanSize → length ch' ≤ subscriberChanSize)%nat ∧
    (keeps_up id ops ch = true → kept = broadcasts ops).
Proof.
  revert b ch. induction ops as [|op ops IH]; intros b ch Hst Hch.
  { exists [], ch. simpl. rewrite app_nil_r. split_and!; try done. }
  assert (Hst' : stays id ops) by (intros o Ho; apply Hst; set_solver).
  assert (Hop : op ≠ BSubscribe id ∧ op ≠ BUnsubscribe id) by (apply Hst; set_solver).
  destruct op as [e|id'|id'|id']; cbn [bus_run bus_step].
  - (* a broadcast *)
    assert (Broadcast e b !! id = Some (trySend (toWire e) ch)) as Hch'.
    { unfold Broadcast. by rewrite lookup_fmap, Hch. }
    destruct (IH _ _ Hst' Hch') as (kept & ch' & Hsub & Hrun & Heq & Hlen & Hup).
    destruct (bus_run ops (Broadcast e b)) as [b2 outs]. simpl in *.
    unfold trySend in *. case_bool_decide as Hroom.
    + exists (toWire e :: kept), ch'. split_and!; [by constructor|done| | |].
      * rewrite <- Heq, <- app_assoc. done.
      * intros _. apply Hlen. rewrite length_app. simpl. unfold subscriberChanSize in *. lia.
      * intros Hk. by rewrite Hup.
    + exists kept, ch'. split_and!; [by constructor|done|done|done|]. done.
  - (* another subscriber *)
    assert (doSubscribe id' b !! id = Some ch) as Hch'.
    { unfold doSubscribe. rewrite lookup_insert_ne; [done|]. intros ->. by destruct Hop. }
    destruct (IH _ _ Hst' Hch') as (kept & ch' & ?). destruct (bus_run ops _) as [b2 outs]. simpl in *.
    by exists kept, ch'.
  - assert (doUnsubscribe id' b !! id = Some ch) as Hch'.
    { unfold doUnsubscribe. destruct (b !! id'); [|done].
      rewrite lookup_delete_ne; [done|]. intros ->. by destruct Hop. }
    destruct (IH _ _ Hst' Hch') as (kept & ch' & ?). destruct (bus_run ops _) as [b2 outs]. simpl in *.
    by exists kept, ch'.
  - (* a receive *)
    unfold receive. destruct (decide (id' = id)) as [->|Hne].
    + rewrite Hch. destruct ch as [|e ch].
      * destruct (IH _ _ Hst' Hch) as (kept & ch' & ?). destruct (bus_run ops b) as [b2 outs].
        simpl in *. exists kept, ch'. by rewrite bool_decide_eq_true_2.
      * assert (<[id := ch]> b !! id = Some ch) as Hch' by apply lookup_insert_eq.
        destruct (IH _ _ Hst' Hch') as (kept & ch' & Hsub & Hrun & Heq & Hlen & Hup).
        destruct (bus_run ops _) as [b2 outs]. simpl in *.
        exists kept, ch'. rewrite !bool_decide_eq_true_2 by done. simpl.
        split_and!; [done|done|by rewrite Heq| |done]. intros. apply Hlen. lia.
    + assert (∃ o b1, match b !! id' with
                | Some (e :: ch0) => (Some e, <[id' := ch0]> b) | _ => (None, b) end = (o, b1) ∧
              b1 !! id = Some ch) as (o & b1 & -> & Hch').
      { destruct (b !! id') as [[|e ch0]|]; [by exists None, b| |by exists None, b].
        exists (Some e), (<[id' := ch0]> b). by rewrite lookup_insert_ne. }
      destruct (IH _ _ Hst' Hch') as (kept & ch' & Hsub & Hrun & Heq & Hlen & Hup).
      assert (Hrest : received id (match o with Some e => [(id', e)] | None => [] end) = []).
      { destruct o; [|done]. simpl. by rewrite bool_decide_eq_false_2. }
      exists kept, ch'. simpl. rewrite bool_decide_eq_false_2 by done.
      destruct o as [e|]; destruct (bus_run ops b1) as [b2 outs]; simpl in *;
        rewrite ?bool_decide_eq_false_2 by done; by split_and!.
Qed.

(** C24: The bus never blocks and keeps its subscribers apart: from its subscription
    on, what a subscriber has received and what its channel of at most four still
    holds are together a selection of the events broadcast since, in order; nothing
    is missing as long as its channel has room at every broadcast. *)
Theorem bus_fanout id ops b :
  stays id ops →
  let '(b', outs) := bus_run ops (doSubscribe id b) in
  ∃ ch kept, b' !! id = Some ch ∧ (length ch ≤ subscriberChanSize)%nat ∧
    received id outs ++ ch = kept ∧ kept `sublist_of` broadcasts ops ∧
    (keeps_up id ops [] = true → kept = broadcasts ops).
Proof.
  intros Hst.
  destruct (bus_run_channel id ops (doSubscribe id b) [] Hst) as (kept & ch & Hsub & Hrun & Heq & Hlen & Hup).
  { apply lookup_insert_eq. }
  destruct (bus_run ops (doSubscribe id b)) as [b' outs]. simpl in *.
  exists ch, kept. split_and!; try done. apply Hlen. unfold subscriberChanSize. lia.
Qed.

Definition ex_event (t : string) : LeaderboardEvent := mkEvent t "c1" "first" [].
Definition ex_bus_ops : list bus_op :=
  [BBroadcast (ex_event "update"); BSubscribe "b"; BBroadcast (ex_event "update"); BReceive "a";
   BUnsubscribe "b"; BBroadcast (ex_event "frozen"); BReceive "a"; BReceive "a"].

Lemma ex_bus_stays : stays "a" ex_bus_ops.
Proof.
  intros op Hop. unfold ex_bus_ops in Hop. cases_in Hop; try done. by apply not_elem_of_nil in Hop.
Qed.

Lemma bus_fanout_witness :
  we_Type <$> received "a" (bus_run ex_bus_ops (doSubscribe "a" NewLeaderboardBus)).2 =
    ["update"; "update"; "frozen"] ∧
  ∃ ch kept, (bus_run ex_bus_ops (doSubscribe "a" NewLeaderboardBus)).1 !! "a" = Some ch ∧
    received "a" (bus_run ex_bus_ops (doSubscribe "a" NewLeaderboardBus)).2 ++ ch = kept ∧
    kept = broadcasts ex_bus_ops.
Proof.
  split; [by vm_compute|].
  pose proof (bus_fanout "a" ex_bus_ops NewLeaderboardBus) as Hb.
  destruct (bus_run _ _) as [b' outs]. destruct Hb as (ch & kept & Hch & _ & Heq & _ & Hup).
  - apply ex_bus_stays.
  - exists ch, kept. split_and!; [done|done|]. apply Hup. by vm_compute.
Defined.

(** A subscriber that reads nothing while five events are broadcast loses the last,
    be it the one that ends the contest. *)
Lemma frozen_event_dropped :
  we_Type <$> received "a" (bus_run ([BBroadcast (ex_event "update"); BBroadcast (ex_event "update");
      BBroadcast (ex_event "update"); BBroadcast (ex_event "update"); BBroadcast (ex_event "frozen")] ++
      repeat (BReceive "a") 10) (doSubscribe "a" NewLeaderboardBus)).2 =
    ["update"; "update"; "update"; "update"].
Proof. by vm_compute. Qed.
