(* ===== verification/Wire.v ===== *)
(** * Wire: the JSON of the program's structs

    Each struct that crosses a process boundary or the disk has here its row of tags, in
    the order of its declaration, and the tuple of its fields. What is encoded is read
    back, whoever reads it: jobs between control plane and workers, events between
    workers and the metrics consumer, submissions between a process and the next,
    frozen leaderboards and profiles in the database, orders and fills at an engine. *)

From S2P Require Import Prelude Models GoTime JsonString Codec Queue Telemetry Botfleet Contest.
From S2P Require Import Bus Worker Orchestrator Submission.

(** Tuples are taken apart one component at a time. *)
Ltac solve_row :=
  apply rowCodec_laws;
    [ repeat (apply row_snoc_laws; [|apply _]); apply row_nil_laws
    | by intros []
    | intros p; repeat match goal with q : prod _ _ |- _ => destruct q as [q ?] end; by destruct p
    | by vm_compute ].

(** ** Jobs ([queue/job.go]) *)
Definition jobRow := row_nil
  <: ("id", stringCodec) <: ("submission_id", stringCodec) <: ("team_name", stringCodec)
  <: ("language", stringCodec) <: ("protocol", stringCodec) <: ("archive_path", stringCodec)
  <: ("enqueued_at", timeCodec) <:? ("contest_id", stringCodec) <:? ("volatility_label", stringCodec)
  <:? ("remaining_profiles", sliceCodec stringCodec).

Definition jobTuple (j : Job) :=
  ((), j_ID j, j_SubmissionID j, j_TeamName j, j_Language j, j_Protocol j, j_ArchivePath j,
   j_EnqueuedAt j, j_ContestID j, j_VolatilityLabel j, j_RemainingProfiles j).

Definition jobCodec : codec Job :=
  rowCodec jobRow jobTuple (λ '(_, a, b, c, d, e, f, g, h, i, k), mkJob a b c d e f g h i k).

#[export] Instance job_laws : CodecLaws jobCodec.
Proof. solve_row. Qed.

(** ** Events ([telemetry/event.go]) *)
Definition eventRow := row_nil
  <: ("kind", stringCodec) <: ("submission_id", stringCodec) <: ("timestamp", timeCodec)
  <:? ("order_id", stringCodec) <: ("latency_ns", intCodec) <:? ("meta", mapCodec).

Definition eventTuple (e : Event) :=
  ((), e_Kind e, e_SubmissionID e, e_Timestamp e, e_OrderID e, e_LatencyNs e, e_Meta e).

Definition eventCodec : codec Event :=
  rowCodec eventRow eventTuple (λ '(_, a, b, c, d, e, f), mkTelemetryEvent a b c d e f).

#[export] Instance event_laws : CodecLaws eventCodec.
Proof. solve_row. Qed.

(** ** Results and submissions ([models/models.go]) *)
Definition resultsRow := row_nil
  <:? ("volatility_label", stringCodec) <: ("p50_latency_ms", floatCodec) <: ("p90_latency_ms", floatCodec)
  <: ("p99_latency_ms", floatCodec) <: ("max_tps", floatCodec) <: ("sustained_tps", floatCodec)
  <: ("correctness_score", floatCodec) <: ("total_orders_sent", intCodec) <: ("correct_fills", intCodec)
  <: ("incorrect_fills", intCodec) <: ("run_score", floatCodec) <: ("composite_score", floatCodec)
  <: ("benchmark_duration", stringCodec) <: ("completed_at", timeCodec).

Definition resultsTuple (r : BenchmarkResults) :=
  ((), br_VolatilityLabel r, br_P50LatencyMs r, br_P90LatencyMs r, br_P99LatencyMs r, br_MaxTPS r,
   br_SustainedTPS r, br_CorrectnessScore r, br_TotalOrders r, br_CorrectFills r, br_IncorrectFills r,
   br_RunScore r, br_CompositeScore r, br_BenchmarkDuration r, br_CompletedAt r).

Definition resultsCodec : codec BenchmarkResults :=
  rowCodec resultsRow resultsTuple
    (λ '(_, a, b, c, d, e, f, g, h, i, j, k, l, m, n), mkResults a b c d e f g h i j k l m n).

#[export] Instance results_laws : CodecLaws resultsCodec.
Proof. solve_row. Qed.
(** Results that JSON can carry: texts are UTF-8, floats are numbers but not a negative
    zero, integers and times are in range. *)
Lemma results_ok r :
  utf8 (br_VolatilityLabel r) = true → utf8 (br_BenchmarkDuration r) = true →
  Forall (c_ok floatCodec)
    [br_P50LatencyMs r; br_P90LatencyMs r; br_P99LatencyMs r; br_MaxTPS r; br_SustainedTPS r;
     br_CorrectnessScore r; br_RunScore r; br_CompositeScore r] →
  Forall is_int64 [br_TotalOrders r; br_CorrectFills r; br_IncorrectFills r] →
  in_years (br_CompletedAt r) → c_ok resultsCodec r.
Proof.
  intros Hl Hd Hf Hi Hy. apply rowCodec_ok. repeat (apply Forall_cons in Hf as [? Hf]).
  repeat (apply Forall_cons in Hi as [? Hi]). split_row; assumption.
Qed.

#[export] Instance results_never_null : NeverNull resultsCodec.
Proof. apply rowCodec_never_null. Qed.

Definition scenarioRow := row_nil
  <: ("name", stringCodec) <: ("passed", boolCodec) <:? ("reason", stringCodec).

Definition scenarioCodec : codec DryRunScenarioResult :=
  rowCodec scenarioRow (λ s, ((), ds_Name s, ds_Passed s, ds_Reason s))
    (λ '(_, a, b, c), mkDryRunScenario a b c).

#[export] Instance scenario_laws : CodecLaws scenarioCodec.
Proof. solve_row. Qed.

Definition dryRunRow := row_nil
  <: ("all_passed", boolCodec) <: ("scenarios", sliceCodec scenarioCodec) <: ("ran_at", timeCodec)
  <:? ("fail_summary", stringCodec).

Definition dryRunCodec : codec DryRunResult :=
  rowCodec dryRunRow (λ d, ((), dr_AllPassed d, dr_Scenarios d, dr_RanAt d, dr_FailSummary d))
    (λ '(_, a, b, c, d), mkDryRun a b c d).

#[export] Instance dryRun_laws : CodecLaws dryRunCodec.
Proof. solve_row. Qed.
#[export] Instance dryRun_never_null : NeverNull dryRunCodec.
Proof. apply rowCodec_never_null. Qed.

Definition submissionRow := row_nil
  <: ("id", stringCodec) <: ("team_name", stringCodec) <: ("language", stringCodec)
  <: ("protocol", stringCodec) <: ("status", stringCodec) <:? ("status_message", stringCodec)
  <:? ("contest_id", stringCodec) <:? ("archive_path", stringCodec) <: ("archive_size_bytes", intCodec)
  <:? ("container_id", stringCodec) <:? ("container_name", stringCodec) <:? ("exposed_port", intCodec)
  <: ("created_at", timeCodec) <: ("updated_at", timeCodec) <:? ("completed_at", pointerCodec timeCodec)
  <:? ("results", pointerCodec resultsCodec) <:? ("all_results", sliceCodec (nonNilCodec resultsCodec))
  <: ("final_score", floatCodec) <:? ("dry_run_result", pointerCodec dryRunCodec).

Definition submissionTuple (s : Submission) :=
  ((), s_ID s, s_TeamName s, s_Language s, s_Protocol s, s_Status s, s_StatusMsg s, s_ContestID s,
   s_ArchivePath s, s_ArchiveSize s, s_ContainerID s, s_ContainerName s, s_ExposedPort s, s_CreatedAt s,
   s_UpdatedAt s, s_CompletedAt s, s_Results s, s_AllResults s, s_FinalScore s, s_DryRunResult s).

Definition submissionCodec : codec Submission :=
  rowCodec submissionRow submissionTuple
    (λ '(_, a, b, c, d, e, f, g, h, i, j, k, l, m, n, o, p, q, r, s),
       mkSubmission a b c d e f g h i j k l m n o p q r s).

#[export] Instance submission_laws : CodecLaws submissionCodec.
Proof. solve_row. Qed.

(** What the disk gives back of a submission is [stored] of it. *)
Ltac solve_carried row :=
  lazymatch goal with |- CarriedBy ?c _ => unfold c end; unfold row; eapply rowCodec_carried; [apply _|by vm_compute|by intros []..].

#[export] Instance results_carried : CarriedBy resultsCodec storedResults.
Proof. solve_carried resultsRow. Qed.

#[export] Instance scenario_carried : CarriedBy scenarioCodec storedScenario.
Proof. solve_carried scenarioRow. Qed.

#[export] Instance dryRun_carried : CarriedBy dryRunCodec storedDryRun.
Proof. solve_carried dryRunRow. Qed.

#[export] Instance submission_carried :
  CarriedBy submissionCodec (λ s, let s := stored s in
    mkSubmission (asUTF8 (s_ID s)) (s_TeamName s) (s_Language s) (s_Protocol s) (s_Status s) (s_StatusMsg s)
      (s_ContestID s) (s_ArchivePath s) (s_ArchiveSize s) (s_ContainerID s) (s_ContainerName s) (s_ExposedPort s)
      (s_CreatedAt s) (s_UpdatedAt s) (s_CompletedAt s) (s_Results s) (s_AllResults s) (s_FinalScore s)
      (s_DryRunResult s)).
Proof.
  unfold submissionCodec, submissionRow. eapply rowCodec_carried; [apply _|by vm_compute| |by intros []].
  by intros [? ? ? ? ? ? ? ? ? ? ? ? ? ? [t|] ? ? ? ?].
Qed.

Lemma submission_ok s :
  Forall (λ t, utf8 t = true)
    [s_ID s; s_TeamName s; s_Language s; s_Protocol s; s_Status s; s_StatusMsg s; s_ContestID s; s_ArchivePath s;
     s_ContainerID s; s_ContainerName s] →
  is_int64 (s_ArchiveSize s) → is_int64 (s_ExposedPort s) →
  Forall in_years ([s_CreatedAt s; s_UpdatedAt s] ++ option_list (s_CompletedAt s)) →
  Forall (c_ok resultsCodec) (option_list (s_Results s) ++ s_AllResults s) → c_ok floatCodec (s_FinalScore s) →
  Forall (c_ok dryRunCodec) (option_list (s_DryRunResult s)) → c_ok submissionCodec s.
Proof.
  intros Ht Ha Hp Hy Hr Hf Hd. apply rowCodec_ok. repeat (apply Forall_cons in Ht as [? Ht]).
  apply Forall_cons in Hy as [? Hy]. apply Forall_cons in Hy as [? Hy]. apply Forall_app in Hr as [Hr Hall].
  assert (∀ A (c : codec A) o, Forall (c_ok c) (option_list o) → c_ok (pointerCodec c) o) as Ho.
  { intros A c [a|]; [by intros [? _]%Forall_cons|done]. }
  split_row; try assumption; [by apply (Ho _ timeCodec)|by apply Ho|by apply Ho].
Qed.

(** ** Profiles, contests and leaderboards ([models/models.go], [contest/service.go]) *)
Definition profileRow := row_nil
  <: ("label", stringCodec) <: ("bot_count", intCodec) <: ("test_duration_ns", intCodec)
  <:? ("market_data_path", stringCodec) <: ("limit_ratio", floatCodec) <: ("market_ratio", floatCodec)
  <: ("cancel_ratio", floatCodec) <: ("price_spread_cents", intCodec) <: ("max_quantity", intCodec)
  <: ("target_p99_ns", intCodec) <: ("target_sustain_tps", floatCodec) <: ("latency_weight", floatCodec)
  <: ("throughput_weight", floatCodec) <: ("correctness_weight", floatCodec).

Definition profileTuple (p : VolatilityProfile) :=
  ((), vp_Label p, vp_BotCount p, vp_TestDuration p, vp_MarketDataPath p, vp_LimitRatio p, vp_MarketRatio p,
   vp_CancelRatio p, vp_PriceSpreadCents p, vp_MaxQuantity p, vp_TargetP99Ns p, vp_TargetSustainTPS p,
   vp_LatencyWeight p, vp_ThroughputWeight p, vp_CorrectnessWeight p).

Definition profileCodec : codec VolatilityProfile :=
  rowCodec profileRow profileTuple
    (λ '(_, a, b, c, d, e, f, g, h, i, j, k, l, m, n), mkProfile a b c d e f g h i j k l m n).

#[export] Instance profile_laws : CodecLaws profileCodec.
Proof. solve_row. Qed.
#[export] Instance profile_never_null : NeverNull profileCodec.
Proof. apply rowCodec_never_null. Qed.

Definition contestRow := row_nil
  <: ("id", stringCodec) <: ("name", stringCodec) <: ("status", stringCodec)
  <: ("low_profile", profileCodec) <: ("medium_profile", profileCodec) <: ("high_profile", profileCodec)
  <: ("low_weight", floatCodec) <: ("medium_weight", floatCodec) <: ("high_weight", floatCodec)
  <:? ("submissions_closed_at", pointerCodec timeCodec) <:? ("contest_closed_at", pointerCodec timeCodec)
  <:? ("ends_at", pointerCodec timeCodec) <: ("created_at", timeCodec) <: ("updated_at", timeCodec).

Definition contestTuple (c : Contest) :=
  ((), c_ID c, c_Name c, c_Status c, c_LowProfile c, c_MediumProfile c, c_HighProfile c, c_LowWeight c,
   c_MediumWeight c, c_HighWeight c, c_SubmissionsClosedAt c, c_ContestClosedAt c, c_EndsAt c, c_CreatedAt c,
   c_UpdatedAt c).

Definition contestCodec : codec Contest :=
  rowCodec contestRow contestTuple
    (λ '(_, a, b, c, d, e, f, g, h, i, j, k, l, m, n), mkContest a b c d e f g h i j k l m n).

#[export] Instance contest_laws : CodecLaws contestCodec.
Proof. solve_row. Qed.

Definition createRow := row_nil
  <: ("name", stringCodec) <: ("use_defaults", boolCodec) <:? ("low_profile", pointerCodec profileCodec)
  <:? ("medium_profile", pointerCodec profileCodec) <:? ("high_profile", pointerCodec profileCodec)
  <: ("low_weight", floatCodec) <: ("medium_weight", floatCodec) <: ("high_weight", floatCodec)
  <:? ("ends_at", pointerCodec timeCodec).

Definition createCodec : codec CreateContestRequest :=
  rowCodec createRow
    (λ r, ((), cr_Name r, cr_UseDefaults r, cr_LowProfile r, cr_MediumProfile r, cr_HighProfile r,
           cr_LowWeight r, cr_MediumWeight r, cr_HighWeight r, cr_EndsAt r))
    (λ '(_, a, b, c, d, e, f, g, h, i), mkCreate a b c d e f g h i).

#[export] Instance create_laws : CodecLaws createCodec.
Proof. solve_row. Qed.

Definition entryRow := row_nil
  <: ("rank", intCodec) <: ("submission_id", stringCodec) <: ("team_name", stringCodec)
  <: ("language", stringCodec) <: ("protocol", stringCodec) <: ("status", stringCodec)
  <: ("composite_score", floatCodec) <: ("low_score", floatCodec) <: ("medium_score", floatCodec)
  <: ("high_score", floatCodec) <: ("final_score", floatCodec) <:? ("best_p99_ms", floatCodec)
  <:? ("peak_sustained_tps", floatCodec) <: ("avg_correctness", floatCodec) <: ("p99_latency_ms", floatCodec)
  <: ("max_tps", floatCodec) <: ("correctness_score", floatCodec) <:? ("completed_at", pointerCodec timeCodec).

Definition entryTuple (e : LeaderboardEntry) :=
  ((), le_Rank e, le_SubmissionID e, le_TeamName e, le_Language e, le_Protocol e, le_Status e,
   le_CompositeScore e, le_LowScore e, le_MediumScore e, le_HighScore e, le_FinalScore e, le_BestP99Ms e,
   le_PeakSustainedTPS e, le_AvgCorrectness e, le_P99LatencyMs e, le_MaxTPS e, le_CorrectnessScore e,
   le_CompletedAt e).

Definition entryCodec : codec LeaderboardEntry :=
  rowCodec entryRow entryTuple
    (λ '(_, a, b, c, d, e, f, g, h, i, j, k, l, m, n, o, p, q, r), mkEntry a b c d e f g h i j k l m n o p q r).

#[export] Instance entry_laws : CodecLaws entryCodec.
Proof. solve_row. Qed.
#[export] Instance entry_never_null : NeverNull entryCodec.
Proof. apply rowCodec_never_null. Qed.

(** A leaderboard: a slice of pointers. *)
Definition entriesCodec : codec (list LeaderboardEntry) := sliceCodec (nonNilCodec entryCodec).

Definition wireEventRow := row_nil
  <: ("type", stringCodec) <: ("contest_id", stringCodec) <: ("contest_name", stringCodec)
  <: ("entries", entriesCodec).

Definition wireEventCodec : codec WireEvent :=
  rowCodec wireEventRow (λ e, ((), we_Type e, we_ContestID e, we_ContestName e, we_Entries e))
    (λ '(_, a, b, c, d), mkWire a b c d).

#[export] Instance wireEvent_laws : CodecLaws wireEventCodec.
Proof. solve_row. Qed.

(** ** Workers ([worker/heartbeat.go], [orchestrator/registry.go]) *)
Definition payloadRow := row_nil
  <: ("status", stringCodec) <:? ("current_job_id", stringCodec) <: ("jobs_completed", intCodec).

Definition payloadCodec : codec heartbeatPayload :=
  rowCodec payloadRow (λ p, ((), hp_Status p, hp_CurrentJobID p, hp_JobsCompleted p))
    (λ '(_, a, b, c), mkPayload a b c).

#[export] Instance payload_laws : CodecLaws payloadCodec.
Proof. solve_row. Qed.

Definition updateRow := row_nil
  <: ("status", stringCodec) <:? ("current_job_id", stringCodec) <: ("jobs_completed", intCodec).

Definition updateCodec : codec HeartbeatUpdate :=
  rowCodec updateRow (λ u, ((), hu_Status u, hu_CurrentJobID u, hu_JobsCompleted u))
    (λ '(_, a, b, c), mkUpdate a b c).

#[export] Instance update_laws : CodecLaws updateCodec.
Proof. solve_row. Qed.

(** The request of a registration: a map at the worker, a struct at the orchestrator. *)
Definition registerBody (workerID : string) : option string := Marshal mapCodec {[ "worker_id" := workerID ]}.

Definition registerCodec : codec string :=
  rowCodec (row_nil <: ("worker_id", stringCodec)) (λ id, ((), id)) (λ '(_, id), id).

#[export] Instance register_laws : CodecLaws registerCodec.
Proof. solve_row. Qed.

Definition workerRow := row_nil
  <: ("id", stringCodec) <: ("status", stringCodec) <:? ("current_job_id", stringCodec)
  <: ("registered_at", timeCodec) <: ("last_heartbeat", timeCodec) <: ("jobs_completed", intCodec).

Definition workerCodec : codec WorkerRecord :=
  rowCodec workerRow
    (λ w, ((), w_ID w, w_Status w, w_CurrentJobID w, w_RegisteredAt w, w_LastHeartbeat w, w_JobsCompleted w))
    (λ '(_, a, b, c, d, e, f), mkWorker a b c d e f).

#[export] Instance worker_laws : CodecLaws workerCodec.
Proof. solve_row. Qed.

(** ** Orders and fills ([botfleet/bot.go], [websocket.go]) *)
Definition requestRow := row_nil
  <: ("order_id", stringCodec) <: ("kind", stringCodec) <:? ("side", stringCodec) <:? ("price", intCodec)
  <:? ("quantity", intCodec).

Definition requestCodec : codec restOrderRequest :=
  rowCodec requestRow (λ q, ((), rq_OrderID q, rq_Kind q, rq_Side q, rq_Price q, rq_Quantity q))
    (λ '(_, a, b, c, d, e), mkRestRequest a b c d e).

#[export] Instance request_laws : CodecLaws requestCodec.
Proof. solve_row. Qed.

Definition responseRow := row_nil
  <: ("order_id", stringCodec) <: ("accepted", boolCodec) <:? ("executed_price", intCodec)
  <:? ("executed_qty", intCodec).

Definition responseCodec : codec restOrderResponse :=
  rowCodec responseRow (λ p, ((), rp_OrderID p, rp_Accepted p, rp_ExecutedPrice p, rp_ExecutedQty p))
    (λ '(_, a, b, c, d), mkRestResponse a b c d).

#[export] Instance response_laws : CodecLaws responseCodec.
Proof. solve_row. Qed.
