(* ===== verification/Pipeline.v ===== *)
(** * Pipeline: components joined by the JSON between them

    Producers and consumers with the coders of [Wire] in place of an argument: the
    telemetry of a run up to the windows in the table, jobs over the jobs topic,
    submissions on the disk, and heartbeats to the orchestrator. *)

From S2P Require Import Prelude Models GoTime JsonString Json JsonTheorems Codec Wire Botfleet StatsTheorems.
From S2P Require Import Queue Redpanda Submission SubmissionTheorems Disk DiskTheorems.
From S2P Require Import Telemetry Consumer ConsumerTheorems World Logic Executor Scoring.
From S2P Require Import Bus FloatText GoStrings OrderBook ExecutorTheorems Worker Orchestrator OrchestratorTheorems.

(** ** Telemetry: from the answers of an engine to the table of windows *)
(** The emitter of a worker after some batches, and the values on a topic. *)
Definition emitAll (batches : list (list Event)) (r : RedpandaEmitter) : RedpandaEmitter :=
  foldl (λ r b, (BatchEmit (Marshal eventCodec) false b r).2) r batches.

Definition topicValues (topic : string) (r : RedpandaEmitter) : list string :=
  p_Value <$> filter (λ p, p_Topic p = topic) (re_produced r).

(** An event that is accepted, and that JSON can carry. *)
Definition wire_event (e : Event) : Prop := Validate e = None ∧ c_ok eventCodec e.

Lemma event_ok e :
  utf8 (e_Kind e) = true → utf8 (e_SubmissionID e) = true → in_years (e_Timestamp e) →
  utf8 (e_OrderID e) = true → is_int64 (e_LatencyNs e) →
  map_Forall (λ k s, utf8 k = true ∧ utf8 s = true) (e_Meta e) → c_ok eventCodec e.
Proof. intros. apply rowCodec_ok. by split_and!. Qed.

Definition payloadOfEvent (e : Event) : produced := record_of e (default "" (Marshal eventCodec e)).

Lemma BatchEmit_wire m events r :
  re_closed r = false → Forall wire_event events →
  ∃ kinds, (BatchEmit (Marshal eventCodec) m events r).2 =
    mkEmitter false (re_produced r ++ (payloadOfEvent <$> events)) kinds.
Proof.
  intros Hr He. destruct events as [|e0 es0]; [exists (re_kinds r); destruct r; simpl in *; subst; by rewrite app_nil_r|].
  set (events := e0 :: es0) in *.
  assert (buildRecords (Marshal eventCodec) events = ([], payloadOfEvent <$> events)) as Hb.
  { clearbody events. induction He as [|e es [Hv Hok] _ IH]; [done|]. cbn [buildRecords fmap list_fmap].
    rewrite IH, Hv. destruct (Marshal_read eventCodec e Hok) as (s & Hs & _).
    assert (payloadOfEvent e = record_of e s) as -> by (unfold payloadOfEvent; by rewrite Hs). by rewrite Hs. }
  unfold BatchEmit. fold events. rewrite Hr. change (e0 :: es0) with events. rewrite Hb.
  eexists. simpl. reflexivity.
Qed.

Lemma emitAll_wire batches r :
  re_closed r = false → Forall wire_event (concat batches) →
  re_produced (emitAll batches r) = re_produced r ++ (payloadOfEvent <$> concat batches).
Proof.
  revert r. induction batches as [|b batches IH]; intros r Hr; simpl; [by rewrite app_nil_r|].
  intros [Hb Hbs]%Forall_app. destruct (BatchEmit_wire false b r Hr Hb) as [kinds Hk].
  change (emitAll (b :: batches) r) with (emitAll batches (BatchEmit (Marshal eventCodec) false b r).2).
  rewrite Hk, IH by done. simpl. by rewrite fmap_app, app_assoc.
Qed.

(** What a reader of the latency topic decodes: every event but the heartbeats. *)
Lemma decode_latency es :
  Forall wire_event es →
  counted (Unmarshal eventCodec) (p_Value <$> filter (λ p, p_Topic p = TopicLatency) (payloadOfEvent <$> es)) =
    filter (λ e, e_Kind e ≠ KindHeartbeat) es.
Proof.
  unfold counted. induction 1 as [|e es [Hv Hok] _ IH]; [done|]. rewrite fmap_cons, !filter_cons.
  destruct (Marshal_read eventCodec e Hok) as (s & Hs & Hu & _).
  assert (p_Topic (payloadOfEvent e) = TopicLatency ↔ e_Kind e ≠ KindHeartbeat) as Ht.
  { apply Validate_kind in Hv. unfold isKnownKind in Hv. apply bool_decide_eq_true in Hv. simpl.
    rewrite !elem_of_cons, elem_of_nil in Hv. destruct_or! Hv; try done; rewrite Hv; by split. }
  assert (Unmarshal eventCodec (p_Value (payloadOfEvent e)) = Some e) as Hp.
  { change (p_Value (payloadOfEvent e)) with (default "" (Marshal eventCodec e)). rewrite Hs. exact Hu. }
  destruct (decide (e_Kind e ≠ KindHeartbeat)), (decide (p_Topic (payloadOfEvent e) = TopicLatency)); try tauto.
  rewrite fmap_cons. cbn [omap list_omap]. rewrite Hp, filter_cons, IH. by case_decide.
Qed.

(** The answered orders of a run: their events can be sent. *)
Definition wire_results (id : string) (rs : list OrderResult) : Prop :=
  utf8 id = true ∧ id ≠ "" ∧
  Forall (λ r, utf8 (o_ID (or_Order r)) = true ∧ o_ID (or_Order r) ≠ "" ∧ utf8 (o_Kind (or_Order r)) = true ∧
               utf8 (o_Side (or_Order r)) = true ∧ zero_time < or_SentAt r ∧ in_years (or_SentAt r) ∧
               0 ≤ or_LatencyNs r ≤ int64_max) rs.

Lemma eventKind_known r : eventKind r ∈ [KindOrderAck; KindFill; KindCancelAck; KindReject].
Proof. unfold eventKind. repeat case_match; set_solver. Qed.

Lemma eventOf_wire id rs :
  wire_results id rs → Forall wire_event (eventOf id <$> rs).
Proof.
  intros (Hid & Hne & Hrs). apply Forall_fmap. apply (Forall_impl _ _ _ Hrs). clear rs Hrs.
  intros r (Ho & Hone & Hk & Hs & Hz & Hy & Hl). pose proof (eventKind_known r) as Hkind. split.
  - unfold Validate. simpl. rewrite (bool_decide_eq_false_2 (id = "")) by done.
    rewrite (proj2 (Z.eqb_neq _ _)) by lia. rewrite (proj2 (Z.ltb_ge _ _)) by lia.
    rewrite (bool_decide_eq_false_2 (o_ID _ = "")) by done. rewrite andb_false_r.
    rewrite !elem_of_cons, elem_of_nil in Hkind. by destruct_or! Hkind; rewrite ?Hkind.
  - apply event_ok; simpl; try done.
    + rewrite !elem_of_cons, elem_of_nil in Hkind. by destruct_or! Hkind; rewrite ?Hkind.
    + unfold is_int64, int64_min, int64_max in *. lia.
    + repeat apply map_Forall_insert_2; try done. by destruct (f_Accepted _).
Qed.

(** The latencies of the answered orders that were sent in a bucket, in order. *)
Definition latenciesIn (b : time) (rs : list OrderResult) : list Z :=
  or_LatencyNs <$> filter (λ r, Truncate (or_SentAt r) WindowDuration = b) (successes rs).

(** The first of them that were sent one after the other, in the order of the results. *)
Definition firstLatenciesIn (b : time) (rs : list OrderResult) : list Z :=
  or_LatencyNs <$> first_run (λ r, Truncate (or_SentAt r) WindowDuration) b (successes rs).

Lemma stretch_events id id' b (rs : list OrderResult) :
  stretch id' b (eventOf id <$> rs) =
    if decide (id' = id) then or_LatencyNs <$> first_run (λ r, Truncate (or_SentAt r) WindowDuration) b rs else [].
Proof.
  unfold stretch. destruct (decide (id' = id)) as [->|Hne].
  - assert (filter (λ e, e_SubmissionID e = id) (eventOf id <$> rs) = eventOf id <$> rs) as ->.
    { induction rs as [|r rs IH]; [done|]. by rewrite fmap_cons, filter_cons, decide_True, IH. }
    by rewrite first_run_fmap, <- list_fmap_compose.
  - assert (filter (λ e, e_SubmissionID e = id') (eventOf id <$> rs) = []) as ->; [|done].
    induction rs as [|r rs IH]; [done|]. rewrite fmap_cons, filter_cons, decide_False by (simpl; congruence). done.
Qed.

Lemma counted_events id (rs : list OrderResult) : filter (λ e, e_Kind e ≠ KindHeartbeat) (eventOf id <$> rs) = eventOf id <$> rs.
Proof.
  induction rs as [|r rs IH]; [done|]. rewrite fmap_cons, filter_cons, IH, decide_True; [done|].
  pose proof (eventKind_known r) as Hk. simpl. rewrite !elem_of_cons, elem_of_nil in Hk. by destruct_or! Hk; rewrite Hk.
Qed.

Lemma latency_records id (rs : list OrderResult) :
  filter (λ p, p_Topic p = TopicLatency) (payloadOfEvent <$> (eventOf id <$> rs : list Event)) =
    payloadOfEvent <$> (eventOf id <$> rs).
Proof.
  induction rs as [|r rs IH]; [done|]. rewrite !fmap_cons, filter_cons, IH, decide_True; [done|].
  pose proof (eventKind_known r) as Hk. simpl. rewrite !elem_of_cons, elem_of_nil in Hk. by destruct_or! Hk; rewrite Hk.
Qed.

Lemma Truncate_mono t t' d : 0 < d → t ≤ t' → Truncate t d ≤ Truncate t' d.
Proof.
  intros Hd Ht. unfold Truncate. rewrite !(proj2 (Z.leb_gt _ _)) by done.
  pose proof (Z.div_le_mono (t - zero_time) (t' - zero_time) d Hd ltac:(lia)).
  pose proof (Z.div_mod (t - zero_time) d). pose proof (Z.div_mod (t' - zero_time) d). nia.
Qed.

Lemma firstLatencies_sorted b (rs : list OrderResult) :
  StronglySorted (λ r r', or_SentAt r ≤ or_SentAt r') (successes rs) → firstLatenciesIn b rs = latenciesIn b rs.
Proof.
  intros Hs. unfold firstLatenciesIn, latenciesIn. f_equal. apply first_run_sorted.
  apply (StronglySorted_impl _ _ _ (λ r r' Hle, Truncate_mono _ _ WindowDuration eq_refl Hle) Hs).
Qed.


(** ** Jobs over the jobs topic *)
Definition jobMarshal (j : Job) : result string string :=
  match Marshal jobCodec j with Some s => Ok s | None => Err "json" end.

(** A job that JSON can carry. *)
Definition wire_job (j : Job) : Prop :=
  Forall (λ s, utf8 s = true)
    ([j_ID j; j_SubmissionID j; j_TeamName j; j_Language j; j_Protocol j; j_ArchivePath j; j_ContestID j;
      j_VolatilityLabel j] ++ j_RemainingProfiles j) ∧
  in_years (j_EnqueuedAt j).

Lemma job_ok j : wire_job j → c_ok jobCodec j.
Proof.
  intros [Ht Hy]. apply rowCodec_ok. apply Forall_app in Ht as [Ht Hr].
  repeat (apply Forall_cons in Ht as [? Ht]). by split_and!.
Qed.

Lemma enqueue_wire j :
  wire_job j → ∃ s, rpEnqueue jobMarshal None j = (None, [Redpanda.mkProduced TopicJobs (j_SubmissionID j) s]) ∧
    Unmarshal jobCodec s = Some j.
Proof.
  intros Hj%job_ok. destruct (Marshal_read jobCodec j Hj) as (s & Hs & Hu & _). exists s. split; [|done].
  unfold rpEnqueue, jobMarshal. by rewrite Hs.
Qed.

(** The values of the records that the jobs are enqueued as. *)
Definition jobValues (js : list Job) : list string :=
  pr_Value <$> concat ((λ j, (rpEnqueue jobMarshal None j).2) <$> js).

Lemma jobValues_read js :
  Forall wire_job js → Unmarshal jobCodec <$> jobValues js = Some <$> js.
Proof.
  unfold jobValues. induction 1 as [|j js Hj _ IH]; [done|]. cbn [fmap list_fmap concat].
  destruct (enqueue_wire j Hj) as (s & Hs & Hu). rewrite Hs. cbn [snd app fmap list_fmap pr_Value].
  rewrite Hu. f_equal. exact IH.
Qed.


(** ** Heartbeats *)
(** The texts of URLs: the worker's id is put in as it is. *)
Definition registerURL (base : string) : string := base +:+ "/internal/workers/register".
Definition heartbeatURL (base id : string) : string := base +:+ "/internal/workers/" +:+ id +:+ "/heartbeat".

(** Where a request ends: at one of the two handlers, the second with an id. *)
Inductive endpoint := ToRegister | ToHeartbeat (id : string).

(** An id of characters that mean themselves in a URL, and not a dot segment. *)
Definition unreserved (c : Ascii.ascii) : bool :=
  let n := Ascii.N_of_ascii c in
  ((97 <=? n) && (n <=? 122) || (65 <=? n) && (n <=? 90) || (48 <=? n) && (n <=? 57) ||
   (n =? 45) || (n =? 46) || (n =? 95) || (n =? 126))%N.

Fixpoint all_unreserved (s : string) : bool :=
  match s with EmptyString => true | String c s => unreserved c && all_unreserved s end.

Definition plain_id (id : string) : bool :=
  all_unreserved id && negb (bool_decide (id ∈ [""; "."; ".."])).

(** The HTTP client, the server and its router: what becomes of a POST to a URL. It ends
    at a handler, or is answered with a status without one, or has no answer. *)
Abbreviation router := (string → result (option Z) endpoint) (only parsing).

(** What the router promises: the two patterns of [router.go] match, and an id without
    special characters is matched as it is. *)
Class WorkerRoutes (route : router) (base : string) : Prop := {
  route_register : route (registerURL base) = Ok ToRegister;
  route_heartbeat id : plain_id id = true → route (heartbeatURL base id) = Ok (ToHeartbeat id)
}.

(** The requests of [Worker] as bytes to a URL, answered by the handler of [Orchestrator]. *)
Definition serveWorkers (route : router) (now : time) (url body : string) (r : gmap string WorkerRecord)
    : option Z * gmap string WorkerRecord :=
  match route url with
  | Err status => (status, r)
  | Ok ToRegister =>
      let '(rep, r) := handle now (PostRegister (DecodeText registerCodec body)) r in (Some (reply_status rep), r)
  | Ok (ToHeartbeat id) =>
      let '(rep, r) := handle now (PostHeartbeat id (DecodeText updateCodec body)) r in
      (Some (reply_status rep), r)
  end.

Definition postRegisterJSON (route : router) (base : string) (now : time) (workerID : string)
    : gmap string WorkerRecord → option Z * gmap string WorkerRecord :=
  serveWorkers route now (registerURL base) (default "" (registerBody workerID)).

Definition postBeatJSON (route : router) (base : string) (now : time) (workerID : string) (p : heartbeatPayload)
    : gmap string WorkerRecord → option Z * gmap string WorkerRecord :=
  serveWorkers route now (heartbeatURL base workerID) (default "" (Marshal payloadCodec p)).

Lemma register_body id : utf8 id = true → DecodeText registerCodec (default "" (registerBody id)) = Some id.
Proof.
  intros Hid. unfold registerBody, Marshal. simpl c_enc. rewrite map_to_list_singleton.
  set (v := JObj _). change (default "" (print (compact true) 0 <$> Some v)) with (print (compact true) 0 v).
  assert (wf_json v = true) as Hw by (unfold v; simpl; by rewrite Hid).
  pose proof (print_Decode (compact true) v "" (compact_ok true) Hw I) as Hr. rewrite string_app_nil_r in Hr.
  unfold DecodeText. by rewrite Hr.
Qed.

Lemma beat_body p :
  utf8 (hp_Status p) = true → utf8 (hp_CurrentJobID p) = true → is_int64 (hp_JobsCompleted p) →
  DecodeText updateCodec (default "" (Marshal payloadCodec p)) =
    Some (mkUpdate (hp_Status p) (hp_CurrentJobID p) (hp_JobsCompleted p)).
Proof.
  intros Hs Hj Hn. set (u := mkUpdate _ _ _).
  assert (Marshal payloadCodec p = Marshal updateCodec u) as -> by done.
  assert (c_ok updateCodec u) as Hu by (apply rowCodec_ok; by split_and!).
  destruct (Marshal_read updateCodec u Hu) as (s & -> & _ & Hd). done.
Qed.

Lemma unreserved_ascii id : all_unreserved id = true → ascii id = true.
Proof.
  induction id as [|c id IH]; [done|]. intros [Hc Hid]%andb_prop. simpl. rewrite IH by done. rewrite andb_true_r.
  unfold unreserved, code in *. set (n := Ascii.N_of_ascii c) in *. clearbody n. apply N.ltb_lt.
  rewrite !orb_true_iff, !andb_true_iff, !N.leb_le, !N.eqb_eq in Hc. lia.
Qed.

Lemma plain_utf8 id : plain_id id = true → utf8 id = true ∧ id ≠ "".
Proof.
  unfold plain_id. intros [Hid Hne]%andb_prop. split; [by apply ascii_utf8, unreserved_ascii|].
  intros ->. done.
Qed.

(** A worker and the routes to the registry. *)
Section routed.
Context (route : router) (base : string) {Hroutes : WorkerRoutes route base}.

Lemma postRegister_JSON now id r : utf8 id = true → postRegisterJSON route base now id r = postRegister now id r.
Proof. intros Hid. unfold postRegisterJSON, serveWorkers, postRegister. by rewrite route_register, register_body. Qed.

Lemma beat_JSON now id st r :
  plain_id id = true → utf8 (hb_CurrentJobID st) = true → is_int64 (hb_JobsCompleted st) →
  beat (postRegisterJSON route base now) (postBeatJSON route base now) id st r =
    beat (postRegister now) (postBeat now) id st r.
Proof.
  intros Hid Hj Hn. apply plain_utf8 in Hid as Hu. destruct Hu as [Hu _].
  assert (postBeatJSON route base now id (payloadOf st) r = postBeat now id (payloadOf st) r) as Hb.
  { unfold postBeatJSON, serveWorkers, postBeat. rewrite route_heartbeat by done.
    rewrite beat_body; [done|by unfold payloadOf; destruct (hb_Busy st)|done..]. }
  unfold beat, hb_register. rewrite Hb. destruct (postBeat _ _ _ _) as [[code|] r']; [|done].
  by rewrite postRegister_JSON.
Qed.

(** C21: Whatever the registry knows of a worker, even nothing after a restart of the
    control plane, one beat makes the worker registered and alive without an error, and
    the next beat puts its own report on record, through the JSON of both requests: a
    map and a struct at the worker, two other structs at the orchestrator. The id goes
    into the URL of a beat as it is, so this is of ids of letters, digits and [-._~],
    which the router matches as they are; see [beat_unrouted] for others. *)
Theorem heartbeat_json id now now' st st' r :
  plain_id id = true →
  Forall (λ s, utf8 (hb_CurrentJobID s) = true ∧ is_int64 (hb_JobsCompleted s)) [st; st'] →
  let '(e, r1) := beat (postRegisterJSON route base now) (postBeatJSON route base now) id st r in
  e = None ∧ (∃ w, r1 !! id = Some w ∧ ∀ t, t - now ≤ HeartbeatTTL → IsAlive t w = true) ∧
  let '(e', r2) := beat (postRegisterJSON route base now') (postBeatJSON route base now') id st' r1 in
  e' = None ∧ ∃ w, r2 !! id = Some w ∧ w_LastHeartbeat w = now' ∧
    w_Status w = (if hb_Busy st' then "busy" else "idle") ∧
    w_CurrentJobID w = hb_CurrentJobID st' ∧ w_JobsCompleted w = hb_JobsCompleted st'.
Proof.
  intros Hid [[Hj Hn] [[Hj' Hn'] _]%Forall_cons]%Forall_cons. rewrite beat_JSON by done.
  pose proof (heartbeat_recovers id now now' st st' r (proj2 (plain_utf8 id Hid))) as Hb.
  destruct (beat (postRegister now) (postBeat now) id st r) as [e r1]. rewrite beat_JSON by done. exact Hb.
Qed.

(** A worker whose beats match no route, as with a slash in its id, is registered anew by
    each of them, without an error: it is listed as alive and idle whatever it does. *)
Lemma beat_unrouted now id st r :
  route (heartbeatURL base id) = Err (Some 404) → utf8 id = true → id ≠ "" →
  let '(e, r') := beat (postRegisterJSON route base now) (postBeatJSON route base now) id st r in
  e = None ∧ ∃ w, r' !! id = Some w ∧ w_Status w = WorkerStatusIdle ∧ w_CurrentJobID w = "" ∧
    w_JobsCompleted w = 0 ∧ w_LastHeartbeat w = now.
Proof.
  intros Hr Hu Hne. unfold beat, postBeatJSON, serveWorkers. rewrite Hr. cbn. unfold hb_register.
  rewrite postRegister_JSON by done. unfold postRegister, handle, handleRegister, Register.
  rewrite bool_decide_eq_false_2 by done.
  destruct (r !! id) as [w|]; simpl; (split; [done|]); rewrite lookup_insert, decide_True by done; by eexists.
Qed.
End routed.

(** Routes as those of [router.go]: an id is what stands between two slashes. *)
Definition segmentRoutes (base : string) : router := λ url,
  match Split slash (TrimPrefix url (base +:+ "/internal/workers/")) with
  | [p] => if bool_decide (p = "register") then Ok ToRegister else Err (Some 405)
  | [id; p] => if bool_decide (p = "heartbeat") then Ok (ToHeartbeat id) else Err (Some 404)
  | _ => Err (Some 404)
  end.

#[export] Instance segmentRoutes_ok base : WorkerRoutes (segmentRoutes base) base.
Proof.
  assert (∀ s, base +:+ ("/internal/workers/" +:+ s) = (base +:+ "/internal/workers/") +:+ s) as Hb
    by (intros s; by rewrite string_app_assoc).
  split; unfold segmentRoutes, registerURL, heartbeatURL.
  - change "/internal/workers/register" with ("/internal/workers/" +:+ "register"). by rewrite Hb, TrimPrefix_app.
  - intros id [Hid _]%andb_prop. rewrite Hb, TrimPrefix_app.
    change "/heartbeat" with (String slash "heartbeat"). rewrite Split_app; [done|].
    induction id as [|c id IH]; [done|]. simpl in *. apply andb_prop in Hid as [Hc Hid]. rewrite IH by done.
    rewrite bool_decide_eq_false_2 by (by intros ->). done.
Qed.

(** ** Submissions on the disk *)
(** [writeJSON] with the encoder of [Submission]: a value without a text makes it fail
    at the step that encodes. *)
Definition encodeSubmission (sub : Submission) : string := default "" (EncodeIndent submissionCodec sub).
Definition decodeSubmission : string → option Submission := DecodeText submissionCodec.

Definition json_Save (ev : save_env) (sub : Submission) (t : gmap string entry) : option string * gmap string entry :=
  let fails st :=
    sv_fails ev st ||
    match st with Encode => bool_decide (EncodeIndent submissionCodec sub = None) | _ => false end in
  disk_Save encodeSubmission (mkSaveEnv (sv_mkdirFails ev) fails (sv_tmp ev)) sub t.

(** What is read back of a submission whose texts may be anything is [stored] of it. *)
Lemma submission_read sub :
  c_ok submissionCodec (stored sub) →
  is_Some (EncodeIndent submissionCodec sub) ∧ decodeSubmission (encodeSubmission sub) = Some (stored sub).
Proof.
  intros Hs. assert (asUTF8 (s_ID sub) = s_ID sub) as Hid.
  { apply asUTF8_id. apply rowCodec_ok in Hs. simpl in Hs. by destruct_and! Hs. }
  destruct (EncodeIndent_carried submissionCodec _ sub submission_carried) as (s & He & Hd).
  { simpl. rewrite Hid. exact Hs. }
  unfold encodeSubmission, decodeSubmission. rewrite He. split; [by eexists|]. simpl in *. rewrite Hd, Hid. done.
Qed.

(** C5: The directory tree with its JSON files implements the map of the submission store,
    for every submission whose numbers and times JSON can carry and whatever its texts:
    reading one is looking it up among those that can be read, a listing is a listing of
    them, newest first, a save that succeeds inserts it, field by field, with U+FFFD for
    what is not UTF-8, and a save that fails at any step, the encoder's included,
    changes nothing that can be read. A submission without a text, with a score that is
    not a number say, is never saved. *)
Theorem disk_json_refines `{!SortSlice, !MapRange} t :
  let readable := readable decodeSubmission in
  (∀ id, disk_Get decodeSubmission false id t = Get id (readable t)) ∧
  (∃ l l', disk_List decodeSubmission false (λ _, false) t = Ok l ∧ List false (readable t) = Ok l' ∧ l ≡ₚ l' ∧
     sorted_by (λ a b, s_CreatedAt b <? s_CreatedAt a) l) ∧
  (∀ ev sub, c_ok submissionCodec (stored sub) ∨ EncodeIndent submissionCodec sub = None →
     files (s_ID sub) t !! sv_tmp ev = None →
     let '(e, t') := json_Save ev sub t in
     let '(e', s') := Save (bool_decide (e ≠ None)) sub (readable t) in
     (e = None ↔ e' = None) ∧ readable t' = s' ∧ (EncodeIndent submissionCodec sub = None → e ≠ None)).
Proof.
  cbn zeta. destruct (disk_refines encodeSubmission decodeSubmission (λ sub, c_ok submissionCodec (stored sub)) t)
    as (Hg & Hl & Hs); [intros sub Hok; by apply submission_read|].
  split_and!; [done..|]. intros ev sub Hok Htmp. unfold json_Save. set (ev' := mkSaveEnv _ _ _).
  destruct (decide (EncodeIndent submissionCodec sub = None)) as [Hn|Hn].
  - assert (Encode ∈ write_steps) as Hin by (right; by left).
    pose proof (disk_Save_fails encodeSubmission decodeSubmission ev' sub t Encode Htmp Hin) as Hf.
    destruct (disk_Save encodeSubmission ev' sub t) as [e t']. destruct Hf as [He Hr].
    { change (sv_fails ev Encode || bool_decide (EncodeIndent submissionCodec sub = None) = true).
      rewrite bool_decide_eq_true_2 by exact Hn. apply orb_true_r. }
    rewrite bool_decide_eq_true_2 by done. unfold Save. split_and!; [by split|done..].
  - destruct Hok as [Hok|]; [|done]. specialize (Hs ev' sub Hok Htmp).
    destruct (disk_Save encodeSubmission ev' sub t) as [e t'].
    destruct (Save _ _ _) as [e' s']. destruct Hs as [He Hr]. split_and!; done.
Qed.

(** A submission that JSON carries as it is is stored as it is. *)
Lemma wire_stored sub : c_ok submissionCodec sub → stored sub = sub.
Proof.
  intros Hs. pose proof (carried_ok (c := submissionCodec) sub Hs) as Hc. simpl in Hc.
  rewrite <- Hc at 2. unfold stored. f_equal. symmetry. apply rowCodec_ok in Hs. simpl in Hs.
  apply asUTF8_id. by destruct_and! Hs.
Qed.

(** ** Names that are not UTF-8 *)
(** An upload of a team whose name is no UTF-8, and the tree behind it. *)
Definition raw_request : SubmitRequest := mkSubmitRequest (String (chr 255) "") "go" "rest".
Definition saved_by (r : result ingest_error Submission) : gmap string entry :=
  match r with Ok sub => (json_Save (mkSaveEnv false (λ _, false) ".meta-1.json.tmp") sub ∅).2 | Err _ => ∅ end.

(** The metadata has another name, so the team may upload again at once, against the
    rule of one submission under way. *)
Lemma raw_team_name_evades :
  let s := readable decodeSubmission (saved_by (Ingest sample_images sample_env raw_request 10 ∅).1.1) in
  is_ok (Ingest sample_images sample_env raw_request 10 s).1.1 = true ∧
  option_map (λ sub, (s_TeamName sub, s_ContestID sub, IsTerminal (s_Status sub))) (s !! ev_uuid sample_env) =
    Some (replacement, c_ID sample_contest, false).
Proof. by vm_compute. Qed.

(** ** The event stream *)
(** [writeSSEEvent]: what it writes for an event. *)
Definition writeSSEEvent (e : WireEvent) : string :=
  match Marshal wireEventCodec e with
  | Some data => "data: " +:+ data +:+ newline +:+ newline
  | None => ""
  end.

(** A client of the stream, as an [EventSource] reads it: line by line, an empty line
    dispatches the data that came before it. *)
Fixpoint dispatch (lines : list string) (data : option string) : list string :=
  match lines with
  | [] => []
  | line :: lines =>
      if bool_decide (line = "") then
        match data with Some d => d :: dispatch lines None | None => dispatch lines None end
      else if HasPrefix line "data: " then
        let d := drop_string 6 line in
        dispatch lines (Some (match data with Some d0 => d0 +:+ newline +:+ d | None => d end))
      else dispatch lines data
  end.

Definition readSSE (s : string) : list string := dispatch (Split (chr 10) s) None.

Lemma Split_line line s : printable line = true → Split (chr 10) (line +:+ newline +:+ s) = line :: Split (chr 10) s.
Proof.
  intros Hl. change (newline +:+ s) with (String (chr 10) s). apply Split_app.
  induction line as [|c line IH]; [done|]. simpl in *. apply andb_prop in Hl as [Hc Hl]. rewrite IH by done.
  by rewrite bool_decide_eq_false_2 by (intros ->; done).
Qed.

(** C27: A client of the leaderboard stream gets the events that were sent, each whole and
    nothing else: whatever the names of contests and teams hold, the JSON of an event is
    one line, so that no text can end an event early or forge another. *)
Theorem sse_stream_read es :
  Forall (c_ok wireEventCodec) es →
  Unmarshal wireEventCodec <$> readSSE (String.concat "" (writeSSEEvent <$> es)) = Some <$> es.
Proof.
  intros Hes. unfold readSSE. assert (∀ l : list string, String.concat "" l = foldr String.append "" l) as Hcat.
  { intros l. induction l as [|s [|t l] IH]; [done|simpl; by rewrite string_app_nil_r|].
    change (String.concat "" (s :: t :: l)) with (s +:+ String.concat "" (t :: l)). by rewrite IH. }
  rewrite Hcat. induction Hes as [|e es He _ IH]; [done|].
  destruct (Marshal_read wireEventCodec e He) as (s & Hs & Hu & _).
  pose proof (Marshal_printable wireEventCodec e s He Hs) as Hp.
  rewrite !fmap_cons. cbn [foldr]. unfold writeSSEEvent at 1. rewrite Hs, !string_app_assoc.
  rewrite <- (string_app_assoc "data: "), Split_line by (by rewrite printable_app, Hp).
  pose proof (Split_line "" (foldr String.append "" (writeSSEEvent <$> es)) eq_refl) as Hn.
  change ("" +:+ ?x) with x in Hn. rewrite Hn. cbn [dispatch].
  rewrite bool_decide_eq_false_2 by done.
  assert (HasPrefix ("data: " +:+ s) "data: " = true) as -> by apply prefix_app. cbn [dispatch].
  rewrite bool_decide_eq_true_2 by done. rewrite fmap_cons, IH. change (drop_string 6 ("data: " +:+ s)) with s.
  by rewrite Hu.
Qed.

(** ** The properties at concrete inputs *)
Definition ex_sent : time := 1779000000 * Second.
Definition ex_run : list OrderResult :=
  [mkOrderResult (mkBotOrder "o1" KindLimit SideBuy 10000 5) (mkBotFill "o1" 0 0 true) ex_sent (ex_sent + 40) 40 None;
   mkOrderResult (mkBotOrder "o2" KindLimit SideBuy 10000 5) zeroFill (ex_sent + 1) zero_time 0 (Some "timeout");
   mkOrderResult (mkBotOrder "o3" KindMarket SideSell 0 5) (mkBotFill "o3" 10000 5 true) (ex_sent + 9 * Second)
     (ex_sent + 9 * Second + 70) 70 None].

Definition ex_job (label : string) (rest : list string) : Job :=
  mkJob ("s1/" +:+ label) "s1" "équipe" "go" "rest" "/data/s1/archive.zip" ex_sent "c1" label rest.

Definition ex_text (j : Job) : string := default "" (Marshal jobCodec j).

Lemma in_years_sent n : 0 ≤ n ≤ Minute → in_years (ex_sent + n).
Proof. intros Hn. apply in_years_between. unfold ex_sent, zero_time, Minute, Second in *. lia. Qed.

Lemma in_years_now : in_years ex_sent.
Proof. rewrite <- (Z.add_0_r ex_sent). apply in_years_sent. unfold Minute, Second. lia. Qed.

Lemma ex_answered : ∃ r r', successes ex_run = [r; r'] ∧ or_SentAt r = ex_sent + 0 ∧
  or_SentAt r' = ex_sent + 9 * Second ∧ or_LatencyNs r = 40 ∧ or_LatencyNs r' = 70 ∧
  Forall (λ r, utf8 (o_ID (or_Order r)) = true ∧ o_ID (or_Order r) ≠ "" ∧ utf8 (o_Kind (or_Order r)) = true ∧
               utf8 (o_Side (or_Order r)) = true) [r; r'].
Proof. do 2 eexists. split; [reflexivity|]. split_and!; try done. by repeat constructor. Qed.

Lemma ex_run_wire : wire_results "s1" (successes ex_run) ∧
  StronglySorted (λ r r', or_SentAt r ≤ or_SentAt r') (successes ex_run).
Proof.
  destruct ex_answered as (r & r' & -> & Hs & Hs' & Hl & Hl' & [H1 [H2 _]%Forall_cons]%Forall_cons).
  assert (∀ n, 0 ≤ n ≤ Minute → zero_time < ex_sent + n ∧ in_years (ex_sent + n)) as Ht.
  { intros n Hn. split; [unfold ex_sent, zero_time, Minute, Second in *; lia|by apply in_years_sent]. }
  split.
  - split; [done|]. split; [done|]. rewrite !Forall_cons, Hs, Hs', Hl, Hl'.
    destruct (Ht 0) as [? ?]; [unfold Minute, Second; lia|].
    destruct (Ht (9 * Second)) as [? ?]; [unfold Minute, Second; lia|].
    destruct_and! H1. destruct_and! H2. split_and!; first [assumption|unfold int64_max; lia|constructor].
  - repeat constructor. rewrite Hs, Hs'. unfold Second. lia.
Qed.

Lemma ex_latencies :
  latenciesIn (Truncate (ex_sent + 0) WindowDuration) ex_run = [40] ∧
  latenciesIn (Truncate (ex_sent + 9 * Second) WindowDuration) ex_run = [70].
Proof. by vm_compute. Qed.



Lemma heartbeat_json_witness :
  let base := "http://control-plane:8080" in
  (beat (postRegisterJSON (segmentRoutes base) base 7) (postBeatJSON (segmentRoutes base) base 7) "worker-1"
     (mkHeartbeat true "sub-1" 3) ∅).1 = None.
Proof.
  intros base.
  assert (Forall (λ s, utf8 (hb_CurrentJobID s) = true ∧ is_int64 (hb_JobsCompleted s))
    [mkHeartbeat true "sub-1" 3; mkHeartbeat false "" 4]) as Hs.
  { apply Forall_cons. split; [|apply Forall_singleton]; (split; [reflexivity|simpl; solve_int64]). }
  pose proof (heartbeat_json (segmentRoutes base) base "worker-1" 7 8 (mkHeartbeat true "sub-1" 3)
    (mkHeartbeat false "" 4) ∅ eq_refl Hs) as Hb.
  destruct (beat _ _ _ _ _) as [e r]. destruct Hb as [Hb _]. exact Hb.
Defined.

(** A finished submission with scores that are no decimals. *)
Definition ex_results : BenchmarkResults :=
  mkResults "low" (F64.lit 31 10) (F64.lit 1 3) F64.one (F64.of_Z 51000) (F64.of_Z 49999) (F64.lit 2 3)
    120000 119998 2 (F64.lit 7 10) (F64.of_Z 70) "1m0.000000001s" ex_sent.
Definition ex_finished : Submission :=
  mkSubmission "s1" "<équipe & co>" "go" "rest" StatusCompleted "" "c1" "/data/s1/archive.zip" 4096 "" "" 0
    ex_sent ex_sent (Some ex_sent) None [ex_results] (F64.lit 2345 100) (Some (mkDryRun true [] ex_sent "")).


Lemma ex_finished_ok : c_ok submissionCodec ex_finished.
Proof.
  assert (∀ x s, FormatFloat x = Some s → x ≠ S754_zero true → c_ok floatCodec x) as Hf by (intros; by split; [|eexists]).
  apply submission_ok.
  - by repeat constructor.
  - change (is_int64 4096). solve_int64.
  - change (is_int64 0). solve_int64.
  - change (Forall in_years [ex_sent; ex_sent; ex_sent]). repeat (apply Forall_cons; split; [exact in_years_now|]).
    constructor.
  - change (Forall (c_ok resultsCodec) [ex_results]). apply Forall_singleton. apply results_ok.
    + reflexivity.
    + reflexivity.
    + repeat (apply Forall_cons; split; [eapply Hf; [vm_compute; reflexivity|discriminate]|]). constructor.
    + change (Forall is_int64 [120000; 119998; 2]). repeat (apply Forall_cons; split; [solve_int64|]). constructor.
    + exact in_years_now.
  - eapply Hf; [vm_compute; reflexivity|discriminate].
  - change (Forall (c_ok dryRunCodec) [mkDryRun true [] ex_sent ""]). apply Forall_singleton. apply rowCodec_ok.
    split_row; [exact I|constructor|exact in_years_now|reflexivity].
Qed.

Lemma disk_json_refines_witness :
  let ev := mkSaveEnv false (λ _, false) ".meta-1.json.tmp" in
  let '(e, t') := json_Save ev ex_finished ∅ in
  e = None ∧ readable decodeSubmission t' = {["s1" := ex_finished]}.
Proof.
  intros ev. destruct (disk_json_refines ∅) as (_ & _ & Hs).
  pose proof (wire_stored _ ex_finished_ok) as Hfix. pose proof ex_finished_ok as Hok. rewrite <- Hfix in Hok.
  specialize (Hs ev ex_finished (or_introl Hok) eq_refl).
  destruct (json_Save ev ex_finished ∅) as [e t'] eqn:Hj.
  assert (e = None) as -> by (change e with (e, t').1; rewrite <- Hj; by vm_compute).
  rewrite bool_decide_eq_false_2 in Hs by naive_solver. destruct Hs as (_ & Hr & _). split; [done|].
  rewrite Hr, Hfix. unfold readable. by rewrite omap_empty.
Defined.

(** A contest whose name tries to end its event and start another. *)
Definition ex_forger : WireEvent :=
  mkWire "update" "c1" ("spring" +:+ newline +:+ newline +:+ "data: {}" +:+ newline +:+ newline) [].

Lemma sse_stream_read_witness :
  Unmarshal wireEventCodec <$> readSSE (String.concat "" (writeSSEEvent <$> [ex_forger; ex_forger])) =
    [Some ex_forger; Some ex_forger].
Proof.
  assert (c_ok wireEventCodec ex_forger) as Hok by (apply rowCodec_ok; split_row; [reflexivity..|constructor]).
  apply (sse_stream_read [ex_forger; ex_forger]). by repeat (apply Forall_cons; split; [exact Hok|]).
Defined.
