(* ===== verification/Api.v ===== *)
(** * Api: the handlers of the control plane ([internal/api/router.go])

    A handler is a function from the decoded request and the state it may touch to
    a status code with a body. Matching requests to routes is the router library's;
    [NewRouter] says what is mounted. Response headers and log lines are left out. *)

From S2P Require Import Prelude Models GoStrings Queue Submission Contest Scenarios Validator.
From S2P Require Import Bus Leaderboard.

(** ** Replies *)
Inductive body :=
| BSubmission (s : Submission)
| BSubmissions (count : Z) (subs : list Submission)
| BTeam (name : string) (count : Z) (subs : list Submission)
| BLeaderboard (count : Z) (entries : list LeaderboardEntry)
| BContestBoard (id : string) (count : Z) (entries : list LeaderboardEntry)
| BContest (c : Contest)
| BContests (count : Z) (cs : list Contest)
| BStatus (status id : string)
| BImages (images : gmap string string)
| BValidation (r : ValidationResult)
| BError (code : string).

Record api_reply := mkReply { ar_Status : Z; ar_Body : body }.

Definition writeError (status : Z) (code : string) : api_reply := mkReply status (BError code).
Definition writeJSON (status : Z) (b : body) : api_reply := mkReply status b.

(** ** classifyError *)
(** The sentinel an error wraps, if any, and its text. *)
Inductive sentinel :=
| IsSubmissionInProgress
| IsContestNotActive
| IsNoActiveContest
| IsAlreadyActive
| IsWrongStatus
| IsNotFound.

Definition classifyError (wraps : option sentinel) (msg : string) : Z * string :=
  match wraps with
  | Some IsSubmissionInProgress => (409, "SUBMISSION_IN_PROGRESS")
  | Some IsContestNotActive => (409, "CONTEST_NOT_ACTIVE")
  | Some IsNoActiveContest => (409, "NO_ACTIVE_CONTEST")
  | Some IsAlreadyActive => (409, "CONTEST_ALREADY_ACTIVE")
  | Some IsWrongStatus => (409, "CONTEST_WRONG_STATUS")
  | Some IsNotFound => (404, "NOT_FOUND")
  | None =>
      if Contains msg "required" || Contains msg "unsupported" || Contains msg "invalid" ||
         Contains msg "no sandbox image"
      then (400, "VALIDATION_ERROR")
      else (500, "INTERNAL_ERROR")
  end.

Definition classified (wraps : option sentinel) (msg : string) : api_reply :=
  let '(code, apiErr) := classifyError wraps msg in writeError code apiErr.

(** The errors of [submission] and [contest], as their services wrap and word them. *)
Definition modelsSentinel (e : models_error) : sentinel :=
  match e with
  | ErrNoActiveContest => IsNoActiveContest
  | ErrSubmissionInProgress => IsSubmissionInProgress
  | ErrContestNotActive => IsContestNotActive
  end.

Definition ingestSentinel (e : ingest_error) : option sentinel :=
  match e with ErrModels e => Some (modelsSentinel e) | _ => None end.

Definition modelsText (e : models_error) : string :=
  match e with
  | ErrNoActiveContest => "no active contest"
  | ErrSubmissionInProgress => "a submission from this team is already being evaluated"
  | ErrContestNotActive => "contest is not accepting submissions"
  end.

Definition ingestText (e : ingest_error) : string :=
  match e with
  | ErrLanguage l => "unsupported language " +:+ quoted l +:+ " (valid: go, rust, cpp, python, binary)"
  | ErrProtocol p => "unsupported protocol " +:+ quoted p +:+ " (valid: rest, websocket, fix)"
  | ErrTeamName => "team_name is required"
  | ErrNoImage l => "no sandbox image configured for language " +:+ quoted l
  | ErrModels e => modelsText e
  | ErrGuardList e => "submission guard: list failed: " +:+ e
  | ErrArchive e => "store archive: " +:+ e
  | ErrSave e => "save metadata: " +:+ e
  | ErrEnqueue e => "enqueue job: " +:+ e
  end.

Definition storeSentinel (e : cs_error) : option sentinel :=
  match e with
  | ErrNotFound => Some IsNotFound
  | ErrNoActive => Some IsNoActiveContest
  | ErrDuplicateContest | ErrInfra _ => None
  end.

Definition svcSentinel (e : svc_error) : option sentinel :=
  match e with
  | ErrAlreadyActive => Some IsAlreadyActive
  | ErrWrongStatus _ => Some IsWrongStatus
  | ErrStore e => storeSentinel e
  | ErrNameRequired | ErrProfilesRequired => None
  end.

Definition storeText (e : cs_error) : string :=
  match e with
  | ErrNotFound => "contest: record not found"
  | ErrDuplicateContest => "contest: duplicate contest ID"
  | ErrNoActive => "no active contest"
  | ErrInfra msg => msg
  end.

(** The text after the operation's own prefix, [prefix]. *)
Definition svcText (prefix : string) (e : svc_error) : string :=
  match e with
  | ErrNameRequired => "contest name is required"
  | ErrProfilesRequired => "all three volatility profiles are required when use_defaults=false"
  | ErrAlreadyActive => "contest: another contest is already active"
  | ErrWrongStatus st =>
      "contest: contest is not in the required status for this transition: has status " +:+ st
  | ErrStore e => prefix +:+ storeText e
  end.

(** ** The admin guard *)
(** [None] passes the request on. *)
Definition adminAuth (apiKey auth : string) : option api_reply :=
  if negb (HasPrefix auth "Bearer ") then Some (writeError 401 "UNAUTHORIZED")
  else if negb (bool_decide (TrimPrefix auth "Bearer " = apiKey)) then Some (writeError 401 "UNAUTHORIZED")
  else None.

(** ** What is mounted *)
Record route := mkRoute { rt_Method : string; rt_Path : string; rt_Admin : bool }.

Definition GET (p : string) : route := mkRoute "GET" p false.
Definition POST (p : string) : route := mkRoute "POST" p false.

(** The optional parts of [NewRouter], and whether an admin key is set. *)
Definition NewRouter (orchHandler contestSvc validatorFactory bus : bool) (AdminAPIKey : string)
    : list route :=
  [GET "/metrics"; GET "/health"; GET "/api/v1/images"; GET "/api/v1/submissions";
   POST "/api/v1/submissions"; GET "/api/v1/submissions/{id}"; POST "/api/v1/submissions/{id}/stop"] ++
  (if validatorFactory then [POST "/api/v1/submissions/{id}/validate"] else []) ++
  [GET "/api/v1/leaderboard"] ++
  (if bus then [GET "/api/v1/leaderboard/stream"] else []) ++
  (if contestSvc then [GET "/api/v1/teams/{name}/submissions"] else []) ++
  (if contestSvc && negb (bool_decide (AdminAPIKey = "")) then
     [mkRoute "POST" "/api/v1/admin/contests" true; mkRoute "GET" "/api/v1/admin/contests" true;
      mkRoute "POST" "/api/v1/admin/contests/{id}/activate" true;
      mkRoute "POST" "/api/v1/admin/contests/{id}/close" true;
      mkRoute "GET" "/api/v1/admin/contests/{id}/leaderboard" true]
   else []) ++
  (if orchHandler then
     [POST "/internal/workers/register"; POST "/internal/workers/{id}/heartbeat";
      GET "/internal/workers"; GET "/internal/workers/stats"]
   else []).

(** ** Paths as metric labels *)
Fixpoint containsDigit (s : string) : bool :=
  match s with EmptyString => false | String c s => isDigit c || containsDigit s end.

Definition normalisePart (p : string) : string :=
  if (8 <? String.length p)%nat && (has_byte (Ascii.ascii_of_N 45) p || containsDigit p) then "{id}" else p.

Definition normalisePath (path : string) : string := Join slash (normalisePart <$> Split slash path).

(** ** The rate limiter of validations *)
Definition validationWindow : duration := 2 * Minute.

(** [sync.Map] of the time of the last request that was let through. *)
Abbreviation id_times := (gmap string time) (only parsing).
Definition limiter : Type := id_times.

(** [allow] is two operations on the map: [LoadOrStore], and for an entry that is old
    enough a [Store]. Each is one step; what comes between them of another request is
    [allow_race] of [ApiTheorems]. *)
Definition LoadOrStore (now : time) (id : string) (l : id_times) : option time * id_times :=
  match l !! id with
  | Some last => (Some last, l)
  | None => (None, <[id := now]> l)
  end.

Definition allowLoaded (window : duration) (now : time) (id : string) (loaded : option time) (l : id_times)
    : bool * id_times :=
  match loaded with
  | None => (true, l)
  | Some last => if window <=? now - last then (true, <[id := now]> l) else (false, l)
  end.

Definition allow (window : duration) (now : time) (id : string) (l : id_times) : bool * id_times :=
  let '(loaded, l) := LoadOrStore now id l in allowLoaded window now id loaded l.

Definition retryAfter (window : duration) (now : time) (id : string) (l : id_times) : duration :=
  match l !! id with
  | None => 0
  | Some last => let remaining := window - (now - last) in if 0 <? remaining then remaining else 0
  end.

Definition revoke (id : string) (l : id_times) : id_times := delete id l.

(** The [Retry-After] header in seconds. *)
Definition retryAfterHeader (d : duration) : Z := d / Second + 1.

Section handlers.
Context `{!SortSlice, !MapRange}.

(** ** Validation *)
(** [run url id] is what the runner for [url] answers. The handler is one step: the limiter
    is not touched while the runner runs, so runs may overlap, but the steps of another
    request between [LoadOrStore] and the last check are left out. *)
Definition validate (run : string → string → result run_error ValidationResult) (canceled : bool)
    (sandboxHost : string) (now : time) (id : string) (s : gmap string Submission)
    (l : id_times) : api_reply * option Z * id_times :=
  match Get id s with
  | Err _ => (writeError 404 "NOT_FOUND", None, l)
  | Ok sub =>
      let '(allowed, l) := allow validationWindow now id l in
      if negb allowed
      then (writeError 429 "TOO_MANY_REQUESTS", Some (retryAfterHeader (retryAfter validationWindow now id l)), l)
      else if negb (bool_decide (s_Status sub = StatusRunning))
      then (writeError 409 "WRONG_STATUS", None, revoke id l)
      else if s_ExposedPort sub <=? 0
      then (writeError 409 "CONTAINER_NOT_READY", None, revoke id l)
      else
        let targetURL := "http://" +:+ sandboxHost +:+ ":" +:+ pretty (Z.to_N (s_ExposedPort sub)) in
        match run targetURL id with
        | Ok r => (writeJSON 200 (BValidation r), None, l)
        | Err _ =>
            if canceled then (writeError 408 "VALIDATION_CANCELED", None, l)
            else (writeError 500 "VALIDATION_ERROR", None, l)
        end
  end.

(** ** Submissions *)
Definition createSubmission (formOk archiveOk : bool) (team language protocol : string) (images : Images)
    (ev : ingest_env) (size : Z) (s : gmap string Submission)
    : api_reply * gmap string Submission * list Job :=
  if negb formOk then (writeError 400 "INVALID_FORM", s, [])
  else
    let req := mkSubmitRequest (TrimSpace team) (ToLower (TrimSpace language)) (ToLower (TrimSpace protocol)) in
    if negb archiveOk then (writeError 400 "MISSING_ARCHIVE", s, [])
    else match Ingest images ev req size s with
    | (Err e, s, jobs) => (classified (ingestSentinel e) (ingestText e), s, jobs)
    | (Ok sub, s, jobs) => (writeJSON 201 (BSubmission sub), s, jobs)
    end.

Definition getSubmission (id : string) (s : gmap string Submission) : api_reply :=
  match Get id s with
  | Err _ => writeError 404 "NOT_FOUND"
  | Ok sub => writeJSON 200 (BSubmission sub)
  end.

Definition listSubmissions (readDirFails : bool) (s : gmap string Submission) : api_reply :=
  match List readDirFails s with
  | Err _ => writeError 500 "LIST_ERROR"
  | Ok subs => writeJSON 200 (BSubmissions (Z.of_nat (length subs)) subs)
  end.

Definition stopSubmission (stop : option string) (fails : bool) (now : time) (id : string)
    (s : gmap string Submission) : api_reply * gmap string Submission :=
  match StopContainer stop fails now id s with
  | (Some err, s) => (writeError (if Contains err "not found" then 404 else 500) "STOP_ERROR", s)
  | (None, s) => (writeJSON 200 (BStatus "stopped" id), s)
  end.

Definition listImages (c : Images) : api_reply :=
  writeJSON 200 (BImages (list_to_map
    [("go", ImageGo c); ("rust", ImageRust c); ("cpp", ImageCpp c); ("python", ImagePython c);
     ("binary", ImageBinary c)])).

Definition teamHistory (name : string) (readDirFails : bool) (s : gmap string Submission) : api_reply :=
  if bool_decide (name = "") then writeError 400 "MISSING_TEAM_NAME"
  else match List readDirFails s with
  | Err _ => writeError 500 "LIST_ERROR"
  | Ok all =>
      let team := filter (λ s, s_TeamName s = name) all in
      writeJSON 200 (BTeam name (Z.of_nat (length team)) team)
  end.

Definition leaderboard (readDirFails : bool) (s : gmap string Submission) : api_reply :=
  match List readDirFails s with
  | Err _ => writeError 500 "LEADERBOARD_ERROR"
  | Ok subs =>
      let entries := BuildDedupedLeaderboard subs in
      writeJSON 200 (BLeaderboard (Z.of_nat (length entries)) entries)
  end.

(** ** Contests *)
Section contests.
Context {S : Type} `{!ContestStoreOps S}.

Definition createContest (req : option CreateContestRequest) (uuid : string) (now : time) (cs : S)
    : api_reply * S :=
  match req with
  | None => (writeError 400 "INVALID_JSON", cs)
  | Some req =>
      match Create uuid now req cs with
      | (Err e, cs) => (classified (svcSentinel e) (svcText "contest: save: " e), cs)
      | (Ok c, cs) => (writeJSON 201 (BContest c), cs)
      end
  end.

Definition listContests (cs : S) : api_reply :=
  match cs_List cs with
  | Err _ => writeError 500 "LIST_ERROR"
  | Ok all => writeJSON 200 (BContests (Z.of_nat (length all)) all)
  end.

Definition activateContest (now : time) (id : string) (cs : S) : api_reply * S :=
  match Activate now id cs with
  | (Err e, cs) => (classified (svcSentinel e) (svcText "contest: get: " e), cs)
  | (Ok c, cs) => (writeJSON 200 (BContest c), cs)
  end.

(** The leaderboard that a manual close freezes: empty when the list fails. *)
Definition closeEntries (id : string) (subs : result string (list Submission)) : list LeaderboardEntry :=
  match subs with
  | Err _ => []
  | Ok subs => contestLeaderboard id subs
  end.

Definition closeContest (now : time) (id : string) (subs : result string (list Submission)) (cs : S)
    : api_reply * list LeaderboardEvent * S :=
  match Close now id (closeEntries id subs) cs with
  | (Some e, evs, cs) => (classified (svcSentinel e) (svcText "contest: get: " e), evs, cs)
  | (None, evs, cs) => (writeJSON 200 (BStatus "closed" id), evs, cs)
  end.

Definition getContestLeaderboard (id : string) (cs : S) : api_reply :=
  match cs_GetLeaderboardSnapshot id cs with
  | Err e => classified (storeSentinel e) ("contest: get snapshot: " +:+ storeText e)
  | Ok entries => writeJSON 200 (BContestBoard id (Z.of_nat (length entries)) entries)
  end.

(** ** The event stream *)
(** What the select of the loop sees: the client is gone, an event, a closed channel. *)
Inductive stream_input := StreamDone | StreamEvent (e : WireEvent) | StreamClosed.

(** The events written, and whether the handler has returned. *)
Fixpoint streamLoop (inputs : list stream_input) : list WireEvent * bool :=
  match inputs with
  | [] => ([], false)
  | StreamDone :: _ | StreamClosed :: _ => ([], true)
  | StreamEvent e :: inputs =>
      if bool_decide (we_Type e = "frozen") then ([e], true)
      else let '(out, ended) := streamLoop inputs in (e :: out, ended)
  end.

(** The most recently created of the closed contests. *)
Definition mostRecent (past : list Contest) : option Contest :=
  foldl (λ recent c, match recent with
                     | None => Some c
                     | Some r => if c_CreatedAt r <? c_CreatedAt c then Some c else recent
                     end) None past.

(** The stream for a client: the snapshot of the active contest and then the events,
    or one frozen event. *)
Definition stream (subs : result string (list Submission)) (cs : S) (inputs : list stream_input)
    : list WireEvent * bool :=
  match cs_GetActive cs with
  | Ok active =>
      let snapshot :=
        match subs with
        | Ok subs =>
            [mkWire "update" (c_ID active) (c_Name active) (contestLeaderboard (c_ID active) subs)]
        | Err _ => []
        end in
      let '(out, ended) := streamLoop inputs in (snapshot ++ out, ended)
  | Err _ =>
      match ListPast cs with
      | Ok past =>
          match mostRecent past with
          | Some recent =>
              match cs_GetLeaderboardSnapshot (c_ID recent) cs with
              | Ok snapshot => ([mkWire "frozen" (c_ID recent) (c_Name recent) snapshot], true)
              | Err _ => ([mkWire "frozen" (c_ID recent) (c_Name recent) []], true)
              end
          | None => ([mkWire "frozen" "" "" []], true)
          end
      | Err _ => ([mkWire "frozen" "" "" []], true)
      end
  end.
End contests.
End handlers.
