(* ===== verification/ApiTheorems.v ===== *)
(** * ApiTheorems: guards, status codes and the event stream of the API *)

From S2P Require Import Prelude Models GoStrings Queue Submission Contest ContestTheorems Scenarios Validator.
From S2P Require Import Bus Leaderboard LeaderboardTheorems Api.

(** ** The admin routes *)
Lemma adminAuth_iff apiKey auth : adminAuth apiKey auth = None ↔ auth = "Bearer " +:+ apiKey.
Proof.
  unfold adminAuth. split.
  - destruct (HasPrefix auth "Bearer ") eqn:E; [|done]. apply HasPrefix_spec in E as [r ->].
    rewrite TrimPrefix_app. simpl. case_bool_decide; [by subst|done].
  - intros ->. rewrite (proj2 (HasPrefix_spec ("Bearer " +:+ apiKey) "Bearer ")) by eauto.
    rewrite TrimPrefix_app. simpl. by rewrite bool_decide_eq_true_2.
Qed.

(** Every mounted admin route is behind the key check and no other route is; the
    routes are mounted only when a key is configured; and the check lets through
    exactly the requests with that key as their bearer token. *)
Theorem admin_routes_guarded orch contestSvc validator bus key :
  (∀ r, r ∈ NewRouter orch contestSvc validator bus key →
    rt_Admin r = HasPrefix (rt_Path r) "/api/v1/admin" ∧ (rt_Admin r = true → key ≠ "")) ∧
  (∀ auth, adminAuth key auth = None ↔ auth = "Bearer " +:+ key).
Proof.
  split; [|apply adminAuth_iff]. intros r Hr. unfold NewRouter in Hr.
  assert (Hkey : contestSvc && negb (bool_decide (key = "")) = true → key ≠ "").
  { intros [_ Hk%negb_true_iff%bool_decide_eq_false]%andb_true_iff. done. }
  destruct (contestSvc && negb (bool_decide (key = ""))).
  - specialize (Hkey eq_refl).
    destruct validator, bus, contestSvc, orch; simpl in Hr; cases_in Hr;
      first [by split | by apply not_elem_of_nil in Hr].
  - destruct validator, bus, contestSvc, orch; simpl in Hr; cases_in Hr;
      first [by split | by apply not_elem_of_nil in Hr].
Qed.

(** ** The rate limiter *)
(** One validate request: when, for whom, and what it meets. *)
Record vrequest := mkVRequest {
  vq_now : time; vq_id : string; vq_store : gmap string Submission;
  vq_run : string → string → result run_error ValidationResult; vq_canceled : bool
}.

Definition serve_validate (q : vrequest) (l : gmap string time) : api_reply * option Z * gmap string time :=
  validate (vq_run q) (vq_canceled q) "localhost" (vq_now q) (vq_id q) (vq_store q) l.

(** The validator was run. *)
Definition ran (r : api_reply) : bool := bool_decide (ar_Status r ∈ [200; 408; 500]).

(** The runs of a sequence of requests: who, and when. *)
Fixpoint validate_runs (qs : list vrequest) (l : gmap string time) : list (string * time) :=
  match qs with
  | [] => []
  | q :: qs =>
      let '(r, _, l) := serve_validate q l in
      if ran r then (vq_id q, vq_now q) :: validate_runs qs l else validate_runs qs l
  end.

(** From [now] on, [id] is not run before [t] plus the window. *)
Definition blocked (l : gmap string time) (now : time) (id : string) (t : time) : Prop :=
  t + validationWindow ≤ now ∨ ∃ last, l !! id = Some last ∧ t ≤ last.

(** A request that is not let through leaves the limiter alone; one that is puts its
    time there, and takes the entry away again unless the validator runs. *)
Lemma serve_validate_limiter q l :
  let '(r, _, l') := serve_validate q l in
  let l1 := <[vq_id q := vq_now q]> l in
  ran r = false ∧ l' = l ∨
  (∀ last, l !! vq_id q = Some last → last + validationWindow ≤ vq_now q) ∧
    (ran r = false ∧ l' = delete (vq_id q) l1 ∨ l' = l1).
Proof.
  unfold serve_validate, validate. destruct (Get _ _) as [sub|e]; [|by left].
  assert (Hgo : ∀ r h l', (if negb (bool_decide (s_Status sub = StatusRunning))
      then (writeError 409 "WRONG_STATUS", None, revoke (vq_id q) (<[vq_id q := vq_now q]> l))
      else if s_ExposedPort sub <=? 0
      then (writeError 409 "CONTAINER_NOT_READY", None, revoke (vq_id q) (<[vq_id q := vq_now q]> l))
      else match vq_run q ("http://" +:+ "localhost" +:+ ":" +:+ pretty (Z.to_N (s_ExposedPort sub))) (vq_id q) with
        | Ok r => (writeJSON 200 (BValidation r), None, <[vq_id q := vq_now q]> l)
        | Err _ =>
            if vq_canceled q then (writeError 408 "VALIDATION_CANCELED", None, <[vq_id q := vq_now q]> l)
            else (writeError 500 "VALIDATION_ERROR", None, <[vq_id q := vq_now q]> l)
        end) = (r, h : option Z, l') →
      ran r = false ∧ l' = delete (vq_id q) (<[vq_id q := vq_now q]> l) ∨ l' = <[vq_id q := vq_now q]> l).
  { intros r h l'. destruct (negb _); [intros [= <- <- <-]; by left|].
    destruct (_ <=? 0); [intros [= <- <- <-]; by left|].
    destruct (vq_run q _ _); [|destruct (vq_canceled q)]; intros [= <- <- <-]; by right. }
  unfold allow, LoadOrStore, allowLoaded. destruct (l !! vq_id q) as [last|] eqn:El.
  - destruct (Z.leb_spec validationWindow (vq_now q - last)); cbv beta iota zeta; [|by left].
    change (negb true) with false. cbv beta iota.
    lazymatch goal with |- match ?x with _ => _ end => destruct x as [[r h] l'] eqn:E end.
    right. split; [|by eapply Hgo]. intros last' [= <-]. lia.
  - cbv beta iota zeta. change (negb true) with false. cbv beta iota.
    lazymatch goal with |- match ?x with _ => _ end => destruct x as [[r h] l'] eqn:E end.
    right. split; [done|]. by eapply Hgo.
Qed.

Lemma serve_validate_cases q l :
  let '(r, _, l') := serve_validate q l in
  (ran r = true → l' !! vq_id q = Some (vq_now q) ∧
     (∀ last, l !! vq_id q = Some last → last + validationWindow ≤ vq_now q)) ∧
  (∀ id t, blocked l (vq_now q) id t → blocked l' (vq_now q) id t).
Proof.
  pose proof (serve_validate_limiter q l) as Hc.
  destruct (serve_validate q l) as [[r h] l'].
  destruct Hc as [[-> ->]|[Hlast Hl']]; [by split|]. split.
  - intros Hr. destruct Hl' as [[? _]| ->]; [congruence|]. split; [apply lookup_insert_eq|done].
  - intros id t [?|(last & Hl & ?)]; [by left|]. destruct (decide (id = vq_id q)) as [->|Hne].
    + left. specialize (Hlast _ Hl). lia.
    + right. exists last. split; [|done].
      destruct Hl' as [[_ ->]| ->]; rewrite ?lookup_delete_ne, lookup_insert_ne by congruence; done.
Qed.

Lemma validate_runs_blocked qs l id t :
  StronglySorted Z.le (vq_now <$> qs) → (∀ q, head qs = Some q → blocked l (vq_now q) id t) →
  Forall (λ it, it.1 = id → t + validationWindow ≤ it.2) (validate_runs qs l).
Proof.
  revert l. induction qs as [|q qs IH]; intros l Hs Hb; [constructor|]. simpl in *.
  apply StronglySorted_inv in Hs as [Hs Hall].
  pose proof (serve_validate_cases q l) as Hc. destruct (serve_validate q l) as [[r h] l'].
  destruct Hc as [Hran Hkeep]. specialize (Hb q eq_refl).
  assert (Hrest : Forall (λ it, it.1 = id → t + validationWindow ≤ it.2) (validate_runs qs l')).
  { apply IH; [done|]. intros q' Hq'. destruct qs as [|q1 qs]; [done|]. injection Hq' as ->.
    apply Forall_cons in Hall as [Hle _].
    destruct (Hkeep id t Hb) as [?|?]; [left; simpl in Hle; lia|by right]. }
  destruct (ran r); [|done]. constructor; [|done]. intros <-.
  destruct (Hran eq_refl) as [_ Hlast]. destruct Hb as [?|(last & Hl & ?)]; [done|].
  specialize (Hlast _ Hl). simpl. lia.
Qed.

(** Two requests that both load the entry before one of them stores its own pass together,
    whatever the time between them: the limiter holds only for requests one at a time. *)
Lemma allow_race window last t t' id l :
  l !! id = Some last → last + window ≤ t → last + window ≤ t' →
  let '(loaded, l) := LoadOrStore t id l in
  let '(loaded', l) := LoadOrStore t' id l in
  let '(ok, l) := allowLoaded window t id loaded l in
  let '(ok', l) := allowLoaded window t' id loaded' l in ok = true ∧ ok' = true.
Proof.
  intros Hl Ht Ht'. unfold LoadOrStore. rewrite Hl. cbv beta iota zeta. rewrite Hl. simpl.
  rewrite (proj2 (Z.leb_le window (t - last))) by lia. by rewrite (proj2 (Z.leb_le window (t' - last))) by lia.
Qed.

(** C25: In any sequence of validate requests that pass the limiter one after the other,
    in the order of the clock and whatever state they find, two runs of the validator
    for one submission are at least two minutes apart; refused requests do not put the
    next one off. Two requests that are in the limiter at once can both pass, see
    [allow_race]. *)
Theorem validate_rate_limited qs l :
  StronglySorted Z.le (vq_now <$> qs) →
  ∀ i j id ti tj, (i < j)%nat → validate_runs qs l !! i = Some (id, ti) →
    validate_runs qs l !! j = Some (id, tj) → ti + validationWindow ≤ tj.
Proof.
  revert l. induction qs as [|q qs IH]; intros l Hs i j id ti tj Hij Hi Hj; [done|].
  simpl in *. apply StronglySorted_inv in Hs as [Hs Hall].
  pose proof (serve_validate_cases q l) as Hc. destruct (serve_validate q l) as [[r h] l'].
  destruct Hc as [Hran Hkeep]. destruct (ran r); [|by eapply IH].
  destruct i as [|i], j as [|j]; simpl in *; try lia.
  - injection Hi as <- <-. destruct (Hran eq_refl) as [Hl' _].
    assert (Hb : Forall (λ it, it.1 = vq_id q → vq_now q + validationWindow ≤ it.2) (validate_runs qs l')).
    { apply validate_runs_blocked; [done|]. intros q' _. right. by eexists. }
    rewrite Forall_forall in Hb. by apply (Hb _ (list_elem_of_lookup_2 _ _ _ Hj)).
  - eapply (IH l'); [done| |done|done]. lia.
Qed.

(** ** Status codes of an upload *)
Lemma Contains_prefix s sub : Contains (sub +:+ s) sub = true.
Proof.
  pose proof (prefix_app sub s) as Hp. destruct (sub +:+ s); cbn [Contains]; by rewrite Hp.
Qed.

Lemma Contains_app_l p s sub : Contains s sub = true → Contains (p +:+ s) sub = true.
Proof.
  intros Hs. induction p as [|c p IH]; [done|].
  change (String c p +:+ s) with (String c (p +:+ s)). cbn [Contains]. by rewrite IH, orb_true_r.
Qed.

(** Text of the error contains one of the words of a validation error. *)
Definition reads_as_validation (msg : string) : bool :=
  Contains msg "required" || Contains msg "unsupported" || Contains msg "invalid" ||
  Contains msg "no sandbox image".

Definition upload_status (e : ingest_error) : Z :=
  match e with
  | ErrModels _ => 409
  | ErrLanguage _ | ErrProtocol _ | ErrTeamName | ErrNoImage _ => 400
  | ErrGuardList _ | ErrArchive _ | ErrSave _ | ErrEnqueue _ =>
      if reads_as_validation (ingestText e) then 400 else 500
  end.

Lemma classified_upload e : ar_Status (classified (ingestSentinel e) (ingestText e)) = upload_status e.
Proof.
  assert (Hval : ∀ msg, ar_Status (classified None msg) = if reads_as_validation msg then 400 else 500).
  { intros msg. unfold classified, classifyError. fold (reads_as_validation msg).
    by destruct (reads_as_validation msg). }
  assert (Hword : ∀ msg, Contains msg "unsupported" = true ∨ Contains msg "no sandbox image" = true →
            reads_as_validation msg = true).
  { intros msg [Hm|Hm]; unfold reads_as_validation; rewrite Hm, ?orb_true_r; done. }
  destruct e as [l|p| |l|[]|m|m|m|m]; try (by vm_compute); simpl ingestSentinel; rewrite Hval; try done.
  - rewrite Hword; [done|]. left.
    exact (Contains_prefix (" language " +:+ quoted l +:+ " (valid: go, rust, cpp, python, binary)") "unsupported").
  - rewrite Hword; [done|]. left.
    exact (Contains_prefix (" protocol " +:+ quoted p +:+ " (valid: rest, websocket, fix)") "unsupported").
  - rewrite Hword; [done|]. right.
    exact (Contains_prefix (" configured for language " +:+ quoted l) "no sandbox image").
Qed.

(** An upload is answered 201 exactly when [Ingest] accepted it, with the stored
    submission; 409 when a contest rule refuses it, 400 for a bad form, archive,
    language, protocol, team or image, and otherwise 500, or 400 when the text of
    the failure happens to read like a validation error. *)
Theorem create_submission_codes `{!SortSlice, !MapRange} formOk archiveOk team language protocol images ev size s :
  let req := mkSubmitRequest (TrimSpace team) (ToLower (TrimSpace language)) (ToLower (TrimSpace protocol)) in
  let '(reply, s', jobs) := createSubmission formOk archiveOk team language protocol images ev size s in
  if formOk && archiveOk then
    let '(r, s1, jobs1) := Ingest images ev req size s in
    s' = s1 ∧ jobs = jobs1 ∧
    match r with
    | Ok sub => reply = mkReply 201 (BSubmission sub)
    | Err e => ar_Status reply = upload_status e
    end
  else ar_Status reply = 400 ∧ s' = s ∧ jobs = [].
Proof.
  intros req. unfold createSubmission. destruct formOk, archiveOk; simpl; try done.
  fold req. destruct (Ingest images ev req size s) as [[[sub|e] s1] jobs1]; [done|].
  split; [done|]. split; [done|]. apply classified_upload.
Qed.

(** ** Metric labels *)
Lemma normalisePart_idemp p : normalisePart (normalisePart p) = normalisePart p.
Proof.
  unfold normalisePart at 2 3. destruct (_ && _) eqn:E; [done|].
  unfold normalisePart. by rewrite E.
Qed.

Lemma normalisePart_no_slash p : has_byte slash p = false → has_byte slash (normalisePart p) = false.
Proof. unfold normalisePart. by destruct (_ && _). Qed.

Lemma normalisePath_parts path : Split slash (normalisePath path) = normalisePart <$> Split slash path.
Proof.
  unfold normalisePath. apply Split_Join.
  - intros Hn%fmap_nil_inv. by apply Split_not_nil in Hn.
  - apply Forall_fmap. eapply Forall_impl; [apply Split_parts|]. intros p. apply normalisePart_no_slash.
Qed.

Definition is_id (id : string) : Prop :=
  (8 < String.length id)%nat ∧ has_byte slash id = false ∧
  (has_byte (Ascii.ascii_of_N 45) id = true ∨ containsDigit id = true).

(** The path label of the request metrics keeps the number of segments, is stable
    under normalisation, and is the same for all ids in a segment. *)
Theorem normalise_path path pre id post :
  length (Split slash (normalisePath path)) = length (Split slash path) ∧
  normalisePath (normalisePath path) = normalisePath path ∧
  (is_id id → has_byte slash pre = false →
   normalisePath (pre +:+ String slash (id +:+ String slash post)) =
   normalisePath (pre +:+ String slash ("{id}" +:+ String slash post))).
Proof.
  split; [|split].
  - by rewrite normalisePath_parts, length_fmap.
  - unfold normalisePath at 1. rewrite normalisePath_parts. unfold normalisePath. f_equal.
    rewrite <- list_fmap_compose. apply list_fmap_ext. intros i p _. apply normalisePart_idemp.
  - intros (Hlen & Hsl & Hid) Hpre. unfold normalisePath.
    rewrite !(Split_app slash pre _ Hpre), (Split_app slash id post Hsl), (Split_app slash "{id}" post eq_refl).
    rewrite !fmap_cons. do 3 f_equal.
    unfold normalisePart at 1. rewrite (proj2 (Nat.ltb_lt _ _) Hlen).
    by replace (has_byte (Ascii.ascii_of_N 45) id || containsDigit id) with true
      by (symmetry; apply orb_true_iff; destruct Hid; auto).
Qed.

(** ** The event stream *)
Definition is_frozen (e : WireEvent) : bool := bool_decide (we_Type e = "frozen").

(** The events up to the first that ends the contest, and that one. *)
Fixpoint up_to_frozen (l : list WireEvent) : list WireEvent :=
  match l with [] => [] | e :: l => if is_frozen e then [e] else e :: up_to_frozen l end.

Lemma streamLoop_events es : streamLoop (StreamEvent <$> es) = (up_to_frozen es, existsb is_frozen es).
Proof.
  induction es as [|e es IH]; [done|]. cbn [fmap list_fmap streamLoop up_to_frozen existsb].
  fold (is_frozen e). destruct (is_frozen e); [done|]. change (list_fmap _ _ StreamEvent es) with (StreamEvent <$> es).
  by rewrite IH.
Qed.

(** C34: What a client of the stream is sent that connects while a contest is active, once
    it has read its channel empty: the leaderboard, unless the list of submissions fails,
    and then a selection of the events broadcast since it subscribed, in order, up to
    the one that ends the contest, which also ends the stream. It misses an event only
    if its channel was full at the broadcast, and then it can be the last; the
    connection itself is cut after ten minutes. Without an active contest it is sent
    exactly one frozen event. *)
Theorem sse_stream {S} `{!ContestStoreOps S, !SortSlice, !MapRange} id ops b (cs : S) :
  (∀ active listed, cs_GetActive cs = Ok active → stays id ops →
    let '(b', outs) := bus_run ops (doSubscribe id b) in
    b' !! id = Some [] →
    ∃ kept, kept `sublist_of` broadcasts ops ∧ (keeps_up id ops [] = true → kept = broadcasts ops) ∧
      stream listed cs (StreamEvent <$> received id outs) =
        ((match listed with
          | Ok subs => [mkWire "update" (c_ID active) (c_Name active) (contestLeaderboard (c_ID active) subs)]
          | Err _ => []
          end) ++ up_to_frozen kept, existsb is_frozen kept)) ∧
  (∀ e all inputs, cs_GetActive cs = Err e →
    ∃ ev, stream all cs inputs = ([ev], true) ∧ is_frozen ev = true).
Proof.
  split.
  - intros active listed Ha Hst.
    destruct (bus_run_channel id ops (doSubscribe id b) [] Hst) as (kept & ch & Hsub & Hrun & Heq & _ & Hall).
    { apply lookup_insert_eq. }
    destruct (bus_run ops (doSubscribe id b)) as [b' outs]. simpl in *. intros Hb'.
    assert (ch = []) as -> by congruence. rewrite app_nil_r in Heq. exists kept. split_and!; [done..|].
    rewrite <- Heq. unfold stream. by rewrite Ha, streamLoop_events.
  - intros e all inputs Ha. unfold stream. rewrite Ha.
    repeat case_match; eexists; (split; [done|]); by vm_compute.
Qed.

(** ** Closing by hand *)
Lemma rankEntries_teams `{!SortSlice} es : le_TeamName <$> rankEntries es ≡ₚ le_TeamName <$> es.
Proof.
  change (rankEntries es) with
    (number (sort_slice (λ a b, F64.gtb (le_FinalScore a) (le_FinalScore b)) es)).
  by rewrite number_teams, sort_slice_perm.
Qed.

Lemma classified_not_200 wraps msg : ar_Status (classified wraps msg) ≠ 200.
Proof. unfold classified, classifyError. destruct wraps as [[]|]; [done..|]. by destruct (_ || _). Qed.


(** ** The properties at concrete inputs *)
Definition ex_running : Submission :=
  set_Status StatusRunning "" (set_Container "cid" "name" 20001 (ex_sub "s1" "alpha" "c1" 0)).

Definition ex_vrequest (t : time) : vrequest :=
  mkVRequest t "s1" {["s1" := ex_running]} (λ _ id, Ok (mkValidation id [] true t)) false.

Definition ex_vrequests : list vrequest :=
  [ex_vrequest 0; ex_vrequest Minute; ex_vrequest (2 * Minute); ex_vrequest (3 * Minute)].

Lemma validate_rate_limited_witness :
  validate_runs ex_vrequests ∅ = [("s1", 0); ("s1", 2 * Minute)] ∧ 0 + validationWindow ≤ 2 * Minute.
Proof.
  split; [by vm_compute|].
  apply (validate_rate_limited ex_vrequests ∅) with (i := 0%nat) (j := 1%nat) (id := "s1").
  - simpl. unfold Minute, Second. repeat (constructor || lia).
  - lia.
  - by vm_compute.
  - by vm_compute.
Defined.

Lemma normalise_path_witness :
  normalisePath ("/api/v1/submissions" +:+ String slash ("3f2b8c1e-77aa" +:+ String slash "stop")) =
  normalisePath ("/api/v1/submissions" +:+ String slash ("{id}" +:+ String slash "stop")).
Proof. by vm_compute. Defined.

Definition ex_store : MemoryContestStore :=
  fold_left (λ s op, run_op op s) [OpCreate "c1" 1 (default_request "first"); OpActivate 3 "c1"]
    NewMemoryContestStore.

Lemma ex_store_inv : contest_inv ex_store.
Proof. apply run_ops_inv, new_mem_inv. Qed.

Lemma sse_stream_witness :
  let '(b', outs) := bus_run ex_bus_ops (doSubscribe "a" NewLeaderboardBus) in
  we_Type <$> (stream (Ok ex_subs) ex_store (StreamEvent <$> received "a" outs)).1 =
    ["update"; "update"; "update"; "frozen"].
Proof.
  assert (is_ok (cs_GetActive ex_store) = true) as Hok by (by vm_compute).
  destruct (cs_GetActive ex_store) as [active|] eqn:Ha; [clear Hok|discriminate Hok].
  pose proof (proj1 (sse_stream "a" ex_bus_ops NewLeaderboardBus ex_store) active (Ok ex_subs) Ha
    ex_bus_stays) as Hs.
  destruct (bus_run ex_bus_ops (doSubscribe "a" NewLeaderboardBus)) as [b' outs] eqn:Eb.
  assert ((bus_run ex_bus_ops (doSubscribe "a" NewLeaderboardBus)).1 !! "a" = Some []) as Hb by (by vm_compute).
  rewrite Eb in Hb. destruct (Hs Hb) as (kept & _ & Hall & ->). rewrite Hall by (by vm_compute). reflexivity.
Defined.

