(* ===== verification/Metrics.v ===== *)
(** * Metrics: the counters, gauges and histograms ([internal/metrics/metrics.go])

    A vector maps label values to its series, as the Prometheus client keeps them;
    the collectors of [New] are data: name, kind, buckets and labels. [RecordHTTPRequest] is called by the middleware of the API,
    which is modelled here with it. *)

From S2P Require Import Prelude Models GoStrings Contest Submission Queue Scenarios Validator.
From S2P Require Import Bus Leaderboard Api.

Abbreviation counter_vec := (gmap (list string) Z) (only parsing).
Abbreviation histogram_vec := (gmap (list string) (list float64)) (only parsing).

Record Registry := mkRegistry {
  m_HTTPRequestsTotal : counter_vec;
  m_HTTPRequestDurationSeconds : histogram_vec;
  m_SubmissionsTotal : counter_vec;
  m_ActiveSandboxes : counter_vec;
  m_SandboxStartDurationSeconds : histogram_vec;
  m_SandboxExitsTotal : counter_vec;
  m_TelemetryEventsTotal : counter_vec;
  m_TelemetryEmitErrors : Z;
  m_ConsumerWindowsTotal : counter_vec;
  m_ConsumerLagSeconds : histogram_vec;
  m_QueueDepth : float64
}.

Definition NewRegistry : Registry := mkRegistry ∅ ∅ ∅ ∅ ∅ ∅ ∅ 0 ∅ ∅ F64.zero.

(** *** The collectors that [New] creates *)
Inductive metric_kind := Counter | Gauge | Histogram (buckets : list float64).

Record Desc := mkDesc { d_Subsystem : string; d_Name : string; d_Kind : metric_kind; d_Labels : list string }.

Definition thousandths (l : list Z) : list float64 := (λ n, F64.lit n 1000) <$> l.

Definition HTTPRequestsTotal : Desc :=
  mkDesc "http" "requests_total" Counter ["method"; "path"; "status_code"].
Definition HTTPRequestDurationSeconds : Desc :=
  mkDesc "http" "request_duration_seconds"
    (Histogram (thousandths [1; 5; 10; 25; 50; 100; 250; 500; 1000; 2500; 5000; 10000])) ["method"; "path"].
Definition SubmissionsTotal : Desc := mkDesc "submission" "total" Counter ["language"; "status"].
Definition ActiveSandboxes : Desc := mkDesc "sandbox" "active" Gauge ["language"].
Definition SandboxStartDurationSeconds : Desc :=
  mkDesc "sandbox" "start_duration_seconds"
    (Histogram (thousandths [100; 250; 500; 1000; 2000; 5000; 10000; 30000])) ["language"].
Definition SandboxExitsTotal : Desc := mkDesc "sandbox" "exits_total" Counter ["language"; "reason"].
Definition TelemetryEventsTotal : Desc := mkDesc "telemetry" "events_total" Counter ["kind"].
Definition TelemetryEmitErrors : Desc := mkDesc "telemetry" "emit_errors_total" Counter [].
Definition ConsumerWindowsTotal : Desc := mkDesc "consumer" "windows_total" Counter ["submission_id"].
Definition ConsumerLagSeconds : Desc :=
  mkDesc "consumer" "lag_seconds"
    (Histogram (thousandths [5; 10; 25; 50; 100; 250; 500; 1000; 5000; 30000])) ["submission_id"].
Definition QueueDepthGauge : Desc := mkDesc "queue" "depth" Gauge [].

(** What [New] hands to [MustRegister], in order. *)
Definition collectors : list Desc :=
  [HTTPRequestsTotal; HTTPRequestDurationSeconds; SubmissionsTotal; ActiveSandboxes;
   SandboxStartDurationSeconds; SandboxExitsTotal; TelemetryEventsTotal; TelemetryEmitErrors;
   ConsumerWindowsTotal; ConsumerLagSeconds; QueueDepthGauge].

Definition fqName (d : Desc) : string := "nexusbench_" +:+ d_Subsystem d +:+ "_" +:+ d_Name d.

(** [MustRegister] panics on a name that is registered already. *)
Definition New : option Registry :=
  if bool_decide (NoDup (fqName <$> collectors)) then Some NewRegistry else None.

(** [WithLabelValues(labels...)], then [Inc], [Dec] or [Observe]. *)
Definition add_to (d : Z) (labels : list string) (v : counter_vec) : counter_vec :=
  <[labels := default 0 (v !! labels) + d]> v.
Definition Inc : list string → counter_vec → counter_vec := add_to 1.
Definition Dec : list string → counter_vec → counter_vec := add_to (-1).
Definition Observe (labels : list string) (x : float64) (v : histogram_vec) : histogram_vec :=
  <[labels := default [] (v !! labels) ++ [x]]> v.

Definition RecordHTTPRequest (method path statusCode : string) (durationSecs : float64) (r : Registry) : Registry :=
  mkRegistry (Inc [method; path; statusCode] (m_HTTPRequestsTotal r))
    (Observe [method; path] durationSecs (m_HTTPRequestDurationSeconds r))
    (m_SubmissionsTotal r) (m_ActiveSandboxes r) (m_SandboxStartDurationSeconds r) (m_SandboxExitsTotal r)
    (m_TelemetryEventsTotal r) (m_TelemetryEmitErrors r) (m_ConsumerWindowsTotal r)
    (m_ConsumerLagSeconds r) (m_QueueDepth r).

Definition RecordSubmission (language status : string) (r : Registry) : Registry :=
  mkRegistry (m_HTTPRequestsTotal r) (m_HTTPRequestDurationSeconds r)
    (Inc [language; status] (m_SubmissionsTotal r)) (m_ActiveSandboxes r)
    (m_SandboxStartDurationSeconds r) (m_SandboxExitsTotal r) (m_TelemetryEventsTotal r)
    (m_TelemetryEmitErrors r) (m_ConsumerWindowsTotal r) (m_ConsumerLagSeconds r) (m_QueueDepth r).

Definition SandboxStarted (language : string) (durationSecs : float64) (r : Registry) : Registry :=
  mkRegistry (m_HTTPRequestsTotal r) (m_HTTPRequestDurationSeconds r) (m_SubmissionsTotal r)
    (Inc [language] (m_ActiveSandboxes r))
    (Observe [language] durationSecs (m_SandboxStartDurationSeconds r)) (m_SandboxExitsTotal r)
    (m_TelemetryEventsTotal r) (m_TelemetryEmitErrors r) (m_ConsumerWindowsTotal r)
    (m_ConsumerLagSeconds r) (m_QueueDepth r).

Definition SandboxStopped (language reason : string) (r : Registry) : Registry :=
  mkRegistry (m_HTTPRequestsTotal r) (m_HTTPRequestDurationSeconds r) (m_SubmissionsTotal r)
    (Dec [language] (m_ActiveSandboxes r)) (m_SandboxStartDurationSeconds r)
    (Inc [language; reason] (m_SandboxExitsTotal r)) (m_TelemetryEventsTotal r)
    (m_TelemetryEmitErrors r) (m_ConsumerWindowsTotal r) (m_ConsumerLagSeconds r) (m_QueueDepth r).

Definition RecordTelemetryEvent (kind : string) (r : Registry) : Registry :=
  mkRegistry (m_HTTPRequestsTotal r) (m_HTTPRequestDurationSeconds r) (m_SubmissionsTotal r)
    (m_ActiveSandboxes r) (m_SandboxStartDurationSeconds r) (m_SandboxExitsTotal r)
    (Inc [kind] (m_TelemetryEventsTotal r)) (m_TelemetryEmitErrors r) (m_ConsumerWindowsTotal r)
    (m_ConsumerLagSeconds r) (m_QueueDepth r).

Definition RecordTelemetryEmitError (r : Registry) : Registry :=
  mkRegistry (m_HTTPRequestsTotal r) (m_HTTPRequestDurationSeconds r) (m_SubmissionsTotal r)
    (m_ActiveSandboxes r) (m_SandboxStartDurationSeconds r) (m_SandboxExitsTotal r)
    (m_TelemetryEventsTotal r) (m_TelemetryEmitErrors r + 1) (m_ConsumerWindowsTotal r)
    (m_ConsumerLagSeconds r) (m_QueueDepth r).

Definition RecordConsumerWindow (submissionID : string) (lagSecs : float64) (r : Registry) : Registry :=
  mkRegistry (m_HTTPRequestsTotal r) (m_HTTPRequestDurationSeconds r) (m_SubmissionsTotal r)
    (m_ActiveSandboxes r) (m_SandboxStartDurationSeconds r) (m_SandboxExitsTotal r)
    (m_TelemetryEventsTotal r) (m_TelemetryEmitErrors r)
    (Inc [submissionID] (m_ConsumerWindowsTotal r))
    (Observe [submissionID] lagSecs (m_ConsumerLagSeconds r)) (m_QueueDepth r).

Definition SetQueueDepth (depth : Z) (r : Registry) : Registry :=
  let depth := if depth <? 0 then 0 else depth in
  mkRegistry (m_HTTPRequestsTotal r) (m_HTTPRequestDurationSeconds r) (m_SubmissionsTotal r)
    (m_ActiveSandboxes r) (m_SandboxStartDurationSeconds r) (m_SandboxExitsTotal r)
    (m_TelemetryEventsTotal r) (m_TelemetryEmitErrors r) (m_ConsumerWindowsTotal r)
    (m_ConsumerLagSeconds r) (F64.of_Z depth).

(** ** The middleware *)
(** The status a wrapped writer has recorded after these [WriteHeader] calls. *)
Definition recordedStatus (codes : list Z) : Z := foldl (λ _ code, code) 200 codes.

Definition prometheusMiddleware (method path : string) (codes : list Z) (durationSecs : float64)
    (r : Registry) : Registry :=
  if bool_decide (path = "/metrics") then r
  else RecordHTTPRequest method (normalisePath path) (pretty (Z.to_N (recordedStatus codes))) durationSecs r.

(** ** What the counters count *)
(** The sum of all series of a vector. *)
Definition total (v : counter_vec) : Z := foldr Z.add 0 (snd <$> map_to_list v).

#[export] Instance foldr_add_perm : Proper ((≡ₚ) ==> eq) (foldr Z.add 0).
Proof. induction 1; simpl; lia. Qed.

Lemma total_insert (labels : list string) (x : Z) (v : counter_vec) : v !! labels = None → total (<[labels := x]> v) = x + total v.
Proof.
  intros Hn. unfold total. rewrite map_to_list_insert by done. done.
Qed.

Lemma total_add (d : Z) (labels : list string) (v : counter_vec) : total (add_to d labels v) = total v + d.
Proof.
  unfold add_to. destruct (v !! labels) as [x|] eqn:E; simpl.
  - rewrite <- (insert_delete_id v labels x) at 2 by done.
    rewrite <- insert_delete_eq. rewrite !total_insert by apply lookup_delete_eq. lia.
  - rewrite total_insert by done. lia.
Qed.

(** A request served: method, path, codes and duration. *)
Abbreviation served := (string * string * list Z * float64)%type (only parsing).

Definition serve_all (l : list served) (r : Registry) : Registry :=
  fold_left (λ r q, prometheusMiddleware q.1.1.1 q.1.1.2 q.1.2 q.2 r) l r.

(** The request counter counts every served request once, whatever its labels,
    except the scrapes of [/metrics]. *)
Theorem http_requests_counted l r :
  total (m_HTTPRequestsTotal (serve_all l r)) =
  total (m_HTTPRequestsTotal r) + Z.of_nat (length (filter (λ q : served, q.1.1.2 ≠ "/metrics") l)).
Proof.
  unfold serve_all. revert r. induction l as [|q l IH]; intros r; [simpl; lia|].
  cbn [fold_left]. rewrite IH, filter_cons. unfold prometheusMiddleware.
  case_bool_decide as E; destruct (decide (q.1.1.2 ≠ "/metrics")) as [Hd|Hd]; try done.
  simpl. unfold Inc. rewrite total_add. lia.
Qed.

(** ** Labels *)
(** [WithLabelValues] panics unless there is one value for each label of the vector. *)
Definition labelled {A} (d : Desc) (v : gmap (list string) A) : Prop :=
  map_Forall (λ labels _, length labels = length (d_Labels d)) v.

Record registry_ok (r : Registry) : Prop := {
  ro_http : labelled HTTPRequestsTotal (m_HTTPRequestsTotal r);
  ro_http_secs : labelled HTTPRequestDurationSeconds (m_HTTPRequestDurationSeconds r);
  ro_subs : labelled SubmissionsTotal (m_SubmissionsTotal r);
  ro_active : labelled ActiveSandboxes (m_ActiveSandboxes r);
  ro_start : labelled SandboxStartDurationSeconds (m_SandboxStartDurationSeconds r);
  ro_exits : labelled SandboxExitsTotal (m_SandboxExitsTotal r);
  ro_events : labelled TelemetryEventsTotal (m_TelemetryEventsTotal r);
  ro_windows : labelled ConsumerWindowsTotal (m_ConsumerWindowsTotal r);
  ro_lag : labelled ConsumerLagSeconds (m_ConsumerLagSeconds r)
}.

(** A call of the registry, and what it does. *)
Inductive metric_op :=
| OpRequest (method path : string) (codes : list Z) (secs : float64)
| OpSubmission (language status : string)
| OpStarted (language : string) (secs : float64)
| OpStopped (language reason : string)
| OpEvent (kind : string)
| OpEmitError
| OpWindow (submissionID : string) (lag : float64)
| OpDepth (depth : Z).

Definition metric_step (r : Registry) (op : metric_op) : Registry :=
  match op with
  | OpRequest m p codes secs => prometheusMiddleware m p codes secs r
  | OpSubmission l st => RecordSubmission l st r
  | OpStarted l secs => SandboxStarted l secs r
  | OpStopped l reason => SandboxStopped l reason r
  | OpEvent k => RecordTelemetryEvent k r
  | OpEmitError => RecordTelemetryEmitError r
  | OpWindow id lag => RecordConsumerWindow id lag r
  | OpDepth n => SetQueueDepth n r
  end.

Lemma labelled_insert {A} d labels (x : A) v :
  length labels = length (d_Labels d) → labelled d v → labelled d (<[labels := x]> v).
Proof. intros Hl Hv. by apply map_Forall_insert_2. Qed.

#[local] Hint Resolve labelled_insert : core.

Lemma metric_step_ok r op : registry_ok r → registry_ok (metric_step r op).
Proof.
  intros []. destruct op; simpl; unfold prometheusMiddleware; try case_bool_decide;
    split; simpl; unfold Inc, Dec, add_to, Observe; eauto.
Qed.

(** [New] never panics on a name registered twice, and whatever calls follow,
    every vector holds only series with one value for each label it declares, so
    [WithLabelValues] never panics either. *)
Theorem registry_well_formed ops :
  New = Some NewRegistry ∧ registry_ok (foldl metric_step NewRegistry ops).
Proof.
  split; [by vm_compute|].
  assert (registry_ok NewRegistry) as Hok by (split; apply map_Forall_empty).
  revert Hok. generalize NewRegistry. induction ops as [|op ops IH]; intros r Hok; [done|].
  apply IH. by apply metric_step_ok.
Qed.
