(* ===== verification/Server.v ===== *)
(** * Server: the control plane's background work ([cmd/server/main.go])

    Each tick of the auto-close loop and of the leaderboard watcher is a function of
    what the store, the queue, the registry and the contest service answer. The life of
    the process around them is in [Boot]. *)

From S2P Require Import Prelude Models Queue Submission Contest Scenarios Validator Orchestrator.
From S2P Require Import Bus Leaderboard GoStrings Api Metrics.

(** ** safeDSNPrefix *)
(** Up to and including the first ["://"], and what follows. *)
Fixpoint cutScheme (dsn : string) : option (string * string) :=
  if HasPrefix dsn "://" then Some ("://", drop_string 3 dsn)
  else match dsn with
       | EmptyString => None
       | String c dsn => prod_map (String c) id <$> cutScheme dsn
       end.

(** From the first at sign on. *)
Fixpoint fromAt (s : string) : option string :=
  match s with
  | EmptyString => None
  | String c rest => if bool_decide (c = Ascii.ascii_of_N 64) then Some s else fromAt rest
  end.

Definition safeDSNPrefix (dsn : string) : string :=
  match cutScheme dsn with
  | None => "<unparseable>"
  | Some (scheme, rest) =>
      match fromAt rest with
      | None => dsn
      | Some tail => scheme +:+ "***" +:+ tail
      end
  end.

Example safeDSNPrefix_examples :
  safeDSNPrefix "postgres://nexus:secret@db:5432/n" = "postgres://***@db:5432/n" ∧
  safeDSNPrefix "host=db password=secret" = "<unparseable>".
Proof. by vm_compute. Qed.

(** ** The store of contests *)
Inductive store_choice := ChoosePostgres | ChooseMemory.

(** [connects]: the connection to PostgreSQL succeeds. *)
Definition buildContestStore (distributed : bool) (dsn : string) (connects : bool) : store_choice :=
  if distributed && negb (bool_decide (dsn = "")) then if connects then ChoosePostgres else ChooseMemory
  else ChooseMemory.

(** ** The leaderboard watcher *)
(** [math.Round]: to the nearest integer, halves away from zero. *)
Definition Round (x : float64) : float64 :=
  match x with
  | S754_finite s m e =>
      if 0 <=? e then x
      else
        let n := (Z.pos m + 2 ^ (- e - 1)) / 2 ^ (- e) in
        if n =? 0 then S754_zero s else F64.of_Z (if s then - n else n)
  | _ => x
  end.

Example Round_examples :
  Round (F64.lit 5 2) = F64.of_Z 3 ∧ Round (F64.lit (-5) 2) = F64.of_Z (-3) ∧
  Round (F64.lit 49 100) = F64.zero ∧ Round (F64.of_Z 7) = F64.of_Z 7.
Proof. by vm_compute. Qed.

Definition million : float64 := F64.of_Z 1000000.

Definition leaderboardHash (subs : list Submission) : float64 :=
  foldl (λ sum s,
    if negb (bool_decide (s_Status s = StatusCompleted)) then sum
    else
      let score := effectiveScoreOf s in
      F64.add sum (F64.add F64.one (F64.div (Round (F64.mul score million)) million))) F64.zero subs.

Section server.
Context {S : Type} `{!ContestStoreOps S, !SortSlice, !MapRange}.

(** One tick: the new hash, and the event it broadcasts. [all] and [again] are what
    the store lists for the hash and for the entries. *)
Definition tickLeaderboardWatcher (b : gmap string (list WireEvent)) (all again : result string (list Submission))
    (cs : S) (lastHash : float64) : float64 * option LeaderboardEvent :=
  if SubscriberCount b =? 0 then (lastHash, None)
  else match all with
  | Err _ => (lastHash, None)
  | Ok all =>
      let newHash := leaderboardHash all in
      if F64.eqb newHash lastHash then (lastHash, None)
      else match cs_GetActive cs with
      | Err _ => (newHash, None)
      | Ok active =>
          (newHash, Some (mkEvent "update" (c_ID active) (c_Name active)
                            (buildLeaderboardEntries (c_ID active) again)))
      end
  end.

(** ** Closing contests *)
(** [None]: no queue, the local mode. *)
Definition queueDrained (depth : option (result string Z)) : bool :=
  match depth with
  | None => true
  | Some (Err _) => false
  | Some (Ok depth) => depth =? 0
  end.

Definition workersAreStillBusy (now : time) (registry : gmap string WorkerRecord)
    : bool * gmap string WorkerRecord :=
  let '(st, registry) := Stats now registry in (0 <? rs_Busy st, registry).

Definition after (now : time) (deadline : option time) : bool :=
  match deadline with Some t => t <? now | None => false end.

(** One tick: the events broadcast, the store and the registry after it. *)
Definition tickAutoClose (now : time) (depth : option (result string Z)) (registry : gmap string WorkerRecord)
    (all : result string (list Submission)) (cs : S)
    : list LeaderboardEvent * S * gmap string WorkerRecord :=
  match cs_GetActive cs with
  | Err _ => ([], cs, registry)
  | Ok active =>
      let close registry :=
        let entries := buildLeaderboardEntries (c_ID active) all in
        let '(_, evs, cs) := Close now (c_ID active) entries cs in (evs, cs, registry) in
      let force registry := if after now (c_EndsAt active) then close registry else ([], cs, registry) in
      if after now (c_SubmissionsClosedAt active) then
        if queueDrained depth then
          let '(busy, registry) := workersAreStillBusy now registry in
          if negb busy then close registry else force registry
        else force registry
      else force registry
  end.
End server.

(** ** The gauge of the queue *)
Definition pollAndSet (depth : result string Z) (reg : Registry) : Registry :=
  match depth with Err _ => reg | Ok depth => SetQueueDepth depth reg end.

(** ** The adapter of the validator *)
Definition adapterRun (res : ValidationResult * option run_error) : result run_error ValidationResult :=
  match res with
  | (_, Some e) => Err e
  | (r, None) => Ok (mkValidation (vr_SubmissionID r)
      ((λ s, mkScenarioResult (sr_Name s) (sr_Passed s) (sr_Reason s)) <$> vr_Scenarios r)
      (vr_AllPassed r) (vr_TestedAt r))
  end.
