(* ===== verification/ServerTheorems.v ===== *)
(** * ServerTheorems: when contests close, and what is logged of a DSN *)

From S2P Require Import Prelude Models Queue Submission Contest ContestTheorems Scenarios Validator.
From S2P Require Import Orchestrator Bus Leaderboard LeaderboardTheorems GoStrings Server.

(** ** Logging the DSN *)
Lemma cutScheme_app scheme rest : has_byte (Ascii.ascii_of_N 58) scheme = false →
  cutScheme (scheme +:+ "://" +:+ rest) = Some (scheme +:+ "://", rest).
Proof.
  induction scheme as [|c scheme IH]; intros Hc; [by destruct rest|].
  simpl in Hc. apply orb_false_iff in Hc as [Hc Hs]. apply bool_decide_eq_false in Hc.
  change (String c scheme +:+ "://" +:+ rest) with (String c (scheme +:+ "://" +:+ rest)).
  cbn [cutScheme]. unfold HasPrefix. cbn [String.prefix].
  destruct (Ascii.ascii_dec (Ascii.ascii_of_N 58) c) as [E|_].
  - destruct Hc. by rewrite <- E.
  - destruct (Ascii.ascii_dec _ c) as [E|_]; [destruct Hc; by rewrite <- E|]. by rewrite IH.
Qed.

Lemma fromAt_app user rest : has_byte (Ascii.ascii_of_N 64) user = false →
  fromAt (user +:+ String (Ascii.ascii_of_N 64) rest) = Some (String (Ascii.ascii_of_N 64) rest).
Proof.
  induction user as [|c user IH]; [done|]. cbn [has_byte].
  intros [Hc Hu]%orb_false_iff.
  change (fromAt (String c user +:+ String (Ascii.ascii_of_N 64) rest)) with
    (if bool_decide (c = Ascii.ascii_of_N 64) then Some (String c (user +:+ String (Ascii.ascii_of_N 64) rest))
     else fromAt (user +:+ String (Ascii.ascii_of_N 64) rest)).
  rewrite Hc. by apply IH.
Qed.

(** What is logged of a DSN with a scheme and user information does not depend on
    the user information, as long as that has no at sign in it. With an at sign in
    the password, everything after the first one is logged. *)
Theorem dsn_redacted scheme user secret host :
  has_byte (Ascii.ascii_of_N 58) scheme = false → has_byte (Ascii.ascii_of_N 64) user = false →
  safeDSNPrefix (scheme +:+ "://" +:+ user +:+ "@" +:+ host) = scheme +:+ "://***@" +:+ host ∧
  safeDSNPrefix (scheme +:+ "://" +:+ user +:+ "@" +:+ secret +:+ "@" +:+ host) =
    scheme +:+ "://***@" +:+ secret +:+ "@" +:+ host.
Proof.
  intros Hs Hu.
  assert (Hgo : ∀ rest, safeDSNPrefix (scheme +:+ "://" +:+ user +:+ "@" +:+ rest) =
            scheme +:+ "://***@" +:+ rest).
  { intros rest. unfold safeDSNPrefix. rewrite cutScheme_app by done.
    change ("@" +:+ rest) with (String (Ascii.ascii_of_N 64) rest). rewrite fromAt_app by done.
    by rewrite string_app_assoc. }
  split; apply Hgo.
Qed.

Lemma dsn_redacted_witness :
  safeDSNPrefix ("postgres" +:+ "://" +:+ "nexus:se" +:+ "@" +:+ "cret" +:+ "@" +:+ "db/nexus") =
    "postgres" +:+ "://***@" +:+ "cret" +:+ "@" +:+ "db/nexus".
Proof. by apply (dsn_redacted "postgres" "nexus:se" "cret" "db/nexus"). Defined.

(** ** Closing contests *)
Section closing.
Context {S : Type} `{!ContestStoreOps S, !ContestStoreLaws S, !SortSlice, !MapRange}.

(** The close that a tick makes, if it makes one. *)
Definition closing (now : time) (all : result string (list Submission)) (active : Contest) (cs : S)
    : list LeaderboardEvent * S :=
  let '(_, evs, cs) := Close now (c_ID active) (buildLeaderboardEntries (c_ID active) all) cs in (evs, cs).

Definition busyWorkers (now : time) (registry : gmap string WorkerRecord) : Z := rs_Busy (Stats now registry).1.

(** The auto-close tick closes the active contest exactly when its end has passed,
    or when its deadline for submissions has passed with the queue known to be empty
    and no live worker busy; otherwise it leaves the store as it is. *)
Theorem autoclose_spec now depth registry all (cs : S) :
  (tickAutoClose now depth registry all cs).1 =
    match cs_GetActive cs with
    | Err _ => ([], cs)
    | Ok active =>
        if after now (c_EndsAt active) ||
           (after now (c_SubmissionsClosedAt active) && queueDrained depth &&
            (busyWorkers now registry <=? 0))
        then closing now all active cs
        else ([], cs)
    end.
Proof.
  unfold tickAutoClose, closing, busyWorkers, workersAreStillBusy.
  destruct (cs_GetActive cs) as [active|e]; [|done].
  destruct (Stats now registry) as [st registry']. simpl.
  destruct (Close _ _ _ cs) as [[err evs] cs'].
  destruct (after now (c_SubmissionsClosedAt active)), (queueDrained depth), (after now (c_EndsAt active));
    simpl; try done; destruct (Z.ltb_spec 0 (rs_Busy st)), (Z.leb_spec (rs_Busy st) 0);
    simpl; try done; lia.
Qed.

(** No operation of the contest service sets a deadline for submissions. *)
Definition no_deadline (s : S) : Prop := Forall (λ c, c_SubmissionsClosedAt c = None) (cs_view s).

Lemma replace_no_deadline (c1 : Contest) cs :
  c_SubmissionsClosedAt c1 = None → Forall (λ c, c_SubmissionsClosedAt c = None) cs →
  Forall (λ c, c_SubmissionsClosedAt c = None) (replace_contest cs_stored c1 cs).
Proof.
  intros H1 Hcs. apply Forall_fmap. eapply Forall_impl; [done|]. intros c Hc. simpl.
  case_decide; [by apply cs_stored_open|done].
Qed.

Lemma run_op_no_deadline op s : contest_inv s → no_deadline s → no_deadline (run_op op s).
Proof.
  intros Hinv Hn. unfold no_deadline in *. pose proof (ci_ok _ Hinv) as Hok.
  assert (Hget : ∀ id c, cs_Get id s = Ok c → c_SubmissionsClosedAt c = None).
  { intros id c Hc. apply cs_get_ok in Hc as [Hc _]; [|done]. rewrite Forall_forall in Hn. by apply Hn. }
  assert (Hup : ∀ c c' st cl now s', cs_Get (c_ID c) s = Ok c → c' = set_contest st cl now c →
            ∀ r, cs_Update c' s = (r, s') → cs_ok s' ∧ Forall (λ c, c_SubmissionsClosedAt c = None) (cs_view s')).
  { intros c c' st cl now s' Hc -> [e|] Hu.
    - destruct (cs_update_err _ _ _ _ Hok Hu) as [? ->]. done.
    - destruct (cs_update_ok _ _ _ Hok Hu) as [? ->]. split; [done|].
      apply replace_no_deadline; [|done]. simpl. by eapply Hget. }
  destruct op as [uuid now req|now id|now id entries]; simpl.
  - unfold Create. case_bool_decide; [done|]. destruct (_ && _); [done|].
    destruct (cs_Save _ s) as [[e|] s'] eqn:Hs; simpl.
    + by destruct (cs_save_err _ _ _ _ Hok Hs) as [_ ->].
    + destruct (cs_save_ok _ _ _ Hok Hs) as [_ ->]. apply Forall_app. split; [done|].
      constructor; [by apply cs_stored_open|constructor].
  - unfold Activate. destruct (activateGuard s); [done|]. unfold activateCommit.
    destruct (cs_Get id s) as [c|e] eqn:Hc; [|done]. case_bool_decide; [|done]. simpl.
    pose proof (cs_get_ok _ _ _ Hok Hc) as [_ Hid].
    destruct (cs_Update _ s) as [[e|] s'] eqn:Hu; simpl;
      (eapply Hup; [by rewrite Hid|done|done]).
  - unfold Close. destruct (cs_Get id s) as [c|e] eqn:Hc; [|done].
    case_bool_decide; [done|]. case_bool_decide; [done|].
    pose proof (cs_get_ok _ _ _ Hok Hc) as [_ Hid].
    destruct (cs_Update _ s) as [[e|] s'] eqn:Hu; simpl.
    + eapply Hup; [by rewrite Hid|done|done].
    + destruct (cs_SnapshotLeaderboard _ _ s') as [r s''] eqn:Hsn. simpl.
      assert (cs_ok s' ∧ Forall (λ c, c_SubmissionsClosedAt c = None) (cs_view s')) as [Hok' Hn'].
      { eapply Hup; [by rewrite Hid|done|done]. }
      by destruct (cs_snapshot_view _ _ _ _ _ Hok' Hsn) as [_ ->].
Qed.

Lemma run_ops_no_deadline ops s : contest_inv s → no_deadline s →
  no_deadline (fold_left (λ s op, run_op op s) ops s).
Proof.
  revert s. induction ops as [|op ops IH]; intros s Hinv Hn; [done|].
  apply IH; [by apply run_op_keeps|by apply run_op_no_deadline].
Qed.

(** The wait for the queue to drain never happens: over every sequence of calls of
    the contest service, what the auto-close tick does is the same for all queues and
    registries. It closes the active contest once its end has passed, with jobs still
    queued and workers still busy. *)
Theorem autoclose_never_waits ops (s : S) now all depth depth' registry registry' :
  contest_inv s → no_deadline s →
  let cs := fold_left (λ s op, run_op op s) ops s in
  (tickAutoClose now depth registry all cs).1 = (tickAutoClose now depth' registry' all cs).1 ∧
  ∀ active, cs_GetActive cs = Ok active →
    (tickAutoClose now depth registry all cs).1 =
      if after now (c_EndsAt active) then closing now all active cs else ([], cs).
Proof.
  intros Hinv Hn cs. pose proof (run_ops_no_deadline ops s Hinv Hn) as Hn'.
  pose proof (run_ops_inv ops s Hinv) as Hinv'. fold cs in Hn', Hinv'.
  assert (Hone : ∀ depth registry active, cs_GetActive cs = Ok active →
    (tickAutoClose now depth registry all cs).1 =
      if after now (c_EndsAt active) then closing now all active cs else ([], cs)).
  { intros d r active Ha. unfold tickAutoClose. rewrite Ha.
    apply cs_active_ok in Ha as [Hin _]; [|apply Hinv'].
    unfold no_deadline in Hn'. rewrite Forall_forall in Hn'. rewrite (Hn' active Hin). simpl.
    unfold closing. destruct (after now (c_EndsAt active)); [|done].
    by destruct (Close _ _ _ cs) as [[err evs] cs']. }
  split; [|apply Hone].
  destruct (cs_GetActive cs) as [active|e] eqn:Ha; [by rewrite !(Hone _ _ active eq_refl)|].
  unfold tickAutoClose. by rewrite Ha.
Qed.
End closing.

(** ** The properties at concrete inputs *)
Definition ending_request (name : string) (t : time) : CreateContestRequest :=
  mkCreate name true None None None F64.zero F64.zero F64.zero (Some t).

Lemma autoclose_never_waits_witness :
  length (tickAutoClose (S := MemoryContestStore) 101 (Some (Ok 5))
    {["w1" := mkWorker "w1" "busy" "sub-1" 0 100 0]} (Ok [])
    (fold_left (λ s op, run_op op s) [OpCreate "c1" 1 (ending_request "first" 100); OpActivate 3 "c1"]
       NewMemoryContestStore)).1.1 = 1%nat.
Proof.
  rewrite (proj1 (autoclose_never_waits [OpCreate "c1" 1 (ending_request "first" 100); OpActivate 3 "c1"]
    NewMemoryContestStore 101 (Ok []) (Some (Ok 5)) None {["w1" := mkWorker "w1" "busy" "sub-1" 0 100 0]} ∅
    new_mem_inv ltac:(constructor))).
  by vm_compute.
Defined.
