(* ===== verification/Sandbox.v ===== *)
(** * Sandbox: containers and their host ports ([internal/sandbox/docker.go])

    Calls of the Docker client are actions of a trace, and their answers arguments;
    the port pool is a map under its lock. The short ids [ID\[:8\]] are read on ids of
    at least that length. *)

From S2P Require Import Prelude Models Submission GoStrings.

Definition containerPort : string := "7878/tcp".
Definition labelSubmissionID : string := "nexusbench.submission_id".

(** The fields of the configuration that the sandbox uses. *)
Record SandboxConfig := mkSandboxConfig {
  sc_Images : Images;
  sc_CPUQuota : Z;
  sc_MemoryBytes : Z;
  sc_NetworkMode : string;
  sc_PortMin : Z;
  sc_PortMax : Z
}.

(** ** The port pool *)
Abbreviation ports := (gmap Z string) (only parsing).

(** The loop over the ports from [port] on. *)
Fixpoint allocateFrom (n : nat) (port : Z) (submissionID : string) (used : ports) : option Z * ports :=
  match n with
  | O => (None, used)
  | S n =>
      match used !! port with
      | None => (Some port, <[port := submissionID]> used)
      | Some _ => allocateFrom n (port + 1) submissionID used
      end
  end.

Definition allocatePort (c : SandboxConfig) (submissionID : string) (used : ports) : option Z * ports :=
  allocateFrom (Z.to_nat (sc_PortMax c - sc_PortMin c + 1)) (sc_PortMin c) submissionID used.

Definition releasePort (port : Z) (used : ports) : ports := delete port used.

(** One port whose value is the given id, the first that the range meets. *)
Definition releasePortByContainerID (range : ports → list (Z * string)) (containerID : string)
    (used : ports) : ports :=
  match list_find (λ pi, pi.2 = containerID) (range used) with
  | Some (_, (port, _)) => delete port used
  | None => used
  end.

(** ** The container *)
Record ContainerConfig := mkContainer {
  cc_Image : string;
  cc_Env : list string;
  cc_Labels : list (string * string);
  cc_HostPort : Z;
  cc_Memory : Z;
  cc_CPUQuota : Z;
  cc_CPUPeriod : Z;
  cc_PidsLimit : Z;
  cc_NetworkMode : string;
  cc_CapDrop : list string;
  cc_OomScoreAdj : Z;
  cc_RestartPolicy : string;
  cc_Name : string
}.

Definition buildEnv (sub : Submission) : list string :=
  ["NEXUS_SUBMISSION_ID=" +:+ s_ID sub; "NEXUS_TEAM=" +:+ s_TeamName sub;
   "NEXUS_LANGUAGE=" +:+ s_Language sub; "NEXUS_PROTOCOL=" +:+ s_Protocol sub;
   "NEXUS_LISTEN_PORT=7878"].

Definition CapDrop : list string :=
  ["NET_RAW"; "SYS_ADMIN"; "SYS_PTRACE"; "SYS_MODULE"; "SYS_RAWIO"; "SYS_PACCT"; "SYS_NICE";
   "SYS_RESOURCE"; "SYS_TIME"; "SYS_TTY_CONFIG"; "AUDIT_WRITE"; "AUDIT_CONTROL"; "MAC_OVERRIDE";
   "MAC_ADMIN"; "NET_ADMIN"; "SYSLOG"; "DAC_READ_SEARCH"; "LINUX_IMMUTABLE"; "NET_BROADCAST";
   "IPC_LOCK"; "IPC_OWNER"; "SYS_BOOT"; "LEASE"; "WAKE_ALARM"; "BLOCK_SUSPEND"].

Definition containerFor (c : SandboxConfig) (sub : Submission) (image : string) (hostPort : Z) : ContainerConfig :=
  mkContainer image (buildEnv sub)
    [(labelSubmissionID, s_ID sub); ("nexusbench.team", s_TeamName sub);
     ("nexusbench.language", s_Language sub); ("nexusbench.image", image)]
    hostPort (sc_MemoryBytes c) (sc_CPUQuota c) 100000 512 (sc_NetworkMode c) CapDrop 500 "no"
    ("nexusbench-" +:+ String.substring 0 8 (s_ID sub)).

(** ** Deploy and Stop *)
(** The calls of the Docker client that change something. *)
Inductive docker_call :=
| ContainerCreate (cfg : ContainerConfig)
| CopyToContainer (id : string)
| ContainerStart (id : string)
| ContainerRemove (id : string) (force : bool)
| ContainerStop (id : string) (timeout : Z)
| ImagePull (image : string).

(** What the client answers during one deployment. *)
Record docker_env := mkDockerEnv {
  de_inspect : bool;
  de_create : result string string;
  de_inject : option string;
  de_start : option string
}.

Inductive deploy_error :=
| NoImage (language : string)
| ImageMissing (image : string)
| PortsExhausted
| CreateFailed (e : string)
| InjectFailed (e : string)
| StartFailed (e : string).

(** The deferred call of [Deploy]: on an error it releases the result [hostPort], which
    every return with an error has set to zero. *)
Definition deferRelease (r : result deploy_error (string * Z)) (used : ports) : ports :=
  match r with
  | Ok _ => used
  | Err _ => releasePort 0 used
  end.

(** From the allocated port on. *)
Definition deployOn (c : SandboxConfig) (ev : docker_env) (sub : Submission) (image : string) (hostPort : Z)
    : result deploy_error (string * Z) * list docker_call :=
  let create := ContainerCreate (containerFor c sub image hostPort) in
  match de_create ev with
  | Err e => (Err (CreateFailed e), [create])
  | Ok id =>
      match de_inject ev with
      | Some e => (Err (InjectFailed e), [create; CopyToContainer id; ContainerRemove id true])
      | None =>
          match de_start ev with
          | Some e => (Err (StartFailed e),
              [create; CopyToContainer id; ContainerStart id; ContainerRemove id true])
          | None => (Ok (id, hostPort), [create; CopyToContainer id; ContainerStart id])
          end
      end
  end.

Definition Deploy (c : SandboxConfig) (ev : docker_env) (sub : Submission) (used : ports)
    : result deploy_error (string * Z) * list docker_call * ports :=
  match ImageForLanguage (sc_Images c) (s_Language sub) with
  | (_, false) => (Err (NoImage (s_Language sub)), [], used)
  | (image, true) =>
      if negb (de_inspect ev) then (Err (ImageMissing image), [], used)
      else match allocatePort c (s_ID sub) used with
      | (None, used) => (Err PortsExhausted, [], used)
      | (Some hostPort, used) =>
          let '(r, calls) := deployOn c ev sub image hostPort in (r, calls, deferRelease r used)
      end
  end.

(** [stop]: the error of [ContainerStop]. *)
Definition Stop (range : ports → list (Z * string)) (stop : option string) (containerID : string)
    (used : ports) : option string * list docker_call * ports :=
  match stop with
  | Some e => (Some e, [ContainerStop containerID 10], used)
  | None => (None, [ContainerStop containerID 10; ContainerRemove containerID false],
             releasePortByContainerID range containerID used)
  end.

(** ** Health, images, pruning and logs *)
(** What [ContainerInspect] reports. *)
Record container_state := mkState { cst_Running : bool; cst_Health : option string }.

Definition ContainerHealthy (info : result string container_state) : result string bool :=
  match info with
  | Err e => Err e
  | Ok st =>
      if negb (cst_Running st) then Ok false
      else match cst_Health st with
      | None => Ok true
      | Some status => Ok (bool_decide (status = "healthy"))
      end
  end.

Definition AllImages (c : Images) : list (string * string) :=
  [("go", ImageGo c); ("rust", ImageRust c); ("cpp", ImageCpp c); ("python", ImagePython c);
   ("binary", ImageBinary c)].

(** The languages without an image; an error when no image is there. *)
Definition VerifyImages (present : string → bool) (c : Images) : list string * bool :=
  let missing := (filter (λ li, present li.2 = false) (AllImages c)).*1 in
  (missing, bool_decide (length missing = length (AllImages c))).

Definition EnsureImage (present : string → bool) (pull : option string) (image : string)
    : option string * list docker_call :=
  if present image then (None, []) else (pull, [ImagePull image]).

Definition PruneStale (exited : result string (list string)) : option string * list docker_call :=
  match exited with
  | Err e => (Some e, [])
  | Ok ids => (None, (λ id, ContainerRemove id true) <$> ids)
  end.

(** The log lines of a stream of reads, each with the eight bytes of its header. *)
Definition tailLogs (reads : list string) : list string :=
  omap (λ buf, if (8 <? String.length buf)%nat then Some (TrimSpace (drop_string 8 buf)) else None) reads.
