(* ===== verification/SandboxTheorems.v ===== *)
(** * SandboxTheorems: what is deployed, and what becomes of the ports *)

From S2P Require Import Prelude Models Submission GoStrings Sandbox.

(** ** Allocation *)
Lemma allocateFrom_spec n port id used :
  match allocateFrom n port id used with
  | (Some p, used') => port ≤ p < port + Z.of_nat n ∧ used !! p = None ∧ used' = <[p := id]> used ∧
      (∀ q, port ≤ q < p → is_Some (used !! q))
  | (None, used') => used' = used ∧ (∀ q, port ≤ q < port + Z.of_nat n → is_Some (used !! q))
  end.
Proof.
  revert port. induction n as [|n IH]; intros port; cbn [allocateFrom]; [split; [done|lia]|].
  destruct (used !! port) as [id'|] eqn:E; [|split_and!; [lia|lia|done|done|lia]].
  specialize (IH (port + 1)). destruct (allocateFrom n (port + 1) id used) as [[p|] used'].
  - destruct IH as (Hp & Hn & -> & Hlow). split_and!; [lia|lia|done|done|].
    intros q Hq. destruct (decide (q = port)) as [->|]; [by eexists|apply Hlow; lia].
  - destruct IH as [-> Hall]. split; [done|].
    intros q Hq. destruct (decide (q = port)) as [->|]; [by eexists|apply Hall; lia].
Qed.

Definition in_range (c : SandboxConfig) (p : Z) : Prop := sc_PortMin c ≤ p ≤ sc_PortMax c.

(** [allocatePort] hands out the lowest free port of the range, records it for the
    submission and touches no other; it fails exactly when the whole range is taken. *)
Theorem allocate_port_spec c id used :
  match allocatePort c id used with
  | (Some p, used') => in_range c p ∧ used !! p = None ∧ used' = <[p := id]> used ∧
      (∀ q, sc_PortMin c ≤ q < p → is_Some (used !! q))
  | (None, used') => used' = used ∧ (∀ q, in_range c q → is_Some (used !! q))
  end.
Proof.
  unfold allocatePort, in_range.
  pose proof (allocateFrom_spec (Z.to_nat (sc_PortMax c - sc_PortMin c + 1)) (sc_PortMin c) id used) as H.
  destruct (allocateFrom _ _ _ _) as [[p|] used'].
  - destruct H as (Hp & Hn & -> & Hlow). split_and!; [lia|lia|done|done|done].
  - destruct H as [-> Hall]. split; [done|]. intros q Hq. apply Hall. lia.
Qed.

(** ** One deployment *)
(** A deployment either returns a container that was created for the submission
    on a port of the range that was free, with the archive copied in before the
    start, within the limits of the configuration; or it fails with no container
    left: one that was created is removed. *)
Theorem deploy_outcome c ev sub used :
  let '(r, calls, used') := Deploy c ev sub used in
  match r with
  | Ok (id, port) => in_range c port ∧ used !! port = None ∧ used' !! port = Some (s_ID sub) ∧
      ∃ image, ImageForLanguage (sc_Images c) (s_Language sub) = (image, true) ∧
        calls = [ContainerCreate (containerFor c sub image port); CopyToContainer id; ContainerStart id]
  | Err e => ∀ cfg id, ContainerCreate cfg ∈ calls → de_create ev = Ok id → ContainerRemove id true ∈ calls
  end.
Proof.
  unfold Deploy. destruct (ImageForLanguage _ _) as [image []] eqn:Ei.
  2: { intros cfg id Hin. by apply not_elem_of_nil in Hin. }
  destruct (de_inspect ev); simpl; [|intros cfg id Hin; by apply not_elem_of_nil in Hin].
  unfold allocatePort.
  pose proof (allocateFrom_spec (Z.to_nat (sc_PortMax c - sc_PortMin c + 1)) (sc_PortMin c) (s_ID sub) used) as Ha.
  destruct (allocateFrom _ _ _ _) as [[port|] used1].
  2: { intros cfg id Hin. by apply not_elem_of_nil in Hin. }
  destruct Ha as (Hp & Hn & -> & _). unfold deployOn.
  destruct (de_create ev) as [id|e]; [|by intros ? ? _ [=]].
  destruct (de_inject ev); [intros ? ? _ [= <-]; set_solver|].
  destruct (de_start ev); [intros ? ? _ [= <-]; set_solver|].
  split; [unfold in_range; lia|]. split; [done|]. split; [apply lookup_insert_eq|by exists image].
Qed.

(** ** The life of the pool *)
Inductive sandbox_op :=
| DoDeploy (ev : docker_env) (sub : Submission)
| DoStop (stop : option string) (containerID : string).

Section pool.
Context (c : SandboxConfig) (range : gmap Z string → list (Z * string)).

Definition sandbox_step (op : sandbox_op) (used : gmap Z string) : gmap Z string :=
  match op with
  | DoDeploy ev sub => (Deploy c ev sub used).2
  | DoStop stop id => (Stop range stop id used).2
  end.

(** The step allocates a port, whether or not the deployment then succeeds. *)
Definition allocates (op : sandbox_op) (used : gmap Z string) : bool :=
  match op with
  | DoDeploy ev sub =>
      (ImageForLanguage (sc_Images c) (s_Language sub)).2 && de_inspect ev &&
      match (allocatePort c (s_ID sub) used).1 with Some _ => true | None => false end
  | DoStop _ _ => false
  end.

Fixpoint allocations (ops : list sandbox_op) (used : gmap Z string) : nat :=
  match ops with
  | [] => 0
  | op :: ops => (if allocates op used then 1 else 0) + allocations ops (sandbox_step op used)
  end.

(** Container ids are no submission ids, and only positive ports are handed out. *)
Definition op_ok (ids : list string) (op : sandbox_op) : Prop :=
  match op with
  | DoDeploy _ sub => s_ID sub ∈ ids
  | DoStop _ id => id ∉ ids
  end.

Definition pool_ok (ids : list string) (used : gmap Z string) : Prop :=
  ∀ p id, used !! p = Some id → 0 < p ∧ id ∈ ids.

Lemma release_by_container_noop ids used id :
  (∀ used, range used ≡ₚ map_to_list used) → pool_ok ids used → id ∉ ids →
  releasePortByContainerID range id used = used.
Proof.
  intros Hrange Hok Hid. unfold releasePortByContainerID.
  destruct (list_find _ _) as [[i [p id']]|] eqn:E; [|done].
  apply list_find_Some in E as (Hl & Hp & _). simpl in Hp. subst id'.
  apply list_elem_of_lookup_2 in Hl. rewrite Hrange in Hl. apply elem_of_map_to_list in Hl.
  by destruct (Hok p id Hl).
Qed.

Lemma sandbox_step_size ids op used :
  (∀ used, range used ≡ₚ map_to_list used) → 0 < sc_PortMin c → pool_ok ids used → op_ok ids op →
  pool_ok ids (sandbox_step op used) ∧
  size (sandbox_step op used) = ((if allocates op used then 1 else 0) + size used)%nat.
Proof.
  intros Hrange Hmin Hok Hop. destruct op as [ev sub|stop id]; simpl in *.
  - unfold Deploy. destruct (ImageForLanguage _ _) as [image []]; [|done].
    destruct (de_inspect ev); [|done]. simpl.
    unfold allocatePort.
    pose proof (allocateFrom_spec (Z.to_nat (sc_PortMax c - sc_PortMin c + 1)) (sc_PortMin c) (s_ID sub) used) as Ha.
    destruct (allocateFrom _ _ _ _) as [[port|] used1]; [|by destruct Ha as [-> _]].
    destruct Ha as (Hp & Hn & -> & _).
    assert (Hok1 : pool_ok ids (<[port := s_ID sub]> used)).
    { intros p id. rewrite lookup_insert. case_decide; [intros [= <-]; split; [lia|done]|apply Hok]. }
    assert (deferRelease (deployOn c ev sub image port).1 (<[port := s_ID sub]> used) = <[port := s_ID sub]> used)
      as Hdefer.
    { unfold deferRelease. destruct (deployOn _ _ _ _ _).1; [done|]. apply delete_id.
      destruct (<[port := s_ID sub]> used !! 0) as [id|] eqn:E; [|done]. apply Hok1 in E. lia. }
    destruct (deployOn c ev sub image port) as [r calls]. simpl in *. rewrite Hdefer.
    split; [done|]. by rewrite map_size_insert_None.
  - unfold Stop. destruct stop; [done|]. simpl. by rewrite (release_by_container_noop ids).
Qed.

Lemma sandbox_run_size ids ops used :
  (∀ used, range used ≡ₚ map_to_list used) → 0 < sc_PortMin c → pool_ok ids used → Forall (op_ok ids) ops →
  size (fold_left (λ used op, sandbox_step op used) ops used) = (allocations ops used + size used)%nat.
Proof.
  intros Hrange Hmin Hok Hops. revert used Hok. induction Hops as [|op ops Hop Hops IH]; intros used Hok; [done|].
  destruct (sandbox_step_size ids op used Hrange Hmin Hok Hop) as [Hok' Hsize].
  cbn [fold_left allocations]. rewrite IH by done. rewrite Hsize. lia.
Qed.
End pool.

(** C38: No port ever goes back to the pool: whatever is deployed and stopped, and
    whatever fails, every allocation since the start is still held. A range of n
    ports therefore serves n deployments in the life of the process. *)
Theorem ports_never_released c range ids ops :
  (∀ used, range used ≡ₚ map_to_list used) → 0 < sc_PortMin c → Forall (op_ok ids) ops →
  size (fold_left (λ used op, sandbox_step c range op used) ops ∅) = allocations c range ops ∅.
Proof.
  intros Hrange Hmin Hops. rewrite (sandbox_run_size c range ids); [|done|done| |done].
  - rewrite map_size_empty. lia.
  - intros p id Hp. by rewrite lookup_empty in Hp.
Qed.

(** ** The properties at concrete inputs *)
Definition ex_config : SandboxConfig :=
  mkSandboxConfig (mkImages "go:1" "rust:1" "cpp:1" "python:1" "binary:1") 100000 536870912 "bridge" 20000 20001.
Definition ex_submission (id : string) : Submission :=
  mkSubmission id "t" "go" "rest" StatusPending "" "" "" 0 "" "" 0 0 0 None None [] F64.zero None.
Definition ex_docker (create : result string string) : docker_env := mkDockerEnv true create None None.

(** Two ports, one failed start and one that was stopped: the third has none left. *)
Definition ex_sandbox_ops : list sandbox_op :=
  [DoDeploy (ex_docker (Ok "container-1")) (ex_submission "sub-0001"); DoStop None "container-1";
   DoDeploy (ex_docker (Err "conflict")) (ex_submission "sub-0002");
   DoDeploy (ex_docker (Ok "container-3")) (ex_submission "sub-0003")].

Lemma ports_never_released_witness :
  size (fold_left (λ used op, sandbox_step ex_config map_to_list op used) ex_sandbox_ops ∅) = 2%nat ∧
  (Deploy ex_config (ex_docker (Ok "container-4")) (ex_submission "sub-0004")
     (fold_left (λ used op, sandbox_step ex_config map_to_list op used) ex_sandbox_ops ∅)).1.1 = Err PortsExhausted.
Proof.
  split; [|by vm_compute].
  rewrite (ports_never_released ex_config map_to_list ["sub-0001"; "sub-0002"; "sub-0003"] ex_sandbox_ops).
  - by vm_compute.
  - done.
  - done.
  - unfold ex_sandbox_ops. repeat (apply Forall_cons; split; [simpl; set_solver|]). constructor.
Defined.
