(* ===== verification/Config.v ===== *)
(** * Config: reading the environment ([internal/config/config.go], [dir_unix.go])

    The environment is a function from names to values, empty when unset, as
    [os.Getenv] gives them. [ParseInt] and [Atoi] are those of [Strconv],
    [ParseDuration] is here; [strconv.ParseFloat] is an argument. [Load] reads back
    every configuration that is written into the environment. *)

From S2P Require Import Prelude Models Submission GoStrings Strconv FloatText Sandbox.

(** ** [time.ParseDuration] *)
Definition Hour : duration := 60 * Minute.

(** [leadingInt]: the digits at the start as an [uint64] of at most 2^63, and the rest. *)
Fixpoint leadingInt (s : string) (x : Z) : option (Z * string) :=
  match s with
  | String c r =>
      if isDigit c then
        if 2 ^ 63 / 10 <? x then None
        else let x := 10 * x + digitValue c in if 2 ^ 63 <? x then None else leadingInt r x
      else Some (x, s)
  | EmptyString => Some (x, s)
  end.

(** [leadingFraction]: digits that do not fit are dropped. *)
Fixpoint leadingFraction (s : string) (x : Z) (scale : float64) (overflow : bool) : Z * float64 * string :=
  match s with
  | String c r =>
      if isDigit c then
        let y := 10 * x + digitValue c in
        if overflow || (int64_max / 10 <? x) || (2 ^ 63 <? y) then leadingFraction r x scale true
        else leadingFraction r y (F64.mul scale (F64.of_Z 10)) false
      else (x, scale, s)
  | EmptyString => (x, scale, s)
  end.

(** The unit: up to the next digit or dot. *)
Fixpoint spanUnit (s : string) : string * string :=
  match s with
  | String c r =>
      if isDigit c || bool_decide (c = Ascii.ascii_of_N 46) then ("", s)
      else let '(u, r) := spanUnit r in (String c u, r)
  | EmptyString => ("", s)
  end.

(** [unitMap]; the two letters mu are U+00B5 and U+03BC. *)
Definition unitOf (u : string) : option Z :=
  let mu (a b : Z) := String (Ascii.ascii_of_N (Z.to_N a)) (String (Ascii.ascii_of_N (Z.to_N b)) "s") in
  snd <$> head (filter (λ p, p.1 = u)
    [("ns", 1); ("us", 1000); (mu 194 181, 1000); (mu 206 188, 1000); ("ms", Millisecond);
     ("s", Second); ("m", Minute); ("h", Hour)]).

(** [uint64(x)] of a float that is not negative. *)
Definition truncate (x : float64) : Z :=
  match x with S754_finite false m e => if 0 <=? e then Z.pos m * 2 ^ e else Z.pos m / 2 ^ (- e) | _ => 0 end.

(** One number with its unit: its nanoseconds, and the rest. *)
Definition durationPart (s : string) : option (Z * string) :=
  '(v, s1) ← leadingInt s 0;
  let pre := bool_decide (s1 ≠ s) in
  let '(f, scale, s2, post) :=
    match s1 with
    | String c r =>
        if bool_decide (c = Ascii.ascii_of_N 46)
        then let '(f, scale, s2) := leadingFraction r 0 F64.one false in (f, scale, s2, bool_decide (s2 ≠ r))
        else (0, F64.one, s1, false)
    | EmptyString => (0, F64.one, s1, false)
    end in
  if negb pre && negb post then None
  else
    let '(u, s3) := spanUnit s2 in
    unit ← unitOf u;
    if 2 ^ 63 / unit <? v then None
    else
      let v := v * unit in
      let v := if 0 <? f then v + truncate (F64.mul (F64.of_Z f) (F64.div (F64.of_Z unit) scale)) else v in
      if 2 ^ 63 <? v then None else Some (v, s3).

(** The sum of the parts; each takes at least one byte, so the length is enough fuel. *)
Fixpoint durationParts (fuel : nat) (s : string) (d : Z) : option Z :=
  match fuel, s with
  | _, EmptyString => Some d
  | O, _ => None
  | S fuel, _ =>
      '(v, s) ← durationPart s;
      let d := u64 (d + v) in
      if 2 ^ 63 <? d then None else durationParts fuel s d
  end.

Definition ParseDuration (s : string) : option duration :=
  let '(neg, s) :=
    match s with
    | String c r =>
        if bool_decide (Ascii.N_of_ascii c = 45%N) then (true, r)
        else if bool_decide (Ascii.N_of_ascii c = 43%N) then (false, r) else (false, s)
    | EmptyString => (false, s)
    end in
  if bool_decide (s = "0") then Some 0
  else if bool_decide (s = "") then None
  else
    d ← durationParts (String.length s) s 0;
    if neg : bool then Some (- d) else if int64_max <? d then None else Some d.

Example ParseDuration_examples :
  ParseDuration "35m" = Some (35 * Minute) ∧ ParseDuration "1h15m30.918s" = Some (Hour + 15 * Minute + 30918 * Millisecond) ∧
  ParseDuration "-1.5ms" = Some (-1500000) ∧ ParseDuration "0" = Some 0 ∧ ParseDuration "60" = None ∧
  ParseDuration ".5s" = Some (500 * Millisecond) ∧ ParseDuration ".s" = None ∧ ParseDuration "1d" = None ∧
  ParseDuration "9223372036854775807ns" = Some int64_max ∧ ParseDuration "9223372036854775808ns" = None ∧
  ParseDuration "-9223372036854775808ns" = Some int64_min ∧ ParseDuration "" = None ∧ ParseDuration "+" = None.
Proof. by vm_compute. Qed.

(** ** The helpers *)
Section environment.
Context (Getenv : string → string).

Definition getEnv (key defaultVal : string) : string :=
  if bool_decide (Getenv key = "") then defaultVal else Getenv key.

(** The three helpers that parse: the parsed value, or the default. *)
Definition getEnvParsed {A} (parse : string → option A) (key : string) (defaultVal : A) : A :=
  if bool_decide (Getenv key = "") then defaultVal else default defaultVal (parse (Getenv key)).

Definition getEnvInt64 : string → Z → Z := getEnvParsed ParseInt.
Definition getEnvInt : string → Z → Z := getEnvParsed ParseInt.

Definition getEnvBool (key : string) (defaultVal : bool) : bool :=
  let v := ToLower (TrimSpace (Getenv key)) in
  if bool_decide (v = "true" ∨ v = "1" ∨ v = "yes") then true
  else if bool_decide (v = "false" ∨ v = "0" ∨ v = "no") then false
  else defaultVal.

Definition getEnvStringSlice (key : string) (defaultVal : list string) : list string :=
  let v := Getenv key in
  if bool_decide (v = "") then defaultVal
  else
    let out := filter (λ t, t ≠ "") (TrimSpace <$> Split comma v) in
    if bool_decide (out = []) then defaultVal else out.

Context (ParseFloat : string → option float64).

Definition getEnvFloat64 : string → float64 → float64 := getEnvParsed ParseFloat.
Definition getEnvDuration : string → duration → duration := getEnvParsed ParseDuration.

Definition defaultSubmissionDir : string := "/tmp/nexusbench/submissions".

Definition hostname (h : option string) : string := default "worker-unknown" h.

(** ** Load *)
Record Config := mkConfig {
  cfg_ListenAddr : string;
  cfg_SubmissionDir : string;
  cfg_Images : Images;
  cfg_SandboxCPUQuota : Z;
  cfg_SandboxMemoryBytes : Z;
  cfg_SandboxTimeout : duration;
  cfg_SandboxNetworkMode : string;
  cfg_SandboxPortMin : Z;
  cfg_SandboxPortMax : Z;
  cfg_SandboxHost : string;
  cfg_MaxUploadBytes : Z;
  cfg_DistributedMode : bool;
  cfg_RedpandaBrokers : list string;
  cfg_WorkerID : string;
  cfg_JobTimeout : duration;
  cfg_OrchestratorURL : string;
  cfg_BotCount : Z;
  cfg_BotTestDuration : duration;
  cfg_BotRampUpDuration : duration;
  cfg_BotOrderRatioLimit : float64;
  cfg_BotOrderRatioMarket : float64;
  cfg_BotOrderRatioCancel : float64;
  cfg_BotPerRequestTimeout : duration;
  cfg_AdminAPIKey : string;
  cfg_PostgresDSN : string
}.

Definition Load (h : option string) : Config :=
  mkConfig
    (getEnv "LISTEN_ADDR" ":8080")
    (getEnv "SUBMISSION_DIR" defaultSubmissionDir)
    (mkImages (getEnv "SANDBOX_IMAGE_GO" "nexusbench-sandbox-go:latest")
       (getEnv "SANDBOX_IMAGE_RUST" "nexusbench-sandbox-rust:latest")
       (getEnv "SANDBOX_IMAGE_CPP" "nexusbench-sandbox-cpp:latest")
       (getEnv "SANDBOX_IMAGE_PYTHON" "nexusbench-sandbox-python:latest")
       (getEnv "SANDBOX_IMAGE_BINARY" "nexusbench-sandbox-binary:latest"))
    (getEnvInt64 "SANDBOX_CPU_QUOTA" 100000)
    (getEnvInt64 "SANDBOX_MEMORY_BYTES" (512 * 1024 * 1024))
    (getEnvDuration "SANDBOX_TIMEOUT" (30 * Minute))
    (getEnv "SANDBOX_NETWORK_MODE" "bridge")
    (getEnvInt "SANDBOX_PORT_MIN" 20000)
    (getEnvInt "SANDBOX_PORT_MAX" 21000)
    (getEnv "SANDBOX_HOST" "host-gateway")
    (getEnvInt64 "MAX_UPLOAD_BYTES" (256 * 1024 * 1024))
    (getEnvBool "DISTRIBUTED_MODE" false)
    (getEnvStringSlice "REDPANDA_BROKERS" ["127.0.0.1:19092"])
    (getEnv "WORKER_ID" (hostname h))
    (getEnvDuration "JOB_TIMEOUT" (35 * Minute))
    (getEnv "ORCHESTRATOR_URL" "http://localhost:8080")
    (getEnvInt "BOT_COUNT" 100)
    (getEnvDuration "BOT_TEST_DURATION" (60 * Second))
    (getEnvDuration "BOT_RAMP_UP_DURATION" (5 * Second))
    (getEnvFloat64 "BOT_ORDER_RATIO_LIMIT" (F64.lit 60 100))
    (getEnvFloat64 "BOT_ORDER_RATIO_MARKET" (F64.lit 30 100))
    (getEnvFloat64 "BOT_ORDER_RATIO_CANCEL" (F64.lit 10 100))
    (getEnvDuration "BOT_PER_REQUEST_TIMEOUT" (2 * Second))
    (getEnv "ADMIN_API_KEY" "")
    (getEnv "POSTGRES_DSN" "").
End environment.

(** The part of the configuration that the sandbox reads. *)
Definition sandboxConfig (c : Config) : SandboxConfig :=
  mkSandboxConfig (cfg_Images c) (cfg_SandboxCPUQuota c) (cfg_SandboxMemoryBytes c)
    (cfg_SandboxNetworkMode c) (cfg_SandboxPortMin c) (cfg_SandboxPortMax c).

Abbreviation no_env := (λ _ : string, "") (only parsing).

Example Load_defaults :
  let c := Load no_env (λ _, None) None in
  cfg_ListenAddr c = ":8080" ∧ cfg_SandboxMemoryBytes c = 536870912 ∧ cfg_DistributedMode c = false ∧
  cfg_RedpandaBrokers c = ["127.0.0.1:19092"] ∧ cfg_WorkerID c = "worker-unknown" ∧
  cfg_JobTimeout c = 35 * 60 * Second ∧ cfg_BotCount c = 100 ∧ cfg_AdminAPIKey c = "".
Proof. by vm_compute. Qed.

Example getEnvBool_examples :
  getEnvBool (λ _, " YES ") "DISTRIBUTED_MODE" false = true ∧
  getEnvBool (λ _, "on") "DISTRIBUTED_MODE" false = false ∧
  getEnvStringSlice (λ _, " a:1, ,b:2,") "REDPANDA_BROKERS" ["x"] = ["a:1"; "b:2"] ∧
  getEnvStringSlice (λ _, " , ") "REDPANDA_BROKERS" ["x"] = ["x"] ∧
  getEnvStringSlice (λ _, String (Ascii.ascii_of_N 194) (String (Ascii.ascii_of_N 160) ",b:2")) "REDPANDA_BROKERS" ["x"] = ["b:2"].
Proof. by vm_compute. Qed.

(** A variable that holds the decimal text of an integer is read back as that
    number when it is an [int64]; out of range it gives the default. *)
Theorem config_int_roundtrip Getenv key d n :
  Getenv key = pretty n → getEnvInt64 Getenv key d = if decide (is_int64 n) then n else d.
Proof.
  intros Hn. unfold getEnvInt64, getEnvParsed. rewrite Hn, ParseInt_pretty, bool_decide_eq_false_2.
  - unfold int64_or_none. by case_decide.
  - intros He. pose proof (ParseInt_pretty n) as Hp. rewrite He in Hp.
    destruct n as [|x|x]; [done|..].
    + by destruct (parseDigits_pretty (N.pos x)) as [_ []].
    + done.
Qed.

Example config_int_roundtrip_witness :
  (λ _ : string, "-7") "SANDBOX_CPU_QUOTA" = pretty (-7) ∧
  getEnvInt64 (λ _, "-7") "SANDBOX_CPU_QUOTA" 100000 = -7.
Proof.
  split; [by vm_compute|]. exact (config_int_roundtrip (λ _, "-7") _ _ (-7) eq_refl).
Defined.

(** ** Durations are read back *)
Lemma leadingInt_length s x y r : leadingInt s x = Some (y, r) → (String.length r ≤ String.length s)%nat.
Proof.
  revert x. induction s as [|c s IH]; intros x; simpl; [by intros [= <- <-]|].
  destruct (isDigit c); [|by intros [= <- <-]]. destruct (_ <? x); [done|]. destruct (_ <? _); [done|].
  intros H%IH. lia.
Qed.

Lemma leadingFraction_length s x sc o : (String.length (leadingFraction s x sc o).2 ≤ String.length s)%nat.
Proof.
  revert x sc o. induction s as [|c s IH]; intros x sc o; [done|]. cbn [leadingFraction].
  destruct (isDigit c); [|done]. destruct (_ || _); (etrans; [apply IH|simpl; lia]).
Qed.

Lemma spanUnit_length s : (String.length (spanUnit s).1 + String.length (spanUnit s).2 = String.length s)%nat.
Proof.
  induction s as [|c s IH]; [done|]. cbn [spanUnit]. destruct (_ || _); [done|].
  destruct (spanUnit s) as [u r]. simpl in *. lia.
Qed.

Lemma durationPart_shorter s v r : durationPart s = Some (v, r) → (String.length r < String.length s)%nat.
Proof.
  unfold durationPart. destruct (leadingInt s 0) as [[v0 s1]|] eqn:Hi; [|done]. apply leadingInt_length in Hi.
  cbn [mbind option_bind].
  set (t := match s1 with String _ _ => _ | _ => _ end).
  assert (String.length t.1.2 ≤ String.length s1)%nat as Ht.
  { subst t. destruct s1 as [|c r1]; [done|]. case_bool_decide; [|done].
    pose proof (leadingFraction_length r1 0 F64.one false) as Hl.
    destruct (leadingFraction r1 0 F64.one false) as [[f sc] s2]. simpl in *. lia. }
  destruct t as [[[f sc] s2] post]. simpl in Ht. destruct (_ && _); [done|].
  pose proof (spanUnit_length s2) as Hs. destruct (spanUnit s2) as [u s3]. simpl in Hs.
  destruct (unitOf u) as [unit|] eqn:Hu; [|done]. destruct u; [done|]. simpl in *.
  destruct (_ <? v0); [done|]. destruct (_ <? _); [done|]. intros [= _ <-]. lia.
Qed.

(** More fuel makes no difference. *)
Lemma durationParts_fuel n s d :
  (String.length s ≤ n)%nat → durationParts n s d = durationParts (String.length s) s d.
Proof.
  intros Hn. remember (String.length s) as k eqn:Hk. assert (String.length s ≤ k)%nat as Hs by lia. clear Hk.
  revert n k s d Hn Hs. induction n as [|n IH]; intros k s d Hn Hs.
  { destruct k; [done|lia]. }
  destruct k as [|k]; [destruct s; [done|simpl in Hs; lia]|]. destruct s as [|c s]; [done|].
  cbn [durationParts]. destruct (durationPart (String c s)) as [[v r]|] eqn:Hp; [|done].
  cbn [mbind option_bind]. destruct (_ <? _); [done|]. apply durationPart_shorter in Hp. simpl in Hp, Hs.
  apply IH; lia.
Qed.

Lemma parseDigits_grows s x n : 0 ≤ x → parseDigits s x = Some n → x ≤ n.
Proof.
  revert x. induction s as [|c s IH]; intros x Hx; [by intros [= <-]|]. cbn [parseDigits].
  destruct (isDigit c) eqn:Hc; [|done]. unfold isDigit in Hc. apply andb_prop in Hc as [Hc%N.leb_le _].
  unfold digitValue. intros H%IH; lia.
Qed.

Lemma leadingInt_digits s r x n :
  0 ≤ x → parseDigits s x = Some n → n ≤ 2 ^ 63 → leadingInt r n = Some (n, r) → leadingInt (s +:+ r) x = Some (n, r).
Proof.
  intros Hx Hs Hn Hr. revert x Hx Hs. induction s as [|c s IH]; intros x Hx; [by intros [= ->]|].
  rewrite string_cons_app. cbn [parseDigits leadingInt]. destruct (isDigit c) eqn:Hc; [|done].
  unfold isDigit in Hc. apply andb_prop in Hc as [Hc%N.leb_le _]. intros Hs.
  assert (0 ≤ 10 * x + digitValue c) as H0 by (unfold digitValue; lia).
  pose proof (parseDigits_grows _ _ _ H0 Hs) as Hle.
  assert (x ≤ 2 ^ 63 / 10). { apply Z.div_le_lower_bound; [lia|]. unfold digitValue in *. lia. }
  destruct (Z.ltb_spec (2 ^ 63 / 10) x); [lia|]. destruct (Z.ltb_spec (2 ^ 63) (10 * x + digitValue c)); [lia|].
  by apply IH.
Qed.

Lemma durationParts_nanoseconds (x : N) :
  Z.of_N x ≤ 2 ^ 63 → durationParts (String.length (pretty x +:+ "ns")) (pretty x +:+ "ns") 0 = Some (Z.of_N x).
Proof.
  intros Hx. destruct (parseDigits_pretty x) as [Hd Hne].
  assert (durationPart (pretty x +:+ "ns") = Some (Z.of_N x, "")) as Hp.
  { unfold durationPart. rewrite (leadingInt_digits (pretty x) "ns" 0 (Z.of_N x)) by done. cbn [mbind option_bind].
    rewrite (bool_decide_eq_true_2 ("ns" ≠ pretty x +:+ "ns")).
    2:{ intros He. apply (f_equal String.length) in He. rewrite length_string_app in He.
        destruct (pretty x); [done|]. simpl in He. lia. }
    cbn [negb andb]. rewrite bool_decide_eq_false_2 by done. cbn [spanUnit unitOf].
    destruct (Z.ltb_spec (2 ^ 63 / 1) (Z.of_N x)) as [Hlt|]; [rewrite Z.div_1_r in Hlt; lia|].
    simpl. rewrite (proj2 (Z.ltb_ge _ _)) by (by rewrite Z.div_1_r).
    rewrite Z.mul_1_r. by rewrite (proj2 (Z.ltb_ge _ _)). }
  destruct (pretty x) as [|c t]; [done|]. rewrite string_cons_app in *. cbn [String.length durationParts].
  rewrite Hp. cbn [mbind option_bind]. unfold u64. rewrite Z.add_0_l, Z.mod_small by lia.
  rewrite (proj2 (Z.ltb_ge _ _)) by done. by destruct (String.length _).
Qed.

Lemma ParseDuration_nanoseconds n : is_int64 n → ParseDuration (pretty n +:+ "ns") = Some n.
Proof.
  unfold is_int64, int64_min, int64_max. intros Hn.
  assert (∀ x : N, Z.of_N x ≤ 2 ^ 63 → pretty x +:+ "ns" ≠ "0" ∧ pretty x +:+ "ns" ≠ "") as Hne.
  { intros x _. destruct (pretty x) as [|c [|c' s]]; [done|by split|by split]. }
  assert (∀ x : N, Z.of_N x < 2 ^ 63 → ParseDuration (pretty x +:+ "ns") = Some (Z.of_N x)) as Hpos.
  { intros x Hx. destruct (Hne x) as [H0 H1]; [lia|]. unfold ParseDuration.
    pose proof (durationParts_nanoseconds x) as Hd. pose proof (pretty_head x) as Hh.
    destruct (parseDigits_pretty x) as [_ Hnil].
    destruct (pretty x) as [|c s]; [done|]. rewrite string_cons_app in *. specialize (Hh c s eq_refl).
    unfold isDigit in Hh.
    rewrite !(bool_decide_eq_false_2 (_ = _ :> N)) by (intros Hc; by rewrite Hc in Hh). cbv beta iota.
    rewrite !bool_decide_eq_false_2 by done. rewrite Hd by lia. cbn [mbind option_bind].
    unfold int64_max. by destruct (Z.ltb_spec (2 ^ 63 - 1) (Z.of_N x)); [lia|]. }
  destruct n as [|x|x]; [done|by apply (Hpos (N.pos x)); lia|].
  destruct (Hne (N.pos x)) as [H0 H1]; [lia|].
  change (pretty (Z.neg x) +:+ "ns") with (String (Ascii.ascii_of_N 45) (pretty (N.pos x) +:+ "ns")).
  unfold ParseDuration. cbv beta iota. rewrite bool_decide_eq_true_2 by done. cbv beta iota.
  rewrite !bool_decide_eq_false_2 by done. rewrite durationParts_nanoseconds by lia. done.
Qed.

(** ** What is loaded *)
(** The value of a variable, and its text in the environment. *)
Inductive setting :=
| Text (s : string)
| Int (n : Z)
| Dur (d : duration)
| Real (x : float64)
| Flag (b : bool)
| Names (l : list string).

Definition text (v : setting) : string :=
  match v with
  | Text s => s
  | Int n => pretty n
  | Dur d => pretty d +:+ "ns"
  | Real x => default "" (FormatFloat x)
  | Flag b => if b then "true" else "false"
  | Names l => Join comma l
  end.

(** A broker address: not empty, with no comma and no white space around it. *)
Definition clean_part (p : string) : Prop := p ≠ "" ∧ TrimSpace p = p ∧ has_byte comma p = false.

Definition writable (v : setting) : Prop :=
  match v with
  | Text _ | Flag _ => True
  | Int n | Dur n => is_int64 n
  | Real x => is_Some (FormatFloat x)
  | Names l => l ≠ [] ∧ Forall clean_part l
  end.

#[export] Instance clean_part_dec p : Decision (clean_part p).
Proof. unfold clean_part. apply _. Defined.
#[export] Instance writable_dec v : Decision (writable v).
Proof. destruct v; simpl; apply _. Defined.

(** The variables and what each of them sets; an image goes by the language it is for. *)
Definition settings (c : Config) : list (string * setting) :=
  let image lang := Text (ImageForLanguage (cfg_Images c) lang).1 in
  [ ("LISTEN_ADDR", Text (cfg_ListenAddr c)); ("SUBMISSION_DIR", Text (cfg_SubmissionDir c));
    ("SANDBOX_IMAGE_GO", image "go"); ("SANDBOX_IMAGE_RUST", image "rust"); ("SANDBOX_IMAGE_CPP", image "cpp");
    ("SANDBOX_IMAGE_PYTHON", image "python"); ("SANDBOX_IMAGE_BINARY", image "binary");
    ("SANDBOX_CPU_QUOTA", Int (cfg_SandboxCPUQuota c)); ("SANDBOX_MEMORY_BYTES", Int (cfg_SandboxMemoryBytes c));
    ("SANDBOX_TIMEOUT", Dur (cfg_SandboxTimeout c)); ("SANDBOX_NETWORK_MODE", Text (cfg_SandboxNetworkMode c));
    ("SANDBOX_PORT_MIN", Int (cfg_SandboxPortMin c)); ("SANDBOX_PORT_MAX", Int (cfg_SandboxPortMax c));
    ("SANDBOX_HOST", Text (cfg_SandboxHost c)); ("MAX_UPLOAD_BYTES", Int (cfg_MaxUploadBytes c));
    ("DISTRIBUTED_MODE", Flag (cfg_DistributedMode c)); ("REDPANDA_BROKERS", Names (cfg_RedpandaBrokers c));
    ("WORKER_ID", Text (cfg_WorkerID c)); ("JOB_TIMEOUT", Dur (cfg_JobTimeout c));
    ("ORCHESTRATOR_URL", Text (cfg_OrchestratorURL c)); ("BOT_COUNT", Int (cfg_BotCount c));
    ("BOT_TEST_DURATION", Dur (cfg_BotTestDuration c)); ("BOT_RAMP_UP_DURATION", Dur (cfg_BotRampUpDuration c));
    ("BOT_ORDER_RATIO_LIMIT", Real (cfg_BotOrderRatioLimit c));
    ("BOT_ORDER_RATIO_MARKET", Real (cfg_BotOrderRatioMarket c));
    ("BOT_ORDER_RATIO_CANCEL", Real (cfg_BotOrderRatioCancel c));
    ("BOT_PER_REQUEST_TIMEOUT", Dur (cfg_BotPerRequestTimeout c)); ("ADMIN_API_KEY", Text (cfg_AdminAPIKey c));
    ("POSTGRES_DSN", Text (cfg_PostgresDSN c)) ].

(** They are all there is to a configuration. *)
Lemma settings_inj c c' : settings c = settings c' → c = c'.
Proof.
  destruct c as [? ? [] ? ? ? ? ? ? ? ? ? ? ? ? ? ? ? ? ? ? ? ? ? ?], c' as [? ? [] ? ? ? ? ? ? ? ? ? ? ? ? ? ? ? ? ? ? ? ? ? ?].
  unfold settings. simpl. intros H. by simplify_eq.
Qed.

(** The defaults: those that the comments on the fields give, and of the other fields
    those of the deployment on one machine. *)
Definition defaults (h : option string) : Config := {|
  cfg_ListenAddr := ":8080";
  cfg_SubmissionDir := "/tmp/nexusbench/submissions";
  cfg_Images := mkImages "nexusbench-sandbox-go:latest" "nexusbench-sandbox-rust:latest"
    "nexusbench-sandbox-cpp:latest" "nexusbench-sandbox-python:latest" "nexusbench-sandbox-binary:latest";
  cfg_SandboxCPUQuota := 100000;
  cfg_SandboxMemoryBytes := 536870912;
  cfg_SandboxTimeout := 1800 * Second;
  cfg_SandboxNetworkMode := "bridge";
  cfg_SandboxPortMin := 20000;
  cfg_SandboxPortMax := 21000;
  cfg_SandboxHost := "host-gateway";
  cfg_MaxUploadBytes := 268435456;
  cfg_DistributedMode := false;
  cfg_RedpandaBrokers := ["127.0.0.1:19092"];
  cfg_WorkerID := match h with Some h => h | None => "worker-unknown" end;
  cfg_JobTimeout := 2100 * Second;
  cfg_OrchestratorURL := "http://localhost:8080";
  cfg_BotCount := 100;
  cfg_BotTestDuration := 60 * Second;
  cfg_BotRampUpDuration := 5 * Second;
  cfg_BotOrderRatioLimit := F64.lit 6 10;
  cfg_BotOrderRatioMarket := F64.lit 3 10;
  cfg_BotOrderRatioCancel := F64.lit 1 10;
  cfg_BotPerRequestTimeout := 2 * Second;
  cfg_AdminAPIKey := "";
  cfg_PostgresDSN := ""
|}.

(** ** Every helper reads back what was written *)
Section read_back.
Context (Getenv : string → string) (ParseFloat : string → option float64).
Hypothesis ParseFloat_format : ∀ x s, FormatFloat x = Some s → ParseFloat s = Some x.

(** A variable that is set to the text of [v], or not at all. *)
Definition holds (key : string) (v : setting) : Prop :=
  writable v ∧ (Getenv key = "" ∨ Getenv key = text v).

(** What it is set to, with its default. *)
Definition chosen (key : string) (v d : setting) : setting := if bool_decide (Getenv key = "") then d else v.

Lemma getEnvParsed_holds {A} (parse : string → option A) (K : A → setting) key x d :
  holds key (K x) → (writable (K x) → parse (text (K x)) = Some x) →
  K (getEnvParsed Getenv parse key d) = chosen key (K x) (K d).
Proof.
  intros [Hw Hg] Hp. unfold getEnvParsed, chosen. case_bool_decide as He; [done|].
  destruct Hg as [|Hg]; [done|]. by rewrite Hg, Hp.
Qed.

Lemma getEnv_holds key s d : holds key (Text s) → Text (getEnv Getenv key d) = chosen key (Text s) (Text d).
Proof. intros [_ Hg]. unfold getEnv, chosen. case_bool_decide; [done|]. destruct Hg as [|Hk]; [done|]. by rewrite Hk. Qed.

Lemma getEnvInt_holds key n d : holds key (Int n) → Int (getEnvInt64 Getenv key d) = chosen key (Int n) (Int d).
Proof.
  intros H. apply (getEnvParsed_holds ParseInt Int); [done|]. intros Hw. simpl. rewrite ParseInt_pretty.
  unfold int64_or_none. by rewrite decide_True.
Qed.

Lemma getEnvDuration_holds key n d : holds key (Dur n) → Dur (getEnvDuration Getenv key d) = chosen key (Dur n) (Dur d).
Proof. intros H. apply (getEnvParsed_holds ParseDuration Dur); [done|]. apply ParseDuration_nanoseconds. Qed.

Lemma getEnvFloat64_holds key x d :
  holds key (Real x) → Real (getEnvFloat64 Getenv ParseFloat key d) = chosen key (Real x) (Real d).
Proof.
  intros H. apply (getEnvParsed_holds ParseFloat Real); [done|]. intros [s Hs]. simpl. rewrite Hs.
  by apply ParseFloat_format.
Qed.

Lemma getEnvBool_holds key b d : holds key (Flag b) → Flag (getEnvBool Getenv key d) = chosen key (Flag b) (Flag d).
Proof.
  intros [_ Hg]. unfold getEnvBool, chosen. destruct (decide (Getenv key = "")) as [He|He].
  - by rewrite (bool_decide_eq_true_2 _ He), He.
  - destruct Hg as [|Hg]; [done|]. rewrite (bool_decide_eq_false_2 _ He), Hg. by destruct b.
Qed.

Lemma clean_parts l : Forall clean_part l → filter (λ t, t ≠ "") (TrimSpace <$> l) = l.
Proof.
  induction 1 as [|p l (Hne & Ht & _) _ IH]; [done|]. rewrite fmap_cons, Ht, filter_cons_True by done. by rewrite IH.
Qed.

Lemma getEnvStringSlice_holds key l d :
  holds key (Names l) → Names (getEnvStringSlice Getenv key d) = chosen key (Names l) (Names d).
Proof.
  intros [[Hne Hl] Hg]. unfold getEnvStringSlice, chosen. case_bool_decide as He; [done|].
  destruct Hg as [|Hg]; [done|]. rewrite Hg. cbn [text]. rewrite Split_Join, clean_parts by
    (done || by apply (Forall_impl _ _ _ Hl); intros p (_ & _ & ?)).
  by rewrite bool_decide_eq_false_2.
Qed.

Lemma Load_has_broker h : cfg_RedpandaBrokers (Load Getenv ParseFloat h) ≠ [].
Proof. unfold Load, getEnvStringSlice. cbn [cfg_RedpandaBrokers]. by repeat case_bool_decide. Qed.

Lemma Load_holds h c :
  Forall (λ kv, holds kv.1 kv.2) (settings c) →
  settings (Load Getenv ParseFloat h) =
    zip_with (λ kv d, (kv.1, chosen kv.1 kv.2 d.2)) (settings c) (settings (defaults h)).
Proof.
  intros Hc. unfold settings in *. cbn [zip_with fst snd].
  repeat (apply Forall_cons in Hc as [Hk Hc]; apply (f_equal2 cons); [f_equal; simpl in Hk;
    first [by apply getEnv_holds|by apply getEnvInt_holds|by apply getEnvDuration_holds|by apply getEnvBool_holds
          |by apply getEnvFloat64_holds|by apply getEnvStringSlice_holds]|clear Hk]).
  done.
Qed.
End read_back.

(** C39: [Load] reads back every configuration from the environment that it is written to:
    integers and durations of 64 bits, ratios as [strconv] formats them, any texts, and
    broker addresses without commas or surrounding white space, Unicode's included. A
    variable that is unset or empty leaves the default of its own field and of no other;
    with all of them unset the defaults are loaded, with all of them set exactly the
    configuration that was written. The image of a language is the one its variable
    names. *)
Theorem config_read_back Getenv ParseFloat h c :
  (∀ x s, FormatFloat x = Some s → ParseFloat s = Some x) →
  (∀ key v, (key, v) ∈ settings c → writable v ∧ (Getenv key = "" ∨ Getenv key = text v)) →
  let loaded := Load Getenv ParseFloat h in
  settings loaded =
    zip_with (λ kv d, if bool_decide (Getenv kv.1 = "") then (kv.1, d.2) else kv) (settings c) (settings (defaults h)) ∧
  ((∀ key v, (key, v) ∈ settings c → Getenv key ≠ "") → loaded = c) ∧
  ((∀ key v, (key, v) ∈ settings c → Getenv key = "") → loaded = defaults h).
Proof.
  intros Hf Hc loaded.
  assert (settings loaded = zip_with (λ kv d, if bool_decide (Getenv kv.1 = "") then (kv.1, d.2) else kv)
    (settings c) (settings (defaults h))) as Hs.
  { unfold loaded. rewrite (Load_holds _ _ Hf h c) by (apply Forall_forall; intros [k v] Hin; exact (Hc k v Hin)).
    apply zip_with_ext; [|done..]. intros [k v] d. unfold chosen. simpl. by case_bool_decide. }
  split; [done|]. clear Hf Hc. split; intros Hall; apply settings_inj; rewrite Hs; clear Hs;
    assert (Forall (λ kv, bool_decide (Getenv kv.1 = "") = _) (settings c)) as Hb
      by (apply Forall_forall; intros [k v] Hin; first
            [by apply bool_decide_eq_false_2, (Hall k v Hin)|by apply bool_decide_eq_true_2, (Hall k v Hin)]);
    unfold settings in *; cbn [zip_with fst snd];
    repeat (apply Forall_cons in Hb as [Hk Hb]; simpl in Hk; apply (f_equal2 cons); [by rewrite Hk|clear Hk]); done.
Qed.

(** A configuration with no default in it, and its environment but for two variables. *)
Definition ex_config : Config := {|
  cfg_ListenAddr := ":9090"; cfg_SubmissionDir := "/var/lib/nexus"; cfg_Images := mkImages "g" "r" "c" "p" "b";
  cfg_SandboxCPUQuota := 50000; cfg_SandboxMemoryBytes := -1; cfg_SandboxTimeout := 90 * Second;
  cfg_SandboxNetworkMode := "none"; cfg_SandboxPortMin := 3000; cfg_SandboxPortMax := 3999;
  cfg_SandboxHost := "localhost"; cfg_MaxUploadBytes := 1; cfg_DistributedMode := true;
  cfg_RedpandaBrokers := ["redpanda-0:9092"; "redpanda-1:9092"]; cfg_WorkerID := "w7"; cfg_JobTimeout := Hour;
  cfg_OrchestratorURL := "http://control-plane:8080"; cfg_BotCount := 7; cfg_BotTestDuration := 1500 * Millisecond;
  cfg_BotRampUpDuration := 0; cfg_BotOrderRatioLimit := F64.lit 1 3; cfg_BotOrderRatioMarket := F64.lit 1 2;
  cfg_BotOrderRatioCancel := F64.lit 1 6; cfg_BotPerRequestTimeout := - Second; cfg_AdminAPIKey := "secret";
  cfg_PostgresDSN := "postgres://nexusbench@db/nexusbench"
|}.

Definition ex_environ (unset : list string) (key : string) : string :=
  if bool_decide (key ∈ unset) then ""
  else match list_find (λ kv, kv.1 = key) (settings ex_config) with Some (_, (_, v)) => text v | None => "" end.

(** A property of every variable, computed. *)
Lemma settings_all (P : string * setting → Prop) `{!∀ kv, Decision (P kv)} c :
  forallb (λ kv, bool_decide (P kv)) (settings c) = true → ∀ key v, (key, v) ∈ settings c → P (key, v).
Proof.
  intros Hb key v Hin. rewrite forallb_forall in Hb. apply (bool_decide_eq_true (P (key, v))), Hb.
  by apply list_elem_of_In.
Qed.

Lemma config_read_back_witness :
  Load (ex_environ []) ParseFloat None = ex_config ∧
  settings (Load (ex_environ ["WORKER_ID"; "BOT_COUNT"]) ParseFloat None) !! 17%nat =
    Some ("WORKER_ID", Text "worker-unknown").
Proof.
  split.
  - apply (config_read_back (ex_environ []) ParseFloat None ex_config FormatFloat_parse).
    + apply (settings_all (λ kv, writable kv.2 ∧ (ex_environ [] kv.1 = "" ∨ ex_environ [] kv.1 = text kv.2))).
      vm_compute. reflexivity.
    + apply (settings_all (λ kv, ex_environ [] kv.1 ≠ "")). vm_compute. reflexivity.
  - destruct (config_read_back (ex_environ ["WORKER_ID"; "BOT_COUNT"]) ParseFloat None ex_config FormatFloat_parse) as [-> _];
      [|vm_compute; reflexivity].
    apply (settings_all (λ kv, writable kv.2 ∧
      (ex_environ ["WORKER_ID"; "BOT_COUNT"] kv.1 = "" ∨ ex_environ ["WORKER_ID"; "BOT_COUNT"] kv.1 = text kv.2))).
    vm_compute. reflexivity.
Defined.
