(* ===== verification/Commands.v ===== *)
(** * Commands: how the processes are put together ([cmd/worker/main.go],
    [cmd/consumer/main.go]; the options in [internal/worker/executor.go])

    The options of the executor and what the worker process makes of them, the
    status that the callbacks of the executor keep for the heartbeat, and the
    configuration of the consumer process. Their lives are in [Boot]. *)

From S2P Require Import Prelude Models GoStrings OrderBook Checker Botfleet Stats Scenarios Validator.
From S2P Require Import Contest Queue Redpanda Submission Telemetry World Logic Executor ExecutorTheorems.
From S2P Require Import Worker WorkerTheorems Sandbox Config.

(** ** Options of the executor *)
(** An option sets fields. [WithEmitter] and [WithJobCallbacks] set what [World] has
    as operations and in the trace. *)
Definition ExecutorOption : Type := SandboxExecutor → SandboxExecutor.

Definition WithHealthPollInterval (d : duration) : ExecutorOption := λ x,
  mkExecutor (x_hasQueue x) (x_hasContest x) (x_hasValidator x) d (x_healthTimeout x)
    (x_fleetCfgOverride x) (x_sandboxHost x) (if d <? Second then 0 else x_warmupDelay x)
    (x_telemetryBatchSize x).

Definition WithSandboxHost (host : string) : ExecutorOption := λ x,
  if bool_decide (host = "") then x
  else mkExecutor (x_hasQueue x) (x_hasContest x) (x_hasValidator x) (x_healthPollInterval x)
         (x_healthTimeout x) (x_fleetCfgOverride x) host (x_warmupDelay x) (x_telemetryBatchSize x).

Definition WithFleetConfig (cfg : FleetConfig) : ExecutorOption := λ x,
  mkExecutor (x_hasQueue x) (x_hasContest x) (x_hasValidator x) (x_healthPollInterval x)
    (x_healthTimeout x) (Some cfg) (x_sandboxHost x) (x_warmupDelay x) (x_telemetryBatchSize x).

Definition WithJobQueue : ExecutorOption := λ x,
  mkExecutor true (x_hasContest x) (x_hasValidator x) (x_healthPollInterval x) (x_healthTimeout x)
    (x_fleetCfgOverride x) (x_sandboxHost x) (x_warmupDelay x) (x_telemetryBatchSize x).

Definition WithContestStore : ExecutorOption := λ x,
  mkExecutor (x_hasQueue x) true (x_hasValidator x) (x_healthPollInterval x) (x_healthTimeout x)
    (x_fleetCfgOverride x) (x_sandboxHost x) (x_warmupDelay x) (x_telemetryBatchSize x).

Definition WithPreflightValidator : ExecutorOption := λ x,
  mkExecutor (x_hasQueue x) (x_hasContest x) true (x_healthPollInterval x) (x_healthTimeout x)
    (x_fleetCfgOverride x) (x_sandboxHost x) (x_warmupDelay x) (x_telemetryBatchSize x).

(** [NewSandboxExecutor] with options, applied in order. *)
Definition newExecutor (opts : list ExecutorOption) : SandboxExecutor :=
  fold_left (λ e opt, opt e) opts NewSandboxExecutor.

(** ** The worker process *)
Definition workerExecutor (cfg : Config) : SandboxExecutor :=
  newExecutor [WithSandboxHost (cfg_SandboxHost cfg); WithJobQueue; WithPreflightValidator].

Definition workerQueue (cfg : Config) : Redpanda.RedpandaConfig :=
  Redpanda.mkRedpandaConfig (cfg_RedpandaBrokers cfg) 4 1 false.

Definition workerEmitter (cfg : Config) : Telemetry.RedpandaConfig :=
  Telemetry.mkRedpandaConfig (cfg_RedpandaBrokers cfg) 3 1 (Z.shiftl 1 20) (5 * Millisecond).

Definition workerConfig (cfg : Config) : WorkerConfig :=
  mkWorkerConfig (cfg_WorkerID cfg) (cfg_JobTimeout cfg).

(** What the worker process says to the heartbeat: three variables, each read and
    written on its own. *)
Record worker_status := mkStatus { ws_Busy : bool; ws_JobID : string; ws_Completed : Z }.

Inductive status_step := StoreBusy (b : bool) | SetJob (id : string) | AddCompleted.

Definition do_step (s : worker_status) (st : status_step) : worker_status :=
  match st with
  | StoreBusy b => mkStatus b (ws_JobID s) (ws_Completed s)
  | SetJob id => mkStatus (ws_Busy s) id (ws_Completed s)
  | AddCompleted => mkStatus (ws_Busy s) (ws_JobID s) (ws_Completed s + 1)
  end.

Definition jobStarted (submissionID : string) : list status_step :=
  [StoreBusy true; SetJob submissionID].

Definition jobFinished : list status_step := [StoreBusy false; SetJob ""; AddCompleted].

(** [statusFn] reads the job in the first state, then the flag in the second and the
    count in the third. *)
Definition statusFn (s1 s2 s3 : worker_status) : HeartbeatStatus :=
  if ws_Busy s2 then mkHeartbeat true (ws_JobID s1) (ws_Completed s3)
  else mkHeartbeat false "" (ws_Completed s3).

Definition callback (a : action) : list status_step :=
  match a with AOnStart id => jobStarted id | AOnFinish => jobFinished | _ => [] end.

Definition status_after (l : list status_step) : worker_status :=
  fold_left do_step l (mkStatus false "" 0).

(** ** The consumer process *)
Section consumer.
Context (Getenv : string → string).

Definition envOr (key fallback : string) : string :=
  if bool_decide (Getenv key ≠ "") then Getenv key else fallback.

(** [None]: the process exits. *)
Definition mustEnv (key : string) : option string :=
  if bool_decide (Getenv key = "") then None else Some (Getenv key).

Record ConsumerConfig := mkConsumerConfig {
  cc_Brokers : list string; cc_GroupID : string; cc_CommitInterval : duration
}.

Definition consumerConfig : option (ConsumerConfig * string) :=
  let brokers := envOr "REDPANDA_BROKERS" "127.0.0.1:19092" in
  let groupID := envOr "CONSUMER_GROUP_ID" "nexusbench-consumer" in
  dsn ← mustEnv "TIMESCALE_DSN";
  Some (mkConsumerConfig (TrimSpace <$> Split comma brokers) groupID (5 * Second), dsn).
End consumer.

(** The checks of [NewConsumer] before it creates its client; [store]: there is one. *)
Definition checkConsumer (cfg : ConsumerConfig) (store : bool) : option string :=
  if bool_decide (cc_Brokers cfg = []) then Some "consumer: Config.Brokers must not be empty"
  else if negb store then Some "consumer: Store must not be nil"
  else if bool_decide (cc_GroupID cfg = "") then Some "consumer: Config.GroupID must not be empty"
  else None.

(** ** What the options do *)
(** The worker has a queue and the gate, and no contests. *)
Lemma workerExecutor_wiring cfg :
  x_hasQueue (workerExecutor cfg) = true ∧ x_hasValidator (workerExecutor cfg) = true ∧
  x_hasContest (workerExecutor cfg) = false ∧ x_fleetCfgOverride (workerExecutor cfg) = None ∧
  x_sandboxHost (workerExecutor cfg) =
    if bool_decide (cfg_SandboxHost cfg = "") then "localhost" else cfg_SandboxHost cfg.
Proof. unfold workerExecutor, newExecutor. cbn. unfold WithSandboxHost. by case_bool_decide. Qed.

(** With the brokers of any environment, which [Load] never leaves empty, both clients
    get past the checks of their constructors. *)
Lemma worker_clients cfg :
  cfg_RedpandaBrokers cfg ≠ [] →
  (∃ c, newClients (workerQueue cfg) None None = Ok c ∧ cl_consumer c = Some true) ∧
  (∃ e, NewRedpandaEmitter (workerEmitter cfg) None = Ok e).
Proof.
  intros Hb. unfold newClients, NewRedpandaEmitter. cbn [workerQueue workerEmitter rc_Brokers tc_Brokers].
  rewrite bool_decide_eq_false_2 by done. split; by eexists.
Qed.

(** ** Contests and the worker process *)
(** The same surroundings with other contests. *)
Definition withContests (f : nat → result string Contest) (E : Env) : Env := {|
  env_delay := @env_delay E;
  env_getFails := @env_getFails E;
  env_updateFails := @env_updateFails E;
  env_deploy := @env_deploy E;
  env_stopFails := @env_stopFails E;
  env_containerHealthy := @env_containerHealthy E;
  env_httpOK := @env_httpOK E;
  env_ctxDone := @env_ctxDone E;
  env_activeContest := f;
  env_enqueueFails := @env_enqueueFails E;
  env_commitFails := @env_commitFails E;
  env_batchFails := @env_batchFails E;
  env_validate := @env_validate E;
  env_fleet := @env_fleet E
|}.

(** Two programs that do the same in every world. *)
Definition same {A} (m m' : M A) : Prop := ∀ w, m w = m' w.

Lemma same_refl {A} (m : M A) : same m m.
Proof. done. Qed.

Lemma same_bind {A B} (m m' : M A) (k k' : A → M B) :
  same m m' → (∀ a, same (k a) (k' a)) → same (m ≫= k) (m' ≫= k').
Proof. intros Hm Hk w. unfold mbind, M_bind. rewrite (Hm w). destruct (m' w). apply Hk. Qed.

Section without_contests.
Context (E : Env) `{!SortSlice} (f : nat → result string Contest) (x : SandboxExecutor).
Context (runErrText : run_error → string) (reasonText : option reason → string) (fuel : nat).
Context (no_contests : x_hasContest x = false).

Lemma resolveProfile_same label : same (@resolveProfile (withContests f E) x label) (@resolveProfile E x label).
Proof using no_contests. unfold resolveProfile. by rewrite no_contests, andb_false_r. Qed.

Lemma finalScore_same sub :
  same (@computeAndWriteFinalScore (withContests f E) x sub) (@computeAndWriteFinalScore E x sub).
Proof using no_contests.
  unfold computeAndWriteFinalScore, finalWeights. by rewrite no_contests.
Qed.

Lemma finishProfile_same sub j r : same (@finishProfile (withContests f E) x sub j r) (@finishProfile E x sub j r).
Proof using no_contests.
  apply same_bind; [done|]. intros [[e|] sub']; [done|]. destruct (j_RemainingProfiles j); [|done].
  apply same_bind; [apply finalScore_same|done].
Qed.

Lemma benchmark_same sub j url : same (@benchmark (withContests f E) _ x sub j url) (@benchmark E _ x sub j url).
Proof using no_contests.
  apply same_bind; [done|]. intros [e sub']. apply same_bind; [apply resolveProfile_same|]. intros p.
  apply same_bind; [done|]. intros [[fr cr]|]; [|done]. cbv zeta. case_bool_decide; [done|].
  apply finishProfile_same.
Qed.

Lemma Execute_same j :
  same (@Execute (withContests f E) _ x runErrText reasonText fuel j) (@Execute E _ x runErrText reasonText fuel j).
Proof using no_contests.
  apply same_bind; [done|]. intros _. apply same_bind; [|done].
  apply same_bind; [done|]. intros [sub|]; [|done]. apply same_bind; [done|]. intros [[cid port]|]; [|done].
  apply same_bind; [|done]. apply same_bind; [done|]. intros [e sub']. apply same_bind; [done|].
  intros [e'|]; [done|]. apply same_bind; [done|]. intros [[e'|] sub'']; [done|]. apply benchmark_same.
Qed.
End without_contests.

Section same_worker.
Context (E : Env) (f : nat → result string Contest) (execute execute' : Job → M (result exec_error BenchmarkResults)).
Context (errText : exec_error → string) (listText : list string → string).
Context (execute_same : ∀ j, same (execute' j) (execute j)).

Lemma processJob_same j :
  same (@processJob (withContests f E) execute' errText listText j) (@processJob E execute errText listText j).
Proof using execute_same.
  apply same_bind; [done|]. intros [sub|]; [|done]. destruct (jobGuard j sub); [done|].
  apply same_bind; [done|]. intros sub'. apply same_bind; [apply execute_same|done].
Qed.

Lemma worker_Run_same ds :
  same (@worker_Run (withContests f E) execute' errText listText ds) (@worker_Run E execute errText listText ds).
Proof using execute_same.
  induction ds as [|[j|] ds IH]; [done|..]; cbn [worker_Run].
  - apply same_bind; [apply processJob_same|done].
  - apply same_bind; [done|]. intros [|]; [done|]. apply same_bind; [done|]. intros _. exact IH.
Qed.
End same_worker.

(** C23: The contests have no say in what the worker process does. Whatever contests
    there are, active or not, with whatever profiles and weights, it processes the
    same jobs in the same way and leaves the same store, queue and trace behind. *)
Theorem worker_ignores_contests E `{!SortSlice} cfg f runErrText reasonText fuel errText listText ds w :
  @worker_Run (withContests f E) (@Execute (withContests f E) _ (workerExecutor cfg) runErrText reasonText fuel)
    errText listText ds w =
  @worker_Run E (@Execute E _ (workerExecutor cfg) runErrText reasonText fuel) errText listText ds w.
Proof.
  apply worker_Run_same. intros j. apply Execute_same, workerExecutor_wiring.
Qed.

(** ** The status of the worker *)
(** The callbacks of a trace, those of whole executions one after the other, and the
    steps they take. *)
Definition callbacks (l : list action) : list action := filter (λ a, callback a ≠ []) l.

Definition executions (ids : list string) : list action := ids ≫= λ id, [AOnStart id; AOnFinish].

Definition steps (l : list action) : list status_step := l ≫= callback.

(** A program that makes the callbacks of whole executions. *)
Definition executes {A} (m : M A) : Prop := traced m (λ _ l, ∃ ids, callbacks l = executions ids).

Definition no_callback (a : action) : Prop := callback a = [].

Lemma callbacks_app l l' : callbacks (l ++ l') = callbacks l ++ callbacks l'.
Proof. apply filter_app. Qed.

Lemma callbacks_none l : Forall no_callback l → callbacks l = [].
Proof. induction 1 as [|a l Ha _ IH]; [done|].
  unfold callbacks. rewrite filter_cons_False; [done|]. by intros [].
Qed.

Lemma executes_quiet {A} (m : M A) : only no_callback m → executes m.
Proof.
  intros Hm. eapply traced_mono; [exact Hm|]. intros a l Hl. exists []. by apply callbacks_none.
Qed.

Lemma executes_bind {A B} (m : M A) (k : A → M B) :
  executes m → (∀ a, executes (k a)) → executes (m ≫= k).
Proof.
  intros Hm Hk. eapply traced_bind; [exact Hm|]. intros a l [ids Hids].
  eapply traced_mono; [apply Hk|]. intros b l' [ids' Hids']. exists (ids ++ ids').
  unfold executions. by rewrite callbacks_app, bind_app, Hids, Hids'.
Qed.

Section status.
Context `{!Env, !SortSlice} (x : SandboxExecutor).
Context (runErrText : run_error → string) (reasonText : option reason → string) (fuel : nat).
Context (errText : exec_error → string) (listText : list string → string).
#[local] Hint Extern 1 (no_callback _) => reflexivity : world.

Lemma inner_no_callback a : inner a → no_callback a.
Proof. by destruct a. Qed.

Lemma executes_Execute j : executes (Execute x runErrText reasonText fuel j).
Proof.
  assert (Hj : only no_callback (executeJob x runErrText reasonText fuel j)).
  { apply only_bind; [auto with world|]. intros [sub|]; [|auto with world].
    apply only_bind; [by apply only_noted|]. intros [[cid port]|]; [|auto with world].
    apply only_bind; [eapply only_weaken, only_executeDeployed; apply inner_no_callback|].
    intros r. apply only_bind; [by apply only_noted|auto with world]. }
  intros w. destruct (Hj (note (AOnStart (j_SubmissionID j)) w).2) as (l & Hl & Hq).
  assert (He : Execute x runErrText reasonText fuel j w =
    let '(r, w') := executeJob x runErrText reasonText fuel j (note (AOnStart (j_SubmissionID j)) w).2 in
    (r, (note AOnFinish w').2)) by done.
  rewrite He. clear He. destruct (executeJob _ _ _ _ _ _) as [r w']. simpl in *.
  exists (AOnStart (j_SubmissionID j) :: l ++ [AOnFinish]). rewrite Hl, <- !app_assoc. split; [done|].
  exists [j_SubmissionID j]. change (_ :: l ++ [AOnFinish]) with ([AOnStart (j_SubmissionID j)] ++ l ++ [AOnFinish]).
  by rewrite !callbacks_app, (callbacks_none l Hq).
Qed.

Lemma executes_processJob j :
  executes (processJob (Execute x runErrText reasonText fuel) errText listText j).
Proof.
  assert (Hset : ∀ sub st msg, only no_callback (worker_setStatus sub st msg)) by (intros; by apply only_setStatus).
  assert (Hc : executes commitOrLog) by (apply executes_quiet; by apply only_bind; [apply only_noted|auto with world]).
  apply executes_bind; [apply executes_quiet; auto with world|]. intros [sub|]; [|by apply executes_quiet; auto with world].
  destruct (jobGuard j sub); [done|]. apply executes_bind; [by apply executes_quiet|]. intros sub'.
  apply executes_bind; [apply executes_Execute|]. intros [r|e].
  - apply executes_bind; [apply executes_quiet; by apply only_recordSuccess|done].
  - apply executes_bind; [apply executes_quiet, only_reread|]. intros sub''.
    by apply executes_bind; [apply executes_quiet|].
Qed.

Lemma executes_Run ds : executes (worker_Run (Execute x runErrText reasonText fuel) errText listText ds).
Proof.
  induction ds as [|[j|] ds IH]; cbn [worker_Run]; [by apply executes_quiet; auto with world|..].
  - apply executes_bind; [apply executes_processJob|done].
  - apply executes_bind; [apply executes_quiet; auto with world|].
    intros [|]; [by apply executes_quiet; auto with world|].
    apply executes_bind; [apply executes_quiet; auto with world|done].
Qed.
End status.

Lemma steps_callbacks l : steps (callbacks l) = steps l.
Proof.
  induction l as [|a l IH]; [done|]. unfold callbacks. rewrite filter_cons. fold (callbacks l).
  change (steps (a :: l)) with (callback a ++ steps l). rewrite <- IH. case_decide as Ha; [done|by rewrite Ha].
Qed.

(** The cuts of a sequence of executions: between two of them or within one. *)
Lemma executions_cut ids l :
  l `prefix_of` executions ids →
  ∃ k, (k ≤ length ids)%nat ∧ (l = executions (take k ids) ∨
    ∃ id, ids !! k = Some id ∧ l = executions (take k ids) ++ [AOnStart id]).
Proof.
  revert l. induction ids as [|id ids IH]; intros l Hl.
  { exists 0%nat. split; [done|]. left. by apply prefix_nil_inv. }
  destruct l as [|a l]; [exists 0%nat; split; [lia|by left]|].
  change (executions (id :: ids)) with (AOnStart id :: AOnFinish :: executions ids) in Hl.
  pose proof (prefix_cons_inv_1 _ _ _ _ Hl) as ->. apply prefix_cons_inv_2 in Hl.
  destruct l as [|b l]; [exists 0%nat; split; [lia|]; right; by exists id|].
  pose proof (prefix_cons_inv_1 _ _ _ _ Hl) as ->. apply prefix_cons_inv_2 in Hl.
  destruct (IH l Hl) as (k & Hk & H). exists (S k). split; [simpl; lia|]. simpl.
  destruct H as [->|(id' & Hid & ->)]; [by left|]. right. by exists id'.
Qed.

Lemma fold_executions ids n :
  fold_left do_step (steps (executions ids)) (mkStatus false "" n) = mkStatus false "" (n + Z.of_nat (length ids)).
Proof.
  revert n. induction ids as [|id ids IH]; intros n; [simpl; f_equal; lia|].
  transitivity (fold_left do_step (steps (executions ids)) (mkStatus false "" (n + 1))); [done|].
  rewrite IH. simpl. f_equal. lia.
Qed.

Lemma status_after_app l l' : status_after (l ++ l') = fold_left do_step l' (status_after l).
Proof. apply fold_left_app. Qed.

Lemma status_after_executions ids :
  status_after (steps (executions ids)) = mkStatus false "" (Z.of_nat (length ids)).
Proof. apply fold_executions. Qed.

(** The variables at any point between two steps. *)
Lemma status_cut ids p n :
  p `prefix_of` steps (executions ids) →
  let s := fold_left do_step p (mkStatus false "" n) in
  ∃ k, ws_Completed s = n + Z.of_nat k ∧ (k ≤ length ids)%nat ∧
    (ws_JobID s = "" ∨ ids !! k = Some (ws_JobID s)) ∧ (ws_Busy s = true → (k < length ids)%nat).
Proof.
  revert p n. induction ids as [|id ids IH]; intros p n Hp.
  { apply prefix_nil_inv in Hp as ->. exists 0%nat. simpl. split; [lia|]. split; [lia|]. by split; [left|]. }
  change (steps (executions (id :: ids))) with
    (jobStarted id ++ jobFinished ++ steps (executions ids)) in Hp. simpl in Hp.
  do 5 (destruct p as [|? p];
    [exists 0%nat; simpl; split; [lia|]; split; [lia|]; split; [first [by left|by right]|intros; lia]|];
    pose proof (prefix_cons_inv_1 _ _ _ _ Hp) as ->; apply prefix_cons_inv_2 in Hp).
  destruct (IH p (n + 1) Hp) as (k & Hc & Hk & Hid & Hb). exists (S k). simpl.
  split; [rewrite Hc; lia|]. split; [lia|]. split; [done|]. intros H. apply Hb in H. lia.
Qed.

Lemma completed_grows p p' :
  p `prefix_of` p' → ws_Completed (status_after p) ≤ ws_Completed (status_after p').
Proof.
  intros [q ->]. rewrite status_after_app. generalize (status_after p). induction q as [|st q IH]; intros s; [done|].
  simpl. etransitivity; [|apply IH]. destruct st; simpl; lia.
Qed.

(** What a trace says of the executions: the ids that were started, one by one, and the
    number of executions that ended. *)
Definition startedIds (l : list action) : list string :=
  omap (λ a, match a with AOnStart id => Some id | _ => None end) l.

Definition finishedCount (l : list action) : nat :=
  length (omap (λ a, match a with AOnFinish => Some () | _ => None end) l).

(** The report that is true after a trace: busy with the execution that was started last
    while it has not ended, and all that ended counted. *)
Definition trueReport (l : list action) : HeartbeatStatus :=
  let running := (finishedCount l <? length (startedIds l))%nat in
  mkHeartbeat running (if running then default "" (last (startedIds l)) else "") (Z.of_nat (finishedCount l)).

Lemma trueReport_callbacks l : trueReport (callbacks l) = trueReport l.
Proof.
  assert (startedIds (callbacks l) = startedIds l ∧ finishedCount (callbacks l) = finishedCount l) as [Hs Hf];
    [|unfold trueReport; by rewrite Hs, Hf].
  induction l as [|a l [IHs IHf]]; [done|]. unfold callbacks. rewrite filter_cons. fold (callbacks l).
  case_decide as Ha; [destruct a; split; first [exact IHs|exact IHf|exact (f_equal (cons _) IHs)|exact (f_equal S IHf)]|].
  rewrite IHs, IHf. by destruct a; try (destruct Ha; done).
Qed.

Lemma started_executions ids : startedIds (executions ids) = ids ∧ finishedCount (executions ids) = length ids.
Proof.
  induction ids as [|id ids [IHs IHf]]; [done|].
  split; [exact (f_equal (cons id) IHs)|exact (f_equal S IHf)].
Qed.

Lemma trueReport_executions ids : trueReport (executions ids) = mkHeartbeat false "" (Z.of_nat (length ids)).
Proof.
  unfold trueReport. destruct (started_executions ids) as [-> ->]. by rewrite (proj2 (Nat.ltb_ge _ _)) by lia.
Qed.

Lemma trueReport_running ids id :
  trueReport (executions ids ++ [AOnStart id]) = mkHeartbeat true id (Z.of_nat (length ids)).
Proof.
  destruct (started_executions ids) as [Hs Hf]. unfold trueReport, finishedCount, startedIds in *.
  rewrite !omap_app, Hs, length_app, Hf. simpl. rewrite length_app, last_snoc. simpl.
  rewrite (proj2 (Nat.ltb_lt _ _)) by lia. f_equal. lia.
Qed.

(** C29: What the heartbeat of a worker can report. The worker runs a sequence of
    executions. A status that is read between two of its actions is the one that the
    actions so far determine: busy with the execution that was started and has not
    ended, or idle when there is none, with the count of those that ended. A
    status whose three reads are spread out over the run names no job or one that was
    started by then; but between two jobs it can be busy with the one that the count
    already has as finished. *)
Theorem heartbeat_reports `{!Env, !SortSlice} x runErrText reasonText fuel errText listText ds w :
  ∃ l ids,
    w_trace (worker_Run (Execute x runErrText reasonText fuel) errText listText ds w).2 = w_trace w ++ l ∧
    callbacks l = executions ids ∧
    (∀ l1, l1 `prefix_of` l → let s := status_after (steps l1) in statusFn s s s = trueReport l1) ∧
    (∀ p1 p2 p3, p1 `prefix_of` p2 → p2 `prefix_of` p3 → p3 `prefix_of` steps l →
       let r := statusFn (status_after p1) (status_after p2) (status_after p3) in
       hb_CurrentJobID r = "" ∨
       hb_Busy r = true ∧ ∃ k, ids !! k = Some (hb_CurrentJobID r) ∧ Z.of_nat k ≤ hb_JobsCompleted r) ∧
    (∀ k id, ids !! k = Some id → (S k < length ids)%nat →
       ∃ p1 p2, p1 `prefix_of` p2 ∧ p2 `prefix_of` steps l ∧
       statusFn (status_after p1) (status_after p2) (status_after p2) = mkHeartbeat true id (Z.of_nat (S k))).
Proof.
  destruct (executes_Run x runErrText reasonText fuel errText listText ds w) as (l & Hl & ids & Hids).
  exists l, ids. split; [done|]. split; [done|].
  rewrite <- (steps_callbacks l), Hids. split; [|split].
  - intros l1 Hl1. rewrite <- steps_callbacks, <- trueReport_callbacks.
    assert (callbacks l1 `prefix_of` executions ids) as Hc.
    { rewrite <- Hids. destruct Hl1 as [q ->]. rewrite callbacks_app. by eexists. }
    destruct (executions_cut _ _ Hc) as (k & Hk & [->|(id & Hid & ->)]).
    + by rewrite status_after_executions, trueReport_executions.
    + rewrite trueReport_running. unfold steps. rewrite bind_app, status_after_app. fold (steps (executions (take k ids))).
      by rewrite status_after_executions.
  - intros p1 p2 p3 H1 H2 H3. unfold statusFn. destruct (ws_Busy (status_after p2)); [|by left]. simpl.
    destruct (status_cut ids p1 0) as (k & Hc & _ & Hid & _); [by etransitivity; [|etransitivity]|].
    fold (status_after p1) in *. destruct Hid as [|Hid]; [by left|right]. split; [done|]. exists k. split; [done|].
    transitivity (ws_Completed (status_after p1)); [lia|]. apply completed_grows. by etransitivity.
  - intros k id Hid Hk. destruct (lookup_lt_is_Some_2 ids (S k) Hk) as [id' Hid'].
    assert (Hsplit : ids = take k ids ++ id :: id' :: drop (S (S k)) ids).
    { rewrite <- (take_drop k ids) at 1. f_equal. by rewrite (drop_S _ _ _ Hid), (drop_S _ _ _ Hid'). }
    assert (Hsteps : steps (executions ids) = steps (executions (take k ids)) ++ jobStarted id ++ jobFinished ++
      jobStarted id' ++ jobFinished ++ steps (executions (drop (S (S k)) ids))).
    { rewrite Hsplit at 1. unfold steps, executions. by rewrite !bind_app. }
    set (q := steps (executions (take k ids))) in *.
    exists (q ++ jobStarted id), (q ++ jobStarted id ++ jobFinished ++ [StoreBusy true]).
    rewrite Hsteps. split; [|split].
    + rewrite app_assoc. by eexists.
    + exists (SetJob id' :: jobFinished ++ steps (executions (drop (S (S k)) ids))). by rewrite <- !app_assoc.
    + rewrite !status_after_app. subst q. rewrite status_after_executions, length_take.
      unfold statusFn. simpl. f_equal. lia.
Qed.

(** ** The consumer's configuration *)
(** The brokers of the consumer may contain blanks, which those of [Load] do not; the
    checks of [NewConsumer] never refuse it. *)
Lemma consumer_starts Getenv cfg dsn :
  consumerConfig Getenv = Some (cfg, dsn) → checkConsumer cfg true = None ∧ dsn ≠ "".
Proof.
  unfold consumerConfig, mustEnv. case_bool_decide; [done|]. intros [= <- <-]. split; [|done].
  unfold checkConsumer. cbn [cc_Brokers cc_GroupID negb]. rewrite bool_decide_eq_false_2.
  2: { intros E%fmap_nil_inv. by apply Split_not_nil in E. }
  unfold envOr. destruct (bool_decide (Getenv "CONSUMER_GROUP_ID" ≠ "")) eqn:E; [|done].
  apply bool_decide_eq_true in E. by rewrite bool_decide_eq_false_2.
Qed.

Example consumer_blank_broker :
  cc_Brokers <$> (fst <$> consumerConfig (λ k,
    if bool_decide (k = "TIMESCALE_DSN") then "postgres://db" else if bool_decide (k = "REDPANDA_BROKERS") then "a:1, ,b:2" else ""))
  = Some ["a:1"; ""; "b:2"].
Proof. by vm_compute. Qed.
