(* ===== verification/Boot.v ===== *)
(** * Boot: the lives of the processes ([cmd/*/main.go])

    A process is what it does, in order, with the calls it has deferred. A return from
    [main] runs them, the last one first; [os.Exit] does not run them. What the operating
    system, Docker, the broker and the databases answer is an argument. *)

From S2P Require Import Prelude Models GoStrings Strconv GoTime JsonString Queue Redpanda Submission.
From S2P Require Import Telemetry Config.
From S2P Require Import Executor Server Sandbox Consumer Worker Timescale Commands Codec Wire Pipeline.

(** ** Processes *)
Section process.
Context {Act : Type}.

Record process := mkProcess { pc_done : list Act; pc_deferred : list Act }.

Inductive progress (A : Type) := Goes (a : A) | Exits (code : Z).
Arguments Goes {A} a.
Arguments Exits {A} code.

Definition P (A : Type) : Type := process → progress A * process.

#[export] Instance P_ret : MRet P := λ A a p, (Goes a, p).
#[export] Instance P_bind : MBind P := λ A B k m p,
  match m p with (Goes a, p) => k a p | (Exits code, p) => (Exits code, p) end.

Definition does (a : Act) : P unit := λ p, (Goes (), mkProcess (pc_done p ++ [a]) (pc_deferred p)).
Definition defers (a : Act) : P unit := λ p, (Goes (), mkProcess (pc_done p) (a :: pc_deferred p)).
Definition exit (code : Z) : P unit := λ p, (Exits code, p).

(** A step that may fail, which ends the process. *)
Definition must (a : Act) (e : option string) : P unit :=
  _ ← does a; match e with None => mret () | Some _ => exit 1 end.

(** What a process does in its life, and its exit code. *)
Definition life (main : P unit) : list Act * Z :=
  match main (mkProcess [] []) with
  | (Goes _, p) => (pc_done p ++ pc_deferred p, 0)
  | (Exits code, p) => (pc_done p, code)
  end.
End process.
Arguments process : clear implicits.
Arguments P : clear implicits.

(** The steps of a process, one after the other. *)
Ltac run_process := cbv [mbind P_bind mret P_ret must does defers exit pc_done pc_deferred app].

Definition is_err {E A} (r : result E A) : option E := match r with Err e => Some e | Ok _ => None end.

(** ** The control plane ([cmd/server/main.go]) *)
(** What the wiring makes of the services: whether uploads are deployed in the process,
    are queued, are checked against a contest, and whether workers may report. *)
Record server_wiring := mkWiring {
  sw_docker : bool;
  sw_queue : bool;
  sw_contestChecks : bool;
  sw_orchestrator : bool;
  sw_contests : store_choice
}.

Inductive server_act :=
| SMkdir | SConnectDocker | SPruneStale | SVerifyImages | SNewQueue | SBootstrapQueue | SStartScraper
| SOpenContests (c : store_choice) | SStartWatcher | SStartAutoClose | SListen (w : server_wiring)
| SShutdownHTTP | SClosePostgres
| SStartCancel | SCloseQueue | SCancelScraper | SCancelWatcher | SCancelAutoClose | SShutdownCancel.

Record server_env := mkServerEnv {
  se_mkdir : option string;
  se_docker : option string;
  se_imagePresent : string → bool;
  se_client : option string;
  se_ping : option string;
  se_create : Z → Z → string → result string (list (string * Redpanda.create_result));
  se_postgres : bool;
  (** How the listener ends before a signal comes. *)
  se_listen : option string
}.

Definition serverQueue (cfg : Config) : Redpanda.RedpandaConfig :=
  Redpanda.mkRedpandaConfig (cfg_RedpandaBrokers cfg) 4 1 true.

Definition serverWiring (cfg : Config) (c : store_choice) : server_wiring :=
  mkWiring (negb (cfg_DistributedMode cfg)) (cfg_DistributedMode cfg)
    (negb (bool_decide (cfg_AdminAPIKey cfg = ""))) (cfg_DistributedMode cfg) c.

Definition serverDocker (cfg : Config) (ev : server_env) : P server_act unit :=
  if cfg_DistributedMode cfg then mret ()
  else
    _ ← must SConnectDocker (se_docker ev);
    _ ← does SPruneStale;
    must SVerifyImages (if (VerifyImages (se_imagePresent ev) (cfg_Images cfg)).2 then Some "no image" else None).

Definition serverJobs (cfg : Config) (ev : server_env) : P server_act unit :=
  if cfg_DistributedMode cfg then
    _ ← must SNewQueue (is_err (newClients (serverQueue cfg) (se_client ev) None));
    _ ← defers SCloseQueue;
    _ ← must SBootstrapQueue (rpBootstrap (serverQueue cfg) (se_ping ev) (se_create ev));
    _ ← does SStartScraper;
    defers SCancelScraper
  else mret ().

Definition server_main (cfg : Config) (ev : server_env) : P server_act unit :=
  _ ← must SMkdir (se_mkdir ev);
  _ ← defers SStartCancel;
  _ ← serverDocker cfg ev;
  _ ← serverJobs cfg ev;
  let contests := buildContestStore (cfg_DistributedMode cfg) (cfg_PostgresDSN cfg) (se_postgres ev) in
  _ ← does (SOpenContests contests);
  _ ← does SStartWatcher;
  _ ← defers SCancelWatcher;
  _ ← does SStartAutoClose;
  _ ← defers SCancelAutoClose;
  _ ← does (SListen (serverWiring cfg contests));
  match se_listen ev with
  | Some _ => exit 1
  | None =>
      _ ← defers SShutdownCancel;
      _ ← does SShutdownHTTP;
      match contests with ChoosePostgres => does SClosePostgres | ChooseMemory => mret () end
  end.

(** ** The worker ([cmd/worker/main.go]) *)
Inductive worker_act :=
| WMkdir | WConnectDocker | WVerifyImages | WNewQueue | WBootstrapQueue | WServeMetrics | WNewEmitter
| WBootstrapTelemetry | WHeartbeat (workerID url : string) | WNewWorker (x : SandboxExecutor) | WRun (cfg : WorkerConfig)
| WStop | WStartCancel | WCloseQueue | WCloseEmitter.

Record worker_env := mkWorkerEnv {
  we_mkdir : option string;
  we_docker : option string;
  we_producer : option string;
  we_consumer : option string;
  we_ping : option string;
  we_create : Z → Z → string → result string (list (string * Redpanda.create_result));
  we_emitter : option string;
  we_emitterPing : option string;
  we_topics : result string (gset string);
  we_createTopics : list string → result string (list (string * Telemetry.create_result))
}.

Definition worker_main (cfg : Config) (ev : worker_env) : P worker_act unit :=
  _ ← defers WStop;
  _ ← must WMkdir (we_mkdir ev);
  _ ← must WConnectDocker (we_docker ev);
  _ ← defers WStartCancel;
  _ ← does WVerifyImages;
  _ ← must WNewQueue (is_err (newClients (workerQueue cfg) (we_producer ev) (we_consumer ev)));
  _ ← defers WCloseQueue;
  _ ← must WBootstrapQueue (rpBootstrap (workerQueue cfg) (we_ping ev) (we_create ev));
  _ ← does WServeMetrics;
  _ ← must WNewEmitter (is_err (NewRedpandaEmitter (workerEmitter cfg) (we_emitter ev)));
  _ ← defers WCloseEmitter;
  _ ← must WBootstrapTelemetry (emitter_Bootstrap (we_emitterPing ev) (we_topics ev) (we_createTopics ev));
  _ ← does (WHeartbeat (cfg_WorkerID cfg) (cfg_OrchestratorURL cfg));
  _ ← does (WNewWorker (workerExecutor cfg));
  match NewWorker true true true (workerConfig cfg) with
  | Err _ => exit 1
  | Ok w => does (WRun w)
  end.

(** ** The consumer ([cmd/consumer/main.go]) *)
Inductive consumer_act :=
| CReadConfig | CConnect (dsn : string) | CBootstrap | CServeMetrics | CNewConsumer (cfg : ConsumerConfig) | CRun
| CCancel | CCloseStore | CCloseConsumer.

Record consumer_env := mkConsumerEnv {
  ce_parse : option string;
  ce_open : option string;
  ce_ping : option string;
  ce_begin : option string;
  ce_statement : statement → option string;
  ce_commit : commit_result;
  ce_client : option string;
  ce_run : option string
}.

Definition consumer_main (Getenv : string → string) (ev : consumer_env) (d : database) : P consumer_act unit :=
  _ ← does CReadConfig;
  match consumerConfig Getenv with
  | None => exit 1
  | Some (cfg, dsn) =>
      _ ← defers CCancel;
      _ ← must (CConnect dsn) (NewTimescaleStore (ce_parse ev) (ce_open ev) (ce_ping ev)).1;
      _ ← defers CCloseStore;
      _ ← must CBootstrap (Bootstrap (ce_begin ev) (ce_statement ev) (ce_commit ev) d).1;
      _ ← does CServeMetrics;
      _ ← must (CNewConsumer cfg)
            (match checkConsumer cfg true with Some e => Some e | None => ce_client ev end);
      _ ← defers CCloseConsumer;
      must CRun (ce_run ev)
  end.

(** ** The tools *)
(** [sumWatermark]: the end offsets of the partitions that answered. *)
Definition sumWatermark (client : option string) (offsets : result string (list listed_offset)) : result string Z :=
  match client with
  | Some e => Err e
  | None =>
      let! offsets := offsets in
      Ok (fold_left (λ total o, if lo_Err o then total else i64 (total + lo_Offset o)) offsets 0)
  end.

(** [smokecheck] with its arguments: what it prints, and its exit code. *)
Definition smokecheck (args : list string) (watermark : result string Z) : string * Z :=
  match args with
  | _ :: command :: args =>
      match watermark with
      | Err _ => ("", 1)
      | Ok total =>
          if bool_decide (command = "watermark") then (pretty total +:+ newline, 0)
          else if bool_decide (command = "verify") then
            match args with
            | [] => ("", 2)
            | before :: _ =>
                match ParseInt before with
                | None => ("", 2)
                | Some before =>
                    let delta := i64 (total - before) in
                    ("before=" +:+ pretty before +:+ " after=" +:+ pretty total +:+ " delta=" +:+ pretty delta +:+ newline,
                     if 0 <? delta then 0 else 1)
                end
            end
          else ("", 2)
      end
  | _ => ("", 2)
  end.

(** [telemetry-demo]: its events, and its lines and exit code. *)
Definition demoEvents (now : time) : list Event :=
  let event kind n order latency meta := mkTelemetryEvent kind "demo-sub-001" (now + n * Millisecond) order latency meta in
  [event KindOrderAck 0 "ord-001" 98000 {["side" := "buy"; "qty" := "100"]};
   event KindOrderAck 1 "ord-002" 143000 {["side" := "sell"; "qty" := "50"]};
   event KindFill 2 "ord-001" 210000 {["fill_qty" := "100"; "fill_price" := "99.50"]};
   event KindCancelAck 3 "ord-002" 55000 ∅;
   event KindReject 4 "ord-003" 31000 {["reason" := "price_out_of_range"]};
   event KindHeartbeat 5 "" 0 ∅].

Fixpoint emitDemo (events : list Event) (lines : list string) : list string * Z :=
  match events with
  | [] => (lines, 0)
  | e :: events =>
      match out_Emit (EncodeLine eventCodec) e lines with
      | (Some _, lines) => (lines, 1)
      | (None, lines) => emitDemo events lines
      end
  end.

Definition telemetry_demo (now : time) : list string * Z := emitDemo (demoEvents now) [].

(** The [main.go] at the root. *)
Definition root_main : string * Z :=
  ("Run `go run ./cmd/server` to start the control plane." +:+ newline +:+ "Or: docker compose up --build" +:+ newline, 1).

(** ** The life of the control plane *)
Definition serverContests (cfg : Config) (ev : server_env) : store_choice :=
  buildContestStore (cfg_DistributedMode cfg) (cfg_PostgresDSN cfg) (se_postgres ev).

(** From the start to the first request, and from the signal to the end. *)
Definition server_setup (cfg : Config) (c : store_choice) : list server_act :=
  [SMkdir] ++
  (if cfg_DistributedMode cfg then [SNewQueue; SBootstrapQueue; SStartScraper]
   else [SConnectDocker; SPruneStale; SVerifyImages]) ++
  [SOpenContests c; SStartWatcher; SStartAutoClose; SListen (serverWiring cfg c)].

Definition server_shutdown (cfg : Config) (c : store_choice) : list server_act :=
  [SShutdownHTTP] ++ match c with ChoosePostgres => [SClosePostgres] | ChooseMemory => [] end ++
  [SShutdownCancel; SCancelAutoClose; SCancelWatcher] ++
  (if cfg_DistributedMode cfg then [SCancelScraper; SCloseQueue] else []) ++ [SStartCancel].

Definition listening (tr : list server_act) : bool :=
  existsb (λ a, match a with SListen _ => true | _ => false end) tr.

(** What has to be there: the directory, and the jobs topic or Docker with an image. *)
Definition server_ready (cfg : Config) (ev : server_env) : Prop :=
  se_mkdir ev = None ∧
  if cfg_DistributedMode cfg
  then cfg_RedpandaBrokers cfg ≠ [] ∧ se_client ev = None ∧
       rpBootstrap (serverQueue cfg) (se_ping ev) (se_create ev) = None
  else se_docker ev = None ∧ ∃ l image, (l, image) ∈ AllImages (cfg_Images cfg) ∧ se_imagePresent ev image = true.

Lemma newClients_producer cfg e :
  is_err (newClients (serverQueue cfg) e None) = None ↔ cfg_RedpandaBrokers cfg ≠ [] ∧ e = None.
Proof.
  unfold newClients. simpl. case_bool_decide; [naive_solver|]. destruct e; naive_solver.
Qed.

Lemma filter_all {A} (Q : A → Prop) `{!∀ x, Decision (Q x)} l : Forall Q l → filter Q l = l.
Proof. induction 1 as [|x l Hx _ IH]; [done|]. by rewrite filter_cons, decide_True, IH. Qed.

(** Only when every image is missing does the check fail. *)
Lemma VerifyImages_some present images :
  (VerifyImages present images).2 = false ↔ ∃ l image, (l, image) ∈ AllImages images ∧ present image = true.
Proof.
  unfold VerifyImages. cbn [snd]. rewrite bool_decide_eq_false, length_fmap. split.
  - intros Hlen. assert (¬ Forall (λ li, present li.2 = false) (AllImages images)) as Hall.
    { intros Hf. apply Hlen. by rewrite filter_all. }
    apply not_Forall_Exists in Hall; [|intros ?; apply _].
    apply Exists_exists in Hall as ([l image] & Hin & Hp). exists l, image. split; [done|].
    simpl in Hp. by destruct (present image).
  - intros (l & image & Hin & Hp) Hlen.
    enough (length (filter (λ li, present li.2 = false) (AllImages images)) < length (AllImages images))%nat by lia.
    eapply length_filter_lt; [exact Hin|]. simpl. by rewrite Hp.
Qed.

(** C26: The control plane takes requests only when it is ready: with its directory, and
    in distributed mode with the jobs topic, otherwise with Docker and an image. It ends
    with code 0 exactly when it was ready and a signal came; then everything it started
    is stopped, the loops and the queue in the opposite order, with the contest database
    closed before the loops that read it. Any failure before ends it at that point with
    code 1, and nothing deferred is run. *)
Theorem server_life cfg ev :
  let c := serverContests cfg ev in
  let '(tr, code) := life (server_main cfg ev) in
  (code = 0 ∧ server_ready cfg ev ∧ se_listen ev = None ∧ tr = server_setup cfg c ++ server_shutdown cfg c) ∨
  (code = 1 ∧ tr `prefix_of` server_setup cfg c ∧ (listening tr = true ↔ server_ready cfg ev) ∧
   (server_ready cfg ev → se_listen ev ≠ None)).
Proof.
  cbv zeta. unfold server_ready. pose proof (newClients_producer cfg (se_client ev)) as Hc.
  unfold life, server_main, serverDocker, serverJobs, server_setup, server_shutdown. fold (serverContests cfg ev).
  generalize (serverContests cfg ev). intros c. run_process.
  destruct (se_mkdir ev); [|destruct (cfg_DistributedMode cfg)].
  - right. split_and!; [done|by eexists|naive_solver|naive_solver].
  - destruct (is_err (newClients _ _ _)).
    { right. split_and!; [done|by eexists|naive_solver|naive_solver]. }
    destruct (rpBootstrap _ _ _).
    { right. split_and!; [done|by eexists|naive_solver|naive_solver]. }
    destruct (se_listen ev).
    { right. split_and!; [done|by eexists|naive_solver|naive_solver]. }
    destruct c; left; (split; [done|]; split; [tauto|]; by split).
  - pose proof (VerifyImages_some (se_imagePresent ev) (cfg_Images cfg)) as Hv. revert Hv.
    generalize (∃ l image, (l, image) ∈ AllImages (cfg_Images cfg) ∧ se_imagePresent ev image = true). intros Q Hv.
    destruct (se_docker ev).
    { right. split_and!; [done|by eexists|naive_solver|naive_solver]. }
    destruct (VerifyImages _ _).2.
    { right. split_and!; [done|by eexists|naive_solver|naive_solver]. }
    destruct (se_listen ev).
    { right. split_and!; [done|by eexists|naive_solver|naive_solver]. }
    destruct c; left; (split; [done|]; split; [tauto|]; by split).
Qed.

(** ** The lives of the worker and the consumer *)
Definition worker_setup (cfg : Config) : list worker_act :=
  [WMkdir; WConnectDocker; WVerifyImages; WNewQueue; WBootstrapQueue; WServeMetrics; WNewEmitter;
   WBootstrapTelemetry; WHeartbeat (cfg_WorkerID cfg) (cfg_OrchestratorURL cfg); WNewWorker (workerExecutor cfg);
   WRun (mkWorkerConfig
     (if bool_decide (cfg_WorkerID cfg = "") then "worker-unknown" else cfg_WorkerID cfg)
     (if cfg_JobTimeout cfg =? 0 then wc_JobTimeout DefaultWorkerConfig else cfg_JobTimeout cfg))].

Definition worker_ready (cfg : Config) (ev : worker_env) : Prop :=
  we_mkdir ev = None ∧ we_docker ev = None ∧
  is_err (newClients (workerQueue cfg) (we_producer ev) (we_consumer ev)) = None ∧
  rpBootstrap (workerQueue cfg) (we_ping ev) (we_create ev) = None ∧
  is_err (NewRedpandaEmitter (workerEmitter cfg) (we_emitter ev)) = None ∧
  emitter_Bootstrap (we_emitterPing ev) (we_topics ev) (we_createTopics ev) = None.

Definition polling (tr : list worker_act) : bool :=
  existsb (λ a, match a with WRun _ => true | _ => false end) tr.

(** A worker polls for jobs exactly when Docker, the queue with its topic and the emitter
    with its topics are there, after its heartbeat has started; images it does not have
    do not stop it. When it stops, the telemetry is flushed before the queue is closed.
    A failure before ends it with code 1, and nothing deferred is run. *)
Theorem worker_life cfg ev :
  let '(tr, code) := life (worker_main cfg ev) in
  (code = 0 ∧ worker_ready cfg ev ∧ tr = worker_setup cfg ++ [WCloseEmitter; WCloseQueue; WStartCancel; WStop]) ∨
  (code = 1 ∧ ¬ worker_ready cfg ev ∧ tr `prefix_of` worker_setup cfg ∧ polling tr = false).
Proof.
  unfold life, worker_main, worker_setup, worker_ready. run_process.
  destruct (we_mkdir ev); [by right; split_and!; [..|by eexists|]; naive_solver|].
  destruct (we_docker ev); [by right; split_and!; [..|by eexists|]; naive_solver|].
  destruct (is_err (newClients _ _ _)); [by right; split_and!; [..|by eexists|]; naive_solver|].
  destruct (rpBootstrap _ _ _); [by right; split_and!; [..|by eexists|]; naive_solver|].
  destruct (is_err (NewRedpandaEmitter _ _)); [by right; split_and!; [..|by eexists|]; naive_solver|].
  destruct (emitter_Bootstrap _ _ _); [by right; split_and!; [..|by eexists|]; naive_solver|].
  left. by split_and!.
Qed.

Definition consuming (tr : list consumer_act) : bool :=
  existsb (λ a, match a with CRun => true | _ => false end) tr.
Definition closing (tr : list consumer_act) : bool :=
  existsb (λ a, match a with CCancel | CCloseStore | CCloseConsumer => true | _ => false end) tr.

(** The consumer reads only into a migrated table, and closes the client before the
    store; an error of the run ends it without closing either. *)
Theorem consumer_life Getenv ev d :
  let '(tr, code) := life (consumer_main Getenv ev d) in
  (consuming tr = true → (Bootstrap (ce_begin ev) (ce_statement ev) (ce_commit ev) d).1 = None) ∧
  (code = 0 ∧ ce_run ev = None ∧ (∃ before, tr = before ++ [CRun; CCloseConsumer; CCloseStore; CCancel]) ∨
   code = 1 ∧ closing tr = false).
Proof.
  unfold life, consumer_main. destruct (consumerConfig Getenv) as [[cfg dsn]|]; [|by split; [|right]].
  destruct (NewTimescaleStore _ _ _).1; [by split; [|right]|].
  destruct (Bootstrap _ _ _ _).1; [by split; [|right]|].
  destruct (match checkConsumer cfg true with Some e => Some e | None => _ end); [by split; [|right]|].
  destruct (ce_run ev); (split; [done|]); [by right|left].
  split; [done|]. split; [done|]. by exists [CReadConfig; CConnect dsn; CBootstrap; CServeMetrics; CNewConsumer cfg].
Qed.

(** ** The tools *)
Lemma smokecheck_verify before total n :
  ParseInt before = Some n → 0 ≤ n → 0 ≤ total ≤ int64_max →
  (smokecheck ["smokecheck"; "verify"; before] (Ok total)).2 = 0 ↔ n < total.
Proof.
  intros Hn H0 Ht. unfold smokecheck. rewrite bool_decide_eq_false_2, bool_decide_eq_true_2 by done. rewrite Hn.
  pose proof (ParseInt_int64 _ _ Hn). rewrite i64_id by solve_int64. cbn [snd].
  destruct (Z.ltb_spec 0 (total - n)); split; (done || lia).
Qed.

Lemma emitDemo_ok events lines :
  Forall (λ e, Validate e = None ∧ c_ok eventCodec e) events →
  ∃ ls, emitDemo events lines = (lines ++ ls, 0) ∧ Unmarshal eventCodec <$> ls = Some <$> events.
Proof.
  intros He. revert lines. induction He as [|e events [Hv Hok] _ IH]; intros lines; [exists []; by rewrite app_nil_r|].
  destruct (EncodeLine_read eventCodec e Hok) as (s & Hs & Hu & _). simpl. unfold out_Emit. rewrite Hv, Hs.
  destruct (IH (lines ++ [s])) as (ls & -> & Hls). exists (s :: ls). rewrite <- app_assoc. split; [done|].
  by rewrite !fmap_cons, Hu, Hls.
Qed.

(** The demonstration prints its six events, each a line that reads back. *)
Theorem telemetry_demo_reads now :
  (∀ n, 0 ≤ n ≤ 5 → zero_time < now + n * Millisecond ∧ in_years (now + n * Millisecond)) →
  ∃ lines, telemetry_demo now = (lines, 0) ∧ Unmarshal eventCodec <$> lines = Some <$> demoEvents now.
Proof.
  intros Hy. apply (emitDemo_ok (demoEvents now) []).
  assert (∀ kind n order latency meta, isKnownKind kind = true → utf8 kind = true → 0 ≤ n ≤ 5 → utf8 order = true →
    (kind = KindHeartbeat ∨ order ≠ "") → 0 ≤ latency ≤ int64_max →
    map_Forall (λ k s, utf8 k = true ∧ utf8 s = true) meta →
    let e := mkTelemetryEvent kind "demo-sub-001" (now + n * Millisecond) order latency meta in
    Validate e = None ∧ c_ok eventCodec e) as H.
  { intros kind n order latency meta Hk Hu Hn Ho Hh Hl Hm e. destruct (Hy n Hn) as [Hz Hiy]. split.
    - unfold Validate, e. simpl. rewrite Hk, bool_decide_eq_false_2 by (intros ->; done).
      rewrite (proj2 (Z.eqb_neq _ _)) by lia. rewrite (proj2 (Z.ltb_ge _ _)) by lia.
      destruct Hh as [->|Hne]; [done|]. by rewrite (bool_decide_eq_false_2 (order = "")), andb_false_r.
    - apply event_ok; try assumption; [reflexivity|simpl; solve_int64]. }
  repeat (apply Forall_cons; split; [apply H; first [done|lia|by left|by right|solve_int64|idtac]|]); try apply Forall_nil_2.
  all: repeat apply map_Forall_insert_2; try done.
Qed.
